(** * Block request layer and buffer cache: a shallow embedding

    The definitions follow [drivers/block/ll_rw_blk.c] and [fs/buffer.c]
    function by function.  C structures become records, in-place updates
    become explicit state passing, pointers become addresses into a heap,
    and [BUG()] becomes a distinguished fatal outcome. *)

From stdpp Require Import base list.
From Stdlib Require Import ZArith Lia.

Local Open Scope Z_scope.

(** ** Kernel primitives shared by both files *)

Module Kernel.

(** Data direction, the [rw] argument ([READ] is 0 and [WRITE] is 1). *)
Inductive rw_t := READ | WRITE.

Definition rw_eqb (a b : rw_t) : bool :=
  match a, b with
  | READ, READ | WRITE, WRITE => true
  | _, _ => false
  end.

Definition other_rw (rw : rw_t) : rw_t :=
  match rw with READ => WRITE | WRITE => READ end.

(** A two-element array indexed by direction, such as [count[2]]. *)
Record rw_array (A : Type) := RwArray { at_READ : A; at_WRITE : A }.
Arguments RwArray {A} _ _.
Arguments at_READ {A} _.
Arguments at_WRITE {A} _.

Definition rw_get {A} (a : rw_array A) (rw : rw_t) : A :=
  match rw with READ => at_READ a | WRITE => at_WRITE a end.

Definition rw_set {A} (a : rw_array A) (rw : rw_t) (x : A) : rw_array A :=
  match rw with
  | READ => RwArray x (at_WRITE a)
  | WRITE => RwArray (at_READ a) x
  end.

(** Modelled from the spec: the single-bit operations on a flag word are
    those of asm/bitops.h, which is not among the sources. *)
Definition test_bit (nr : Z) (w : Z) : bool := Z.testbit w nr.
Definition set_bit (nr : Z) (w : Z) : Z := Z.setbit w nr.
Definition clear_bit (nr : Z) (w : Z) : Z := Z.clearbit w nr.

(** Wait queues.  An entry records the sleeping task and whether it was
    queued by [prepare_to_wait_exclusive]. *)
Record wait_queue_t := WaitEntry { wq_task : nat; wq_exclusive : bool }.
Definition wait_queue_head_t := list wait_queue_t.

Definition waitqueue_active (wqh : wait_queue_head_t) : bool :=
  match wqh with [] => false | _ :: _ => true end.

(** [prepare_to_wait] queues at the head, the exclusive variant at the
    tail (kernel/fork.c). *)
Definition prepare_to_wait (wqh : wait_queue_head_t) (task : nat)
  : wait_queue_head_t := WaitEntry task false :: wqh.

Definition prepare_to_wait_exclusive (wqh : wait_queue_head_t) (task : nat)
  : wait_queue_head_t := wqh ++ [WaitEntry task true].

(** Modelled from the spec: the scheduler's wake-up walk is not among the
    sources.  Every entry visited is woken and, its wake function being
    [autoremove_wake_function], unlinked; the walk stops after
    [nr_exclusive] exclusive entries ("wakes one waiter per freed
    slot").  The result is the remaining queue and the tasks woken. *)
Fixpoint __wake_up_common (wqh : wait_queue_head_t) (nr_exclusive : Z)
  : wait_queue_head_t * list nat :=
  match wqh with
  | [] => ([], [])
  | w :: rest =>
      if wq_exclusive w && (nr_exclusive - 1 =? 0) then (rest, [wq_task w])
      else
        let '(rest', woken) :=
          __wake_up_common rest
            (if wq_exclusive w then nr_exclusive - 1 else nr_exclusive) in
        (rest', wq_task w :: woken)
  end.

Definition wake_up (wqh : wait_queue_head_t) : wait_queue_head_t * list nat :=
  __wake_up_common wqh 1.

(** Modelled from the spec: [time_before] is a macro of
    include/linux/jiffies.h, which is not among the sources.  On 32-bit
    [unsigned long] jiffies it is [(long)(a) - (long)(b) < 0] with
    wrap-around, the "bounded time window" of a batch. *)
Definition BITS_PER_LONG : Z := 32.

Definition to_long (z : Z) : Z :=
  (z + 2 ^ (BITS_PER_LONG - 1)) mod 2 ^ BITS_PER_LONG - 2 ^ (BITS_PER_LONG - 1).

Definition time_before (a b : Z) : bool := to_long (a - b) <? 0.

(** An [int] has 32 bits: the value it holds when a wider or an unsigned
    value is stored in it. *)
Definition to_int (z : Z) : Z := (z + 2 ^ 31) mod 2 ^ 32 - 2 ^ 31.

(** Outcomes of code that can hit [BUG()]. *)

(** [Bug] is the fatal [BUG()] / [BUG_ON()] trap; [Fault] is a dereference
    of a pointer the code assumes to be valid. *)
Inductive outcome (A : Type) :=
| Ok (a : A)
| Bug
| Fault.
Arguments Ok {A} _.
Arguments Bug {A}.
Arguments Fault {A}.

#[export] Instance outcome_bind : MBind outcome :=
  fun A B (k : A -> outcome B) (m : outcome A) =>
    match m with
    | Ok a => k a
    | Bug => Bug
    | Fault => Fault
    end.

End Kernel.

(** ** drivers/block/ll_rw_blk.c: data model *)

Module LlRwBlk.
Import Kernel.

(** Amount of time in which a process may batch requests, and the number
    of requests a batching process may submit. *)
Definition BLK_BATCH_TIME (HZ : Z) : Z := HZ ÷ 50.
Definition BLK_BATCH_REQ : Z := 32.

(** Modelled from the spec: the request flag bits are an enum of
    include/linux/blkdev.h, which is not among the sources; they are
    numbered in the order of the [rq_flags] name table. *)
Definition __REQ_RW : Z := 0.
Definition __REQ_FAILFAST : Z := 1.
Definition __REQ_SOFTBARRIER : Z := 2.
Definition __REQ_HARDBARRIER : Z := 3.
Definition __REQ_CMD : Z := 4.
Definition __REQ_NOMERGE : Z := 5.
Definition __REQ_STARTED : Z := 6.
Definition __REQ_DONTPREP : Z := 7.
Definition __REQ_QUEUED : Z := 8.

Definition REQ_RW : Z := Z.shiftl 1 __REQ_RW.
Definition REQ_SOFTBARRIER : Z := Z.shiftl 1 __REQ_SOFTBARRIER.
Definition REQ_HARDBARRIER : Z := Z.shiftl 1 __REQ_HARDBARRIER.
Definition REQ_CMD : Z := Z.shiftl 1 __REQ_CMD.
Definition REQ_NOMERGE : Z := Z.shiftl 1 __REQ_NOMERGE.
Definition REQ_STARTED : Z := Z.shiftl 1 __REQ_STARTED.
Definition REQ_QUEUED : Z := Z.shiftl 1 __REQ_QUEUED.

(** Modelled from the spec: the queue flag bits, the backing-device state
    bits and the request status values are declared in
    include/linux/blkdev.h and include/linux/backing-dev.h, which are not
    among the sources. *)
Definition QUEUE_FLAG_CLUSTER : Z := 0.
Definition QUEUE_FLAG_STOPPED : Z := 2.
Definition QUEUE_FLAG_READFULL : Z := 3.
Definition QUEUE_FLAG_WRITEFULL : Z := 4.
Definition QUEUE_FLAG_DEAD : Z := 5.

Definition BDI_pdflush : Z := 0.
Definition BDI_write_congested : Z := 1.
Definition BDI_read_congested : Z := 2.

Definition RQ_INACTIVE : Z := -1.
Definition RQ_ACTIVE : Z := 1.

(** The fields of [struct bio] the merge code reads.  The segment counts
    are the cached [bi_phys_segments] and [bi_hw_segments]. *)
Record bio := Bio {
  bi_sector : Z;
  bi_size : Z;
  bi_rw : Z;
  bi_phys_segments : Z;
  bi_hw_segments : Z
}.

(** Which list head a request's [queuelist] node is linked into;
    [Unlinked] is the self-linked node [list_empty] reports. *)
Inductive list_link := Unlinked | OnQueueHead | OnBusyList.

Definition list_empty (l : list_link) : bool :=
  match l with Unlinked => true | _ => false end.

(** [struct request].  The chain [bio .. biotail] is the list
    [bio_chain]; pointer fields that are only tested against NULL keep
    an optional address. *)
Record request := Request {
  flags : Z;
  sector : Z;
  nr_sectors : Z;
  hard_nr_sectors : Z;
  nr_phys_segments : Z;
  nr_hw_segments : Z;
  tag : Z;
  bio_chain : list bio;
  ref_count : Z;
  rq_q : option nat;
  rq_rl : option nat;
  rq_disk : option nat;
  waiting : option nat;
  special : option nat;
  rq_status : Z;
  queuelist : list_link
}.

Definition set_flags (v : Z) (r : request) : request :=
  Request v (sector r) (nr_sectors r) (hard_nr_sectors r)
    (nr_phys_segments r) (nr_hw_segments r) (tag r) (bio_chain r)
    (ref_count r) (rq_q r) (rq_rl r) (rq_disk r) (waiting r) (special r)
    (rq_status r) (queuelist r).

Definition set_nr_phys_segments (v : Z) (r : request) : request :=
  Request (flags r) (sector r) (nr_sectors r) (hard_nr_sectors r)
    v (nr_hw_segments r) (tag r) (bio_chain r)
    (ref_count r) (rq_q r) (rq_rl r) (rq_disk r) (waiting r) (special r)
    (rq_status r) (queuelist r).

Definition set_nr_hw_segments (v : Z) (r : request) : request :=
  Request (flags r) (sector r) (nr_sectors r) (hard_nr_sectors r)
    (nr_phys_segments r) v (tag r) (bio_chain r)
    (ref_count r) (rq_q r) (rq_rl r) (rq_disk r) (waiting r) (special r)
    (rq_status r) (queuelist r).

Definition set_tag (v : Z) (r : request) : request :=
  Request (flags r) (sector r) (nr_sectors r) (hard_nr_sectors r)
    (nr_phys_segments r) (nr_hw_segments r) v (bio_chain r)
    (ref_count r) (rq_q r) (rq_rl r) (rq_disk r) (waiting r) (special r)
    (rq_status r) (queuelist r).

Definition set_ref_count (v : Z) (r : request) : request :=
  Request (flags r) (sector r) (nr_sectors r) (hard_nr_sectors r)
    (nr_phys_segments r) (nr_hw_segments r) (tag r) (bio_chain r)
    v (rq_q r) (rq_rl r) (rq_disk r) (waiting r) (special r)
    (rq_status r) (queuelist r).

Definition set_queuelist (v : list_link) (r : request) : request :=
  Request (flags r) (sector r) (nr_sectors r) (hard_nr_sectors r)
    (nr_phys_segments r) (nr_hw_segments r) (tag r) (bio_chain r)
    (ref_count r) (rq_q r) (rq_rl r) (rq_disk r) (waiting r) (special r)
    (rq_status r) v.

(** [struct blk_queue_tag]: the bitmap is an array of 32-bit words, the
    index maps a tag to the address of the request that owns it. *)
Record blk_queue_tag := QueueTag {
  tag_index : list (option nat);
  tag_map : list Z;
  busy_list : list nat;
  busy : Z;
  max_depth : Z;
  real_max_depth : Z
}.

Record request_list := RequestList {
  count : rw_array Z;
  wait : rw_array wait_queue_head_t
}.

(** [struct request_queue], restricted to the fields used below.
    [bdi_state] is [backing_dev_info.state]; [queue_head] lists the
    addresses of the queued requests in order. *)
Record request_queue := RequestQueue {
  rq : request_list;
  nr_requests : Z;
  queue_flags : Z;
  bdi_state : Z;
  last_merge : option nat;
  max_sectors : Z;
  max_phys_segments : Z;
  max_hw_segments : Z;
  max_segment_size : Z;
  queue_tags : option blk_queue_tag;
  queue_head : list nat
}.

Definition set_rq (v : request_list) (q : request_queue) : request_queue :=
  RequestQueue v (nr_requests q) (queue_flags q) (bdi_state q)
    (last_merge q) (max_sectors q) (max_phys_segments q)
    (max_hw_segments q) (max_segment_size q) (queue_tags q) (queue_head q).

Definition set_queue_flags (v : Z) (q : request_queue) : request_queue :=
  RequestQueue (rq q) (nr_requests q) v (bdi_state q)
    (last_merge q) (max_sectors q) (max_phys_segments q)
    (max_hw_segments q) (max_segment_size q) (queue_tags q) (queue_head q).

Definition set_bdi_state (v : Z) (q : request_queue) : request_queue :=
  RequestQueue (rq q) (nr_requests q) (queue_flags q) v
    (last_merge q) (max_sectors q) (max_phys_segments q)
    (max_hw_segments q) (max_segment_size q) (queue_tags q) (queue_head q).

Definition set_last_merge (v : option nat) (q : request_queue)
  : request_queue :=
  RequestQueue (rq q) (nr_requests q) (queue_flags q) (bdi_state q)
    v (max_sectors q) (max_phys_segments q)
    (max_hw_segments q) (max_segment_size q) (queue_tags q) (queue_head q).

Definition set_queue_tags (v : option blk_queue_tag) (q : request_queue)
  : request_queue :=
  RequestQueue (rq q) (nr_requests q) (queue_flags q) (bdi_state q)
    (last_merge q) (max_sectors q) (max_phys_segments q)
    (max_hw_segments q) (max_segment_size q) v (queue_head q).

Definition set_queue_head (v : list nat) (q : request_queue)
  : request_queue :=
  RequestQueue (rq q) (nr_requests q) (queue_flags q) (bdi_state q)
    (last_merge q) (max_sectors q) (max_phys_segments q)
    (max_hw_segments q) (max_segment_size q) (queue_tags q) v.

(** [struct io_context]: the per-process batching token. *)
Record io_context := IoContext {
  nr_batch_requests : Z;
  last_waited : Z
}.

(** The queue together with the file-scope state the admission code
    touches: the global [congestion_wqh] wait queues, and a log of the
    tasks made runnable by [wake_up]. *)
Record blk_state := BlkState {
  queue : request_queue;
  congestion_wqh : rw_array wait_queue_head_t;
  woken : list nat
}.

Definition set_queue (q : request_queue) (s : blk_state) : blk_state :=
  BlkState q (congestion_wqh s) (woken s).

(** The pluggable I/O scheduler, an interface of optional hooks. *)
Class Elevator := {
  elevator_may_queue_fn : option (request_queue -> rw_t -> bool)
}.

(** Modelled from the spec: elevator.c is not among the sources.  The
    "may admit" congestion override asks the scheduler's hook and
    answers no when the scheduler has none. *)
Definition elv_may_queue `{Elevator} (q : request_queue) (rw : rw_t) : bool :=
  match elevator_may_queue_fn with
  | Some fn => fn q rw
  | None => false
  end.

(** The no-op scheduler has no admission hook. *)
Definition elevator_noop : Elevator := {| elevator_may_queue_fn := None |}.

(** *** Congestion thresholds *)

(** [nr_requests] is an [unsigned long] and the thresholds are built in
    the [int ret]: the sum is stored in an [int], the test
    [ret > q->nr_requests] compares in [unsigned long], and the test
    [ret < 1] compares [int]s. *)
Definition queue_congestion_on_threshold (q : request_queue) : Z :=
  let ret := to_int (nr_requests q - (nr_requests q ÷ 8) + 1) in
  if ret mod 2 ^ BITS_PER_LONG >? nr_requests q
  then to_int (nr_requests q) else ret.

Definition queue_congestion_off_threshold (q : request_queue) : Z :=
  let ret := to_int (nr_requests q - (nr_requests q ÷ 8) - 1) in
  if ret <? 1 then 1 else ret.

Definition congested_bit (rw : rw_t) : Z :=
  match rw with WRITE => BDI_write_congested | READ => BDI_read_congested end.

Definition clear_queue_congested (s : blk_state) (rw : rw_t) : blk_state :=
  let wqh := rw_get (congestion_wqh s) rw in
  let q := set_bdi_state (clear_bit (congested_bit rw) (bdi_state (queue s)))
             (queue s) in
  if waitqueue_active wqh then
    let '(wqh', tasks) := wake_up wqh in
    BlkState q (rw_set (congestion_wqh s) rw wqh') (woken s ++ tasks)
  else BlkState q (congestion_wqh s) (woken s).

Definition set_queue_congested (q : request_queue) (rw : rw_t)
  : request_queue :=
  set_bdi_state (set_bit (congested_bit rw) (bdi_state q)) q.

(** The congestion bit of a direction, as the [bdi_*_congested] tests
    read it. *)
Definition queue_congested (q : request_queue) (rw : rw_t) : bool :=
  test_bit (congested_bit rw) (bdi_state q).

(** Modelled from the spec: the per-direction "full" flag helpers are
    declared in include/linux/blkdev.h, which is not among the sources;
    each direction has its own bit in [queue_flags]. *)
Definition full_bit (rw : rw_t) : Z :=
  match rw with READ => QUEUE_FLAG_READFULL | WRITE => QUEUE_FLAG_WRITEFULL end.

Definition blk_queue_full (q : request_queue) (rw : rw_t) : bool :=
  test_bit (full_bit rw) (queue_flags q).

Definition blk_set_queue_full (q : request_queue) (rw : rw_t) : request_queue :=
  set_queue_flags (set_bit (full_bit rw) (queue_flags q)) q.

Definition blk_clear_queue_full (q : request_queue) (rw : rw_t)
  : request_queue :=
  set_queue_flags (clear_bit (full_bit rw) (queue_flags q)) q.

(** *** Batching *)

Definition ioc_batching (HZ jiffies : Z) (ioc : option io_context) : bool :=
  match ioc with
  | None => false
  | Some c =>
      (nr_batch_requests c =? BLK_BATCH_REQ)
      || ((nr_batch_requests c >? 0)
          && time_before jiffies (last_waited c + BLK_BATCH_TIME HZ))
  end.

(** [ioc->nr_batch_requests--] *)
Definition spend_batch (ioc : option io_context) : option io_context :=
  match ioc with
  | Some c => Some (IoContext (nr_batch_requests c - 1) (last_waited c))
  | None => None
  end.

Definition ioc_set_batching (HZ jiffies : Z) (ioc : option io_context)
  : option io_context :=
  match ioc with
  | None => None
  | Some c =>
      if ioc_batching HZ jiffies ioc then ioc
      else Some (IoContext BLK_BATCH_REQ jiffies)
  end.

(** *** Releasing and allocating a request slot *)

Definition set_count (q : request_queue) (rw : rw_t) (v : Z) : request_queue :=
  set_rq (RequestList (rw_set (count (rq q)) rw v) (wait (rq q))) q.

Definition set_wait (q : request_queue) (rw : rw_t) (v : wait_queue_head_t)
  : request_queue :=
  set_rq (RequestList (count (rq q)) (rw_set (wait (rq q)) rw v)) q.

Definition freed_request (s : blk_state) (rw : rw_t) : blk_state :=
  let s := set_queue
             (set_count (queue s) rw (rw_get (count (rq (queue s))) rw - 1)) s in
  let s := if rw_get (count (rq (queue s))) rw
              <? queue_congestion_off_threshold (queue s)
           then clear_queue_congested s rw else s in
  if rw_get (count (rq (queue s))) rw + 1 <=? nr_requests (queue s) then
    let s :=
      if waitqueue_active (rw_get (wait (rq (queue s))) rw) then
        let '(wqh', tasks) := wake_up (rw_get (wait (rq (queue s))) rw) in
        BlkState (set_wait (queue s) rw wqh') (congestion_wqh s)
          (woken s ++ tasks)
      else s in
    if negb (waitqueue_active (rw_get (wait (rq (queue s))) rw))
    then set_queue (blk_clear_queue_full (queue s) rw) s
    else s
  else s.

(** [blk_alloc_request]: [mempool_alloc] hands out raw request memory or
    NULL, [elv_set_request] returns nonzero on failure. *)
Definition blk_alloc_request (mempool_alloc : option request)
    (elv_set_request : Z) : option request :=
  match mempool_alloc with
  | None => None
  | Some r => if elv_set_request =? 0 then Some r else None
  end.

Definition rw_flag (rw : rw_t) : Z :=
  match rw with READ => 0 | WRITE => 1 end.

Section GetRequest.
Context `{Elevator}.
Variable HZ : Z.

(** [get_request].  [jiffies] is the clock at the time of the call,
    [ioc] what [get_io_context] returned, [qaddr] the address of the
    queue stored in [rq->q]; the result is the request (or NULL), the
    new state and the caller's io context. *)
Definition get_request (s : blk_state) (rw : rw_t) (jiffies : Z)
    (ioc : option io_context) (qaddr : nat)
    (mempool_alloc : option request) (elv_set_request : Z)
  : option request * blk_state * option io_context :=
  let q := queue s in
  let '(q, ioc) :=
    if rw_get (count (rq q)) rw + 1 >=? nr_requests q then
      if negb (blk_queue_full q rw)
      then (blk_set_queue_full q rw, ioc_set_batching HZ jiffies ioc)
      else (q, ioc)
    else (q, ioc) in
  if blk_queue_full q rw && negb (ioc_batching HZ jiffies ioc)
     && negb (elv_may_queue q rw)
  then (None, set_queue q s, ioc)
  else
    let q := set_count q rw (rw_get (count (rq q)) rw + 1) in
    let q := if rw_get (count (rq q)) rw >=? queue_congestion_on_threshold q
             then set_queue_congested q rw else q in
    let s := set_queue q s in
    match blk_alloc_request mempool_alloc elv_set_request with
    | None => (None, freed_request s rw, ioc)
    | Some r =>
        let ioc :=
          if ioc_batching HZ jiffies ioc then spend_batch ioc else ioc in
        (Some (Request (rw_flag rw) (sector r) (nr_sectors r)
                 (hard_nr_sectors r) (nr_phys_segments r)
                 (nr_hw_segments r) (tag r) [] 1 (Some qaddr) (Some qaddr)
                 (rq_disk r) None None RQ_ACTIVE Unlinked),
         s, ioc)
    end.

(** Consecutive allocations by one process: each call comes with the
    clock at its time and the memory the pool hands out. *)
Fixpoint get_requests (s : blk_state) (rw : rw_t) (ioc : option io_context)
    (qaddr : nat) (calls : list (Z * request))
  : list (option request) * blk_state * option io_context :=
  match calls with
  | [] => ([], s, ioc)
  | (jiffies, mem) :: rest =>
      let '(r, s, ioc) := get_request s rw jiffies ioc qaddr (Some mem) 0 in
      let '(rs, s, ioc) := get_requests s rw ioc qaddr rest in
      (r :: rs, s, ioc)
  end.

End GetRequest.

(** *** Merging a bio into a request *)

(** Modelled from the spec: the request-flag predicates are macros of
    include/linux/blkdev.h, which is not among the sources.  A request is
    mergeable when it is a filesystem command carrying none of the
    no-merge, started or barrier flags; its direction is the low flag bit. *)
Definition RQ_NOMERGE_FLAGS : Z :=
  Z.lor (Z.lor REQ_NOMERGE REQ_STARTED) (Z.lor REQ_HARDBARRIER REQ_SOFTBARRIER).

Definition blk_fs_request (r : request) : bool :=
  negb (Z.land (flags r) REQ_CMD =? 0).

Definition rq_mergeable (r : request) : bool :=
  (Z.land (flags r) RQ_NOMERGE_FLAGS =? 0) && blk_fs_request r.

Definition rq_data_dir (r : request) : rw_t :=
  if Z.land (flags r) 1 =? 0 then READ else WRITE.

(** Modelled from the spec: include/linux/bio.h and fs/bio.c are not
    among the sources.  [bio_sectors] is [bi_size >> 9]; the segment
    accessors return the counts cached in the bio, which are taken to be
    valid. *)
Definition bio_sectors (b : bio) : Z := Z.shiftr (bi_size b) 9.
Definition bio_phys_segments (q : request_queue) (b : bio) : Z :=
  bi_phys_segments b.
Definition bio_hw_segments (q : request_queue) (b : bio) : Z :=
  bi_hw_segments b.

(** The architecture's contiguity tests between the last vector entry of
    one bio and the first of the next ([BIOVEC_VIRT_MERGEABLE],
    [BIOVEC_PHYS_MERGEABLE] and [BIO_SEG_BOUNDARY] applied to
    [__BVEC_END] and [__BVEC_START]); their definitions live in
    architecture headers. *)
Class BioVecOps := {
  BIOVEC_VIRT_MERGEABLE : bio -> bio -> bool;
  BIOVEC_PHYS_MERGEABLE : bio -> bio -> bool;
  BIO_SEG_BOUNDARY : request_queue -> bio -> bio -> bool
}.

Section Merge.
Context `{BioVecOps}.

Definition blk_phys_contig_segment (q : request_queue) (b nxt : bio) : bool :=
  if negb (test_bit QUEUE_FLAG_CLUSTER (queue_flags q)) then false
  else if negb (BIOVEC_PHYS_MERGEABLE b nxt) then false
  else if bi_size b + bi_size nxt >? max_segment_size q then false
  else if BIO_SEG_BOUNDARY q b nxt then true
  else false.

Definition blk_hw_contig_segment (q : request_queue) (b nxt : bio) : bool :=
  if negb (test_bit QUEUE_FLAG_CLUSTER (queue_flags q)) then false
  else if negb (BIOVEC_VIRT_MERGEABLE b nxt) then false
  else if bi_size b + bi_size nxt >? max_segment_size q then false
  else if BIO_SEG_BOUNDARY q b nxt then true
  else false.

(** The merge functions return the C result (0 or 1) with the updated
    queue and request. *)
Definition reject_merge (q : request_queue) (req : request)
  : Z * request_queue * request :=
  (0, set_last_merge None q, set_flags (Z.lor (flags req) REQ_NOMERGE) req).

Definition ll_new_mergeable (q : request_queue) (req : request) (b : bio)
  : Z * request_queue * request :=
  let nr_phys_segs := bio_phys_segments q b in
  if nr_phys_segments req + nr_phys_segs >? max_phys_segments q
  then reject_merge q req
  else (1, q, set_nr_phys_segments (nr_phys_segments req + nr_phys_segs) req).

Definition ll_new_hw_segment (q : request_queue) (req : request) (b : bio)
  : Z * request_queue * request :=
  let nr_hw_segs := bio_hw_segments q b in
  let nr_phys_segs := bio_phys_segments q b in
  if (nr_hw_segments req + nr_hw_segs >? max_hw_segments q)
     || (nr_phys_segments req + nr_phys_segs >? max_phys_segments q)
  then reject_merge q req
  else
    (1, q,
     set_nr_phys_segments (nr_phys_segments req + nr_phys_segs)
       (set_nr_hw_segments (nr_hw_segments req + nr_hw_segs) req)).

Definition ll_back_merge_fn (q : request_queue) (req : request) (b : bio)
  : outcome (Z * request_queue * request) :=
  if nr_sectors req + bio_sectors b >? max_sectors q
  then Ok (reject_merge q req)
  else
    match last (bio_chain req) with
    | None => Fault
    | Some biotail =>
        if BIOVEC_VIRT_MERGEABLE biotail b
        then Ok (ll_new_mergeable q req b)
        else Ok (ll_new_hw_segment q req b)
    end.

Definition ll_front_merge_fn (q : request_queue) (req : request) (b : bio)
  : outcome (Z * request_queue * request) :=
  if nr_sectors req + bio_sectors b >? max_sectors q
  then Ok (reject_merge q req)
  else
    match head (bio_chain req) with
    | None => Fault
    | Some first =>
        if BIOVEC_VIRT_MERGEABLE b first
        then Ok (ll_new_mergeable q req b)
        else Ok (ll_new_hw_segment q req b)
    end.

(** *** Coalescing two requests *)

Definition is_null {A} (p : option A) : bool :=
  match p with None => true | Some _ => false end.

(** Returns the C result and the updated [req]. *)
Definition ll_merge_requests_fn (q : request_queue) (req next : request)
  : outcome (Z * request) :=
  if negb (is_null (special req)) || negb (is_null (special next))
  then Ok (0, req)
  else if nr_sectors req + nr_sectors next >? max_sectors q
  then Ok (0, req)
  else
    match last (bio_chain req), head (bio_chain next) with
    | Some biotail, Some nbio =>
        let total_phys_segments :=
          nr_phys_segments req + nr_phys_segments next in
        let total_phys_segments :=
          if blk_phys_contig_segment q biotail nbio
          then total_phys_segments - 1 else total_phys_segments in
        if total_phys_segments >? max_phys_segments q then Ok (0, req)
        else
          let total_hw_segments :=
            nr_hw_segments req + nr_hw_segments next in
          let total_hw_segments :=
            if blk_hw_contig_segment q biotail nbio
            then total_hw_segments - 1 else total_hw_segments in
          if total_hw_segments >? max_hw_segments q then Ok (0, req)
          else
            Ok (1, set_nr_phys_segments total_phys_segments
                     (set_nr_hw_segments total_hw_segments req))
    | _, _ => Fault
    end.

(** [__blk_put_request] with a non-NULL queue: drop one reference and, at
    zero, hand the slot back to the free list.  The scheduler's
    completion hook keeps no state here. *)
Definition __blk_put_request (s : blk_state) (req : request)
  : outcome (blk_state * request) :=
  let rl := rq_rl req in
  let req := set_ref_count (ref_count req - 1) req in
  if negb (ref_count req =? 0) then Ok (s, req)
  else
    let rw := rq_data_dir req in
    let req' :=
      Request (flags req) (sector req) (nr_sectors req) (hard_nr_sectors req)
        (nr_phys_segments req) (nr_hw_segments req) (tag req) (bio_chain req)
        (ref_count req) None None (rq_disk req) (waiting req) (special req)
        RQ_INACTIVE (queuelist req) in
    match rl with
    | None => Ok (s, req')
    | Some _ =>
        if negb (list_empty (queuelist req')) then Bug
        else Ok (freed_request s rw, req')
    end.

(** [blk_put_request] only enters when [req->q] is set. *)
Definition blk_put_request (s : blk_state) (req : request)
  : outcome (blk_state * request) :=
  match rq_q req with
  | Some _ => __blk_put_request s req
  | None => Ok (s, req)
  end.

(** Modelled from the spec: elevator.c is not among the sources.  On a
    coalesce the scheduler drops the absorbed request from its ordered
    set, which unlinks the request's queue node. *)
Definition elv_merge_requests (q : request_queue) (req next : request)
  : request_queue * request * request :=
  (q, req, set_queuelist Unlinked next).

(** [attempt_merge] returns the C result with the state and both
    requests as it leaves them.  The disk statistics it rounds are not
    part of the state. *)
Definition attempt_merge (s : blk_state) (req next : request)
  : outcome (Z * blk_state * request * request) :=
  if negb (rq_mergeable req) || negb (rq_mergeable next)
  then Ok (0, s, req, next)
  else if negb (sector req + nr_sectors req =? sector next)
  then Ok (0, s, req, next)
  else if negb (rw_eqb (rq_data_dir req) (rq_data_dir next))
          || negb (bool_decide (rq_disk req = rq_disk next))
          || negb (is_null (waiting next))
          || negb (is_null (special next))
  then Ok (0, s, req, next)
  else
    '(ret, req) ← ll_merge_requests_fn (queue s) req next;
    if ret =? 0 then Ok (0, s, req, next)
    else
      let hard := hard_nr_sectors req + hard_nr_sectors next in
      let req :=
        Request (flags req) (sector req) hard hard
          (nr_phys_segments req) (nr_hw_segments req) (tag req)
          (bio_chain req ++ bio_chain next)
          (ref_count req) (rq_q req) (rq_rl req) (rq_disk req) (waiting req)
          (special req) (rq_status req) (queuelist req) in
      let '(q, req, next) := elv_merge_requests (queue s) req next in
      '(s, next) ← __blk_put_request (set_queue q s) next;
      Ok (1, s, req, next).

End Merge.

(** *** Tagged command queueing *)

Definition BLK_TAGS_PER_LONG : Z := BITS_PER_LONG.
Definition ULONG_MAX : Z := 2 ^ BITS_PER_LONG - 1.

(** Modelled from the spec: the bitmap operations and [ffz] are those of
    asm/bitops.h, which is not among the sources.  Bit [nr] of a bitmap
    stored as an array of words. *)
Definition map_test_bit (nr : Z) (map : list Z) : bool :=
  match map !! Z.to_nat (nr ÷ BITS_PER_LONG) with
  | Some w => Z.testbit w (nr mod BITS_PER_LONG)
  | None => false
  end.

Definition __set_bit (nr : Z) (map : list Z) : list Z :=
  alter (fun w => Z.lor w (Z.shiftl 1 (nr mod BITS_PER_LONG)))
    (Z.to_nat (nr ÷ BITS_PER_LONG)) map.

Definition __clear_bit (nr : Z) (map : list Z) : list Z :=
  alter (fun w => Z.ldiff w (Z.shiftl 1 (nr mod BITS_PER_LONG)))
    (Z.to_nat (nr ÷ BITS_PER_LONG)) map.

Definition __test_and_clear_bit (nr : Z) (map : list Z) : bool * list Z :=
  (map_test_bit nr map, __clear_bit nr map).

(** [ffz]: index of the first zero bit of a word (the caller makes sure
    there is one). *)
Fixpoint ffz_from (n : nat) (i : Z) (w : Z) : Z :=
  match n with
  | O => i
  | S n' => if Z.testbit w i then ffz_from n' (i + 1) w else i
  end.

Definition ffz (w : Z) : Z := ffz_from (Z.to_nat BITS_PER_LONG) 0 w.

(** The loop [for (i = lo; i < hi; i++) __set_bit(i, map)]. *)
Fixpoint set_bits_from (n : nat) (i : Z) (map : list Z) : list Z :=
  match n with
  | O => map
  | S n' => set_bits_from n' (i + 1) (__set_bit i map)
  end.

(** [init_tag_map], the allocations succeeding.  The depth is clamped to
    twice the request pool, and the map has one word more than the depth
    needs, its bits from [depth] upwards set. *)
Definition init_tag_map (q : request_queue) (depth : Z) : blk_queue_tag :=
  let depth := if depth >? nr_requests q * 2 then nr_requests q * 2 else depth in
  let bits := depth ÷ BLK_TAGS_PER_LONG + 1 in
  QueueTag
    (replicate (Z.to_nat depth) None)
    (set_bits_from (Z.to_nat (bits * BLK_TAGS_PER_LONG - depth)) depth
       (replicate (Z.to_nat bits) 0))
    [] 0 depth (bits * BITS_PER_LONG).


(** The requests live in a heap addressed by their pointers. *)
Definition heap : Type := nat -> request.

Definition heap_set (h : heap) (p : nat) (r : request) : heap :=
  fun x => if Nat.eqb x p then r else h x.

Definition remove_addr (p : nat) (l : list nat) : list nat :=
  filter (fun x => x <> p) l.

(** [list_del_init(&rq->queuelist)]: unlink the request at [p] from
    whichever list it is on. *)
Definition list_del_init (h : heap) (q : request_queue) (p : nat)
  : heap * request_queue :=
  let q :=
    match queuelist (h p) with
    | Unlinked => q
    | OnQueueHead => set_queue_head (remove_addr p (queue_head q)) q
    | OnBusyList =>
        match queue_tags q with
        | Some bqt =>
            set_queue_tags
              (Some (QueueTag (tag_index bqt) (tag_map bqt)
                       (remove_addr p (busy_list bqt)) (busy bqt)
                       (max_depth bqt) (real_max_depth bqt))) q
        | None => q
        end
    end in
  (heap_set h p (set_queuelist Unlinked (h p)), q).

(** Modelled from the spec: [blkdev_dequeue_request] is an inline of
    include/linux/blkdev.h, which is not among the sources.  It removes
    the request from the ordered queue list; a request that is on no list
    is a fatal error. *)
Definition blkdev_dequeue_request (h : heap) (q : request_queue) (p : nat)
  : outcome (heap * request_queue) :=
  if list_empty (queuelist (h p)) then Bug
  else Ok (list_del_init h q p).

(** Whether [t] indexes the bitmap, and the table of owners, as they are
    allocated. *)
Definition tag_in_map (t : Z) (bqt : blk_queue_tag) : bool :=
  (0 <=? t) && (t <? BITS_PER_LONG * Z.of_nat (length (tag_map bqt))).

Definition tag_in_index (t : Z) (bqt : blk_queue_tag) : bool :=
  (0 <=? t) && (t <? Z.of_nat (length (tag_index bqt))).

(** The scan of [blk_queue_start_tag] for a word with a clear bit. *)
Inductive tag_scan := TagFound (t : Z) | TagsBusy | TagOverrun.

Fixpoint scan_tag_map (map : list Z) (t : Z) (depth : Z) : tag_scan :=
  match map with
  | [] => TagOverrun
  | w :: rest =>
      if w =? ULONG_MAX then
        let t := t + BLK_TAGS_PER_LONG in
        if t >=? depth then TagsBusy else scan_tag_map rest t depth
      else TagFound (t + ffz w)
  end.

(** [blk_queue_start_tag] returns the C result (0 on success, 1 when no
    tag is free).  A scan that runs off the map, and a tag that lies
    outside the table of owners, are accesses outside the two arrays. *)
Definition blk_queue_start_tag (h : heap) (q : request_queue) (p : nat)
  : outcome (Z * heap * request_queue) :=
  match queue_tags q with
  | None => Fault
  | Some bqt =>
      if negb (Z.land (flags (h p)) REQ_QUEUED =? 0) then Bug
      else
        match scan_tag_map (tag_map bqt) 0 (max_depth bqt) with
        | TagOverrun => Fault
        | TagsBusy => Ok (1, h, q)
        | TagFound t =>
            if negb (tag_in_index t bqt) then Fault else
            let h :=
              heap_set h p
                (set_tag t (set_flags (Z.lor (flags (h p)) REQ_QUEUED) (h p))) in
            let bqt :=
              QueueTag (<[Z.to_nat t := Some p]> (tag_index bqt))
                (__set_bit t (tag_map bqt)) (busy_list bqt) (busy bqt)
                (max_depth bqt) (real_max_depth bqt) in
            '(h, q) ← blkdev_dequeue_request h (set_queue_tags (Some bqt) q) p;
            match queue_tags q with
            | None => Fault
            | Some bqt =>
                Ok (0,
                    heap_set h p (set_queuelist OnBusyList (h p)),
                    set_queue_tags
                      (Some (QueueTag (tag_index bqt) (tag_map bqt)
                               (p :: busy_list bqt) (busy bqt + 1)
                               (max_depth bqt) (real_max_depth bqt))) q)
            end
        end
  end.

(** [blk_queue_end_tag].  The early return on a tag that is not busy and
    the test for a missing owner only print a message.  A tag below zero
    indexes memory before the map, one beyond the table of owners memory
    after it. *)
Definition blk_queue_end_tag (h : heap) (q : request_queue) (p : nat)
  : outcome (heap * request_queue) :=
  match queue_tags q with
  | None => Fault
  | Some bqt =>
      let t := tag (h p) in
      if t =? -1 then Bug
      else if t >=? real_max_depth bqt then Ok (h, q)
      else if negb (tag_in_map t bqt) then Fault
      else
        let '(was_set, map) := __test_and_clear_bit t (tag_map bqt) in
        if negb was_set then Ok (h, q)
        else if negb (tag_in_index t bqt) then Fault
        else
          let bqt :=
            QueueTag (tag_index bqt) map (busy_list bqt) (busy bqt)
              (max_depth bqt) (real_max_depth bqt) in
          let '(h, q) := list_del_init h (set_queue_tags (Some bqt) q) p in
          let h :=
            heap_set h p
              (set_tag (-1)
                 (set_flags (Z.land (flags (h p)) (Z.lnot REQ_QUEUED)) (h p))) in
          match queue_tags q with
          | None => Fault
          | Some bqt =>
              Ok (h,
                  set_queue_tags
                    (Some (QueueTag (<[Z.to_nat t := None]> (tag_index bqt))
                             (tag_map bqt) (busy_list bqt) (busy bqt - 1)
                             (max_depth bqt) (real_max_depth bqt))) q)
          end
  end.







(** *** Predicates used to state the properties *)



(** Whether the request started [i]-th, in the order [ps], is among the
    requests [R] that hold a tag. *)
Definition tagged_in (ps R : list nat) (i : Z) : bool :=
  (0 <=? i)
  && match ps !! Z.to_nat i with
     | Some p => bool_decide (p ∈ R)
     | None => false
     end.



Definition ended (r : request) : request :=
  set_tag (-1)
    (set_flags (Z.land (flags r) (Z.lnot REQ_QUEUED))
       (set_queuelist Unlinked r)).


End LlRwBlk.

(** ** fs/buffer.c *)

Module Buffer.
Import Kernel.

(** Modelled from the spec: the buffer state bits ([enum bh_state_bits]),
    their [BUFFER_FNS] accessors and the reference helpers are declared in
    include/linux/buffer_head.h, which is not among the sources. *)
Definition BH_Uptodate : Z := 0.
Definition BH_Dirty : Z := 1.
Definition BH_Lock : Z := 2.
Definition BH_Req : Z := 3.
Definition BH_Mapped : Z := 4.
Definition BH_New : Z := 5.
Definition BH_Async_Read : Z := 6.
Definition BH_Async_Write : Z := 7.
Definition BH_Delay : Z := 8.
Definition BH_Boundary : Z := 9.
Definition BH_Write_EIO : Z := 10.

Definition EIO : Z := 5.

(** The completion hooks a buffer can carry: the two synchronous handlers
    of this file, or a holder of the lock that merely unlocks. *)
Inductive bh_end_io_t :=
| end_io_unlock_only
| end_buffer_read_sync_fn
| end_buffer_write_sync_fn.

Record buffer_head := BufferHead {
  b_state : Z;
  b_count : Z;
  b_bdev : nat;
  b_blocknr : Z;
  b_size : Z;
  b_end_io : bh_end_io_t
}.

Definition set_b_state (v : Z) (bh : buffer_head) : buffer_head :=
  BufferHead v (b_count bh) (b_bdev bh) (b_blocknr bh) (b_size bh) (b_end_io bh).

Definition set_b_count (v : Z) (bh : buffer_head) : buffer_head :=
  BufferHead (b_state bh) v (b_bdev bh) (b_blocknr bh) (b_size bh) (b_end_io bh).

Definition set_b_end_io (v : bh_end_io_t) (bh : buffer_head) : buffer_head :=
  BufferHead (b_state bh) (b_count bh) (b_bdev bh) (b_blocknr bh) (b_size bh) v.

(** The [BUFFER_FNS] accessors. *)
Definition buffer_uptodate (bh : buffer_head) : bool := test_bit BH_Uptodate (b_state bh).
Definition buffer_dirty (bh : buffer_head) : bool := test_bit BH_Dirty (b_state bh).
Definition buffer_locked (bh : buffer_head) : bool := test_bit BH_Lock (b_state bh).
Definition buffer_mapped (bh : buffer_head) : bool := test_bit BH_Mapped (b_state bh).
Definition buffer_req (bh : buffer_head) : bool := test_bit BH_Req (b_state bh).
Definition buffer_write_io_error (bh : buffer_head) : bool :=
  test_bit BH_Write_EIO (b_state bh).

Definition set_buffer_bit (bit : Z) (bh : buffer_head) : buffer_head :=
  set_b_state (set_bit bit (b_state bh)) bh.
Definition clear_buffer_bit (bit : Z) (bh : buffer_head) : buffer_head :=
  set_b_state (clear_bit bit (b_state bh)) bh.

Definition set_buffer_dirty := set_buffer_bit BH_Dirty.
Definition set_buffer_uptodate := set_buffer_bit BH_Uptodate.
Definition clear_buffer_uptodate := clear_buffer_bit BH_Uptodate.
Definition clear_buffer_locked := clear_buffer_bit BH_Lock.
Definition set_buffer_write_io_error := set_buffer_bit BH_Write_EIO.
Definition clear_buffer_write_io_error := clear_buffer_bit BH_Write_EIO.

Definition test_set_buffer_bit (bit : Z) (bh : buffer_head) : bool * buffer_head :=
  (test_bit bit (b_state bh), set_buffer_bit bit bh).
Definition test_clear_buffer_bit (bit : Z) (bh : buffer_head) : bool * buffer_head :=
  (test_bit bit (b_state bh), clear_buffer_bit bit bh).

Definition test_set_buffer_dirty := test_set_buffer_bit BH_Dirty.
Definition test_clear_buffer_dirty := test_clear_buffer_bit BH_Dirty.
Definition test_set_buffer_locked := test_set_buffer_bit BH_Lock.
Definition test_set_buffer_req := test_set_buffer_bit BH_Req.

Definition get_bh (bh : buffer_head) : buffer_head := set_b_count (b_count bh + 1) bh.
Definition put_bh (bh : buffer_head) : buffer_head := set_b_count (b_count bh - 1) bh.

(** *** Dirtying *)

(** What a dirtying call reports besides the new buffer state: how many
    times [buffer_error()] fired, and whether the page-level dirtying
    ([__set_page_dirty_nobuffers]) was invoked. *)
Record dirty_report := DirtyReport {
  buffer_errors : nat;
  page_dirtied : bool
}.

Definition mark_buffer_dirty (bh : buffer_head) : buffer_head * dirty_report :=
  let errors := if negb (buffer_uptodate bh) then 1%nat else 0%nat in
  if negb (buffer_dirty bh) then
    let '(was_dirty, bh') := test_set_buffer_dirty bh in
    (bh', DirtyReport errors (negb was_dirty))
  else (bh, DirtyReport errors false).

(** A page: its address space (NULL or not), the ring of its buffers in
    [b_this_page] order starting at the head (empty when the page has no
    buffers), the page's dirty flag, and whether it sits on its mapping's
    [dirty_pages] list. *)
Record page := Page {
  mapping : option nat;
  page_buffers : list buffer_head;
  PageDirty : bool;
  on_dirty_pages : bool
}.

(** The [do ... while] walk over the ring. *)
Fixpoint dirty_ring (ring : list buffer_head) : list buffer_head * nat :=
  match ring with
  | [] => ([], 0%nat)
  | bh :: rest =>
      let '(rest', errors) := dirty_ring rest in
      if buffer_uptodate bh then (set_buffer_dirty bh :: rest', errors)
      else (bh :: rest', S errors)
  end.

Definition __set_page_dirty_buffers (pg : page) : page * nat :=
  match mapping pg with
  | None => (Page None (page_buffers pg) true (on_dirty_pages pg), 0%nat)
  | Some m =>
      let '(ring, errors) := dirty_ring (page_buffers pg) in
      if negb (PageDirty pg) then (Page (Some m) ring true true, errors)
      else (Page (Some m) ring true (on_dirty_pages pg), errors)
  end.

(** *** The per-CPU buffer LRU *)

Definition BH_LRU_SIZE : nat := 8.

(** Buffer heads live in a heap addressed by their pointers; the LRU is
    the array [bhs] of one CPU as a list, NULL slots being [None]. *)
Definition bh_heap : Type := nat -> buffer_head.

Definition bh_set (h : bh_heap) (p : nat) (bh : buffer_head) : bh_heap :=
  fun x => if Nat.eqb x p then bh else h x.

Definition __brelse (h : bh_heap) (p : nat) : bh_heap :=
  if b_count (h p) =? 0 then h else bh_set h p (put_bh (h p)).

Definition brelse (h : bh_heap) (p : option nat) : bh_heap :=
  match p with Some a => __brelse h a | None => h end.

Definition lru_slot_matches (h : bh_heap) (slot : option nat)
    (bdev : nat) (block size : Z) : bool :=
  match slot with
  | Some p =>
      bool_decide (b_bdev (h p) = bdev)
      && (b_blocknr (h p) =? block) && (b_size (h p) =? size)
  | None => false
  end.

(** The scan [for (i = 0; i < BH_LRU_SIZE; i++)]: index and pointer of the
    first matching slot. *)
Fixpoint lru_scan (n : nat) (i : nat) (h : bh_heap) (lru : list (option nat))
    (bdev : nat) (block size : Z) : option (nat * nat) :=
  match n with
  | O => None
  | S n' =>
      match lru !! i with
      | Some (Some p) =>
          if lru_slot_matches h (Some p) bdev block size then Some (i, p)
          else lru_scan n' (S i) h lru bdev block size
      | _ => lru_scan n' (S i) h lru bdev block size
      end
  end.

(** [while (i) { bhs[i] = bhs[i - 1]; i--; }] *)
Fixpoint lru_shift_down (i : nat) (lru : list (option nat)) : list (option nat) :=
  match i with
  | O => lru
  | S j => lru_shift_down j (<[S j := default None (lru !! j)]> lru)
  end.

Definition lookup_bh_lru (h : bh_heap) (lru : list (option nat))
    (bdev : nat) (block size : Z) : option nat * bh_heap * list (option nat) :=
  match lru_scan BH_LRU_SIZE 0 h lru bdev block size with
  | Some (i, p) =>
      let lru :=
        match i with
        | O => lru
        | S _ => <[0%nat := Some p]> (lru_shift_down i lru)
        end in
      (Some p, bh_set h p (get_bh (h p)), lru)
  | None => (None, h, lru)
  end.

(** The copy loop of [bh_lru_install]; [bhs] is the part of the local
    array filled so far, so [out] is its length. *)
Fixpoint lru_install_loop (slots : list (option nat)) (bh : nat) (bhs : list (option nat))
    (evictee : option nat) (h : bh_heap)
  : outcome (list (option nat) * option nat * bh_heap) :=
  match slots with
  | [] => Ok (bhs, evictee, h)
  | bh2 :: rest =>
      if bool_decide (bh2 = Some bh)
      then lru_install_loop rest bh bhs evictee (__brelse h bh)
      else if (BH_LRU_SIZE <=? length bhs)%nat then
        match evictee with
        | Some _ => Bug
        | None => lru_install_loop rest bh bhs bh2 h
        end
      else lru_install_loop rest bh (bhs ++ [bh2]) evictee h
  end.

Definition bh_lru_install (h : bh_heap) (lru : list (option nat)) (bh : nat)
  : outcome (bh_heap * list (option nat)) :=
  if bool_decide (default None (lru !! 0%nat) = Some bh) then Ok (h, lru)
  else
    '(bhs, evictee, h) ←
      lru_install_loop (take BH_LRU_SIZE lru) bh [Some bh] None
        (bh_set h bh (get_bh (h bh)));
    Ok (brelse h evictee,
        bhs ++ replicate (BH_LRU_SIZE - length bhs) None).

(** The authoritative lookup walks the page cache of the device: the page
    holding the block, then the ring of its buffers.  [bd_pages] gives,
    per device and page index, the ring of the cached page ([None] when no
    page is cached, the empty ring when the page has no buffers). *)
Record page_cache := PageCache {
  PAGE_CACHE_SHIFT : Z;
  bd_blkbits : nat -> Z;
  bd_pages : nat -> Z -> option (list nat)
}.

Definition __find_get_block_slow (h : bh_heap) (pc : page_cache)
    (bdev : nat) (block : Z) (unused : Z) : option nat * bh_heap :=
  let index := Z.shiftr block (PAGE_CACHE_SHIFT pc - bd_blkbits pc bdev) in
  match bd_pages pc bdev index with
  | None => (None, h)
  | Some ring =>
      match List.find (fun p => b_blocknr (h p) =? block) ring with
      | Some p => (Some p, bh_set h p (get_bh (h p)))
      | None => (None, h)
      end
  end.

(** [__find_get_block]; [touch_buffer] marks the page accessed, which is
    not part of the buffer state. *)
Definition __find_get_block (h : bh_heap) (lru : list (option nat)) (pc : page_cache)
    (bdev : nat) (block size : Z) : outcome (option nat * bh_heap * list (option nat)) :=
  let '(bh, h, lru) := lookup_bh_lru h lru bdev block size in
  match bh with
  | Some p => Ok (Some p, h, lru)
  | None =>
      let '(bh, h) := __find_get_block_slow h pc bdev block size in
      match bh with
      | Some p =>
          '(h, lru) ← bh_lru_install h lru p;
          Ok (Some p, h, lru)
      | None => Ok (None, h, lru)
      end
  end.

(** *** Synchronous I/O on buffers and the fsync drain *)

(** The model runs the draining thread alone: no other thread dirties or
    locks buffers meanwhile, and an I/O in flight completes when the
    thread waits for it.  [completed] counts the completions each buffer
    has seen, so that the device can answer each I/O on its own. *)
Record io_state := IoState {
  bufs : bh_heap;
  completed : nat -> nat
}.

Definition with_buf (s : io_state) (p : nat) (f : buffer_head -> buffer_head)
  : io_state :=
  IoState (bh_set (bufs s) p (f (bufs s p))) (completed s).

Definition unlock_buffer (bh : buffer_head) : buffer_head :=
  clear_buffer_locked bh.

Definition end_buffer_read_sync (bh : buffer_head) (uptodate : bool)
  : buffer_head :=
  let bh := if uptodate then set_buffer_uptodate bh
            else clear_buffer_uptodate bh in
  put_bh (unlock_buffer bh).

Definition end_buffer_write_sync (bh : buffer_head) (uptodate : bool)
  : buffer_head :=
  let bh := if uptodate then set_buffer_uptodate bh
            else clear_buffer_uptodate (set_buffer_write_io_error bh) in
  put_bh (unlock_buffer bh).

Definition run_end_io (bh : buffer_head) (uptodate : bool) : buffer_head :=
  match b_end_io bh with
  | end_buffer_read_sync_fn => end_buffer_read_sync bh uptodate
  | end_buffer_write_sync_fn => end_buffer_write_sync bh uptodate
  | end_io_unlock_only => unlock_buffer bh
  end.

(** The buffer once the thread has waited for it: [ok] is the device's
    answer for the I/O in flight, if there is one. *)
Definition wait_buf (bh : buffer_head) (ok : bool) : buffer_head :=
  if buffer_locked bh then run_end_io bh ok else bh.

Section Device.
(** [io_ok p k]: whether the device completes the [k]-th I/O on the
    buffer at [p] successfully. *)
Variable io_ok : nat -> nat -> bool.

Definition io_complete (s : io_state) (p : nat) : io_state :=
  IoState
    (bh_set (bufs s) p (run_end_io (bufs s p) (io_ok p (completed s p))))
    (fun x => if Nat.eqb x p then S (completed s p) else completed s x).

(** [__wait_on_buffer]: sleep until the buffer is unlocked. *)
Definition wait_on_buffer (s : io_state) (p : nat) : io_state :=
  if buffer_locked (bufs s p) then io_complete s p else s.

(** [submit_bh(WRITE, bh)]; the bio it builds stays in flight until the
    buffer is waited for. *)
Definition submit_bh_write (s : io_state) (p : nat) : outcome io_state :=
  let bh := bufs s p in
  if negb (buffer_locked bh) then Bug
  else if negb (buffer_mapped bh) then Bug
  else
    let '(was_req, bh) := test_set_buffer_req bh in
    let bh := if was_req then clear_buffer_write_io_error bh else bh in
    Ok (with_buf s p (fun _ => bh)).

(** [ll_rw_block(WRITE, 1, &bh)] *)
Definition ll_rw_block_write (s : io_state) (p : nat) : outcome io_state :=
  let '(was_locked, bh) := test_set_buffer_locked (bufs s p) in
  if was_locked then Ok s
  else
    let bh := set_b_end_io end_buffer_write_sync_fn (get_bh bh) in
    let '(was_dirty, bh) := test_clear_buffer_dirty bh in
    if was_dirty then submit_bh_write (with_buf s p (fun _ => bh)) p
    else Ok (with_buf s p (fun _ => put_bh (unlock_buffer bh))).

(** First loop of [fsync_buffers_list]: move the dirty or locked buffers
    to [tmp] (each added at its head) and queue a write for the dirty
    ones. *)
Fixpoint fsync_queue_writes (l : list nat) (tmp : list nat) (s : io_state)
  : outcome (list nat * io_state) :=
  match l with
  | [] => Ok (tmp, s)
  | p :: rest =>
      if buffer_dirty (bufs s p) || buffer_locked (bufs s p) then
        if buffer_dirty (bufs s p) then
          let s := with_buf s p get_bh in
          let s := wait_on_buffer s p in
          s ← ll_rw_block_write s p;
          let s := IoState (__brelse (bufs s) p) (completed s) in
          fsync_queue_writes rest (p :: tmp) s
        else fsync_queue_writes rest (p :: tmp) s
      else fsync_queue_writes rest tmp s
  end.

(** Second loop: [l] is [tmp] read from its tail. *)
Fixpoint fsync_wait (l : list nat) (err : Z) (s : io_state) : Z * io_state :=
  match l with
  | [] => (err, s)
  | p :: rest =>
      let s := with_buf s p get_bh in
      let s := wait_on_buffer s p in
      let err := if negb (buffer_uptodate (bufs s p)) then - EIO else err in
      let s := IoState (__brelse (bufs s) p) (completed s) in
      fsync_wait rest err s
  end.

(** [osync_buffers_list]: wait for the locked buffers of the list, from
    its tail.  A buffer waited for is unlocked, so the rescan after each
    wait finds the remaining ones in the same order; [l] is the list read
    from its tail. *)
Fixpoint osync_wait (l : list nat) (err : Z) (s : io_state) : Z * io_state :=
  match l with
  | [] => (err, s)
  | p :: rest =>
      if buffer_locked (bufs s p) then
        let s := with_buf s p get_bh in
        let s := wait_on_buffer s p in
        let err := if negb (buffer_uptodate (bufs s p)) then - EIO else err in
        let s := IoState (__brelse (bufs s) p) (completed s) in
        osync_wait rest err s
      else osync_wait rest err s
  end.

Definition osync_buffers_list (s : io_state) (l : list nat) : Z * io_state :=
  osync_wait (reverse l) 0 s.

(** [fsync_buffers_list]: the first loop empties [list], so the final
    osync pass runs over an empty list. *)
Definition fsync_buffers_list (s : io_state) (l : list nat)
  : outcome (Z * io_state) :=
  '(tmp, s) ← fsync_queue_writes l [] s;
  let '(err, s) := fsync_wait (reverse tmp) 0 s in
  let '(err2, s) := osync_buffers_list s [] in
  Ok (if negb (err =? 0) then err else err2, s).

(** The buffers the first loop moves to the private list. *)
Definition needs_wait (s : io_state) (p : nat) : bool :=
  buffer_dirty (bufs s p) || buffer_locked (bufs s p).

(** The uptodate bit a buffer shows once its I/O in flight, if any, has
    completed. *)
Definition uptodate_after_wait (s : io_state) (p : nat) : bool :=
  if buffer_locked (bufs s p) then
    match b_end_io (bufs s p) with
    | end_io_unlock_only => buffer_uptodate (bufs s p)
    | _ => io_ok p (completed s p)
    end
  else buffer_uptodate (bufs s p).

End Device.

End Buffer.


(** ** Concrete states used to exercise the definitions *)

Module Samples.
Import Kernel LlRwBlk Buffer.

Definition HZ : Z := 1000.

(** A queue of 128 requests with the given outstanding counts, its bits
    clear apart from clustering, and one allocator asleep per direction. *)
Definition sample_queue (reads writes : Z) (bdi : Z) : request_queue :=
  RequestQueue
    (RequestList (RwArray reads writes)
       (RwArray [WaitEntry 11 true] [WaitEntry 12 true; WaitEntry 13 true]))
    128 (Z.shiftl 1 QUEUE_FLAG_CLUSTER) bdi None 255 128 128 65536 None [].

Definition sample_state (reads writes : Z) (bdi : Z) : blk_state :=
  BlkState (sample_queue reads writes bdi)
    (RwArray [] [WaitEntry 21 false]) [].

(** The same queue with the write direction marked full. *)
Definition full_state : blk_state :=
  BlkState
    (blk_set_queue_full (sample_queue 3 128 (Z.shiftl 1 BDI_write_congested))
       WRITE)
    (RwArray [] []) [].

Definition raw_request : request :=
  Request 0 0 0 0 0 0 (-1) [] 0 None None None None None RQ_INACTIVE Unlinked.


Definition batch_calls : list (Z * request) :=
  repeat (1005, raw_request) 32.

(** Memory in which neighbouring bios always, or never, are contiguous. *)
Definition contiguous_ops : BioVecOps :=
  {| BIOVEC_VIRT_MERGEABLE := fun _ _ => true;
     BIOVEC_PHYS_MERGEABLE := fun _ _ => true;
     BIO_SEG_BOUNDARY := fun _ _ _ => true |}.

Definition scattered_ops : BioVecOps :=
  {| BIOVEC_VIRT_MERGEABLE := fun _ _ => false;
     BIOVEC_PHYS_MERGEABLE := fun _ _ => false;
     BIO_SEG_BOUNDARY := fun _ _ _ => false |}.

(** A queue that allows four hardware segments per request and whose
    merge hint points at request 1. *)
Definition tight_queue : request_queue :=
  RequestQueue (RequestList (RwArray 3 5) (RwArray [] []))
    128 (Z.shiftl 1 QUEUE_FLAG_CLUSTER) 0 (Some 1%nat) 255 128 4 65536 None
    [1%nat; 2%nat].

Definition tight_state : blk_state := BlkState tight_queue (RwArray [] []) [].

(** A write of one page (eight sectors) counted as [segs] segments. *)
Definition page_bio (at_sector segs : Z) : bio := Bio at_sector 4096 1 segs segs.

(** A queued filesystem request of eight sectors holding one bio. *)
Definition queued_request (rq_flags at_sector segs : Z) : request :=
  Request rq_flags at_sector 8 8 segs segs (-1) [page_bio at_sector segs] 1
    (Some 0%nat) (Some 0%nat) (Some 3%nat) None None RQ_ACTIVE OnQueueHead.

Definition write_cmd : Z := Z.lor REQ_CMD REQ_RW.



(** A heap of requests that carry the queued flag but no tag. *)
Definition inconsistent_heap : heap :=
  fun p => queued_request (Z.lor write_cmd REQ_QUEUED) (Z.of_nat p * 8) 1.

(** A heap of requests that all claim the tag [t]. *)
Definition stale_heap (t : Z) : heap :=
  fun p => set_tag t (inconsistent_heap p).

(** A tag table of depth 3 in which tag 1 is busy and no slot has an
    owner, and a queue that uses it. *)
Definition ownerless_tags : blk_queue_tag :=
  let bqt := init_tag_map (sample_queue 0 3 0) 3 in
  QueueTag (tag_index bqt) (__set_bit 1 (tag_map bqt)) [] 1 (max_depth bqt)
    (real_max_depth bqt).

Definition ownerless_queue : request_queue :=
  set_queue_tags (Some ownerless_tags) (sample_queue 0 3 0).

(** A request that did not come from the queue's pool, linked into the
    queue and holding its last reference. *)
Definition foreign_request : request :=
  Request write_cmd 0 8 8 1 1 (-1) [page_bio 0 1] 1 (Some 0%nat) None
    (Some 3%nat) None None RQ_ACTIVE OnQueueHead.

(** Buffers: block [p] of device 0 lives at address [p]. *)
Definition sample_bh (state : Z) (p : nat) : buffer_head :=
  BufferHead state 2 0 (Z.of_nat p) 1024 end_io_unlock_only.

Definition cached_buffers : bh_heap :=
  sample_bh (set_bit BH_Mapped (set_bit BH_Uptodate 0)).

Definition full_lru : list (option nat) :=
  [Some 1; Some 2; Some 3; Some 4; Some 5; Some 6; Some 7; Some 8]%nat.

Definition empty_page_cache : page_cache :=
  PageCache 12 (fun _ => 10) (fun _ _ => None).

Definition stale_page : page :=
  Page (Some 0%nat) [sample_bh 0 1; sample_bh (set_bit BH_Uptodate 0) 2]
    false false.

(** A device on which every I/O fails, a locked clean buffer whose write
    is in flight, and dirty buffers. *)
Definition failing_device : nat -> nat -> bool := fun _ _ => false.

Definition locked_clean_state : io_state :=
  IoState
    (fun _ =>
       BufferHead
         (set_bit BH_Mapped (set_bit BH_Lock (set_bit BH_Uptodate 0)))
         1 0 7 1024 end_buffer_write_sync_fn)
    (fun _ => 0%nat).

Definition dirty_state : io_state :=
  IoState
    (fun _ =>
       BufferHead
         (set_bit BH_Mapped (set_bit BH_Dirty (set_bit BH_Uptodate 0)))
         1 0 7 1024 end_io_unlock_only)
    (fun _ => 0%nat).

End Samples.

(** ** drivers/block/ll_rw_blk.c: queue set-up, tag lookup and the sysfs
    knob *)

Module BlockQueue.
Import Kernel LlRwBlk.

(** *** Looking a request up by its tag *)


(** *** Queue limits *)

Definition set_nr_requests (v : Z) (q : request_queue) : request_queue :=
  RequestQueue (rq q) v (queue_flags q) (bdi_state q)
    (last_merge q) (max_sectors q) (max_phys_segments q)
    (max_hw_segments q) (max_segment_size q) (queue_tags q) (queue_head q).

Definition set_max_sectors (v : Z) (q : request_queue) : request_queue :=
  RequestQueue (rq q) (nr_requests q) (queue_flags q) (bdi_state q)
    (last_merge q) v (max_phys_segments q)
    (max_hw_segments q) (max_segment_size q) (queue_tags q) (queue_head q).

Definition set_max_phys_segments (v : Z) (q : request_queue)
  : request_queue :=
  RequestQueue (rq q) (nr_requests q) (queue_flags q) (bdi_state q)
    (last_merge q) (max_sectors q) v
    (max_hw_segments q) (max_segment_size q) (queue_tags q) (queue_head q).

Definition set_max_hw_segments (v : Z) (q : request_queue)
  : request_queue :=
  RequestQueue (rq q) (nr_requests q) (queue_flags q) (bdi_state q)
    (last_merge q) (max_sectors q) (max_phys_segments q)
    v (max_segment_size q) (queue_tags q) (queue_head q).

Definition set_max_segment_size (v : Z) (q : request_queue)
  : request_queue :=
  RequestQueue (rq q) (nr_requests q) (queue_flags q) (bdi_state q)
    (last_merge q) (max_sectors q) (max_phys_segments q)
    (max_hw_segments q) v (queue_tags q) (queue_head q).

(** The queue with the limit fields of [struct request_queue] that
    [request_queue] leaves out. *)
Record queue_limits := QueueLimits {
  lq : request_queue;
  hardsect_size : Z;
  seg_boundary_mask : Z;
  dma_alignment : Z
}.

Definition set_lq (q : request_queue) (l : queue_limits) : queue_limits :=
  QueueLimits q (hardsect_size l) (seg_boundary_mask l) (dma_alignment l).

Section Limits.
(** The page size is declared in architecture headers that are not among
    the sources; [PAGE_CACHE_SIZE] is [1UL << PAGE_CACHE_SHIFT]. *)
Variable PAGE_CACHE_SHIFT : Z.

Definition PAGE_CACHE_SIZE : Z := Z.shiftl 1 PAGE_CACHE_SHIFT.

(** The setters take the value as the C parameter holds it (an
    [unsigned short], [unsigned int] or [unsigned long]); a minimum
    assigned to the parameter is cut to the parameter's width. *)
Definition blk_queue_max_sectors (q : request_queue) (max_sectors : Z)
  : request_queue :=
  let max_sectors :=
    if Z.shiftl max_sectors 9 <? PAGE_CACHE_SIZE
    then Z.shiftl 1 (PAGE_CACHE_SHIFT - 9) mod 2 ^ 16
    else max_sectors in
  set_max_sectors max_sectors q.

Definition blk_queue_max_phys_segments (q : request_queue)
    (max_segments : Z) : request_queue :=
  let max_segments := if max_segments =? 0 then 1 else max_segments in
  set_max_phys_segments max_segments q.

Definition blk_queue_max_hw_segments (q : request_queue)
    (max_segments : Z) : request_queue :=
  let max_segments := if max_segments =? 0 then 1 else max_segments in
  set_max_hw_segments max_segments q.

Definition blk_queue_max_segment_size (q : request_queue) (max_size : Z)
  : request_queue :=
  let max_size :=
    if max_size <? PAGE_CACHE_SIZE then PAGE_CACHE_SIZE mod 2 ^ 32
    else max_size in
  set_max_segment_size max_size q.

Definition blk_queue_hardsect_size (l : queue_limits) (size : Z)
  : queue_limits :=
  QueueLimits (lq l) size (seg_boundary_mask l) (dma_alignment l).

Definition blk_queue_segment_boundary (l : queue_limits) (mask : Z)
  : queue_limits :=
  let mask :=
    if mask <? PAGE_CACHE_SIZE - 1 then PAGE_CACHE_SIZE - 1 else mask in
  QueueLimits (lq l) (hardsect_size l) mask (dma_alignment l).

Definition blk_queue_dma_alignment (l : queue_limits) (mask : Z)
  : queue_limits :=
  QueueLimits (lq l) (hardsect_size l) (seg_boundary_mask l) mask.

End Limits.

(** [min_not_zero(l, r)]: the minimum that is not zero, unless both
    are. *)
Definition min_not_zero (l r : Z) : Z :=
  if l =? 0 then r else if r =? 0 then l else Z.min l r.

(** [blk_queue_stack_limits(t, b)] returns the stacking queue [t] with
    the limits it inherits from the underlying [b]. *)
Definition blk_queue_stack_limits (t b : queue_limits) : queue_limits :=
  let tq := lq t in
  let bq := lq b in
  let tq := set_max_sectors (min_not_zero (max_sectors tq) (max_sectors bq))
              tq in
  let tq := set_max_phys_segments
              (Z.min (max_phys_segments tq) (max_phys_segments bq)) tq in
  let tq := set_max_hw_segments
              (Z.min (max_hw_segments tq) (max_hw_segments bq)) tq in
  let tq := set_max_segment_size
              (Z.min (max_segment_size tq) (max_segment_size bq)) tq in
  QueueLimits tq (Z.max (hardsect_size t) (hardsect_size b))
    (seg_boundary_mask t) (dma_alignment t).

(** *** The [nr_requests] attribute *)

(** [wake_up(&rl->wait[rw])] *)
Definition wake_up_rl_wait (s : blk_state) (rw : rw_t) : blk_state :=
  let '(wqh, tasks) := wake_up (rw_get (wait (rq (queue s))) rw) in
  BlkState (set_wait (queue s) rw wqh) (congestion_wqh s) (woken s ++ tasks).

Section Sysfs.
(** [BLKDEV_MIN_RQ] is a constant of include/linux/blkdev.h, which is not
    among the sources. *)
Variable BLKDEV_MIN_RQ : Z.

(** The two tests on a direction's count, which the function spells out
    for [READ] and for [WRITE]. *)
Definition store_congestion (s : blk_state) (rw : rw_t) : blk_state :=
  let q := queue s in
  if rw_get (count (rq q)) rw >=? queue_congestion_on_threshold q
  then set_queue (set_queue_congested q rw) s
  else if rw_get (count (rq q)) rw <? queue_congestion_off_threshold q
  then clear_queue_congested s rw
  else s.

Definition store_full (s : blk_state) (rw : rw_t) : blk_state :=
  let q := queue s in
  if rw_get (count (rq q)) rw >=? nr_requests q
  then set_queue (blk_set_queue_full q rw) s
  else if rw_get (count (rq q)) rw + 1 <=? nr_requests q
  then wake_up_rl_wait (set_queue (blk_clear_queue_full q rw) s) rw
  else s.

(** [queue_requests_store].  [parsed] is the number [simple_strtoul]
    reads from the page, [count] the length written, which the function
    returns through an [int]. *)
Definition queue_requests_store (s : blk_state) (parsed : Z) (count : Z)
  : Z * blk_state :=
  let ret := to_long count in
  let s := set_queue (set_nr_requests parsed (queue s)) s in
  let s := if nr_requests (queue s) <? BLKDEV_MIN_RQ
           then set_queue (set_nr_requests BLKDEV_MIN_RQ (queue s)) s
           else s in
  let s := store_congestion s READ in
  let s := store_congestion s WRITE in
  let s := store_full s READ in
  let s := store_full s WRITE in
  (ret, s).

End Sysfs.

End BlockQueue.

(** ** drivers/block/ll_rw_blk.c: counting segments and building the
    scatterlist *)

Module Segments.
Import Kernel LlRwBlk.

(** [struct bio_vec] and the fields of [struct scatterlist] that
    [blk_rq_map_sg] fills in ([page], [length] and [offset]). *)
Record bio_vec := BioVec { bv_page : nat; bv_len : Z; bv_offset : Z }.

Record scatterlist := Scatterlist {
  sg_page : nat;
  sg_length : Z;
  sg_offset : Z
}.

(** The architecture's tests on two neighbouring vector entries
    ([BIOVEC_PHYS_MERGEABLE], [BIOVEC_VIRT_MERGEABLE] and
    [BIOVEC_SEG_BOUNDARY]) and the bounce test
    [page_to_pfn(bv->bv_page) >= q->bounce_pfn]; their definitions live in
    headers that are not among the sources. *)
Class BvecOps := {
  biovec_phys_mergeable : bio_vec -> bio_vec -> bool;
  biovec_virt_mergeable : bio_vec -> bio_vec -> bool;
  biovec_seg_boundary : request_queue -> bio_vec -> bio_vec -> bool;
  page_is_high : request_queue -> bio_vec -> bool
}.

Section Recount.
Context `{BvecOps}.

(** The locals of [blk_recount_segments]. *)
Record recount_state := RecountState {
  bvprv : option bio_vec;
  nr_phys_segs : Z;
  nr_hw_segs : Z;
  seg_size : Z;
  highprv : bool
}.

(** One pass of the loop over the bio's segments; the jumps to
    [new_segment] and [new_hw_segment] are the two ways of [new_segment]
    below. *)
Definition recount_step (q : request_queue) (cluster : bool)
    (st : recount_state) (bv : bio_vec) : outcome recount_state :=
  let high := page_is_high q bv in
  let new_segment (hw : Z) :=
    Ok (RecountState (Some bv) (nr_phys_segs st + 1) hw (bv_len bv) high) in
  if high || highprv st then new_segment (nr_hw_segs st + 1)
  else
    match bvprv st with
    | None => Fault
    | Some prv =>
        let new_segment_virt :=
          new_segment (if negb (biovec_virt_mergeable prv bv)
                       then nr_hw_segs st + 1 else nr_hw_segs st) in
        if cluster then
          if seg_size st + bv_len bv >? max_segment_size q
          then new_segment_virt
          else if negb (biovec_phys_mergeable prv bv) then new_segment_virt
          else if negb (biovec_seg_boundary q prv bv) then new_segment_virt
          else
            Ok (RecountState (Some bv) (nr_phys_segs st) (nr_hw_segs st)
                  (seg_size st + bv_len bv) (highprv st))
        else new_segment_virt
    end.

Fixpoint recount_loop (q : request_queue) (cluster : bool)
    (st : recount_state) (vecs : list bio_vec) : outcome recount_state :=
  match vecs with
  | [] => Ok st
  | bv :: rest =>
      st ← recount_step q cluster st bv;
      recount_loop q cluster st rest
  end.

(** The count of [blk_recount_segments]: the loop over the bio's segments
    and the two counts it stores in the bio.  [bi_io_vec] holds the
    bio's segments from [bi_idx] on, or is NULL. *)
Definition recount_bio (q : request_queue) (b : bio)
    (bi_io_vec : option (list bio_vec)) : outcome bio :=
  match bi_io_vec with
  | None => Ok b
  | Some vecs =>
      let cluster := test_bit QUEUE_FLAG_CLUSTER (queue_flags q) in
      st ← recount_loop q cluster (RecountState None 0 0 0 true) vecs;
      Ok (Bio (bi_sector b) (bi_size b) (bi_rw b)
            (nr_phys_segs st) (nr_hw_segs st))
  end.

(** [BIO_SEG_VALID] is a flag number of include/linux/bio.h, which is not
    among the sources. *)
Variable BIO_SEG_VALID : Z.

(** [blk_recount_segments].  [bi_flags] is the bio's flag word, which the
    record [bio] leaves out: the function returns the bio with its new
    counts and the flag word with [BIO_SEG_VALID] set; without a vector
    it returns before either is written. *)
Definition blk_recount_segments (q : request_queue) (b : bio) (bi_flags : Z)
    (bi_io_vec : option (list bio_vec)) : outcome (bio * Z) :=
  match bi_io_vec with
  | None => Ok (b, bi_flags)
  | Some _ =>
      b ← recount_bio q b bi_io_vec;
      Ok (b, set_bit BIO_SEG_VALID bi_flags)
  end.

(** [blk_recalc_rq_segments]: the request's chain is given with each
    bio's segments.  Modelled from the spec: fs/bio.c is not among the
    sources; with [BIO_SEG_VALID] cleared, as here, the segment accessors
    have [blk_recount_segments] count the bio anew.  The flag words of
    the bios are not part of the chain. *)
Fixpoint recalc_chain (q : request_queue)
    (chain : list (bio * option (list bio_vec)))
  : outcome (Z * Z * list bio) :=
  match chain with
  | [] => Ok (0, 0, [])
  | (b, vecs) :: rest =>
      b ← recount_bio q b vecs;
      '(phys, hw, bios) ← recalc_chain q rest;
      Ok (bio_phys_segments q b + phys, bio_hw_segments q b + hw, b :: bios)
  end.

Definition blk_recalc_rq_segments (q : request_queue) (rq : request)
    (chain : list (bio * option (list bio_vec))) : outcome request :=
  match chain with
  | [] => Ok rq
  | _ =>
      '(nr_phys_segs, nr_hw_segs, bios) ← recalc_chain q chain;
      Ok (Request (flags rq) (sector rq) (nr_sectors rq) (hard_nr_sectors rq)
            nr_phys_segs nr_hw_segs (tag rq) bios
            (ref_count rq) (rq_q rq) (rq_rl rq) (rq_disk rq) (waiting rq)
            (special rq) (rq_status rq) (queuelist rq))
  end.

(** [blk_rq_map_sg].  The scatterlist is the caller's array: an entry
    written beyond its end is a write outside the array. *)
Definition map_sg_step (q : request_queue) (cluster : bool)
    (st : option bio_vec * nat * list scatterlist) (bvec : bio_vec)
  : outcome (option bio_vec * nat * list scatterlist) :=
  let '(bvprv, nsegs, sg) := st in
  let nbytes := bv_len bvec in
  let new_segment :=
    if (nsegs <? length sg)%nat
    then Ok (Some bvec, S nsegs,
             <[nsegs := Scatterlist (bv_page bvec) nbytes (bv_offset bvec)]> sg)
    else Fault in
  match bvprv with
  | Some prv =>
      if cluster then
        match nsegs with
        | O => Fault
        | S k =>
            match sg !! k with
            | None => Fault
            | Some last =>
                if sg_length last + nbytes >? max_segment_size q
                then new_segment
                else if negb (biovec_phys_mergeable prv bvec)
                then new_segment
                else if negb (biovec_seg_boundary q prv bvec)
                then new_segment
                else
                  Ok (Some bvec, nsegs,
                      <[k := Scatterlist (sg_page last)
                               (sg_length last + nbytes) (sg_offset last)]> sg)
            end
        end
      else new_segment
  | None => new_segment
  end.

Fixpoint map_sg_bio (q : request_queue) (cluster : bool)
    (st : option bio_vec * nat * list scatterlist) (vecs : list bio_vec)
  : outcome (option bio_vec * nat * list scatterlist) :=
  match vecs with
  | [] => Ok st
  | bvec :: rest =>
      st ← map_sg_step q cluster st bvec;
      map_sg_bio q cluster st rest
  end.

Fixpoint map_sg_chain (q : request_queue) (cluster : bool)
    (st : option bio_vec * nat * list scatterlist)
    (chain : list (list bio_vec))
  : outcome (option bio_vec * nat * list scatterlist) :=
  match chain with
  | [] => Ok st
  | vecs :: rest =>
      st ← map_sg_bio q cluster st vecs;
      map_sg_chain q cluster st rest
  end.

(** The result is the number of entries set up, with the array. *)
Definition blk_rq_map_sg (q : request_queue) (chain : list (list bio_vec))
    (sg : list scatterlist) : outcome (nat * list scatterlist) :=
  let cluster := test_bit QUEUE_FLAG_CLUSTER (queue_flags q) in
  '(_, nsegs, sg) ← map_sg_chain q cluster (None, 0%nat, sg) chain;
  Ok (nsegs, sg).

(** *** Predicates used to state the properties *)

(** The bytes a scatterlist, and a vector, describe. *)
Fixpoint sg_bytes (sg : list scatterlist) : Z :=
  match sg with
  | [] => 0
  | e :: rest => sg_length e + sg_bytes rest
  end.

Fixpoint vec_bytes (vecs : list bio_vec) : Z :=
  match vecs with
  | [] => 0
  | bv :: rest => bv_len bv + vec_bytes rest
  end.

(** A state of the counting loop in which the previous entry is known
    whenever it is going to be looked at. *)
Definition recount_ready (st : recount_state) : Prop :=
  highprv st = false -> is_Some (bvprv st).

(** The counting loop and the mapping loop over the same entries, the
    bios before the current one having counted [base] physical segments:
    the mapping has set up no more entries than have been counted, and
    where it has set up as many, its last entry is no longer than the
    segment being counted. *)
Definition map_sg_sim (base : Z) (rs : recount_state)
    (ms : option bio_vec * nat * list scatterlist) : Prop :=
  0 <= seg_size rs
  /\ Z.of_nat ms.1.2 <= base + nr_phys_segs rs
  /\ (highprv rs = false -> is_Some (bvprv rs) /\ ms.1.1 = bvprv rs)
  /\ (is_Some ms.1.1 ->
      exists k last,
        ms.1.2 = S k /\ ms.2 !! k = Some last
        /\ (highprv rs = false ->
            Z.of_nat ms.1.2 = base + nr_phys_segs rs ->
            sg_length last <= seg_size rs)).

(** The state the mapping loop hands from one bio to the next: no more
    entries set up than the bios so far have counted. *)
Definition map_sg_between (base : Z)
    (ms : option bio_vec * nat * list scatterlist) : Prop :=
  Z.of_nat ms.1.2 <= base
  /\ (is_Some ms.1.1 ->
      exists k last, ms.1.2 = S k /\ ms.2 !! k = Some last).

(** A request's chain with each bio's segments, as
    [blk_recalc_rq_segments] and as [blk_rq_map_sg] are given it. *)
Definition chain_for_recalc (chain : list (bio * list bio_vec))
  : list (bio * option (list bio_vec)) :=
  (fun bv => (bv.1, Some bv.2)) <$> chain.

Definition chain_for_map_sg (chain : list (bio * list bio_vec))
  : list (list bio_vec) :=
  snd <$> chain.

End Recount.

End Segments.

(** ** drivers/block/ll_rw_blk.c: plugging *)

Module Plug.
Import Kernel LlRwBlk.

(** The queue with the plugging fields of [struct request_queue]:
    [unplug_timer] holds the expiry of the pending timer, and
    [unplug_work] whether the work item is queued. *)
Record plug_queue := PlugQueue {
  pq : request_queue;
  unplug_thresh : Z;
  unplug_delay : Z;
  unplug_timer : option Z;
  unplug_work : bool
}.

(** The queues by address, the file-scope [blk_plug_list], and the list
    head [local_plug_list] of [blk_run_queues]; a queue's [plug_list]
    node is linked into one of the two lists or into none. *)
Record plug_world := PlugWorld {
  queues : nat -> plug_queue;
  blk_plug_list : list nat;
  local_plug_list : list nat
}.

Definition update_queue (w : plug_world) (qa : nat)
    (f : plug_queue -> plug_queue) : plug_world :=
  PlugWorld (fun x => if Nat.eqb x qa then f (queues w qa) else queues w x)
    (blk_plug_list w) (local_plug_list w).

Definition set_unplug_timer (t : option Z) (p : plug_queue) : plug_queue :=
  PlugQueue (pq p) (unplug_thresh p) (unplug_delay p) t (unplug_work p).

Definition set_unplug_work (b : bool) (p : plug_queue) : plug_queue :=
  PlugQueue (pq p) (unplug_thresh p) (unplug_delay p) (unplug_timer p) b.

Definition set_pq (q : request_queue) (p : plug_queue) : plug_queue :=
  PlugQueue q (unplug_thresh p) (unplug_delay p) (unplug_timer p)
    (unplug_work p).

(** Modelled from the spec: [blk_queue_plugged] is a macro of
    include/linux/blkdev.h, which is not among the sources; a queue is
    plugged while its [plug_list] node is linked into a list. *)
Definition blk_queue_plugged (w : plug_world) (qa : nat) : bool :=
  bool_decide (qa ∈ blk_plug_list w) || bool_decide (qa ∈ local_plug_list w).

Definition queue_stopped (w : plug_world) (qa : nat) : bool :=
  test_bit QUEUE_FLAG_STOPPED (queue_flags (pq (queues w qa))).

(** [list_del_init(&q->plug_list)] *)
Definition unlink_plug (w : plug_world) (qa : nat) : plug_world :=
  PlugWorld (queues w) (remove_addr qa (blk_plug_list w))
    (remove_addr qa (local_plug_list w)).

Definition blk_plug_device (jiffies : Z) (w : plug_world) (qa : nat)
  : plug_world :=
  if negb (blk_queue_plugged w qa) && negb (queue_stopped w qa) then
    let w := PlugWorld (queues w) (blk_plug_list w ++ [qa])
               (local_plug_list w) in
    update_queue w qa
      (fun p => set_unplug_timer (Some (jiffies + unplug_delay p)) p)
  else w.

Definition blk_remove_plug (w : plug_world) (qa : nat) : Z * plug_world :=
  if blk_queue_plugged w qa then
    (1, update_queue (unlink_plug w qa) qa (set_unplug_timer None))
  else (0, w).

Section Driver.
(** The driver's strategy routine [q->request_fn], run on the queue at
    the given address, and the scheduler's answer to
    [elv_next_request(q) != NULL]; elevator.c is not among the sources. *)
Variable request_fn : nat -> plug_world -> plug_world.
Variable elv_next_request : plug_world -> nat -> bool.

(** The functions that may run the driver return, with the new state,
    the queues whose [request_fn] they ran, in order. *)
Definition __generic_unplug_device (w : plug_world) (qa : nat)
  : plug_world * list nat :=
  if queue_stopped w qa then (w, [])
  else
    let '(removed, w) := blk_remove_plug w qa in
    if removed =? 0 then (w, [])
    else
      let w := update_queue w qa (set_unplug_timer None) in
      if elv_next_request w qa then (request_fn qa w, [qa])
      else (w, []).

(** [generic_unplug_device] takes the queue lock around it; it is the
    [unplug_fn] that [blk_init_queue] installs. *)
Definition generic_unplug_device (w : plug_world) (qa : nat)
  : plug_world * list nat :=
  __generic_unplug_device w qa.

(** [blk_unplug_work], the work item's function, and
    [blk_unplug_timeout], the timer's: the timer has fired. *)
Definition blk_unplug_work (w : plug_world) (qa : nat)
  : plug_world * list nat :=
  generic_unplug_device (update_queue w qa (set_unplug_work false)) qa.

Definition blk_unplug_timeout (w : plug_world) (qa : nat) : plug_world :=
  update_queue w qa
    (fun p => set_unplug_work true (set_unplug_timer None p)).

Definition blk_start_queue (w : plug_world) (qa : nat) : plug_world :=
  update_queue w qa
    (fun p =>
       set_unplug_work true
         (set_pq (set_queue_flags
                    (clear_bit QUEUE_FLAG_STOPPED (queue_flags (pq p)))
                    (pq p)) p)).

Definition blk_stop_queue (w : plug_world) (qa : nat) : plug_world :=
  let '(_, w) := blk_remove_plug w qa in
  update_queue w qa
    (fun p =>
       set_pq (set_queue_flags
                 (set_bit QUEUE_FLAG_STOPPED (queue_flags (pq p))) (pq p)) p).

Definition blk_run_queue (w : plug_world) (qa : nat)
  : plug_world * list nat :=
  let '(_, w) := blk_remove_plug w qa in
  (request_fn qa w, [qa]).

(** The loop of [blk_run_queues] over [local_plug_list]; it runs out of
    fuel when it has not emptied the list in [fuel] passes. *)
Fixpoint run_local_plug_list (fuel : nat) (w : plug_world)
  : option (plug_world * list nat) :=
  match fuel with
  | O => None
  | S fuel' =>
      match local_plug_list w with
      | [] => Some (w, [])
      | qa :: _ =>
          let '(w, ran) := generic_unplug_device w qa in
          '(w, rans) ← run_local_plug_list fuel' w;
          Some (w, ran ++ rans)
      end
  end.

Definition blk_run_queues (fuel : nat) (w : plug_world)
  : option (plug_world * list nat) :=
  match blk_plug_list w with
  | [] => Some (w, [])
  | plugged =>
      run_local_plug_list fuel
        (PlugWorld (queues w) [] (plugged ++ local_plug_list w))
  end.

End Driver.

(** *** Predicates used to state the properties *)

(** The plug lists hold no queue twice, no queue is on both, and a
    stopped queue is on neither. *)
Definition plug_inv (w : plug_world) : Prop :=
  NoDup (blk_plug_list w ++ local_plug_list w)
  /\ forall qa, blk_queue_plugged w qa = true -> queue_stopped w qa = false.

(** A driver that keeps to the rules while it runs: it leaves the plug
    lists in order and links no queue into [local_plug_list]. *)
Definition driver_keeps_plugs (request_fn : nat -> plug_world -> plug_world)
  : Prop :=
  forall qa w,
    plug_inv w ->
    plug_inv (request_fn qa w)
    /\ forall x, x ∈ local_plug_list (request_fn qa w) ->
                 x ∈ local_plug_list w.

End Plug.

(** ** drivers/block/ll_rw_blk.c: handing a bio to its driver *)

Module MakeRequest.
Import Kernel LlRwBlk.

(** The partition fields [blk_partition_remap] reads and counts in; the
    counters are taken as unbounded. *)
Record hd_struct := HdStruct {
  start_sect : Z;
  read_sectors : Z;
  reads : Z;
  write_sectors : Z;
  writes : Z
}.

(** A block device: the size of its inode in bytes, the device it is a
    partition of (itself for a whole device), its partition record, and
    its queue.  Modelled from the spec: [bdev_get_queue] is an inline of
    include/linux/blkdev.h, which is not among the sources; it returns
    the queue of the device's disk, or NULL. *)
Record block_device := BlockDevice {
  i_size : Z;
  bd_contains : nat;
  bd_part : hd_struct;
  bd_queue : option nat
}.

(** A bio with the device it is aimed at and its flag word. *)
Record dev_bio := DevBio {
  db : bio;
  bi_bdev : nat;
  bi_flags : Z
}.

(** A completion: [bio_endio(bio, bytes_done, error)].  fs/bio.c is not
    among the sources; the call is recorded with the bio as it was handed
    over. *)
Inductive io_event :=
| BioEndio (b : dev_bio) (bytes_done error : Z).

Record io_world := IoWorld {
  bdevs : nat -> block_device;
  rqueues : nat -> request_queue;
  trace : list io_event
}.

Definition log_event (e : io_event) (w : io_world) : io_world :=
  IoWorld (bdevs w) (rqueues w) (trace w ++ [e]).

Definition set_bd_part (p : hd_struct) (d : block_device) : block_device :=
  BlockDevice (i_size d) (bd_contains d) p (bd_queue d).

Definition update_bdev (w : io_world) (a : nat)
    (f : block_device -> block_device) : io_world :=
  IoWorld (fun x => if Nat.eqb x a then f (bdevs w a) else bdevs w x)
    (rqueues w) (trace w).

Definition set_bi_sector (v : Z) (b : bio) : bio :=
  Bio v (bi_size b) (bi_rw b) (bi_phys_segments b) (bi_hw_segments b).

(** [blk_partition_remap]; the [switch] counts a bio whose [bi_rw] is
    exactly [READ] or [WRITE]. *)
Definition blk_partition_remap (w : io_world) (b : dev_bio)
  : io_world * dev_bio :=
  let bdev := bdevs w (bi_bdev b) in
  if negb (Nat.eqb (bi_bdev b) (bd_contains bdev)) then
    let p := bd_part bdev in
    let p :=
      if bi_rw (db b) =? rw_flag READ then
        HdStruct (start_sect p) (read_sectors p + bio_sectors (db b))
          (reads p + 1) (write_sectors p) (writes p)
      else if bi_rw (db b) =? rw_flag WRITE then
        HdStruct (start_sect p) (read_sectors p) (reads p)
          (write_sectors p + bio_sectors (db b)) (writes p + 1)
      else p in
    (update_bdev w (bi_bdev b) (set_bd_part p),
     DevBio (set_bi_sector (bi_sector (db b) + start_sect p) (db b))
       (bd_contains bdev) (bi_flags b))
  else (w, b).

Section Driver.
(** [BIO_EOF] is a flag number of include/linux/bio.h, which is not
    among the sources. *)
Variable BIO_EOF : Z.

(** [q->make_request_fn(q, bio)] of the queue at the given address: its
    return value, the bio as it leaves it (a stacking driver aims it at
    another device), and the new state. *)
Variable make_request_fn : nat -> dev_bio -> io_world -> Z * dev_bio * io_world.

(** The label [end_io]. *)
Definition end_io (w : io_world) (b : dev_bio) : io_world :=
  log_event (BioEndio b (bi_size (db b)) (- Buffer.EIO)) w.

(** The [do ... while (ret)] loop; it runs out of fuel when the drivers
    have not resolved the mapping in [fuel] rounds. *)
Fixpoint resolve_mapping (fuel : nat) (w : io_world) (b : dev_bio)
  : option io_world :=
  match fuel with
  | O => None
  | S fuel' =>
      match bd_queue (bdevs w (bi_bdev b)) with
      | None => Some (end_io w b)
      | Some qa =>
          let q := rqueues w qa in
          if bio_sectors (db b) >? max_sectors q then Some (end_io w b)
          else if test_bit QUEUE_FLAG_DEAD (queue_flags q)
          then Some (end_io w b)
          else
            let '(w, b) := blk_partition_remap w b in
            let '(ret, b, w) := make_request_fn qa b w in
            if ret =? 0 then Some w else resolve_mapping fuel' w b
      end
  end.

Definition generic_make_request (fuel : nat) (w : io_world) (b : dev_bio)
  : option io_world :=
  let nr_sectors := bio_sectors (db b) in
  let maxsector := Z.shiftr (i_size (bdevs w (bi_bdev b))) 9 in
  if negb (maxsector =? 0)
     && ((maxsector <? nr_sectors)
         || (maxsector - nr_sectors <? bi_sector (db b)))
  then
    Some (end_io w
            (DevBio (db b) (bi_bdev b) (set_bit BIO_EOF (bi_flags b))))
  else resolve_mapping fuel w b.

End Driver.

End MakeRequest.

(** ** drivers/block/ll_rw_blk.c: the life of an io context *)

Module IoContextRefs.
Import Kernel LlRwBlk.

(** The scheduler's part of a context: whether its [dtor] and [exit]
    hooks are set. *)
Record as_io_context := AsIoContext {
  has_dtor : bool;
  has_exit : bool
}.

(** [struct io_context] as it is allocated: the reference count (taken
    as unbounded), the owner's pid, the batching fields and [aic]. *)
Record ioc_object := IocObject {
  refcount : Z;
  ioc_pid : Z;
  batch : io_context;
  aic : option as_io_context
}.

(** The contexts by address ([None] where no context is allocated), the
    current task's [io_context] pointer and pid, and the scheduler hooks
    run so far with the context they were run on. *)
Inductive hook_call := DtorCall (a : nat) | ExitCall (a : nat).

Record task_world := TaskWorld {
  iocs : nat -> option ioc_object;
  current_io_context : option nat;
  current_pid : Z;
  hook_calls : list hook_call
}.

Definition set_ioc (w : task_world) (a : nat) (o : option ioc_object)
  : task_world :=
  TaskWorld (fun x => if Nat.eqb x a then o else iocs w x)
    (current_io_context w) (current_pid w) (hook_calls w).

Definition set_current (w : task_world) (p : option nat) : task_world :=
  TaskWorld (iocs w) p (current_pid w) (hook_calls w).

Definition log_hook (w : task_world) (c : hook_call) : task_world :=
  TaskWorld (iocs w) (current_io_context w) (current_pid w)
    (hook_calls w ++ [c]).

Definition set_refcount (v : Z) (o : ioc_object) : ioc_object :=
  IocObject v (ioc_pid o) (batch o) (aic o).

(** [put_io_context]; a pointer to memory that holds no context is a
    use after free. *)
Definition put_io_context (w : task_world) (ioc : option nat)
  : outcome task_world :=
  match ioc with
  | None => Ok w
  | Some a =>
      match iocs w a with
      | None => Fault
      | Some o =>
          if refcount o =? 0 then Bug
          else if refcount o - 1 =? 0 then
            let w :=
              match aic o with
              | Some c => if has_dtor c then log_hook w (DtorCall a) else w
              | None => w
              end in
            Ok (set_ioc w a None)
          else Ok (set_ioc w a (Some (set_refcount (refcount o - 1) o)))
      end
  end.

(** [exit_io_context] *)
Definition exit_io_context (w : task_world) : outcome task_world :=
  match current_io_context w with
  | Some a =>
      match iocs w a with
      | None => Fault
      | Some o =>
          let w :=
            match aic o with
            | Some c => if has_exit c then log_hook w (ExitCall a) else w
            | None => w
            end in
          w ← put_io_context w (Some a);
          Ok (set_current w None)
      end
  | None => Ok w
  end.

(** [get_io_context]; [kmalloc] is the allocator's answer, asked only
    when the task has no context. *)
Definition get_io_context (jiffies : Z) (kmalloc : option nat)
    (w : task_world) : outcome (option nat * task_world) :=
  let '(ret, w) :=
    match current_io_context w with
    | Some a => (Some a, w)
    | None =>
        match kmalloc with
        | Some a =>
            (Some a,
             set_current
               (set_ioc w a
                  (Some (IocObject 1 (current_pid w) (IoContext 0 jiffies)
                           None)))
               (Some a))
        | None => (None, w)
        end
    end in
  match ret with
  | Some a =>
      match iocs w a with
      | None => Fault
      | Some o => Ok (ret, set_ioc w a (Some (set_refcount (refcount o + 1) o)))
      end
  | None => Ok (None, w)
  end.

(** [copy_io_context(&dst, &src)]: the state and the new [dst]. *)
Definition copy_io_context (w : task_world) (dst src : option nat)
  : outcome (task_world * option nat) :=
  match src with
  | Some s =>
      match iocs w s with
      | None => Fault
      | Some o =>
          if refcount o =? 0 then Bug
          else
            let w := set_ioc w s (Some (set_refcount (refcount o + 1) o)) in
            w ← put_io_context w dst;
            Ok (w, src)
      end
  | None => Ok (w, dst)
  end.

(** [swap_io_context(&ioc1, &ioc2)] *)
Definition swap_io_context (ioc1 ioc2 : option nat)
  : option nat * option nat :=
  (ioc2, ioc1).

(** *** Predicates used to state the properties *)

(** The pointers to the context at [a] among [refs]. *)
Definition refs_to (a : nat) (refs : list (option nat)) : Z :=
  Z.of_nat (length (filter (fun r => r = Some a) refs)).

(** Every context that is allocated is pointed to, and counts its
    pointers: the current task's and those in [held]; no pointer leads to
    memory without a context. *)
Definition refs_ok (w : task_world) (held : list (option nat)) : Prop :=
  forall a,
    match iocs w a with
    | Some o => refcount o = refs_to a (current_io_context w :: held)
                /\ 0 < refcount o
    | None => refs_to a (current_io_context w :: held) = 0
    end.

End IoContextRefs.

(** ** drivers/block/ll_rw_blk.c: ending I/O on part of a request *)

Module Completion.
Import Kernel LlRwBlk Segments.

(** A bio with its address, its index [bi_idx] into the vector and the
    vector itself ([bi_vcnt] is its length). *)
Record cbio := CBio {
  bio_addr : nat;
  cb : bio;
  bi_idx : nat;
  bi_io_vec : list bio_vec
}.

Definition set_bi_idx (v : nat) (b : cbio) : cbio :=
  CBio (bio_addr b) (cb b) v (bi_io_vec b).

Definition set_bi_io_vec (v : list bio_vec) (b : cbio) : cbio :=
  CBio (bio_addr b) (cb b) (bi_idx b) v.

Definition set_cb (v : bio) (b : cbio) : cbio :=
  CBio (bio_addr b) v (bi_idx b) (bi_io_vec b).

(** The request with the fields the completion code keeps beside those of
    [request]: [bios] is the chain from [rq->bio] with the vectors,
    [cbio] the address [rq->cbio] holds, [buffer] the page and offset
    [rq->buffer] points to. *)
Record creq := CReq {
  rq0 : request;
  errors : Z;
  hard_sector : Z;
  current_nr_sectors : Z;
  hard_cur_sectors : Z;
  nr_cbio_segments : Z;
  nr_cbio_sectors : Z;
  buffer : option (nat * Z);
  cbio_ptr : option nat;
  bios : list cbio
}.

Definition set_errors (v : Z) (r : creq) : creq :=
  CReq (rq0 r) v (hard_sector r) (current_nr_sectors r) (hard_cur_sectors r)
    (nr_cbio_segments r) (nr_cbio_sectors r) (buffer r) (cbio_ptr r) (bios r).

Definition set_bios (v : list cbio) (r : creq) : creq :=
  CReq (rq0 r) (errors r) (hard_sector r) (current_nr_sectors r)
    (hard_cur_sectors r) (nr_cbio_segments r) (nr_cbio_sectors r) (buffer r)
    (cbio_ptr r) v.

Definition set_sectors (sect nr hard_nr : Z) (r : request) : request :=
  Request (flags r) sect nr hard_nr (nr_phys_segments r) (nr_hw_segments r)
    (tag r) (bio_chain r) (ref_count r) (rq_q r) (rq_rl r) (rq_disk r)
    (waiting r) (special r) (rq_status r) (queuelist r).

(** Modelled from the spec: the accessors of include/linux/bio.h, which
    is not among the sources.  [bio_iovec_idx(bio, idx)] is the entry
    [bi_io_vec[idx]], [bio_iovec] the one at [bi_idx];
    [bio_cur_sectors] is that entry's length in sectors, [bio_segments]
    is [bi_vcnt - bi_idx], and [bio_data] the address its page and offset
    give.  An index at or beyond [bi_vcnt] is outside the vector.
    [BIO_BUG_ON] is [BUG_ON]. *)
Definition bio_iovec_idx (b : cbio) (idx : nat) : option bio_vec :=
  bi_io_vec b !! idx.

Definition bio_iovec (b : cbio) : option bio_vec := bio_iovec_idx b (bi_idx b).

Definition bio_segments (b : cbio) : Z :=
  Z.of_nat (length (bi_io_vec b)) - Z.of_nat (bi_idx b).

(** [blk_recalc_rq_sectors]; the count of sectors left is an
    [unsigned long]. *)
Definition blk_recalc_rq_sectors (rq : creq) (nsect : Z) : outcome creq :=
  if blk_fs_request (rq0 rq) then
    let hard_sect := hard_sector rq + nsect in
    let hard_nr := (hard_nr_sectors (rq0 rq) - nsect) mod 2 ^ BITS_PER_LONG in
    rq ←
      (if (nr_sectors (rq0 rq) >=? hard_nr)
          && (sector (rq0 rq) <=? hard_sect) then
         match bios rq with
         | [] => Fault
         | b :: _ =>
             match bio_iovec b with
             | None => Fault
             | Some v =>
                 let cur := Z.shiftr (bv_len v) 9 in
                 Ok (CReq (set_sectors hard_sect hard_nr hard_nr (rq0 rq))
                       (errors rq) hard_sect cur cur (bio_segments b)
                       (bio_sectors (cb b)) (Some (bv_page v, bv_offset v))
                       (Some (bio_addr b)) (bios rq))
             end
         end
       else
         Ok (CReq (set_sectors (sector (rq0 rq)) (nr_sectors (rq0 rq))
                     hard_nr (rq0 rq))
               (errors rq) hard_sect (current_nr_sectors rq)
               (hard_cur_sectors rq) (nr_cbio_segments rq)
               (nr_cbio_sectors rq) (buffer rq) (cbio_ptr rq) (bios rq)));
    if nr_sectors (rq0 rq) <? current_nr_sectors rq then
      Ok (CReq (set_sectors (sector (rq0 rq)) (current_nr_sectors rq)
                  (hard_nr_sectors (rq0 rq)) (rq0 rq))
            (errors rq) (hard_sector rq) (current_nr_sectors rq)
            (hard_cur_sectors rq) (nr_cbio_segments rq) (nr_cbio_sectors rq)
            (buffer rq) (cbio_ptr rq) (bios rq))
    else Ok rq
  else Ok rq.

(** The locals of [__end_that_request_first] with the chain from
    [req->bio], and the calls of [bio_endio] made so far: the bio as it
    was handed over, the bytes done and the error. *)
Record end_loop := EndLoop {
  l_bios : list cbio;
  l_nr_bytes : Z;
  l_total_bytes : Z;
  l_bio_nbytes : Z;
  l_next_idx : nat;
  l_ended : list (cbio * Z * Z)
}.

(** The test at the foot of the loop body, [if ((bio = req->bio)) if
    (nr_bytes <= 0) break;], with the loop's own condition: whether the
    loop goes on. *)
Definition goes_on (st : end_loop) : bool :=
  match l_bios st with
  | [] => false
  | _ => negb (l_nr_bytes st <=? 0)
  end.

(** One pass of the loop [while ((bio = req->bio))], and whether another
    follows. *)
Definition end_first_step (error : Z) (st : end_loop)
  : outcome (end_loop * bool) :=
  match l_bios st with
  | [] => Ok (st, false)
  | bio :: rest =>
      if l_nr_bytes st >=? bi_size (cb bio) then
        let nbytes := bi_size (cb bio) in
        let st := EndLoop rest (l_nr_bytes st - nbytes)
                    (l_total_bytes st + nbytes) 0 0
                    (l_ended st ++ [(bio, nbytes, error)]) in
        Ok (st, goes_on st)
      else
        let idx := (bi_idx bio + l_next_idx st)%nat in
        if (length (bi_io_vec bio) <=? bi_idx bio)%nat then Ok (st, false)
        else
          match bio_iovec_idx bio idx with
          | None => Fault
          | Some v =>
              let nbytes := bv_len v in
              if nbytes >? bi_size (cb bio) then Bug
              else if nbytes >? l_nr_bytes st then
                let v := BioVec (bv_page v) (bv_len v - l_nr_bytes st)
                           (bv_offset v + l_nr_bytes st) in
                Ok (EndLoop
                      (set_bi_io_vec (<[idx := v]> (bi_io_vec bio)) bio
                       :: rest)
                      (l_nr_bytes st) (l_total_bytes st + l_nr_bytes st)
                      (l_bio_nbytes st + l_nr_bytes st) (l_next_idx st)
                      (l_ended st),
                    false)
              else
                let st := EndLoop (bio :: rest) (l_nr_bytes st - nbytes)
                            (l_total_bytes st + nbytes)
                            (l_bio_nbytes st + nbytes) (S (l_next_idx st))
                            (l_ended st) in
                Ok (st, goes_on st)
          end
  end.

(** The loop; [None] when it has not come to its end in [fuel] passes. *)
Fixpoint end_first_loop (fuel : nat) (error : Z) (st : end_loop)
  : option (outcome end_loop) :=
  match fuel with
  | O => None
  | S fuel' =>
      match end_first_step error st with
      | Ok (st, true) => end_first_loop fuel' error st
      | Ok (st, false) => Some (Ok st)
      | Bug => Some Bug
      | Fault => Some Fault
      end
  end.

Section EndRequest.
Context `{BvecOps}.

(** [REQ_BLOCK_PC] is a flag of include/linux/blkdev.h and [bio_endio] a
    function of fs/bio.c, neither among the sources: [bio_endio b bytes
    error] is the bio as the call leaves it. *)
Variable REQ_BLOCK_PC : Z.
Variable bio_endio : cbio -> Z -> Z -> cbio.

Definition blk_pc_request (rq : creq) : bool :=
  negb (Z.land (flags (rq0 rq)) REQ_BLOCK_PC =? 0).

(** [blk_recalc_rq_segments(req)] on the chain with its vectors: each
    bio is counted from [bi_idx] on. *)
Definition recalc_segments (q : request_queue) (rq : creq) : outcome creq :=
  match bios rq with
  | [] => Ok rq
  | _ =>
      rq' ← blk_recalc_rq_segments q (rq0 rq)
              ((fun b => (cb b, Some (drop (bi_idx b) (bi_io_vec b))))
                 <$> bios rq);
      Ok (CReq rq' (errors rq) (hard_sector rq) (current_nr_sectors rq)
            (hard_cur_sectors rq) (nr_cbio_segments rq) (nr_cbio_sectors rq)
            (buffer rq) (cbio_ptr rq)
            (zip_with set_cb (bio_chain rq') (bios rq)))
  end.

(** [__end_that_request_first]: the return value, the request, and the
    calls of [bio_endio] in order. *)
Definition __end_that_request_first (fuel : nat) (q : request_queue)
    (req : creq) (uptodate : bool) (nr_bytes : Z)
  : option (outcome (Z * creq * list (cbio * Z * Z))) :=
  let req := if negb (blk_pc_request req) then set_errors 0 req else req in
  let error := if uptodate then 0 else - Buffer.EIO in
  match end_first_loop fuel error (EndLoop (bios req) nr_bytes 0 0 0 []) with
  | None => None
  | Some Bug => Some Bug
  | Some Fault => Some Fault
  | Some (Ok st) =>
      match l_bios st with
      | [] => Some (Ok (0, set_bios [] req, l_ended st))
      | bio :: rest =>
          let '(chain, ended) :=
            if negb (l_bio_nbytes st =? 0) then
              let bio' := bio_endio bio (l_bio_nbytes st) error in
              (set_bi_idx (bi_idx bio' + l_next_idx st) bio' :: rest,
               l_ended st ++ [(bio, l_bio_nbytes st, error)])
            else (bio :: rest, l_ended st) in
          Some (req ← blk_recalc_rq_sectors (set_bios chain req)
                        (Z.shiftr (l_total_bytes st) 9);
                req ← recalc_segments q req;
                Ok (1, req, ended))
      end
  end.

(** [end_that_request_first] counts in sectors, [end_that_request_chunk]
    in bytes. *)
Definition end_that_request_first (fuel : nat) (q : request_queue)
    (req : creq) (uptodate : bool) (nr_sectors : Z) :=
  __end_that_request_first fuel q req uptodate (Z.shiftl nr_sectors 9).

Definition end_that_request_chunk (fuel : nat) (q : request_queue)
    (req : creq) (uptodate : bool) (nr_bytes : Z) :=
  __end_that_request_first fuel q req uptodate nr_bytes.

End EndRequest.

(** *** Predicates used to state the properties *)

(** The bytes a bio's vector describes from [bi_idx] on, and those of a
    chain. *)
Definition bio_bytes (b : cbio) : Z :=
  vec_bytes (drop (bi_idx b) (bi_io_vec b)).

Fixpoint chain_bytes (chain : list cbio) : Z :=
  match chain with
  | [] => 0
  | b :: rest => bio_bytes b + chain_bytes rest
  end.

Fixpoint chain_size (chain : list cbio) : Z :=
  match chain with
  | [] => 0
  | b :: rest => bi_size (cb b) + chain_size rest
  end.

(** What a fully ended bio is ended with. *)
Definition ended_whole (error : Z) (b : cbio) : cbio * Z * Z :=
  (b, bi_size (cb b), error).

(** Passes enough for the loop on a chain: one for each bio and each
    vector entry. *)
Definition end_fuel (chain : list cbio) : nat :=
  S (length chain + length (concat (bi_io_vec <$> chain))).

(** A bio that has data left, all of it described by its vector. *)
Definition bio_consistent (b : cbio) : Prop :=
  0 < bi_size (cb b)
  /\ bi_size (cb b) = bio_bytes b
  /\ Forall (fun v => 0 <= bv_len v) (bi_io_vec b).

End Completion.

(** ** fs/buffer.c: completion of page I/O *)

Module AsyncIo.
Import Kernel Buffer.

Definition buffer_async_read (bh : buffer_head) : bool :=
  test_bit BH_Async_Read (b_state bh).
Definition buffer_async_write (bh : buffer_head) : bool :=
  test_bit BH_Async_Write (b_state bh).
Definition clear_buffer_async_read := clear_buffer_bit BH_Async_Read.
Definition clear_buffer_async_write := clear_buffer_bit BH_Async_Write.

(** A page under I/O: the ring of its buffers in [b_this_page] order,
    the page flags the completion handlers read and write, and the flag
    word of its mapping (NULL or not). *)
Record io_page := IoPage {
  ring : list buffer_head;
  PageLocked : bool;
  PageUptodate : bool;
  PageError : bool;
  PageWriteback : bool;
  PageReclaim : bool;
  mapping_flags : option Z
}.

Definition set_ring (v : list buffer_head) (pg : io_page) : io_page :=
  IoPage v (PageLocked pg) (PageUptodate pg) (PageError pg)
    (PageWriteback pg) (PageReclaim pg) (mapping_flags pg).

Definition SetPageError (pg : io_page) : io_page :=
  IoPage (ring pg) (PageLocked pg) (PageUptodate pg) true
    (PageWriteback pg) (PageReclaim pg) (mapping_flags pg).

Definition SetPageUptodate (pg : io_page) : io_page :=
  IoPage (ring pg) (PageLocked pg) true (PageError pg)
    (PageWriteback pg) (PageReclaim pg) (mapping_flags pg).

(** mm/filemap.c: [unlock_page] *)
Definition unlock_page (pg : io_page) : outcome io_page :=
  if negb (PageLocked pg) then Bug
  else Ok (IoPage (ring pg) false (PageUptodate pg) (PageError pg)
             (PageWriteback pg) (PageReclaim pg) (mapping_flags pg)).

(** The walk [do ... while (tmp != bh)] of [end_buffer_async_read] over
    the ring from [bh] on: [None] when it leaves for [still_busy], else
    the [page_uptodate] it ends with. *)
Fixpoint async_read_walk (l : list buffer_head) (page_uptodate : bool)
  : outcome (option bool) :=
  match l with
  | [] => Ok (Some page_uptodate)
  | tmp :: rest =>
      let page_uptodate :=
        if negb (buffer_uptodate tmp) then false else page_uptodate in
      if buffer_async_read tmp then
        if negb (buffer_locked tmp) then Bug else Ok None
      else async_read_walk rest page_uptodate
  end.

(** [end_buffer_async_read] on the buffer at place [i] of the ring. *)
Definition end_buffer_async_read (pg : io_page) (i : nat) (uptodate : bool)
  : outcome io_page :=
  match ring pg !! i with
  | None => Fault
  | Some bh =>
      if negb (buffer_async_read bh) then Bug
      else
        let '(bh, pg) :=
          if uptodate then (set_buffer_uptodate bh, pg)
          else (clear_buffer_uptodate bh, SetPageError pg) in
        let bh := unlock_buffer (clear_buffer_async_read bh) in
        let pg := set_ring (<[i := bh]> (ring pg)) pg in
        busy ← async_read_walk (drop i (ring pg) ++ take i (ring pg)) true;
        match busy with
        | None => Ok pg
        | Some page_uptodate =>
            let pg := if page_uptodate && negb (PageError pg)
                      then SetPageUptodate pg else pg in
            unlock_page pg
        end
  end.

(** The walk of [end_buffer_async_write] over the other buffers of the
    ring: whether it leaves for [still_busy]. *)
Fixpoint async_write_walk (l : list buffer_head) : outcome bool :=
  match l with
  | [] => Ok false
  | tmp :: rest =>
      if buffer_async_write tmp then
        if negb (buffer_locked tmp) then Bug else Ok true
      else async_write_walk rest
  end.

Section Writeback.
(** [AS_EIO] is a flag number of include/linux/pagemap.h and
    [rotate_reclaimable_page] a function of mm/swap.c, neither among the
    sources; the latter is given by its return value and the page it
    leaves. *)
Variable AS_EIO : Z.
Variable rotate_reclaimable_page : io_page -> Z * io_page.

(** mm/filemap.c: [end_page_writeback] *)
Definition end_page_writeback (pg : io_page) : outcome io_page :=
  let was_reclaim := PageReclaim pg in
  let pg := IoPage (ring pg) (PageLocked pg) (PageUptodate pg) (PageError pg)
              (PageWriteback pg) false (mapping_flags pg) in
  let '(clear, pg) :=
    if negb was_reclaim then (true, pg)
    else let '(r, pg) := rotate_reclaimable_page pg in
         (negb (r =? 0), pg) in
  if clear then
    if negb (PageWriteback pg) then Bug
    else Ok (IoPage (ring pg) (PageLocked pg) (PageUptodate pg)
               (PageError pg) false (PageReclaim pg) (mapping_flags pg))
  else Ok pg.

(** [end_buffer_async_write] on the buffer at place [i] of the ring. *)
Definition end_buffer_async_write (pg : io_page) (i : nat) (uptodate : bool)
  : outcome io_page :=
  match ring pg !! i with
  | None => Fault
  | Some bh =>
      if negb (buffer_async_write bh) then Bug
      else
        '(bh, pg) ←
          (if uptodate
           then Ok (set_buffer_uptodate bh, pg) : outcome (buffer_head * io_page)
           else
             match mapping_flags pg with
             | None => Fault
             | Some fl =>
                 Ok (clear_buffer_uptodate bh,
                     SetPageError
                       (IoPage (ring pg) (PageLocked pg) (PageUptodate pg)
                          (PageError pg) (PageWriteback pg) (PageReclaim pg)
                          (Some (set_bit AS_EIO fl))))
             end);
        let bh := unlock_buffer (clear_buffer_async_write bh) in
        let pg := set_ring (<[i := bh]> (ring pg)) pg in
        busy ← async_write_walk (drop (S i) (ring pg) ++ take i (ring pg));
        match busy with
        | true => Ok pg
        | false => end_page_writeback pg
        end
  end.

(** Completions delivered one after the other. *)
Fixpoint complete_writes (pg : io_page) (calls : list (nat * bool))
  : outcome io_page :=
  match calls with
  | [] => Ok pg
  | (i, uptodate) :: rest =>
      pg ← end_buffer_async_write pg i uptodate;
      complete_writes pg rest
  end.

End Writeback.

Fixpoint complete_reads (pg : io_page) (calls : list (nat * bool))
  : outcome io_page :=
  match calls with
  | [] => Ok pg
  | (i, uptodate) :: rest =>
      pg ← end_buffer_async_read pg i uptodate;
      complete_reads pg rest
  end.

(** *** Predicates used to state the properties *)

(** The buffers at the places [places] of the ring, and no others, are
    under asynchronous read (write), and each of them is locked. *)
Definition reads_in_flight (pg : io_page) (places : list nat) : Prop :=
  (forall i, i ∈ places -> is_Some (ring pg !! i))
  /\ forall i bh, ring pg !! i = Some bh ->
       (buffer_async_read bh = true <-> i ∈ places)
       /\ (buffer_async_read bh = true -> buffer_locked bh = true).

Definition writes_in_flight (pg : io_page) (places : list nat) : Prop :=
  (forall i, i ∈ places -> is_Some (ring pg !! i))
  /\ forall i bh, ring pg !! i = Some bh ->
       (buffer_async_write bh = true <-> i ∈ places)
       /\ (buffer_async_write bh = true -> buffer_locked bh = true).

(** A buffer once its read, or its write, has completed. *)
Definition read_completed (bh : buffer_head) (uptodate : bool)
  : buffer_head :=
  unlock_buffer
    (clear_buffer_async_read
       (if uptodate then set_buffer_uptodate bh
        else clear_buffer_uptodate bh)).

Definition write_completed (bh : buffer_head) (uptodate : bool)
  : buffer_head :=
  unlock_buffer
    (clear_buffer_async_write
       (if uptodate then set_buffer_uptodate bh
        else clear_buffer_uptodate bh)).

(** A page whose writeback has ended while it was not marked for
    reclaim. *)
Definition writeback_ended (pg : io_page) : io_page :=
  IoPage (ring pg) (PageLocked pg) (PageUptodate pg) (PageError pg)
    false false (mapping_flags pg).

(** The flag word of the mapping after the writes [calls], [AS_EIO]
    being the number of the error flag. *)
Definition flags_after (AS_EIO : Z) (fl : Z) (calls : list (nat * bool))
  : Z :=
  if existsb (fun c : nat * bool => negb c.2) calls
  then set_bit AS_EIO fl else fl.

End AsyncIo.

(** ** fs/buffer.c: synchronous reads and writes of one buffer *)

Module SyncIo.
Import Kernel Buffer.

(** Modelled from the spec: the directions [READ], [WRITE] and [READA]
    are constants of include/linux/fs.h, which is not among the
    sources. *)
Definition READ : Z := 0.
Definition WRITE : Z := 1.
Definition READA : Z := 2.

Section Device.
Variable io_ok : nat -> nat -> bool.

(** Modelled from the spec: [lock_buffer] is an inline of
    include/linux/buffer_head.h, which is not among the sources: it takes
    the lock bit, sleeping in [__wait_on_buffer] as long as the bit is
    taken.  The thread runs alone, so the holder of the bit is the I/O in
    flight, and the bit is free once that has completed. *)
Definition lock_buffer (s : io_state) (p : nat) : io_state :=
  let s := wait_on_buffer io_ok s p in
  with_buf s p (fun bh => snd (test_set_buffer_locked bh)).

(** [submit_bh(rw, bh)]; the bio it builds stays in flight until the
    buffer is waited for. *)
Definition submit_bh (rw : Z) (s : io_state) (p : nat) : outcome io_state :=
  let bh := bufs s p in
  if negb (buffer_locked bh) then Bug
  else if negb (buffer_mapped bh) then Bug
  else
    let '(was_req, bh) := test_set_buffer_req bh in
    let bh := if was_req && (rw =? WRITE)
              then clear_buffer_write_io_error bh else bh in
    Ok (with_buf s p (fun _ => bh)).

Definition sync_dirty_buffer (s : io_state) (p : nat) : outcome io_state :=
  let s := lock_buffer s p in
  let '(was_dirty, bh) := test_clear_buffer_dirty (bufs s p) in
  let s := with_buf s p (fun _ => bh) in
  if was_dirty then
    let s := with_buf s p get_bh in
    let s := with_buf s p (set_b_end_io end_buffer_write_sync_fn) in
    s ← submit_bh WRITE s p;
    Ok (wait_on_buffer io_ok s p)
  else Ok (with_buf s p unlock_buffer).

(** [__bread_slow]: the buffer it returns, or NULL. *)
Definition __bread_slow (s : io_state) (p : nat)
  : outcome (option nat * io_state) :=
  let s := lock_buffer s p in
  if buffer_uptodate (bufs s p) then Ok (Some p, with_buf s p unlock_buffer)
  else
    let s := with_buf s p get_bh in
    let s := with_buf s p (set_b_end_io end_buffer_read_sync_fn) in
    s ← submit_bh READ s p;
    let s := wait_on_buffer io_ok s p in
    if buffer_uptodate (bufs s p) then Ok (Some p, s)
    else Ok (None, IoState (brelse (bufs s) (Some p)) (completed s)).

(** [ll_rw_block(rw, nr, bhs)] *)
Fixpoint ll_rw_block (rw : Z) (bhs : list nat) (s : io_state)
  : outcome io_state :=
  match bhs with
  | [] => Ok s
  | p :: rest =>
      let '(was_locked, bh) := test_set_buffer_locked (bufs s p) in
      if was_locked then ll_rw_block rw rest s
      else
        let s := with_buf s p (fun _ => get_bh bh) in
        if rw =? WRITE then
          let s := with_buf s p (set_b_end_io end_buffer_write_sync_fn) in
          let '(was_dirty, bh) := test_clear_buffer_dirty (bufs s p) in
          let s := with_buf s p (fun _ => bh) in
          if was_dirty then
            s ← submit_bh WRITE s p;
            ll_rw_block rw rest s
          else
            ll_rw_block rw rest
              (with_buf s p (fun bh => put_bh (unlock_buffer bh)))
        else
          let s := with_buf s p (set_b_end_io end_buffer_read_sync_fn) in
          if negb (buffer_uptodate (bufs s p)) then
            s ← submit_bh rw s p;
            ll_rw_block rw rest s
          else
            ll_rw_block rw rest
              (with_buf s p (fun bh => put_bh (unlock_buffer bh)))
  end.

End Device.

(** *** Predicates used to state the properties *)

(** Whether [ll_rw_block] finds I/O to do on a buffer it has locked. *)
Definition wants_io (rw : Z) (bh : buffer_head) : bool :=
  if rw =? WRITE then buffer_dirty bh else negb (buffer_uptodate bh).

(** What [ll_rw_block] does to one buffer: [bh] before, [bh'] after. *)
Definition ll_rw_block_effect (rw : Z) (bh bh' : buffer_head) : Prop :=
  if buffer_locked bh then bh' = bh
  else
    b_end_io bh'
    = (if rw =? WRITE then end_buffer_write_sync_fn
       else end_buffer_read_sync_fn)
    /\ buffer_mapped bh' = buffer_mapped bh
    /\ buffer_uptodate bh' = buffer_uptodate bh
    /\ if wants_io rw bh
       then buffer_locked bh' = true
            /\ b_count bh' = b_count bh + 1
            /\ buffer_req bh' = true
            /\ buffer_dirty bh' = (if rw =? WRITE then false
                                   else buffer_dirty bh)
       else buffer_locked bh' = false
            /\ b_count bh' = b_count bh
            /\ buffer_req bh' = buffer_req bh
            /\ buffer_dirty bh' = buffer_dirty bh.

End SyncIo.

(** ** fs/buffer.c: releasing the buffers of a page *)

Module FreeBuffers.
Import Kernel Buffer.

(** A page with buffers: the ring of its buffers in [b_this_page] order
    from the head, each with its address (empty when the page has no
    buffers), the page flags and reference count, and the flag word of
    its mapping (NULL or not). *)
Record fb_page := FbPage {
  ring : list (nat * buffer_head);
  PageLocked : bool;
  PageWriteback : bool;
  PageUptodate : bool;
  PageDirty : bool;
  PageSwapCache : bool;
  page_count : Z;
  mapping_flags : option Z
}.

(** The page, the buffers linked into a [b_assoc_buffers] list, and the
    buffer heads handed to [free_buffer_head] so far. *)
Record fb_state := FbState {
  page : fb_page;
  assoc_buffers : list nat;
  freed : list nat
}.

Definition buffer_busy (bh : buffer_head) : Z :=
  Z.lor (b_count bh)
    (Z.land (b_state bh) (Z.lor (Z.shiftl 1 BH_Dirty) (Z.shiftl 1 BH_Lock))).

Section Mapping.
(** [AS_EIO] is a flag number of include/linux/pagemap.h, which is not
    among the sources. *)
Variable AS_EIO : Z.

(** First walk of [drop_buffers]: whether it reaches the end of the ring
    without leaving for [failed], and the mapping's flags then.
    [check_ttfb_buffer] and the [was_uptodate] test only lead to the
    diagnostic of [buffer_error]. *)
Fixpoint drop_walk (l : list (nat * buffer_head)) (fl : option Z)
  : outcome (bool * option Z) :=
  match l with
  | [] => Ok (true, fl)
  | (_, bh) :: rest =>
      fl ← (if buffer_write_io_error bh
            then match fl with
                 | None => Fault
                 | Some f => Ok (Some (set_bit AS_EIO f))
                 end
            else Ok fl);
      if negb (buffer_busy bh =? 0) then Ok (false, fl)
      else drop_walk rest fl
  end.

(** Second walk: [__remove_assoc_queue] on the buffers that are linked. *)
Fixpoint unlink_walk (l : list (nat * buffer_head)) (assoc : list nat)
  : list nat :=
  match l with
  | [] => assoc
  | (a, _) :: rest =>
      let assoc :=
        if bool_decide (a ∈ assoc)
        then filter (fun x => x <> a) assoc else assoc in
      unlink_walk rest assoc
  end.

Definition set_mapping_flags (fl : option Z) (pg : fb_page) : fb_page :=
  FbPage (ring pg) (PageLocked pg) (PageWriteback pg) (PageUptodate pg)
    (PageDirty pg) (PageSwapCache pg) (page_count pg) fl.

(** [__clear_page_buffers] *)
Definition __clear_page_buffers (pg : fb_page) : fb_page :=
  FbPage [] (PageLocked pg) (PageWriteback pg) (PageUptodate pg)
    (PageDirty pg) (PageSwapCache pg) (page_count pg - 1) (mapping_flags pg).

(** Modelled from the spec: [clear_page_dirty] belongs to
    include/linux/mm.h and mm/page-writeback.c, which are not among the
    sources; it clears the dirty flag of the page. *)
Definition clear_page_dirty (pg : fb_page) : fb_page :=
  FbPage (ring pg) (PageLocked pg) (PageWriteback pg) (PageUptodate pg)
    false (PageSwapCache pg) (page_count pg) (mapping_flags pg).

(** [drop_buffers]: its result, the state, and [*buffers_to_free] as the
    ring it leaves to be freed.  [page_buffers] is a BUG on a page without
    buffers. *)
Definition drop_buffers (st : fb_state)
  : outcome (Z * fb_state * list (nat * buffer_head)) :=
  let pg := page st in
  match ring pg with
  | [] => Bug
  | head :: _ =>
      '(whole, fl) ← drop_walk (ring pg) (mapping_flags pg);
      let pg := set_mapping_flags fl pg in
      if (whole : bool) then
        let assoc := unlink_walk (ring pg) (assoc_buffers st) in
        Ok (1, FbState (__clear_page_buffers pg) assoc (freed st), ring pg)
      else Ok (0, FbState pg (assoc_buffers st) (freed st), [])
  end.

Definition try_to_free_buffers (st : fb_state) : outcome (Z * fb_state) :=
  let pg := page st in
  if negb (PageLocked pg) then Bug
  else if PageWriteback pg then Ok (0, st)
  else
    '(ret, st, buffers_to_free) ←
      match mapping_flags pg with
      | None => drop_buffers st
      | Some _ =>
          '(ret, st, buffers_to_free) ← drop_buffers st;
          if negb ((ret : Z) =? 0) && negb (PageSwapCache (page st)) then
            Ok (ret, FbState (clear_page_dirty (page st)) (assoc_buffers st)
                       (freed st), buffers_to_free)
          else Ok (ret, st, buffers_to_free)
      end;
    Ok (ret, FbState (page st) (assoc_buffers st)
               (freed st ++ buffers_to_free.*1)).

End Mapping.

(** *** Predicates used to state the properties *)

(** A buffer nobody uses: no reference, clean and unlocked. *)
Definition idle (bh : buffer_head) : Prop :=
  b_count bh = 0 /\ buffer_dirty bh = false /\ buffer_locked bh = false.

(** The buffers of the ring up to the first busy one, that one
    included. *)
Fixpoint examined (l : list (nat * buffer_head))
  : list (nat * buffer_head) :=
  match l with
  | [] => []
  | x :: rest =>
      if buffer_busy x.2 =? 0 then x :: examined rest else [x]
  end.

(** Whether one of the buffers carries a write error. *)
Definition write_error_among (l : list (nat * buffer_head)) : bool :=
  existsb (fun x : nat * buffer_head => buffer_write_io_error x.2) l.

End FreeBuffers.

(** ** drivers/block/ll_rw_blk.c: walking a request while submitting it *)

Module Traversal.
Import Kernel LlRwBlk Segments Completion.

Definition set_cursor (cur hard_cur segs sects : Z) (ptr : option nat)
    (r : creq) : creq :=
  CReq (rq0 r) (errors r) (hard_sector r) cur hard_cur segs sects (buffer r)
    ptr (bios r).

(** The bio at an address of the chain, with the bio its [bi_next] points
    to. *)
Fixpoint bio_at (a : nat) (chain : list cbio) : option (cbio * option cbio) :=
  match chain with
  | [] => None
  | b :: rest =>
      if Nat.eqb (bio_addr b) a then Some (b, head rest) else bio_at a rest
  end.

(** Modelled from the spec: [blk_rq_vec] is a macro of
    include/linux/blkdev.h, which is not among the sources: the entry
    [bi_vcnt - nr_cbio_segments] of the vector of [rq->cbio]. *)
Definition blk_rq_vec (b : cbio) (nr_cbio_segments : Z) : option bio_vec :=
  let idx := Z.of_nat (length (bi_io_vec b)) - nr_cbio_segments in
  if idx <? 0 then None else bio_iovec_idx b (Z.to_nat idx).

(** [blk_rq_next_segment]; a [cbio] that is NULL or outside the chain
    cannot be followed. *)
Definition blk_rq_next_segment (rq : creq) : outcome creq :=
  if current_nr_sectors rq >? 0 then Ok rq
  else
    match cbio_ptr rq with
    | None => Fault
    | Some a =>
        match bio_at a (bios rq) with
        | None => Fault
        | Some (b, next) =>
            rq ←
              (if nr_cbio_sectors rq >? 0 then
                 let segs := nr_cbio_segments rq - 1 in
                 match blk_rq_vec b segs with
                 | None => Fault
                 | Some v =>
                     Ok (set_cursor (Z.shiftr (bv_len v) 9)
                           (hard_cur_sectors rq) segs (nr_cbio_sectors rq)
                           (Some a) rq)
                 end
               else
                 match next with
                 | Some nb =>
                     match bio_iovec nb with
                     | None => Fault
                     | Some v =>
                         Ok (set_cursor (Z.shiftr (bv_len v) 9)
                               (hard_cur_sectors rq) (bio_segments nb)
                               (bio_sectors (cb nb)) (Some (bio_addr nb)) rq)
                     end
                 | None =>
                     Ok (set_cursor (current_nr_sectors rq)
                           (hard_cur_sectors rq) (nr_cbio_segments rq)
                           (nr_cbio_sectors rq) None rq)
                 end);
            Ok (set_cursor (current_nr_sectors rq) (current_nr_sectors rq)
                  (nr_cbio_segments rq) (nr_cbio_sectors rq) (cbio_ptr rq)
                  rq)
        end
    end.

(** The loop [while (nr_sectors)] of [process_that_request_first];
    [None] when it has not come to its end in [fuel] passes. *)
Fixpoint process_loop (fuel : nat) (req : creq) (nr_sectors : Z)
  : option (outcome creq) :=
  match fuel with
  | O => None
  | S fuel' =>
      if nr_sectors =? 0 then Some (Ok req)
      else
        let nsect := Z.min (current_nr_sectors req) nr_sectors in
        let req := set_cursor (current_nr_sectors req - nsect)
                     (hard_cur_sectors req) (nr_cbio_segments req)
                     (nr_cbio_sectors req) (cbio_ptr req) req in
        let nr_sectors := nr_sectors - nsect in
        match cbio_ptr req with
        | Some _ =>
            let req := set_cursor (current_nr_sectors req)
                         (hard_cur_sectors req) (nr_cbio_segments req)
                         (nr_cbio_sectors req - nsect) (cbio_ptr req) req in
            match blk_rq_next_segment req with
            | Ok req => process_loop fuel' req nr_sectors
            | Bug => Some Bug
            | Fault => Some Fault
            end
        | None => process_loop fuel' req nr_sectors
        end
  end.

(** [process_that_request_first]: the return value and the request. *)
Definition process_that_request_first (fuel : nat) (req : creq)
    (nr : Z) : option (outcome (Z * creq)) :=
  if nr_sectors (rq0 req) <? nr then Some (Ok (0, req))
  else
    let req :=
      CReq (set_sectors (sector (rq0 req) + nr) (nr_sectors (rq0 req) - nr)
              (hard_nr_sectors (rq0 req)) (rq0 req))
        (errors req) (hard_sector req) (current_nr_sectors req)
        (hard_cur_sectors req) (nr_cbio_segments req) (nr_cbio_sectors req)
        (buffer req) (cbio_ptr req) (bios req) in
    match process_loop fuel req nr with
    | None => None
    | Some (Ok req) => Some (Ok (1, req))
    | Some Bug => Some Bug
    | Some Fault => Some Fault
    end.

(** *** Predicates used to state the properties *)

(** The sectors the entries of a vector hold, and those of a chain of
    bios. *)
Fixpoint vec_sectors (l : list bio_vec) : Z :=
  match l with
  | [] => 0
  | v :: rest => Z.shiftr (bv_len v) 9 + vec_sectors rest
  end.

Fixpoint chain_sectors (chain : list cbio) : Z :=
  match chain with
  | [] => 0
  | b :: rest => bio_sectors (cb b) + chain_sectors rest
  end.

Definition whole_sectors (l : list bio_vec) : Prop :=
  Forall (fun v => 0 < Z.shiftr (bv_len v) 9) l.

(** A bio not yet walked: its vector from [bi_idx] on is not empty, every
    entry holds at least a sector, and together they hold the sectors of
    the bio. *)
Definition walkable (b : cbio) : Prop :=
  (bi_idx b < length (bi_io_vec b))%nat
  /\ whole_sectors (drop (bi_idx b) (bi_io_vec b))
  /\ bio_sectors (cb b) = vec_sectors (drop (bi_idx b) (bi_io_vec b)).

(** The submission cursor of a request with [left] sectors to submit.
    Either it stands in entry [k] of the bio [rq->cbio] of the chain,
    with [current_nr_sectors] of the entry, [nr_cbio_sectors] of the bio
    and [left] of the chain still to go; or nothing is left and [cbio] is
    NULL. *)
Definition cursor_ok (rq : creq) (left : Z) : Prop :=
  (exists pre b post k v,
     bios rq = pre ++ b :: post
     /\ NoDup (bio_addr <$> bios rq)
     /\ cbio_ptr rq = Some (bio_addr b)
     /\ bi_io_vec b !! k = Some v
     /\ nr_cbio_segments rq = Z.of_nat (length (bi_io_vec b)) - Z.of_nat k
     /\ 0 < current_nr_sectors rq <= Z.shiftr (bv_len v) 9
     /\ whole_sectors (drop (S k) (bi_io_vec b))
     /\ nr_cbio_sectors rq
        = current_nr_sectors rq + vec_sectors (drop (S k) (bi_io_vec b))
     /\ Forall walkable post
     /\ left = nr_cbio_sectors rq + chain_sectors post)
  \/ (cbio_ptr rq = None /\ current_nr_sectors rq = 0 /\ left = 0).

End Traversal.

(** ** Concrete queues, vectors and plug lists *)

Module MoreSamples.
Import Kernel LlRwBlk Buffer BlockQueue Segments Plug MakeRequest
  IoContextRefs Completion AsyncIo SyncIo.

(** A queue with a hardware sector of 512 bytes and a boundary at every
    page. *)
Definition sample_limits : queue_limits :=
  QueueLimits Samples.tight_queue 512 4095 511.

(** Memory in which a page continues the page numbered one below it, and
    no page needs bouncing. *)
Definition page_ops : BvecOps :=
  {| biovec_phys_mergeable := fun a b => Nat.eqb (S (bv_page a)) (bv_page b);
     biovec_virt_mergeable := fun a b => Nat.eqb (S (bv_page a)) (bv_page b);
     biovec_seg_boundary := fun _ _ _ => true;
     page_is_high := fun _ _ => false |}.

(** A request of two bios: pages 1 and 2, then page 7. *)
Definition two_bio_chain : list (bio * list bio_vec) :=
  [(Samples.page_bio 0 1, [BioVec 1 4096 0; BioVec 2 4096 0]);
   (Samples.page_bio 16 1, [BioVec 7 4096 0])].

Definition blank_sg (n : nat) : list scatterlist :=
  replicate n (Scatterlist 0 0 0).

(** Queues 1 and 2 plugged, none stopped; a driver that takes what it is
    given and a scheduler that always has a request. *)
Definition idle_queue : plug_queue :=
  PlugQueue (Samples.sample_queue 0 0 0) 4 3 (Some 3) false.

Definition plugged_world : plug_world :=
  PlugWorld (fun _ => idle_queue) [1%nat; 2%nat] [].

Definition quiet_driver : nat -> plug_world -> plug_world := fun _ w => w.

Definition always_ready : plug_world -> nat -> bool := fun _ _ => true.

(** A disk of 2048 sectors (device 0) with a partition that starts at
    sector 100 (device 1), both served by queue 0; a driver that takes
    every bio. *)
Definition disk_world : io_world :=
  IoWorld
    (fun a => match a with
              | O => BlockDevice 1048576 0 (HdStruct 0 0 0 0 0) (Some 0%nat)
              | _ => BlockDevice 524288 0 (HdStruct 100 0 0 0 0) (Some 0%nat)
              end)
    (fun _ => Samples.tight_queue) [].

Definition accepting_driver : nat -> dev_bio -> io_world -> Z * dev_bio * io_world :=
  fun _ b w => (0, b, w).

(** A task (pid 7) that has done no I/O yet: no context is allocated. *)
Definition new_task : task_world := TaskWorld (fun _ => None) None 7 [].

(** A filesystem write of two one-page bios at sectors 0 and 8, and a
    [bio_endio] that moves the bio on by the bytes done. *)
Definition two_page_request : creq :=
  CReq (Samples.queued_request Samples.write_cmd 0 2) 0 0 8 8 1 8 None
    (Some 1%nat)
    [CBio 1 (Samples.page_bio 0 1) 0 [BioVec 1 4096 0];
     CBio 2 (Samples.page_bio 8 1) 0 [BioVec 2 4096 0]].

Definition advance_bio (b : cbio) (bytes_done error : Z) : cbio :=
  set_cb (Bio (bi_sector (cb b) + Z.shiftr bytes_done 9)
            (bi_size (cb b) - bytes_done) (bi_rw (cb b))
            (bi_phys_segments (cb b)) (bi_hw_segments (cb b))) b.

(** A page of four buffers of 1024 bytes.  The second one is mapped and
    uptodate and under no I/O; the three others are mapped, locked and
    under asynchronous read (write; these are dirty too). *)
Definition idle_buffer (blk : Z) : buffer_head :=
  BufferHead (Z.shiftl 1 BH_Uptodate + Z.shiftl 1 BH_Mapped) 0 0 blk 1024
    end_io_unlock_only.

Definition buffer_being_read (blk : Z) : buffer_head :=
  BufferHead
    (Z.shiftl 1 BH_Lock + Z.shiftl 1 BH_Mapped + Z.shiftl 1 BH_Async_Read)
    0 0 blk 1024 end_io_unlock_only.

Definition buffer_being_written (blk : Z) : buffer_head :=
  BufferHead
    (Z.shiftl 1 BH_Uptodate + Z.shiftl 1 BH_Dirty + Z.shiftl 1 BH_Lock
     + Z.shiftl 1 BH_Mapped + Z.shiftl 1 BH_Async_Write)
    0 0 blk 1024 end_io_unlock_only.

Definition page_being_read : io_page :=
  IoPage [buffer_being_read 8; idle_buffer 9; buffer_being_read 10;
          buffer_being_read 11]
    true false false false false None.

Definition page_being_written : io_page :=
  IoPage [buffer_being_written 8; idle_buffer 9; buffer_being_written 10;
          buffer_being_written 11]
    false true false true false (Some 0).

(** The completions arrive out of order; the second of them reports a
    failure. *)
Definition completions : list (nat * bool) :=
  [(2%nat, true); (0%nat, false); (3%nat, true)].

(** A [rotate_reclaimable_page] that declines every page. *)
Definition no_rotation (pg : io_page) : Z * io_page := (1, pg).

(** Buffers held by one reference each: buffer 0 is uptodate and dirty,
    buffer 1 is mapped but not yet read, buffer 2 is being written, and
    the others are idle.  The device fails every I/O on buffer 1. *)
Definition held_buffers : bh_heap := fun p =>
  match p with
  | 0%nat =>
      BufferHead
        (Z.shiftl 1 BH_Uptodate + Z.shiftl 1 BH_Dirty + Z.shiftl 1 BH_Mapped)
        1 0 40 1024 end_io_unlock_only
  | 1%nat =>
      BufferHead (Z.shiftl 1 BH_Mapped) 1 0 41 1024 end_io_unlock_only
  | 2%nat =>
      BufferHead
        (Z.shiftl 1 BH_Uptodate + Z.shiftl 1 BH_Lock + Z.shiftl 1 BH_Req
         + Z.shiftl 1 BH_Mapped)
        2 0 42 1024 end_buffer_write_sync_fn
  | _ => idle_buffer 0
  end.

Definition held_state : io_state := IoState held_buffers (fun _ => 0%nat).

Definition failing_on_1 (p k : nat) : bool := negb (Nat.eqb p 1).

(** A locked, dirty page of a mapping with two idle buffers at the
    addresses 5 and 6; the second one carries a write error and is linked
    into an association list. *)
Definition failed_buffer (blk : Z) : buffer_head :=
  BufferHead
    (Z.shiftl 1 BH_Req + Z.shiftl 1 BH_Mapped + Z.shiftl 1 BH_Write_EIO)
    0 0 blk 2048 end_buffer_write_sync_fn.

Definition releasable_page : FreeBuffers.fb_state :=
  FreeBuffers.FbState
    (FreeBuffers.FbPage [(5%nat, idle_buffer 20); (6%nat, failed_buffer 21)]
       true false true true false 3 (Some 0))
    [6%nat; 9%nat] [].

(** A request of 24 sectors not yet submitted: a bio of two pages at
    address 1, then a bio of one page at address 2; the cursor stands at
    the start of the first page. *)
Definition unsubmitted_request : creq :=
  CReq (Completion.set_sectors 0 24 24
          (Samples.queued_request Samples.write_cmd 0 3))
    0 0 8 8 2 16 None (Some 1%nat)
    [CBio 1 (Bio 0 8192 1 2 2) 0 [BioVec 1 4096 0; BioVec 2 4096 0];
     CBio 2 (Bio 16 4096 1 1 1) 0 [BioVec 7 4096 0]].

End MoreSamples.

(** * Properties *)

(** ** Facts about flag words *)

Module BitFacts.
Import Kernel.

Lemma test_set_bit_eq nr w : 0 <= nr -> test_bit nr (set_bit nr w) = true.
Proof. intros. unfold test_bit, set_bit. now apply Z.setbit_eq. Qed.

Lemma test_set_bit_neq nr nr' w :
  0 <= nr -> 0 <= nr' -> nr <> nr' -> test_bit nr' (set_bit nr w) = test_bit nr' w.
Proof. intros. unfold test_bit, set_bit. now apply Z.setbit_neq. Qed.

Lemma test_clear_bit_eq nr w : 0 <= nr -> test_bit nr (clear_bit nr w) = false.
Proof. intros. unfold test_bit, clear_bit. now apply Z.clearbit_eq. Qed.

Lemma test_clear_bit_neq nr nr' w :
  0 <= nr -> 0 <= nr' -> nr <> nr' -> test_bit nr' (clear_bit nr w) = test_bit nr' w.
Proof. intros. unfold test_bit, clear_bit. now apply Z.clearbit_neq. Qed.


Lemma flag_cleared f m : Z.land (Z.land f (Z.lnot m)) m = 0.
Proof.
  apply Z.bits_inj'. intros i Hi.
  rewrite !Z.land_spec, Z.lnot_spec, Z.bits_0 by assumption.
  destruct (Z.testbit f i), (Z.testbit m i); reflexivity.
Qed.



End BitFacts.

(** ** drivers/block/ll_rw_blk.c *)

Module LlRwBlkProofs.
Import Kernel LlRwBlk BitFacts.

Lemma wake_up_head w rest :
  exists rest' tasks, wake_up (w :: rest) = (rest', wq_task w :: tasks).
Proof.
  unfold wake_up. simpl.
  destruct (wq_exclusive w); simpl.
  - eauto.
  - destruct (__wake_up_common rest 1) as [r t]. eauto.
Qed.

Lemma to_int_small z : - 2147483648 <= z < 2147483648 -> to_int z = z.
Proof.
  intros Hz. unfold to_int.
  change (2 ^ 31) with 2147483648. change (2 ^ 32) with 4294967296.
  rewrite Z.mod_small; lia.
Qed.

Lemma to_int_le z : 0 <= z < 4294967296 -> to_int z <= z.
Proof.
  intros Hz. unfold to_int.
  change (2 ^ 31) with 2147483648. change (2 ^ 32) with 4294967296.
  pose proof (Z.mod_pos_bound (z + 2147483648) 4294967296 ltac:(lia)).
  pose proof (Z.div_mod (z + 2147483648) 4294967296 ltac:(lia)).
  assert (0 <= (z + 2147483648) / 4294967296) by (apply Z.div_pos; lia).
  lia.
Qed.

Lemma quot_8_bounds n :
  0 <= n -> 8 * (n ÷ 8) <= n < 8 * (n ÷ 8) + 8.
Proof.
  intros Hn. rewrite Z.quot_div_nonneg by lia.
  pose proof (Z.div_mod n 8 ltac:(lia)).
  pose proof (Z.mod_pos_bound n 8 ltac:(lia)). lia.
Qed.

(** As long as the sums fit an [int], the thresholds are the numbers the
    comments of the code give. *)
Lemma on_threshold_eq q :
  0 <= nr_requests q <= 2454267024 ->
  queue_congestion_on_threshold q
  = Z.min (nr_requests q) (nr_requests q - nr_requests q ÷ 8 + 1).
Proof.
  intros Hn. unfold queue_congestion_on_threshold.
  pose proof (quot_8_bounds (nr_requests q) ltac:(lia)) as Hq.
  set (n := nr_requests q) in *. set (k := n ÷ 8) in *.
  rewrite (to_int_small (n - k + 1)) by lia.
  change (2 ^ BITS_PER_LONG) with 4294967296.
  rewrite Z.mod_small by lia.
  destruct (Z.gtb_spec (n - k + 1) n); [rewrite to_int_small by lia|]; lia.
Qed.

Lemma off_threshold_eq q :
  0 <= nr_requests q <= 2454267024 ->
  queue_congestion_off_threshold q
  = Z.max 1 (nr_requests q - nr_requests q ÷ 8 - 1).
Proof.
  intros Hn. unfold queue_congestion_off_threshold.
  pose proof (quot_8_bounds (nr_requests q) ltac:(lia)) as Hq.
  set (n := nr_requests q) in *. set (k := n ÷ 8) in *.
  rewrite (to_int_small (n - k - 1)) by lia.
  destruct (Z.ltb_spec (n - k - 1) 1); lia.
Qed.

Lemma off_threshold_le_on q :
  1 <= nr_requests q <= 2454267024 ->
  queue_congestion_off_threshold q <= queue_congestion_on_threshold q.
Proof.
  intros Hn. rewrite off_threshold_eq, on_threshold_eq by lia.
  pose proof (quot_8_bounds (nr_requests q) ltac:(lia)). lia.
Qed.


Lemma rw_get_set {A} (a : rw_array A) rw x : rw_get (rw_set a rw x) rw = x.
Proof. now destruct rw. Qed.

Lemma rw_get_set_other {A} (a : rw_array A) rw x :
  rw_get (rw_set a rw x) (other_rw rw) = rw_get a (other_rw rw).
Proof. now destruct rw. Qed.



Lemma full_bit_nonneg rw : 0 <= full_bit rw.
Proof. destruct rw; cbv; congruence. Qed.

Lemma full_bit_other rw : full_bit rw <> full_bit (other_rw rw).
Proof. destruct rw; cbv; congruence. Qed.

(** What [freed_request] does to the accounting fields. *)
Lemma freed_request_fields s rw :
  let c := rw_get (count (rq (queue s))) rw in
  let s' := freed_request s rw in
  count (rq (queue s')) = rw_set (count (rq (queue s))) rw (c - 1)
  /\ nr_requests (queue s') = nr_requests (queue s)
  /\ bdi_state (queue s')
     = (if c - 1 <? queue_congestion_off_threshold (queue s)
        then clear_bit (congested_bit rw) (bdi_state (queue s))
        else bdi_state (queue s))
  /\ rw_get (wait (rq (queue s'))) (other_rw rw)
     = rw_get (wait (rq (queue s))) (other_rw rw)
  /\ test_bit (full_bit (other_rw rw)) (queue_flags (queue s'))
     = test_bit (full_bit (other_rw rw)) (queue_flags (queue s)).
Proof.
  intros c s'. subst s'. unfold freed_request.
  cbn -[Z.ltb Z.leb queue_congestion_off_threshold wake_up clear_bit].
  rewrite !rw_get_set. fold c.
  change (queue_congestion_off_threshold (set_count (queue s) rw (c - 1)))
    with (queue_congestion_off_threshold (queue s)).
  pose proof (full_bit_nonneg rw) as Hf.
  pose proof (full_bit_nonneg (other_rw rw)) as Hf'.
  pose proof (full_bit_other rw) as Hfo.
  destruct (c - 1 <? queue_congestion_off_threshold (queue s));
    unfold clear_queue_congested;
    cbn -[Z.ltb Z.leb wake_up clear_bit];
    repeat match goal with
    | |- context [waitqueue_active ?w] => destruct (waitqueue_active w) eqn:?
    | |- context [wake_up ?w] => destruct (wake_up w) as [? ?] eqn:?
    | |- context [?a <=? ?b] => destruct (a <=? b) eqn:?
    | _ => progress cbn -[Z.ltb Z.leb wake_up clear_bit]
    | _ => rewrite rw_get_set in *
    | _ => rewrite rw_get_set_other
    | _ => rewrite test_clear_bit_neq by assumption
    end;
    try (repeat split; reflexivity).
Qed.


Lemma wake_up_nil : wake_up [] = ([], []).
Proof. reflexivity. Qed.


Section Admission.
Context `{Elevator}.
Variable HZ : Z.

(** What a successful [get_request] does to the accounting fields. *)
Lemma get_request_success_fields s rw jiffies ioc qaddr pool esr r s' ioc' :
  get_request HZ s rw jiffies ioc qaddr pool esr = (Some r, s', ioc') ->
  let c := rw_get (count (rq (queue s))) rw in
  count (rq (queue s')) = rw_set (count (rq (queue s))) rw (c + 1)
  /\ nr_requests (queue s') = nr_requests (queue s)
  /\ bdi_state (queue s')
     = (if c + 1 >=? queue_congestion_on_threshold (queue s)
        then set_bit (congested_bit rw) (bdi_state (queue s))
        else bdi_state (queue s))
  /\ wait (rq (queue s')) = wait (rq (queue s))
  /\ woken s' = woken s
  /\ test_bit (full_bit (other_rw rw)) (queue_flags (queue s'))
     = test_bit (full_bit (other_rw rw)) (queue_flags (queue s)).
Proof.
  intros Hg c. unfold get_request in Hg. fold c in Hg.
  pose proof (full_bit_nonneg rw) as Hf.
  pose proof (full_bit_nonneg (other_rw rw)) as Hf'.
  pose proof (full_bit_other rw) as Hfo.
  destruct (c + 1 >=? nr_requests (queue s));
    [destruct (negb (blk_queue_full (queue s) rw))|];
    cbn -[Z.geb set_bit queue_congestion_on_threshold] in Hg;
    match type of Hg with
    | (if ?b then _ else _) = _ => destruct b; [discriminate|]
    end;
    destruct (blk_alloc_request pool esr); try discriminate;
    injection Hg as <- <- <-;
    cbn -[Z.geb set_bit queue_congestion_on_threshold];
    rewrite ?rw_get_set; fold c;
    match goal with
    | |- context [queue_congestion_on_threshold ?q] =>
        change (queue_congestion_on_threshold q)
          with (queue_congestion_on_threshold (queue s))
    end;
    destruct (c + 1 >=? queue_congestion_on_threshold (queue s));
    cbn -[set_bit]; rewrite ?test_set_bit_neq by assumption;
    repeat split; reflexivity.
Qed.

End Admission.


Section AdmissionClaims.
Context `{Elevator}.
Variable HZ : Z.


End AdmissionClaims.




Section BatchingClaims.
Context `{Elevator}.
Variable HZ : Z.

Lemma set_queue_same s : set_queue (queue s) s = s.
Proof. now destruct s. Qed.

(** A full queue turns away a caller that is neither batching nor
    exempted by the scheduler, and changes nothing. *)
Lemma get_request_full_rejects s rw jiffies ioc qaddr pool esr :
  blk_queue_full (queue s) rw = true ->
  ioc_batching HZ jiffies ioc = false ->
  elv_may_queue (queue s) rw = false ->
  get_request HZ s rw jiffies ioc qaddr pool esr = (None, s, ioc).
Proof.
  intros Hfull Hb He. unfold get_request. rewrite Hfull. cbn [negb].
  destruct (_ >=? _); cbn; rewrite Hfull, Hb, He; cbn;
    now rewrite set_queue_same.
Qed.

(** A full queue still admits a batcher when the pool has memory. *)
Lemma get_request_full_batcher s rw jiffies ioc qaddr mem :
  blk_queue_full (queue s) rw = true ->
  ioc_batching HZ jiffies ioc = true ->
  exists r s',
    get_request HZ s rw jiffies ioc qaddr (Some mem) 0
    = (Some r, s', spend_batch ioc)
    /\ blk_queue_full (queue s') rw = true.
Proof.
  intros Hfull Hb. unfold get_request. rewrite Hfull. cbn [negb].
  assert (Hq : (if rw_get (count (rq (queue s))) rw + 1 >=? nr_requests (queue s)
                then (queue s, ioc) else (queue s, ioc)) = (queue s, ioc))
    by now destruct (_ >=? _).
  rewrite Hq, Hfull, Hb. cbn -[Z.geb queue_congestion_on_threshold].
  do 2 eexists. split; [reflexivity|].
  match goal with |- context [if ?b then _ else _] => destruct b end;
    exact Hfull.
Qed.

(** C5: on a queue marked full for a direction, an allocation by a
    process whose io context is batching succeeds whenever the pool has
    memory; a batcher with [b] requests left in its batch (at most 32)
    gets up to [b] consecutive requests inside its time window, each
    spending one of the batch, and after a whole batch of 32 it is a
    batcher no more; the queue stays full meanwhile, and a caller that
    is neither batching nor exempted by the scheduler is turned away
    with nothing changed. *)
Theorem batching_fairness (s : blk_state) (rw : rw_t) (c : io_context)
    (qaddr : nat) (calls : list (Z * request)) :
  blk_queue_full (queue s) rw = true ->
  0 < nr_batch_requests c <= BLK_BATCH_REQ ->
  Z.of_nat (length calls) <= nr_batch_requests c ->
  Forall (fun call =>
            time_before call.1 (last_waited c + BLK_BATCH_TIME HZ) = true)
         calls ->
  let run := get_requests HZ s rw (Some c) qaddr calls in
  (forall jiffies ioc mem,
      ioc_batching HZ jiffies ioc = true ->
      is_Some (get_request HZ s rw jiffies ioc qaddr (Some mem) 0).1.1)
  /\ Forall is_Some run.1.1
  /\ length run.1.1 = length calls
  /\ run.2 = Some (IoContext (nr_batch_requests c - Z.of_nat (length calls))
                     (last_waited c))
  /\ (Z.of_nat (length calls) = BLK_BATCH_REQ ->
      forall jiffies, ioc_batching HZ jiffies run.2 = false)
  /\ blk_queue_full (queue run.1.2) rw = true
  /\ (forall s' jiffies ioc pool esr,
        s' = s \/ s' = run.1.2 ->
        ioc_batching HZ jiffies ioc = false ->
        elv_may_queue (queue s') rw = false ->
        get_request HZ s' rw jiffies ioc qaddr pool esr = (None, s', ioc)).
Proof.
  intros Hfull Hpos Hlen Htime run.
  assert (Hrun : Forall is_Some run.1.1
                 /\ length run.1.1 = length calls
                 /\ run.2 = Some (IoContext
                                    (nr_batch_requests c - Z.of_nat (length calls))
                                    (last_waited c))
                 /\ blk_queue_full (queue run.1.2) rw = true).
  { subst run. clear Hpos.
    revert s c Hfull Hlen Htime.
    induction calls as [|[j mem] rest IH]; intros s c Hfull Hlen Htime.
    - cbn. repeat split; auto. destruct c; cbn. do 2 f_equal. lia.
    - apply Forall_cons in Htime as [Hj Hrest]. cbn [fst] in Hj.
      cbn [length] in Hlen.
      assert (Hb : ioc_batching HZ j (Some c) = true).
      { cbn. rewrite Hj.
        destruct (Z.gtb_spec (nr_batch_requests c) 0); [|lia].
        apply orb_true_r. }
      destruct (get_request_full_batcher s rw j (Some c) qaddr mem Hfull Hb)
        as (r & s1 & Hg & Hfull1).
      cbn [get_requests]. rewrite Hg. cbn [spend_batch].
      specialize (IH s1 (IoContext (nr_batch_requests c - 1) (last_waited c))
                    Hfull1).
      cbn [nr_batch_requests last_waited] in IH.
      destruct IH as (Hall & Hl & Hioc & Hf); [lia | exact Hrest |].
      destruct (get_requests HZ s1 rw _ qaddr rest) as [[rs s2] ioc2].
      cbn in *. repeat split; auto.
      + rewrite Hioc. do 2 f_equal. lia. }
  destruct Hrun as (Hall & Hl & Hioc & Hf).
  repeat split; auto.
  - intros jiffies ioc mem Hb.
    destruct (get_request_full_batcher s rw jiffies ioc qaddr mem Hfull Hb)
      as (r & s' & -> & _).
    now exists r.
  - intros Hk jiffies. rewrite Hioc. cbn. rewrite Hk.
    replace (nr_batch_requests c - BLK_BATCH_REQ =? BLK_BATCH_REQ) with false
      by (symmetry; apply Z.eqb_neq; lia).
    destruct (Z.gtb_spec (nr_batch_requests c - BLK_BATCH_REQ) 0); [lia|].
    reflexivity.
  - intros s' jiffies ioc pool esr [->| ->] Hb He;
      now apply get_request_full_rejects.
Qed.

End BatchingClaims.

Lemma batching_fairness_witness :
  blk_queue_full (queue Samples.full_state) WRITE = true
  /\ 0 < nr_batch_requests (IoContext 32 1000) <= BLK_BATCH_REQ
  /\ Z.of_nat (length Samples.batch_calls) <= nr_batch_requests (IoContext 32 1000)
  /\ Forall (fun call =>
               time_before call.1
                 (last_waited (IoContext 32 1000) + BLK_BATCH_TIME Samples.HZ)
               = true) Samples.batch_calls
  /\ Forall is_Some
       (@get_requests elevator_noop Samples.HZ Samples.full_state WRITE
          (Some (IoContext 32 1000)) 0%nat Samples.batch_calls).1.1.
Proof.
  assert (Ht : Forall (fun call : Z * request =>
               time_before call.1
                 (last_waited (IoContext 32 1000) + BLK_BATCH_TIME Samples.HZ)
               = true) Samples.batch_calls).
  { apply List.Forall_forall. intros x Hx. apply repeat_spec in Hx.
    subst x. vm_compute. reflexivity. }
  repeat split; try exact Ht; try (vm_compute; congruence).
  apply (@batching_fairness elevator_noop Samples.HZ Samples.full_state WRITE
           (IoContext 32 1000) 0%nat Samples.batch_calls);
    try exact Ht; try (vm_compute; split; congruence); vm_compute; congruence.
Defined.


Section MergeClaims.
Context `{BioVecOps}.






End MergeClaims.


Section CoalesceClaims.
Context `{BioVecOps}.

(** When both requests carry bios and the sums fit, the segment check
    accepts and stores totals within the limits. *)
Lemma ll_merge_requests_fn_accepts q req next :
  special req = None -> special next = None ->
  bio_chain req <> [] -> bio_chain next <> [] ->
  nr_sectors req + nr_sectors next <= max_sectors q ->
  nr_phys_segments req + nr_phys_segments next <= max_phys_segments q ->
  nr_hw_segments req + nr_hw_segments next <= max_hw_segments q ->
  exists phys hw,
    ll_merge_requests_fn q req next
    = Ok (1, set_nr_phys_segments phys (set_nr_hw_segments hw req))
    /\ phys <= max_phys_segments q /\ hw <= max_hw_segments q
    /\ nr_phys_segments req + nr_phys_segments next - 1 <= phys
       <= nr_phys_segments req + nr_phys_segments next
    /\ nr_hw_segments req + nr_hw_segments next - 1 <= hw
       <= nr_hw_segments req + nr_hw_segments next.
Proof.
  intros Hs1 Hs2 Hc1 Hc2 Hsec Hphys Hhw.
  unfold ll_merge_requests_fn. rewrite Hs1, Hs2. cbn [is_null negb orb].
  destruct (Z.gtb_spec (nr_sectors req + nr_sectors next) (max_sectors q));
    [lia|].
  destruct (last (bio_chain req)) as [biotail|] eqn:Hl;
    [|apply last_None in Hl; contradiction].
  destruct (head (bio_chain next)) as [nbio|] eqn:Hh;
    [|destruct (bio_chain next); [contradiction | discriminate]].
  set (phys := if blk_phys_contig_segment q biotail nbio
               then nr_phys_segments req + nr_phys_segments next - 1
               else nr_phys_segments req + nr_phys_segments next).
  set (hw := if blk_hw_contig_segment q biotail nbio
             then nr_hw_segments req + nr_hw_segments next - 1
             else nr_hw_segments req + nr_hw_segments next).
  assert (Hp : nr_phys_segments req + nr_phys_segments next - 1 <= phys
               <= nr_phys_segments req + nr_phys_segments next)
    by (subst phys; destruct (blk_phys_contig_segment _ _ _); lia).
  assert (Hw : nr_hw_segments req + nr_hw_segments next - 1 <= hw
               <= nr_hw_segments req + nr_hw_segments next)
    by (subst hw; destruct (blk_hw_contig_segment _ _ _); lia).
  destruct (Z.gtb_spec phys (max_phys_segments q)); [lia|].
  destruct (Z.gtb_spec hw (max_hw_segments q)); [lia|].
  exists phys, hw. repeat split; auto; lia.
Qed.

(** C2 (amended): two mergeable requests (filesystem commands without
    the no-merge, started or barrier flags, neither with a special
    payload, the second without a waiter) of the same disk and direction
    that are sector-contiguous and whose sector and segment counts add up
    within the queue's limits are coalesced by [attempt_merge]: the first
    keeps its start sector, its sector count becomes the sum of the two
    hard sector counts (so its range is the union of the two ranges when
    each count equals its hard count), its bio chain is the
    concatenation, and its segment counts stay within
    [max_phys_segments] and [max_hw_segments]; the second is unlinked and
    loses one reference, and when that was its last one it is released
    through the freed-request path. *)
Theorem attempt_merge_coalesces (s : blk_state) (req next : request) :
  rq_mergeable req = true -> rq_mergeable next = true ->
  special req = None -> special next = None -> waiting next = None ->
  bio_chain req <> [] -> bio_chain next <> [] ->
  sector req + nr_sectors req = sector next ->
  rq_data_dir req = rq_data_dir next ->
  rq_disk req = rq_disk next ->
  nr_sectors req + nr_sectors next <= max_sectors (queue s) ->
  nr_phys_segments req + nr_phys_segments next <= max_phys_segments (queue s) ->
  nr_hw_segments req + nr_hw_segments next <= max_hw_segments (queue s) ->
  exists s' req' next',
    attempt_merge s req next = Ok (1, s', req', next')
    /\ sector req' = sector req
    /\ nr_sectors req' = hard_nr_sectors req + hard_nr_sectors next
    /\ hard_nr_sectors req' = hard_nr_sectors req + hard_nr_sectors next
    /\ (hard_nr_sectors req = nr_sectors req ->
        hard_nr_sectors next = nr_sectors next ->
        sector req' + nr_sectors req' = sector next + nr_sectors next)
    /\ bio_chain req' = bio_chain req ++ bio_chain next
    /\ nr_phys_segments req' <= max_phys_segments (queue s)
    /\ nr_hw_segments req' <= max_hw_segments (queue s)
    /\ ref_count next' = ref_count next - 1
    /\ queuelist next' = Unlinked
    /\ (ref_count next = 1 ->
        rq_status next' = RQ_INACTIVE /\ rq_q next' = None
        /\ rq_rl next' = None
        /\ (rq_rl next <> None -> s' = freed_request s (rq_data_dir next))).
Proof.
  intros Hm1 Hm2 Hs1 Hs2 Hw Hc1 Hc2 Hcont Hdir Hdisk Hsec Hphys Hhw.
  destruct (ll_merge_requests_fn_accepts (queue s) req next
              Hs1 Hs2 Hc1 Hc2 Hsec Hphys Hhw)
    as (phys & hw & Hfn & Hp & Hh & _).
  unfold attempt_merge.
  rewrite Hm1, Hm2, Hcont, Z.eqb_refl, Hdir, Hdisk, Hw, Hs2.
  rewrite bool_decide_eq_true_2 by reflexivity.
  assert (Hrw : rw_eqb (rq_data_dir next) (rq_data_dir next) = true)
    by now destruct (rq_data_dir next).
  rewrite Hrw. cbn [negb orb is_null]. rewrite Hfn.
  cbn -[__blk_put_request freed_request].
  unfold __blk_put_request.
  cbn -[freed_request Z.eqb].
  rewrite set_queue_same.
  destruct (Z.eqb_spec (ref_count next - 1) 0) as [H0|H0];
    cbn -[freed_request].
  - destruct (rq_rl next) eqn:Hrl; cbn -[freed_request];
      do 3 eexists; (split; [reflexivity|]); cbn -[freed_request];
      repeat split; auto; try lia; try congruence.
  - do 3 eexists; (split; [reflexivity|]); cbn -[freed_request];
      repeat split; auto; try lia.
Qed.

End CoalesceClaims.

(** ** Bitmaps stored as arrays of words *)







Lemma testbit_one_shift j i :
  0 <= j -> 0 <= i -> Z.testbit (Z.shiftl 1 j) i = (i =? j).
Proof.
  intros Hj Hi. rewrite Z.shiftl_spec by lia.
  destruct (Z.eqb_spec i j) as [->|Hne].
  - now rewrite Z.sub_diag.
  - destruct (Z_lt_le_dec i j).
    + now apply Z.testbit_neg_r; lia.
    + destruct (i - j) eqn:E; try lia. reflexivity.
Qed.

(** Splitting a bit index into word and offset. *)
Lemma map_test_bit_cons w ws i :
  0 <= i ->
  map_test_bit i (w :: ws)
  = if i <? BITS_PER_LONG then Z.testbit w i
    else map_test_bit (i - BITS_PER_LONG) ws.
Proof.
  intros Hi. unfold map_test_bit, BITS_PER_LONG.
  rewrite (Z.quot_div_nonneg i 32) by lia.
  destruct (Z.ltb_spec i 32).
  - rewrite Z.div_small, Z.mod_small by lia. reflexivity.
  - rewrite (Z.quot_div_nonneg (i - 32) 32) by lia.
    replace (i `div` 32) with ((i - 32) `div` 32 + 1)
      by (rewrite <- Z.div_add by lia; f_equal; lia).
    replace (i `mod` 32) with ((i - 32) `mod` 32)
      by (rewrite <- (Z.mod_add (i - 32) 1 32) by lia; f_equal; lia).
    assert (0 <= (i - 32) `div` 32) by (apply Z.div_pos; lia).
    rewrite Z2Nat.inj_add by lia. rewrite Nat.add_comm. reflexivity.
Qed.

Lemma map_test_bit_nil i : map_test_bit i [] = false.
Proof. unfold map_test_bit. now rewrite lookup_nil. Qed.


Lemma bit_index_split nr :
  BITS_PER_LONG <= nr ->
  Z.to_nat (nr ÷ BITS_PER_LONG) = S (Z.to_nat ((nr - BITS_PER_LONG) ÷ BITS_PER_LONG))
  /\ nr mod BITS_PER_LONG = (nr - BITS_PER_LONG) mod BITS_PER_LONG.
Proof.
  unfold BITS_PER_LONG. intros Hnr.
  rewrite !Z.quot_div_nonneg by lia.
  replace (nr `div` 32) with ((nr - 32) `div` 32 + 1)
    by (rewrite <- Z.div_add by lia; f_equal; lia).
  replace (nr `mod` 32) with ((nr - 32) `mod` 32)
    by (rewrite <- (Z.mod_add (nr - 32) 1 32) by lia; f_equal; lia).
  assert (0 <= (nr - 32) `div` 32) by (apply Z.div_pos; lia).
  split; [|reflexivity].
  rewrite Z2Nat.inj_add by lia. rewrite Nat.add_comm. reflexivity.
Qed.

Lemma bit_index_low nr :
  0 <= nr < BITS_PER_LONG ->
  Z.to_nat (nr ÷ BITS_PER_LONG) = O /\ nr mod BITS_PER_LONG = nr.
Proof.
  unfold BITS_PER_LONG. intros Hnr.
  rewrite Z.quot_div_nonneg by lia.
  rewrite Z.div_small, Z.mod_small by lia. auto.
Qed.


Lemma __clear_bit_cons nr w ws :
  0 <= nr ->
  __clear_bit nr (w :: ws)
  = if nr <? BITS_PER_LONG then Z.ldiff w (Z.shiftl 1 nr) :: ws
    else w :: __clear_bit (nr - BITS_PER_LONG) ws.
Proof.
  intros Hnr. unfold __clear_bit.
  destruct (Z.ltb_spec nr BITS_PER_LONG).
  - destruct (bit_index_low nr) as [-> ->]; [lia|]. reflexivity.
  - destruct (bit_index_split nr) as [-> ->]; [lia|]. reflexivity.
Qed.




Lemma __clear_bit_spec map : forall nr i,
  0 <= nr < BITS_PER_LONG * Z.of_nat (length map) -> 0 <= i ->
  map_test_bit i (__clear_bit nr map) = negb (i =? nr) && map_test_bit i map.
Proof.
  induction map as [|w ws IH]; intros nr i Hnr Hi.
  - cbn in Hnr. lia.
  - rewrite __clear_bit_cons by lia.
    destruct (Z.ltb_spec nr BITS_PER_LONG).
    + rewrite !map_test_bit_cons by lia.
      destruct (Z.ltb_spec i BITS_PER_LONG).
      * rewrite Z.ldiff_spec, testbit_one_shift by lia. apply andb_comm.
      * destruct (Z.eqb_spec i nr); [lia | reflexivity].
    + rewrite !map_test_bit_cons by lia.
      destruct (Z.ltb_spec i BITS_PER_LONG).
      * destruct (Z.eqb_spec i nr); [lia | reflexivity].
      * rewrite IH by (cbn [length] in Hnr; lia).
        f_equal. destruct (Z.eqb_spec i nr), (Z.eqb_spec (i - BITS_PER_LONG) (nr - BITS_PER_LONG)); lia || reflexivity.
Qed.














(** ** The tag table invariant *)

Lemma heap_set_eq (h : heap) p r : heap_set h p r p = r.
Proof. unfold heap_set. now rewrite Nat.eqb_refl. Qed.


Lemma elem_of_remove_addr p x l : x ∈ remove_addr p l <-> x <> p /\ x ∈ l.
Proof. unfold remove_addr. now rewrite list_elem_of_filter. Qed.




Lemma tagged_in_bound ps R i :
  tagged_in ps R i = true -> 0 <= i < Z.of_nat (length ps).
Proof.
  unfold tagged_in. intros Ht. apply andb_true_iff in Ht as [H0 Hp].
  apply Z.leb_le in H0.
  destruct (ps !! Z.to_nat i) eqn:E; [|discriminate].
  apply lookup_lt_Some in E. lia.
Qed.
















(** ** Exercising the merge properties *)



Lemma attempt_merge_coalesces_witness :
  exists s' req' next',
    @attempt_merge Samples.contiguous_ops Samples.tight_state
      (Samples.queued_request Samples.write_cmd 0 1)
      (Samples.queued_request Samples.write_cmd 8 1)
    = Ok (1, s', req', next')
    /\ nr_sectors req' = 16
    /\ rq_status next' = RQ_INACTIVE.
Proof.
  destruct (@attempt_merge_coalesces Samples.contiguous_ops Samples.tight_state
              (Samples.queued_request Samples.write_cmd 0 1)
              (Samples.queued_request Samples.write_cmd 8 1))
    as (s' & req' & next' & Hrun & _ & Hnr & _ & _ & _ & _ & _ & _ & _ & Hrel);
    try reflexivity; try discriminate; try (vm_compute; discriminate).
  exists s', req', next'. split; [exact Hrun|]. split; [exact Hnr|].
  apply Hrel. reflexivity.
Defined.

(** Two contiguous requests of the same disk and direction whose counts
    fit the limits stay two when the first carries the no-merge flag. *)
Lemma attempt_merge_nomerge_counterexample :
  let req := Samples.queued_request (Z.lor Samples.write_cmd REQ_NOMERGE) 0 1 in
  let next := Samples.queued_request Samples.write_cmd 8 1 in
  sector req + nr_sectors req = sector next
  /\ rq_data_dir req = rq_data_dir next
  /\ rq_disk req = rq_disk next
  /\ nr_sectors req + nr_sectors next <= max_sectors Samples.tight_queue
  /\ nr_phys_segments req + nr_phys_segments next
     <= max_phys_segments Samples.tight_queue
  /\ nr_hw_segments req + nr_hw_segments next
     <= max_hw_segments Samples.tight_queue
  /\ @attempt_merge Samples.contiguous_ops Samples.tight_state req next
     = Ok (0, Samples.tight_state, req, next).
Proof. cbv zeta. split_and!; try reflexivity; vm_compute; discriminate. Qed.

(** ** Internal consistency violations *)

(** C9 (amended): starting a tag on a request that already carries the
    queued flag, ending the tag of a request that holds none (tag -1),
    and dropping the last reference of a request of the queue's pool that
    is still linked into a list each end in [BUG()].  The other
    inconsistencies are not fatal: ending a tag at or beyond the real
    depth of the tag table, or a tag whose busy bit is clear, returns
    with nothing changed; ending a busy tag whose owner slot is empty
    releases the tag as usual; and a request that is not of the pool is
    dropped to zero references without a look at its list linkage. *)
Theorem fatal_and_tolerated_violations (h : heap) (q : request_queue)
    (bqt : blk_queue_tag) (p : nat) (s : blk_state) (req : request) :
  queue_tags q = Some bqt ->
  let t := tag (h p) in
  (Z.land (flags (h p)) REQ_QUEUED <> 0 -> blk_queue_start_tag h q p = Bug)
  /\ (t = -1 -> blk_queue_end_tag h q p = Bug)
  /\ (ref_count req = 1 -> is_Some (rq_rl req) ->
      list_empty (queuelist req) = false ->
      __blk_put_request s req = Bug)
  /\ (t <> -1 -> real_max_depth bqt <= t ->
      blk_queue_end_tag h q p = Ok (h, q))
  /\ (t <> -1 -> t < real_max_depth bqt -> tag_in_map t bqt = true ->
      map_test_bit t (tag_map bqt) = false ->
      blk_queue_end_tag h q p = Ok (h, q))
  /\ (t <> -1 -> t < real_max_depth bqt -> tag_in_map t bqt = true ->
      map_test_bit t (tag_map bqt) = true ->
      tag_index bqt !! Z.to_nat t = Some None ->
      exists h' q' bqt',
        blk_queue_end_tag h q p = Ok (h', q')
        /\ queue_tags q' = Some bqt'
        /\ tag (h' p) = -1
        /\ Z.land (flags (h' p)) REQ_QUEUED = 0
        /\ queuelist (h' p) = Unlinked
        /\ busy bqt' = busy bqt - 1
        /\ map_test_bit t (tag_map bqt') = false
        /\ tag_index bqt' !! Z.to_nat t = Some None)
  /\ (ref_count req = 1 -> rq_rl req = None ->
      exists req',
        __blk_put_request s req = Ok (s, req')
        /\ ref_count req' = 0
        /\ rq_status req' = RQ_INACTIVE
        /\ queuelist req' = queuelist req).
Proof.
  intros Hq t. split_and!.
  - intros Hflag. unfold blk_queue_start_tag. rewrite Hq.
    apply Z.eqb_neq in Hflag. now rewrite Hflag.
  - intros Htag. unfold blk_queue_end_tag. fold t. now rewrite Hq, Htag.
  - intros Href [rl Hrl] Hlinked. unfold __blk_put_request.
    replace (ref_count (set_ref_count (ref_count req - 1) req) =? 0) with true
      by (cbn [ref_count set_ref_count]; now rewrite Href).
    cbn [negb]. rewrite Hrl.
    cbn [queuelist set_ref_count]. now rewrite Hlinked.
  - intros Htag Hdepth. unfold blk_queue_end_tag. fold t. rewrite Hq.
    destruct (Z.eqb_spec t (-1)); [contradiction|].
    destruct (Z.geb_spec t (real_max_depth bqt)); [reflexivity | lia].
  - intros Htag Hdepth Hmap Hbit. unfold blk_queue_end_tag. fold t.
    rewrite Hq.
    destruct (Z.eqb_spec t (-1)); [contradiction|].
    destruct (Z.geb_spec t (real_max_depth bqt)); [lia|].
    rewrite Hmap. unfold __test_and_clear_bit. now rewrite Hbit.
  - intros Htag Hdepth Hmap Hbit Hslot.
    pose proof (lookup_lt_Some _ _ _ Hslot) as Hlt.
    pose proof Hmap as Hmap'. unfold tag_in_map in Hmap'.
    apply andb_true_iff in Hmap' as [Ht0 Htm].
    apply Z.leb_le in Ht0. apply Z.ltb_lt in Htm.
    assert (Hidx : tag_in_index t bqt = true).
    { unfold tag_in_index. apply andb_true_iff.
      split; [apply Z.leb_le | apply Z.ltb_lt]; lia. }
    unfold blk_queue_end_tag. fold t. rewrite Hq.
    destruct (Z.eqb_spec t (-1)); [contradiction|].
    destruct (Z.geb_spec t (real_max_depth bqt)); [lia|].
    rewrite Hmap, Hidx. unfold __test_and_clear_bit. rewrite Hbit.
    cbn [negb]. unfold list_del_init.
    destruct (queuelist (h p));
      cbn [queue_tags set_queue_tags set_queue_head tag_index tag_map
           busy_list busy max_depth real_max_depth];
      do 3 eexists; (split; [reflexivity|]); (split; [reflexivity|]);
      rewrite !heap_set_eq;
      cbn [tag flags queuelist set_tag set_flags set_queuelist tag_index
           tag_map busy];
      (split_and!;
       [ reflexivity | apply flag_cleared | reflexivity | reflexivity
       | rewrite __clear_bit_spec by lia; now rewrite Z.eqb_refl
       | now apply list_lookup_insert_eq ]).
  - intros Href Hrl. unfold __blk_put_request.
    replace (ref_count (set_ref_count (ref_count req - 1) req) =? 0) with true
      by (cbn [ref_count set_ref_count]; now rewrite Href).
    cbn [negb]. rewrite Hrl. eexists. split; [reflexivity|].
    cbn. rewrite Href. auto.
Qed.

Lemma fatal_and_tolerated_violations_witness :
  queue_tags Samples.ownerless_queue = Some Samples.ownerless_tags
  /\ blk_queue_start_tag Samples.inconsistent_heap Samples.ownerless_queue
       10%nat
     = Bug
  /\ blk_queue_end_tag Samples.inconsistent_heap Samples.ownerless_queue
       10%nat
     = Bug
  /\ __blk_put_request Samples.tight_state (Samples.inconsistent_heap 10%nat)
     = Bug
  /\ blk_queue_end_tag (Samples.stale_heap 40) Samples.ownerless_queue 10%nat
     = Ok (Samples.stale_heap 40, Samples.ownerless_queue)
  /\ blk_queue_end_tag (Samples.stale_heap 2) Samples.ownerless_queue 10%nat
     = Ok (Samples.stale_heap 2, Samples.ownerless_queue)
  /\ (exists h' q' bqt',
        blk_queue_end_tag (Samples.stale_heap 1) Samples.ownerless_queue
          10%nat
        = Ok (h', q')
        /\ queue_tags q' = Some bqt'
        /\ tag (h' 10%nat) = -1
        /\ busy bqt' = 0)
  /\ (exists req',
        __blk_put_request Samples.tight_state Samples.foreign_request
        = Ok (Samples.tight_state, req')
        /\ queuelist req' = OnQueueHead).
Proof.
  split; [reflexivity|].
  destruct (fatal_and_tolerated_violations Samples.inconsistent_heap
              Samples.ownerless_queue _ 10%nat Samples.tight_state
              (Samples.inconsistent_heap 10%nat) eq_refl)
    as (Hstart & Hend & Hput & _).
  destruct (fatal_and_tolerated_violations (Samples.stale_heap 40)
              Samples.ownerless_queue _ 10%nat Samples.tight_state
              Samples.foreign_request eq_refl)
    as (_ & _ & _ & Hdeep & _ & _ & Hforeign).
  destruct (fatal_and_tolerated_violations (Samples.stale_heap 2)
              Samples.ownerless_queue _ 10%nat Samples.tight_state
              Samples.foreign_request eq_refl)
    as (_ & _ & _ & _ & Hidle & _ & _).
  destruct (fatal_and_tolerated_violations (Samples.stale_heap 1)
              Samples.ownerless_queue _ 10%nat Samples.tight_state
              Samples.foreign_request eq_refl)
    as (_ & _ & _ & _ & _ & Hownerless & _).
  split_and!.
  - apply Hstart. vm_compute. discriminate.
  - apply Hend. reflexivity.
  - apply Hput; [reflexivity | eexists; reflexivity | reflexivity].
  - apply Hdeep; vm_compute; discriminate.
  - apply Hidle; first [reflexivity | vm_compute; discriminate].
  - destruct Hownerless
      as (h' & q' & bqt' & Hrun & Htags & Htag & _ & _ & Hbusy & _);
      [vm_compute; discriminate | reflexivity | reflexivity | reflexivity
      | reflexivity |].
    exists h', q', bqt'. split; [exact Hrun|]. split; [exact Htags|].
    split; [exact Htag|]. exact Hbusy.
  - destruct Hforeign as (req' & Hrun & _ & _ & Hlist);
      [reflexivity | reflexivity |].
    exists req'. split; [exact Hrun|]. exact Hlist.
Defined.

(** Ending a tag with no owner is not fatal.  On a tag table of depth 3
    whose owner slots are all empty, ending tag 2, whose busy bit is
    clear, returns with nothing changed; ending tag 1, whose busy bit is
    set, releases it and returns; and a request that is not of the
    queue's pool reaches zero references while linked into the queue,
    with a normal return. *)
Lemma ownerless_tag_counterexample :
  let q := Samples.ownerless_queue in
  let bqt := Samples.ownerless_tags in
  queue_tags q = Some bqt
  /\ tag_index bqt = [None; None; None]
  /\ map_test_bit 2 (tag_map bqt) = false
  /\ tag (Samples.stale_heap 2 10%nat) = 2
  /\ blk_queue_end_tag (Samples.stale_heap 2) q 10%nat
     = Ok (Samples.stale_heap 2, q)
  /\ map_test_bit 1 (tag_map bqt) = true
  /\ tag (Samples.stale_heap 1 10%nat) = 1
  /\ match blk_queue_end_tag (Samples.stale_heap 1) q 10%nat with
     | Ok (h', q') =>
         tag (h' 10%nat) = -1
         /\ option_map busy (queue_tags q') = Some 0
     | _ => False
     end
  /\ ref_count Samples.foreign_request = 1
  /\ rq_rl Samples.foreign_request = None
  /\ list_empty (queuelist Samples.foreign_request) = false
  /\ match __blk_put_request Samples.tight_state Samples.foreign_request with
     | Ok (s', req') =>
         s' = Samples.tight_state /\ ref_count req' = 0
         /\ queuelist req' = OnQueueHead
     | _ => False
     end.
Proof. cbv zeta. split_and!; try reflexivity; vm_compute; auto. Qed.

(** ** Exercising the tag round trip *)


(** ** Failed allocations *)

(** C10: on a queue of 128 requests with 112 writes outstanding and the
    write-congestion bit clear, an allocation whose pool allocation fails
    returns NULL with the count back at 112 and the bit set. *)
Theorem failed_allocation_leaves_congestion_set :
  let s := Samples.sample_state 3 112 0 in
  let res := @get_request elevator_noop Samples.HZ s WRITE 0 None 0%nat None 0 in
  res.1.1 = None
  /\ rw_get (count (rq (queue res.1.2))) WRITE
     = rw_get (count (rq (queue s))) WRITE
  /\ queue_congested (queue s) WRITE = false
  /\ queue_congested (queue res.1.2) WRITE = true.
Proof. vm_compute. auto. Qed.

End LlRwBlkProofs.

(** ** fs/buffer.c *)

Module BufferProofs.
Import Kernel Buffer BitFacts.

(** ** Dirtying buffers *)

Lemma set_buffer_dirty_bits bh :
  buffer_dirty (set_buffer_dirty bh) = true
  /\ buffer_uptodate (set_buffer_dirty bh) = buffer_uptodate bh
  /\ buffer_locked (set_buffer_dirty bh) = buffer_locked bh.
Proof.
  unfold buffer_dirty, buffer_uptodate, buffer_locked, set_buffer_dirty,
    set_buffer_bit. cbn [b_state set_b_state].
  rewrite test_set_bit_eq by (cbv; congruence).
  rewrite !test_set_bit_neq by (cbv; congruence). auto.
Qed.

Lemma set_bit_idem nr w : 0 <= nr -> test_bit nr w = true -> set_bit nr w = w.
Proof.
  intros Hnr Hb. unfold set_bit, test_bit in *. apply Z.bits_inj'. intros i Hi.
  rewrite Z.setbit_eqb by assumption.
  destruct (Z.eqb_spec nr i) as [->|]; [now rewrite Hb | reflexivity].
Qed.

Lemma set_buffer_dirty_idem bh :
  buffer_dirty bh = true -> set_buffer_dirty bh = bh.
Proof.
  intros Hd. unfold set_buffer_dirty, set_buffer_bit, buffer_dirty in *.
  rewrite set_bit_idem by (assumption || (cbv; congruence)).
  now destruct bh.
Qed.

(** The ring walk of the page path, buffer by buffer. *)
Lemma dirty_ring_spec ring :
  Forall2 (fun bh bh' =>
             bh' = if buffer_uptodate bh then set_buffer_dirty bh else bh)
          ring (dirty_ring ring).1
  /\ (dirty_ring ring).2
     = length (filter (fun bh => buffer_uptodate bh = false) ring).
Proof.
  induction ring as [|bh rest [IH1 IH2]]; cbn [dirty_ring].
  - split; [constructor | reflexivity].
  - destruct (dirty_ring rest) as [rest' errors]. cbn [fst snd] in *.
    destruct (buffer_uptodate bh) eqn:Hu; cbn [fst snd].
    + split; [constructor; [now rewrite Hu | assumption]|].
      rewrite filter_cons_False by (rewrite Hu; discriminate). assumption.
    + split; [constructor; [now rewrite Hu | assumption]|].
      rewrite filter_cons_True by assumption. cbn. now f_equal.
Qed.

(** C7 (amended): through the page path the Dirty bit is set on the
    uptodate buffers of the page only, every buffer that is not uptodate
    being reported as a buffer error; [mark_buffer_dirty] reports a
    buffer that is not uptodate as well, and sets its Dirty bit all the
    same.  Neither path changes the Uptodate or the Locked bit, and
    dirtying a buffer that is already dirty leaves the buffer as it
    is. *)
Theorem dirty_bit_discipline (bh : buffer_head) (pg : page) :
  let marked := (mark_buffer_dirty bh).1 in
  let report := (mark_buffer_dirty bh).2 in
  let pg' := (__set_page_dirty_buffers pg).1 in
  (* the page path dirties exactly the uptodate buffers of a mapped page
     and reports the others *)
  Forall2 (fun b b' =>
             buffer_locked b' = buffer_locked b
             /\ buffer_uptodate b' = buffer_uptodate b
             /\ buffer_dirty b'
                = buffer_dirty b
                  || (bool_decide (mapping pg <> None) && buffer_uptodate b)
             /\ (buffer_dirty b = true -> b' = b))
          (page_buffers pg) (page_buffers pg')
  /\ (mapping pg <> None ->
      (__set_page_dirty_buffers pg).2
      = length (filter (fun b => buffer_uptodate b = false) (page_buffers pg)))
  (* [mark_buffer_dirty] reports a buffer that is not uptodate, and
     dirties it all the same *)
  /\ buffer_errors report = (if buffer_uptodate bh then 0 else 1)%nat
  /\ buffer_dirty marked = true
  /\ buffer_uptodate marked = buffer_uptodate bh
  /\ buffer_locked marked = buffer_locked bh
  (* dirtying a dirty buffer changes nothing *)
  /\ (buffer_dirty bh = true -> marked = bh /\ page_dirtied report = false).
Proof.
  intros marked report pg'.
  split; [|split].
  - subst pg'. unfold __set_page_dirty_buffers.
    destruct (mapping pg) as [m|].
    + destruct (dirty_ring_spec (page_buffers pg)) as [Hring _].
      destruct (dirty_ring (page_buffers pg)) as [ring errors].
      cbn [fst snd] in *.
      assert (Hbufs : page_buffers
                (if negb (PageDirty pg)
                 then (Page (Some m) ring true true, errors)
                 else (Page (Some m) ring true (on_dirty_pages pg), errors)).1
              = ring) by now destruct (negb (PageDirty pg)).
      rewrite Hbufs. eapply Forall2_impl; [exact Hring|].
      intros b b' ->. rewrite bool_decide_eq_true_2 by discriminate.
      cbn [andb].
      destruct (set_buffer_dirty_bits b) as (Hd & Hu & Hl).
      destruct (buffer_uptodate b) eqn:Eu.
      * rewrite Hd, Hl, Hu, orb_true_r. split_and!; auto.
        intros Hdb. now apply set_buffer_dirty_idem.
      * rewrite orb_false_r. auto.
    + cbn. apply Forall2_same_length_lookup. split; [reflexivity|].
      intros i b b' Hb Hb'. rewrite Hb in Hb'. injection Hb' as <-.
      rewrite orb_false_r. auto.
  - intros Hm. unfold __set_page_dirty_buffers.
    destruct (mapping pg) as [m|]; [|contradiction].
    destruct (dirty_ring_spec (page_buffers pg)) as [_ Herr].
    destruct (dirty_ring (page_buffers pg)) as [ring errors].
    cbn [fst snd] in *. now destruct (negb (PageDirty pg)).
  - subst marked report. unfold mark_buffer_dirty, test_set_buffer_dirty,
      test_set_buffer_bit.
    destruct (set_buffer_dirty_bits bh) as (Hd & Hu & Hl).
    fold (set_buffer_dirty bh).
    destruct (buffer_dirty bh) eqn:Ed; cbn [negb fst snd buffer_errors page_dirtied].
    + destruct (buffer_uptodate bh); split_and!; auto.
    + rewrite Hd, Hu, Hl.
      destruct (buffer_uptodate bh); split_and!; auto; discriminate.
Qed.

(** [mark_buffer_dirty] sets the Dirty bit of a buffer that is not
    uptodate. *)
Lemma dirty_bit_counterexample :
  let bh := BufferHead 0 1 0 7 1024 end_io_unlock_only in
  buffer_uptodate bh = false
  /\ buffer_dirty bh = false
  /\ buffer_dirty (mark_buffer_dirty bh).1 = true
  /\ buffer_uptodate (mark_buffer_dirty bh).1 = false.
Proof. vm_compute. auto. Qed.


(** ** The per-CPU LRU *)

(** The scan stops at the first matching slot. *)
Lemma lru_scan_first h lru bdev block size p : forall n k i,
  (k <= i < k + n)%nat ->
  lru !! i = Some (Some p) ->
  lru_slot_matches h (Some p) bdev block size = true ->
  (forall j slot, (k <= j < i)%nat -> lru !! j = Some slot ->
     lru_slot_matches h slot bdev block size = false) ->
  lru_scan n k h lru bdev block size = Some (i, p).
Proof.
  induction n as [|n IH]; intros k i Hi Hslot Hm Hbefore; [lia|].
  cbn [lru_scan].
  destruct (decide (k = i)) as [->|Hne].
  - now rewrite Hslot, Hm.
  - assert (Hrec : lru_scan n (S k) h lru bdev block size = Some (i, p)).
    { apply IH; auto; try lia. intros j slot Hj. apply Hbefore. lia. }
    destruct (lru !! k) as [[x|]|] eqn:E; try assumption.
    now rewrite (Hbefore k (Some x)) by (lia || assumption).
Qed.

(** A scan that finds nothing means no slot matches. *)
Lemma lru_scan_none h lru bdev block size : forall n k,
  lru_scan n k h lru bdev block size = None ->
  forall j slot, (k <= j < k + n)%nat -> lru !! j = Some slot ->
    lru_slot_matches h slot bdev block size = false.
Proof.
  induction n as [|n IH]; intros k Hscan j slot Hj Hslot; [lia|].
  cbn [lru_scan] in Hscan.
  destruct (decide (j = k)) as [->|Hne].
  - rewrite Hslot in Hscan. destruct slot as [x|]; [|reflexivity].
    destruct (lru_slot_matches h (Some x) bdev block size);
      [discriminate | reflexivity].
  - apply (IH (S k)) with (j := j); [|lia|assumption].
    destruct (lru !! k) as [[x|]|] eqn:E; try assumption.
    destruct (lru_slot_matches h (Some x) bdev block size);
      [discriminate | assumption].
Qed.

(** Moving slot [i] to the front: the entries before it each move down
    one slot, the entries after it stay. *)
Lemma lru_shift_down_spec : forall i lru,
  (i < length lru)%nat ->
  lru_shift_down i lru = take 1 lru ++ take i lru ++ drop (S i) lru.
Proof.
  induction i as [|j IH]; intros lru Hi.
  - cbn [lru_shift_down]. rewrite take_0. cbn [app]. now rewrite take_drop.
  - cbn [lru_shift_down].
    destruct (lookup_lt_is_Some_2 lru j ltac:(lia)) as [x Hx].
    rewrite Hx. cbn [default].
    rewrite IH by (rewrite length_insert; lia).
    rewrite !take_insert_ge by lia.
    rewrite drop_insert_ge by lia.
    rewrite Nat.sub_diag.
    rewrite (take_S_r lru j x Hx).
    destruct (drop (S j) lru) as [|y rest] eqn:Ed.
    { apply (f_equal length) in Ed. rewrite length_drop in Ed. cbn in Ed. lia. }
    cbn [insert list_insert].
    assert (Hrest : drop (S (S j)) lru = rest).
    { replace (S (S j)) with (S j + 1)%nat by lia. rewrite <- drop_drop, Ed.
      reflexivity. }
    rewrite Hrest, <- !app_assoc. reflexivity.
Qed.

Lemma lru_promote i p lru :
  (i < length lru)%nat ->
  <[0%nat := Some p]> (lru_shift_down i lru)
  = Some p :: take i lru ++ drop (S i) lru.
Proof.
  intros Hi. rewrite lru_shift_down_spec by assumption.
  destruct lru as [|a lru]; [cbn in Hi; lia|]. reflexivity.
Qed.

(** The copy loop never finds a second evictee. *)
Lemma lru_install_loop_ok bh : forall slots bhs evictee h,
  (evictee = None /\ (length bhs + length slots <= S BH_LRU_SIZE)%nat)
  \/ slots = [] ->
  exists res, lru_install_loop slots bh bhs evictee h = Ok res.
Proof.
  induction slots as [|bh2 rest IH]; intros bhs evictee h Hinv;
    cbn [lru_install_loop]; [eauto|].
  destruct Hinv as [[-> Hlen]|]; [|discriminate]. cbn [length] in Hlen.
  destruct (bool_decide (bh2 = Some bh)).
  - apply IH. left. split; [reflexivity | lia].
  - destruct (Nat.leb_spec BH_LRU_SIZE (length bhs)).
    + apply IH. right. destruct rest; [reflexivity | cbn in Hlen; lia].
    + apply IH. left. split; [reflexivity|]. rewrite length_app. cbn. lia.
Qed.

Lemma bh_lru_install_ok h lru bh :
  exists res, bh_lru_install h lru bh = Ok res.
Proof.
  unfold bh_lru_install. destruct (bool_decide _); [eauto|].
  destruct (lru_install_loop_ok bh (take BH_LRU_SIZE lru) [Some bh] None
              (bh_set h bh (get_bh (h bh)))) as [[[bhs ev] h'] Hloop].
  { left. split; [reflexivity|]. rewrite length_take. cbn [length].
    pose proof (Nat.le_min_l BH_LRU_SIZE (length lru)). lia. }
  rewrite Hloop. cbn. eauto.
Qed.

Lemma bh_set_eq (h : bh_heap) p bh : bh_set h p bh p = bh.
Proof. unfold bh_set. now rewrite Nat.eqb_refl. Qed.

Lemma bh_set_ne (h : bh_heap) p bh x : x <> p -> bh_set h p bh x = h x.
Proof.
  intros Hne. unfold bh_set.
  destruct (Nat.eqb_spec x p); [contradiction | reflexivity].
Qed.

(** C8: in the eight-slot LRU, a lookup whose first matching slot is
    [i] returns that buffer with one more reference and moves it to slot
    0, the entries before slot [i] moving down one slot each and the
    entries after it staying; installing a buffer that is not in a full
    LRU puts it in slot 0 with one more reference, moves the first seven
    entries down and drops the reference of the entry of slot 7; and on a
    miss [__find_get_block] returns the buffer the authoritative lookup
    returns. *)
Theorem bh_lru_behaviour (h : bh_heap) (lru : list (option nat)) (pc : page_cache)
    (bdev : nat) (block size : Z) :
  length lru = BH_LRU_SIZE ->
  (* a hit promotes the entry to slot 0 *)
  (forall i p,
     lru !! i = Some (Some p) ->
     lru_slot_matches h (Some p) bdev block size = true ->
     (forall j slot, (j < i)%nat -> lru !! j = Some slot ->
        lru_slot_matches h slot bdev block size = false) ->
     lookup_bh_lru h lru bdev block size
     = (Some p, bh_set h p (get_bh (h p)),
        Some p :: take i lru ++ drop (S i) lru))
  (* installing a new buffer into a full LRU evicts the tail *)
  /\ (forall bh tail,
        (Some bh ∉ lru) -> (None ∉ lru) ->
        lru !! 7%nat = Some (Some tail) ->
        0 < b_count (h tail) ->
        exists h',
          bh_lru_install h lru bh = Ok (h', Some bh :: take 7 lru)
          /\ b_count (h' bh) = b_count (h bh) + 1
          /\ b_count (h' tail) = b_count (h tail) - 1
          /\ (forall x, x <> bh -> x <> tail -> h' x = h x))
  (* a miss returns what the authoritative lookup returns *)
  /\ (lru_scan BH_LRU_SIZE 0 h lru bdev block size = None ->
      (lookup_bh_lru h lru bdev block size).1.1 = None
      /\ exists res,
           __find_get_block h lru pc bdev block size = Ok res
           /\ res.1.1 = (__find_get_block_slow h pc bdev block size).1).
Proof.
  intros Hlen. split; [|split].
  - intros i p Hslot Hm Hbefore.
    pose proof (lookup_lt_Some _ _ _ Hslot) as Hi.
    unfold lookup_bh_lru.
    rewrite (lru_scan_first h lru bdev block size p BH_LRU_SIZE 0 i);
      auto; try lia.
    + destruct i as [|i]; [|now rewrite lru_promote].
      cbn [take app]. f_equal.
      destruct lru as [|a rest]; [discriminate|].
      cbn in Hslot. injection Hslot as ->. reflexivity.
    + intros j slot Hj. apply Hbefore. lia.
  - intros bh tail Hnew Hfull Htail Hcount.
    do 9 (destruct lru as [|? lru]; try discriminate).
    cbn in Htail. injection Htail as ->.
    repeat match goal with
    | H : _ ∉ _ :: _ |- _ => apply not_elem_of_cons in H as [? H]
    end.
    assert (Hne : tail <> bh) by congruence.
    unfold bh_lru_install.
    cbn [lookup list_lookup default from_option id take BH_LRU_SIZE].
    rewrite bool_decide_eq_false_2 by congruence.
    cbn [lru_install_loop length app Nat.leb BH_LRU_SIZE].
    repeat (rewrite bool_decide_eq_false_2 by congruence;
            cbn [lru_install_loop length app Nat.leb BH_LRU_SIZE]).
    exists (__brelse (bh_set h bh (get_bh (h bh))) tail).
    split; [reflexivity|].
    unfold __brelse. rewrite !bh_set_ne by assumption.
    destruct (Z.eqb_spec (b_count (h tail)) 0); [lia|].
    split_and!.
    + now rewrite bh_set_ne, bh_set_eq by congruence.
    + now rewrite bh_set_eq.
    + intros x Hx1 Hx2. now rewrite !bh_set_ne.
  - intros Hmiss. unfold __find_get_block, lookup_bh_lru. rewrite Hmiss.
    cbn [fst snd]. split; [reflexivity|].
    destruct (__find_get_block_slow h pc bdev block size) as [[p|] h'];
      cbn [fst]; [|eauto].
    destruct (bh_lru_install_ok h' lru p) as [[h'' lru'] Hok].
    rewrite Hok. cbn. eauto.
Qed.


(** ** The fsync drain *)

(** Reading a state bit after another bit was set or cleared. *)
Ltac bh_bits :=
  unfold buffer_uptodate, buffer_dirty, buffer_locked, buffer_mapped,
    buffer_req, buffer_write_io_error, set_buffer_dirty, set_buffer_uptodate,
    clear_buffer_uptodate, clear_buffer_locked, set_buffer_write_io_error,
    clear_buffer_write_io_error, unlock_buffer, clear_buffer_locked,
    test_set_buffer_locked, test_clear_buffer_dirty, test_set_buffer_req,
    test_set_buffer_bit, test_clear_buffer_bit,
    set_buffer_bit, clear_buffer_bit, get_bh, put_bh in *;
  cbn [b_state b_count b_end_io set_b_state set_b_count set_b_end_io fst snd]
    in *;
  repeat first
    [ rewrite test_set_bit_eq by (cbv; congruence)
    | rewrite test_clear_bit_eq by (cbv; congruence)
    | rewrite test_set_bit_neq by (cbv; congruence)
    | rewrite test_clear_bit_neq by (cbv; congruence) ].

(** What completing the I/O in flight does to the bits of a buffer. *)
Lemma run_end_io_bits bh ok :
  buffer_locked (run_end_io bh ok) = false
  /\ buffer_dirty (run_end_io bh ok) = buffer_dirty bh
  /\ buffer_mapped (run_end_io bh ok) = buffer_mapped bh
  /\ b_end_io (run_end_io bh ok) = b_end_io bh
  /\ buffer_uptodate (run_end_io bh ok)
     = match b_end_io bh with
       | end_io_unlock_only => buffer_uptodate bh
       | _ => ok
       end.
Proof.
  unfold run_end_io, end_buffer_read_sync, end_buffer_write_sync.
  destruct (b_end_io bh) eqn:E, ok; bh_bits; rewrite ?E; auto.
Qed.

Lemma wait_buf_bits bh ok :
  buffer_locked (wait_buf bh ok) = false
  /\ buffer_dirty (wait_buf bh ok) = buffer_dirty bh
  /\ buffer_mapped (wait_buf bh ok) = buffer_mapped bh
  /\ b_end_io (wait_buf bh ok) = b_end_io bh
  /\ buffer_uptodate (wait_buf bh ok)
     = if buffer_locked bh then
         match b_end_io bh with
         | end_io_unlock_only => buffer_uptodate bh
         | _ => ok
         end
       else buffer_uptodate bh.
Proof.
  unfold wait_buf. destruct (buffer_locked bh) eqn:El.
  - apply run_end_io_bits.
  - auto.
Qed.

Section Drain.
Variable io_ok : nat -> nat -> bool.

(** Waiting touches one buffer only. *)
Lemma wait_on_buffer_spec s p :
  bufs (wait_on_buffer io_ok s p) p = wait_buf (bufs s p) (io_ok p (completed s p))
  /\ completed (wait_on_buffer io_ok s p) p
     = (if buffer_locked (bufs s p) then S (completed s p) else completed s p)
  /\ (forall x, x <> p ->
        bufs (wait_on_buffer io_ok s p) x = bufs s x
        /\ completed (wait_on_buffer io_ok s p) x = completed s x).
Proof.
  unfold wait_on_buffer, wait_buf, io_complete.
  destruct (buffer_locked (bufs s p)); cbn [bufs completed].
  - rewrite bh_set_eq, Nat.eqb_refl. split_and!; auto.
    intros x Hx. rewrite bh_set_ne by assumption.
    destruct (Nat.eqb_spec x p); [contradiction | auto].
  - auto.
Qed.

(** The bits of a buffer do not depend on its reference count. *)
Lemma __brelse_state (h : bh_heap) p x :
  b_state (__brelse h p x) = b_state (h x)
  /\ b_end_io (__brelse h p x) = b_end_io (h x).
Proof.
  unfold __brelse. destruct (b_count (h p) =? 0); [auto|].
  unfold bh_set. destruct (Nat.eqb_spec x p) as [->|]; auto.
Qed.

(** Writing out one dirty buffer in the first loop: afterwards the write
    is in flight. *)
Lemma queue_write_step s p :
  buffer_dirty (bufs s p) = true -> buffer_mapped (bufs s p) = true ->
  exists s1,
    ll_rw_block_write (wait_on_buffer io_ok (with_buf s p get_bh) p) p
    = Ok s1
    /\ buffer_locked (bufs s1 p) = true
    /\ buffer_dirty (bufs s1 p) = false
    /\ b_end_io (bufs s1 p) = end_buffer_write_sync_fn
    /\ completed s1 p
       = (if buffer_locked (bufs s p) then S (completed s p) else completed s p)
    /\ (forall x, x <> p -> bufs s1 x = bufs s x /\ completed s1 x = completed s x).
Proof.
  intros Hd Hm.
  set (s0 := with_buf s p get_bh).
  assert (Hs0 : bufs s0 p = get_bh (bufs s p) /\ completed s0 = completed s
                /\ forall x, x <> p -> bufs s0 x = bufs s x).
  { subst s0. unfold with_buf. cbn. rewrite bh_set_eq. split_and!; auto.
    intros x Hx. now rewrite bh_set_ne. }
  destruct Hs0 as (Hs0p & Hs0c & Hs0x).
  destruct (wait_on_buffer_spec s0 p) as (Hwp & Hwc & Hwx).
  set (s' := wait_on_buffer io_ok s0 p) in *.
  destruct (wait_buf_bits (bufs s0 p) (io_ok p (completed s0 p)))
    as (Hl & Hdd & Hmm & _).
  rewrite <- Hwp in Hl, Hdd, Hmm. rewrite Hs0p in Hdd, Hmm.
  assert (Hd' : buffer_dirty (bufs s' p) = true) by (rewrite Hdd; bh_bits; exact Hd).
  assert (Hm' : buffer_mapped (bufs s' p) = true) by (rewrite Hmm; bh_bits; exact Hm).
  unfold ll_rw_block_write.
  unfold test_set_buffer_locked at 1, test_set_buffer_bit at 1.
  fold (buffer_locked (bufs s' p)). rewrite Hl.
  unfold test_clear_buffer_dirty at 1, test_clear_buffer_bit at 1.
  match goal with
  | |- context [test_bit BH_Dirty (b_state ?b)] =>
      assert (Hdb : test_bit BH_Dirty (b_state b) = true)
        by (revert Hd'; bh_bits; auto)
  end.
  rewrite Hdb. unfold submit_bh_write, with_buf. cbn [bufs completed].
  rewrite !bh_set_eq.
  match goal with
  | |- context [buffer_locked ?b] =>
      assert (Hlb : buffer_locked b = true) by (bh_bits; reflexivity);
      assert (Hmb : buffer_mapped b = true)
        by (revert Hm'; bh_bits; auto)
  end.
  rewrite Hlb, Hmb. cbn [negb].
  eexists. split; [reflexivity|]. cbn [bufs completed]. rewrite !bh_set_eq.
  split_and!.
  - unfold test_set_buffer_req, test_set_buffer_bit. cbn [fst snd].
    match goal with |- context [if ?c then _ else _] => destruct c end;
      bh_bits; reflexivity.
  - unfold test_set_buffer_req, test_set_buffer_bit. cbn [fst snd].
    match goal with |- context [if ?c then _ else _] => destruct c end;
      bh_bits; reflexivity.
  - unfold test_set_buffer_req, test_set_buffer_bit. cbn [fst snd].
    match goal with |- context [if ?c then _ else _] => destruct c end;
      bh_bits; reflexivity.
  - rewrite Hwc, Hs0c, Hs0p. bh_bits. reflexivity.
  - intros x Hx. rewrite !bh_set_ne by assumption.
    destruct (Hwx x Hx) as [-> ->]. rewrite Hs0c. split; auto.
Qed.

Lemma filter_needs_wait_ext s s' (l : list nat) :
  (forall x, x ∈ l -> needs_wait s' x = needs_wait s x) ->
  filter (fun x => needs_wait s' x = true) l
  = filter (fun x => needs_wait s x = true) l.
Proof.
  induction l as [|a l IH]; intros Hext; [reflexivity|].
  rewrite !filter_cons. rewrite (Hext a) by now left.
  rewrite IH by (intros x Hx; apply Hext; now right).
  destruct (decide _); reflexivity.
Qed.

Lemma fsync_queue_writes_spec l : forall tmp s,
  NoDup l ->
  (forall p, p ∈ l -> buffer_dirty (bufs s p) = true ->
     buffer_mapped (bufs s p) = true) ->
  exists s1,
    fsync_queue_writes io_ok l tmp s
    = Ok (reverse (filter (fun p => needs_wait s p = true) l) ++ tmp, s1)
    /\ (forall x, (x ∉ l) -> bufs s1 x = bufs s x /\ completed s1 x = completed s x)
    /\ (forall p, p ∈ l ->
          if buffer_dirty (bufs s p) then
            buffer_locked (bufs s1 p) = true
            /\ buffer_dirty (bufs s1 p) = false
            /\ b_end_io (bufs s1 p) = end_buffer_write_sync_fn
            /\ completed s1 p
               = (if buffer_locked (bufs s p) then S (completed s p)
                  else completed s p)
          else bufs s1 p = bufs s p /\ completed s1 p = completed s p).
Proof.
  induction l as [|p rest IH]; intros tmp s Hnd Hmapped.
  - exists s. cbn. split_and!; auto. intros p Hp. now apply elem_of_nil in Hp.
  - apply NoDup_cons in Hnd as [Hp Hnd]. cbn [fsync_queue_writes].
    assert (Hstep : exists s1,
               (if buffer_dirty (bufs s p) || buffer_locked (bufs s p) then
                  if buffer_dirty (bufs s p) then
                    s0 ← ll_rw_block_write
                           (wait_on_buffer io_ok (with_buf s p get_bh) p) p;
                    fsync_queue_writes io_ok rest (p :: tmp)
                      (IoState (__brelse (bufs s0) p) (completed s0))
                  else fsync_queue_writes io_ok rest (p :: tmp) s
                else fsync_queue_writes io_ok rest tmp s)
               = fsync_queue_writes io_ok rest
                   (if needs_wait s p then p :: tmp else tmp) s1
               /\ (forall x, x <> p ->
                     bufs s1 x = bufs s x /\ completed s1 x = completed s x)
               /\ (if buffer_dirty (bufs s p) then
                     buffer_locked (bufs s1 p) = true
                     /\ buffer_dirty (bufs s1 p) = false
                     /\ b_end_io (bufs s1 p) = end_buffer_write_sync_fn
                     /\ completed s1 p
                        = (if buffer_locked (bufs s p) then S (completed s p)
                           else completed s p)
                   else bufs s1 p = bufs s p /\ completed s1 p = completed s p)).
    { unfold needs_wait. destruct (buffer_dirty (bufs s p)) eqn:Hd.
      - destruct (queue_write_step s p Hd (Hmapped p ltac:(now left) Hd))
          as (s0 & Hrun & Hl & Hdd & He & Hc & Hx).
        rewrite Hrun. cbn [orb mbind outcome_bind].
        exists (IoState (__brelse (bufs s0) p) (completed s0)).
        destruct (__brelse_state (bufs s0) p p) as [Hst Hen].
        cbn [bufs completed]. split_and!; auto.
        + intros x Hne. destruct (Hx x Hne) as [<- <-].
          split; [|reflexivity]. unfold __brelse.
          destruct (_ =? 0); [reflexivity | now rewrite bh_set_ne].
        + unfold buffer_locked in *. now rewrite Hst.
        + unfold buffer_dirty in *. now rewrite Hst.
        + now rewrite Hen.
      - exists s. cbn [orb]. destruct (buffer_locked (bufs s p)); auto. }
    destruct Hstep as (s1 & -> & Hframe & Hp1).
    destruct (IH (if needs_wait s p then p :: tmp else tmp) s1 Hnd)
      as (s2 & Hrun & Hframe2 & Hrest).
    { intros x Hx Hdx.
      assert (x <> p) by (intros ->; contradiction).
      destruct (Hframe x H) as [Hb _]. rewrite Hb in *.
      apply Hmapped; [now right | assumption]. }
    exists s2. split_and!.
    + rewrite Hrun. f_equal. f_equal.
      assert (Hfilter : filter (fun x => needs_wait s1 x = true) rest
                        = filter (fun x => needs_wait s x = true) rest).
      { apply filter_needs_wait_ext. intros x Hx.
        assert (x <> p) by (intros ->; contradiction).
        unfold needs_wait. destruct (Hframe x H) as [-> _]. reflexivity. }
      rewrite Hfilter.
      destruct (needs_wait s p) eqn:Hn.
      * rewrite filter_cons_True by assumption.
        rewrite reverse_cons, <- app_assoc. reflexivity.
      * rewrite filter_cons_False by congruence. reflexivity.
    + intros x Hx. apply not_elem_of_cons in Hx as [Hne Hx].
      destruct (Hframe2 x Hx) as [-> ->]. now apply Hframe.
    + intros x Hx. apply elem_of_cons in Hx as [->|Hx].
      * destruct (Hframe2 p Hp) as [-> ->]. exact Hp1.
      * assert (x <> p) by (intros ->; contradiction).
        specialize (Hrest x Hx). destruct (Hframe x H) as [Hb Hc].
        rewrite Hb, Hc in Hrest. exact Hrest.
Qed.

Lemma fsync_wait_spec l : forall err s,
  NoDup l ->
  let res := fsync_wait io_ok l err s in
  (forall x, (x ∉ l) -> bufs res.2 x = bufs s x)
  /\ (forall p, p ∈ l ->
        buffer_locked (bufs res.2 p) = false
        /\ buffer_dirty (bufs res.2 p) = buffer_dirty (bufs s p)
        /\ buffer_uptodate (bufs res.2 p) = uptodate_after_wait io_ok s p)
  /\ ((Exists (fun p => buffer_uptodate (bufs res.2 p) = false) l
       /\ res.1 = - EIO)
      \/ (Forall (fun p => buffer_uptodate (bufs res.2 p) = true) l
          /\ res.1 = err)).
Proof.
  induction l as [|p rest IH]; intros err s Hnd.
  - cbn. split_and!; auto. intros p Hp. now apply elem_of_nil in Hp.
  - apply NoDup_cons in Hnd as [Hp Hnd]. cbn [fsync_wait].
    set (s0 := with_buf s p get_bh).
    set (sw := wait_on_buffer io_ok s0 p).
    set (s1 := IoState (__brelse (bufs sw) p) (completed sw)).
    set (err1 := if negb (buffer_uptodate (bufs sw p)) then - EIO else err).
    destruct (wait_on_buffer_spec s0 p) as (Hwp & Hwc & Hwx). fold sw in Hwp, Hwc, Hwx.
    assert (Hs0p : bufs s0 p = get_bh (bufs s p))
      by (subst s0; unfold with_buf; cbn; now rewrite bh_set_eq).
    assert (Hs1x : forall x, x <> p -> bufs s1 x = bufs s x).
    { intros x Hx. subst s1. cbn [bufs]. unfold __brelse.
      destruct (_ =? 0); rewrite ?bh_set_ne by assumption;
        destruct (Hwx x Hx) as [-> _]; subst s0; unfold with_buf; cbn;
        now rewrite bh_set_ne. }
    assert (Hs1c : forall x, x <> p -> completed s1 x = completed s x).
    { intros x Hx. subst s1. cbn [completed].
      destruct (Hwx x Hx) as [_ ->]. reflexivity. }
    destruct (wait_buf_bits (bufs s0 p) (io_ok p (completed s0 p)))
      as (Hl & Hd & _ & _ & Hu).
    rewrite <- Hwp in Hl, Hd, Hu.
    destruct (__brelse_state (bufs sw) p p) as [Hst _].
    assert (Hs1p : buffer_locked (bufs s1 p) = false
                   /\ buffer_dirty (bufs s1 p) = buffer_dirty (bufs s p)
                   /\ buffer_uptodate (bufs s1 p) = uptodate_after_wait io_ok s p
                   /\ buffer_uptodate (bufs s1 p) = buffer_uptodate (bufs sw p)).
    { subst s1. cbn [bufs].
      unfold buffer_locked, buffer_dirty, buffer_uptodate in *. rewrite Hst.
      rewrite Hl, Hd, Hu, Hs0p. unfold uptodate_after_wait.
      subst s0. unfold with_buf. cbn [completed].
      unfold buffer_locked, buffer_uptodate. bh_bits. auto. }
    destruct Hs1p as (Hl1 & Hd1 & Hu1 & Husw).
    specialize (IH err1 s1 Hnd). cbv zeta in IH.
    destruct IH as (Hframe & Hbits & Herr).
    set (res := fsync_wait io_ok rest err1 s1) in *.
    assert (Hresp : bufs res.2 p = bufs s1 p) by now apply Hframe.
    split_and!.
    + intros x Hx. apply not_elem_of_cons in Hx as [Hne Hx].
      rewrite Hframe by assumption. now apply Hs1x.
    + intros x Hx. apply elem_of_cons in Hx as [->|Hx].
      * rewrite Hresp. auto.
      * assert (x <> p) by (intros ->; contradiction).
        destruct (Hbits x Hx) as (H1 & H2 & H3).
        rewrite H1, H2, H3. unfold uptodate_after_wait.
        rewrite (Hs1x x H), (Hs1c x H). auto.
    + destruct Herr as [[Hex ->]|[Hall ->]].
      * left. split; [now apply Exists_cons_tl | reflexivity].
      * subst err1. rewrite <- Husw, <- Hresp.
        destruct (buffer_uptodate (bufs res.2 p)) eqn:Hup; cbn [negb].
        -- right. split; [constructor; assumption | reflexivity].
        -- left. split; [now apply Exists_cons_hd | reflexivity].
Qed.

(** C6 (amended): run on its own over a list of distinct buffers whose
    dirty members are mapped, the fsync drain returns; every buffer that
    was dirty on the list at entry is then clean and unlocked, its
    Uptodate bit telling whether the write the drain submitted for it
    succeeded; every buffer that was locked at entry is unlocked; and the
    result is [-EIO] when some buffer that was dirty or locked at entry
    is left not uptodate, and 0 otherwise. *)
Theorem fsync_drain (s : io_state) (l : list nat) :
  NoDup l ->
  (forall p, p ∈ l -> buffer_dirty (bufs s p) = true ->
     buffer_mapped (bufs s p) = true) ->
  exists err s',
    fsync_buffers_list io_ok s l = Ok (err, s')
    /\ (forall p, p ∈ l -> buffer_dirty (bufs s p) = true ->
          buffer_dirty (bufs s' p) = false
          /\ buffer_locked (bufs s' p) = false
          /\ buffer_uptodate (bufs s' p)
             = io_ok p (if buffer_locked (bufs s p) then S (completed s p)
                        else completed s p))
    /\ (forall p, p ∈ l -> buffer_dirty (bufs s p) = false ->
          buffer_locked (bufs s p) = true ->
          buffer_dirty (bufs s' p) = false
          /\ buffer_locked (bufs s' p) = false
          /\ buffer_uptodate (bufs s' p) = uptodate_after_wait io_ok s p)
    /\ ((err = - EIO
         /\ exists p, p ∈ l /\ needs_wait s p = true
                      /\ buffer_uptodate (bufs s' p) = false)
        \/ (err = 0
            /\ forall p, p ∈ l -> needs_wait s p = true ->
                 buffer_uptodate (bufs s' p) = true)).
Proof.
  intros Hnd Hmapped.
  destruct (fsync_queue_writes_spec l [] s Hnd Hmapped)
    as (s1 & Hq & Hframe1 & Hbits1).
  set (tmp := filter (fun p => needs_wait s p = true) l) in *.
  assert (Htmp_nd : NoDup tmp) by now apply NoDup_filter.
  pose proof (fsync_wait_spec tmp 0 s1 Htmp_nd) as Hw. cbv zeta in Hw.
  destruct Hw as (Hframe2 & Hbits2 & Herr).
  unfold fsync_buffers_list. rewrite Hq. cbn [mbind outcome_bind].
  rewrite app_nil_r, reverse_involutive.
  destruct (fsync_wait io_ok tmp 0 s1) as [err s2] eqn:Hwait.
  cbn [fst snd] in *.
  unfold osync_buffers_list. cbn [reverse rev_append osync_wait].
  assert (Hin : forall p, p ∈ tmp <-> p ∈ l /\ needs_wait s p = true).
  { intros p. subst tmp. rewrite list_elem_of_filter. tauto. }
  exists (if negb (err =? 0) then err else 0), s2.
  split; [reflexivity|]. split_and!.
  - intros p Hp Hd.
    assert (Hpt : p ∈ tmp).
    { apply Hin. split; [assumption|]. unfold needs_wait. now rewrite Hd. }
    specialize (Hbits1 p Hp). rewrite Hd in Hbits1.
    destruct Hbits1 as (Hl1 & Hd1 & He1 & Hc1).
    destruct (Hbits2 p Hpt) as (Hl2 & Hd2 & Hu2).
    split_and!; [congruence | assumption |].
    rewrite Hu2. unfold uptodate_after_wait. now rewrite Hl1, He1, Hc1.
  - intros p Hp Hd Hl.
    assert (Hpt : p ∈ tmp).
    { apply Hin. split; [assumption|]. unfold needs_wait.
      now rewrite Hl, orb_true_r. }
    specialize (Hbits1 p Hp). rewrite Hd in Hbits1.
    destruct Hbits1 as (Hb1 & Hc1).
    destruct (Hbits2 p Hpt) as (Hl2 & Hd2 & Hu2).
    split_and!; [congruence | assumption |].
    rewrite Hu2. unfold uptodate_after_wait. now rewrite Hb1, Hc1.
  - destruct Herr as [[Hex ->]|[Hall ->]].
    + left. split; [reflexivity|].
      apply Exists_exists in Hex as (p & Hp & Hup).
      exists p. apply Hin in Hp as [Hp Hn]. auto.
    + right. split; [reflexivity|]. intros p Hp Hn.
      rewrite Forall_forall in Hall. apply Hall. apply Hin. auto.
Qed.

End Drain.

(** No buffer of the list is dirty at entry, and the drain still returns
    [-EIO]: the write in flight on a locked, clean buffer failed. *)
Lemma fsync_error_counterexample :
  Forall (fun p => buffer_dirty (bufs Samples.locked_clean_state p) = false) [1%nat]
  /\ match fsync_buffers_list Samples.failing_device Samples.locked_clean_state [1%nat] with
     | Ok (err, _) => err = - EIO
     | _ => False
     end.
Proof. split; [repeat constructor | vm_compute; reflexivity]. Qed.

Lemma fsync_drain_witness :
  NoDup [1%nat; 2%nat]
  /\ (forall p, p ∈ [1%nat; 2%nat] ->
        buffer_dirty (bufs Samples.dirty_state p) = true ->
        buffer_mapped (bufs Samples.dirty_state p) = true)
  /\ exists err s',
       fsync_buffers_list Samples.failing_device Samples.dirty_state [1%nat; 2%nat]
       = Ok (err, s')
       /\ buffer_dirty (bufs s' 1%nat) = false.
Proof.
  assert (Hnd : NoDup [1%nat; 2%nat])
    by (apply (bool_decide_unpack _); vm_compute; exact I).
  assert (Hm : forall p, p ∈ [1%nat; 2%nat] ->
                 buffer_dirty (bufs Samples.dirty_state p) = true ->
                 buffer_mapped (bufs Samples.dirty_state p) = true)
    by (intros; vm_compute; reflexivity).
  split; [exact Hnd|]. split; [exact Hm|].
  destruct (fsync_drain Samples.failing_device Samples.dirty_state [1%nat; 2%nat] Hnd Hm)
    as (err & s' & Hrun & Hdirty & _).
  exists err, s'. split; [exact Hrun|].
  apply Hdirty; [now left | vm_compute; reflexivity].
Defined.

(** ** Exercising the buffer properties *)

Lemma dirty_bit_discipline_witness :
  buffer_dirty (mark_buffer_dirty (Samples.sample_bh 0 1)).1 = true
  /\ buffer_errors (mark_buffer_dirty (Samples.sample_bh 0 1)).2 = 1%nat.
Proof.
  destruct (dirty_bit_discipline (Samples.sample_bh 0 1) Samples.stale_page)
    as (_ & _ & Herr & Hdirty & _).
  split; [exact Hdirty | exact Herr].
Defined.

Lemma bh_lru_behaviour_witness :
  length Samples.full_lru = BH_LRU_SIZE
  /\ (lookup_bh_lru Samples.cached_buffers Samples.full_lru 0 3 1024).2
     = [Some 3; Some 1; Some 2; Some 4; Some 5; Some 6; Some 7; Some 8]%nat.
Proof.
  split; [reflexivity|].
  destruct (bh_lru_behaviour Samples.cached_buffers Samples.full_lru
              Samples.empty_page_cache 0%nat 3 1024 eq_refl) as (Hhit & _).
  rewrite (Hhit 2%nat 3%nat); [reflexivity | reflexivity | reflexivity |].
  intros j slot Hj Hslot.
  destruct j as [|[|j]]; [| |lia];
    cbn in Hslot; injection Hslot as <-; reflexivity.
Defined.

End BufferProofs.

Module AdmissionProofs.
Import Kernel LlRwBlk Buffer BitFacts LlRwBlkProofs.

Section MergeAccepted.
Context `{BioVecOps}.

(** What an accepting run of the shared body of the two merge functions
    has checked and changed. *)
Lemma merge_fn_accepts q req b (virt : bool) q' req' :
  (if nr_sectors req + bio_sectors b >? max_sectors q
   then Ok (reject_merge q req)
   else if virt then Ok (ll_new_mergeable q req b)
        else Ok (ll_new_hw_segment q req b))
  = Ok (1, q', req') ->
  q' = q
  /\ nr_sectors req + bio_sectors b <= max_sectors q
  /\ req' = set_nr_phys_segments
              (nr_phys_segments req + bio_phys_segments q b)
              (if virt then req
               else set_nr_hw_segments
                      (nr_hw_segments req + bio_hw_segments q b) req)
  /\ nr_phys_segments req + bio_phys_segments q b <= max_phys_segments q
  /\ (virt = false ->
      nr_hw_segments req + bio_hw_segments q b <= max_hw_segments q).
Proof.
  unfold ll_new_mergeable, ll_new_hw_segment, reject_merge.
  destruct (Z.gtb_spec (nr_sectors req + bio_sectors b) (max_sectors q));
    [discriminate|].
  destruct virt.
  - destruct (Z.gtb_spec (nr_phys_segments req + bio_phys_segments q b)
                (max_phys_segments q)); [discriminate|].
    intros [= <- <-]. split_and!; auto; discriminate.
  - destruct (Z.gtb_spec (nr_hw_segments req + bio_hw_segments q b)
                (max_hw_segments q)); [discriminate|].
    destruct (Z.gtb_spec (nr_phys_segments req + bio_phys_segments q b)
                (max_phys_segments q)); [discriminate|].
    cbn [orb]. intros [= <- <-]. split_and!; auto.
Qed.

(** A merge the back or front merge function accepts stays within the
    queue's limits: the sector counts of request and bio add up to at
    most [max_sectors], the request's physical-segment count has grown by
    the bio's and is at most [max_phys_segments], and its hardware-segment
    count either is unchanged (the bio continues the hardware segment at
    the merging end) or has grown by the bio's and is at most
    [max_hw_segments].  The queue, with its merge hint, and the request's
    flags, sectors and bio chain are left as they were. *)
Theorem merge_accepted_within_limits (q : request_queue) (req : request)
    (b biotail first : bio) :
  last (bio_chain req) = Some biotail ->
  head (bio_chain req) = Some first ->
  let accepted (edge_virt : bool) (q' : request_queue) (req' : request) :=
    q' = q
    /\ nr_sectors req + bio_sectors b <= max_sectors q
    /\ nr_phys_segments req'
       = nr_phys_segments req + bio_phys_segments q b
    /\ nr_phys_segments req' <= max_phys_segments q
    /\ (if edge_virt then nr_hw_segments req' = nr_hw_segments req
        else nr_hw_segments req'
             = nr_hw_segments req + bio_hw_segments q b
             /\ nr_hw_segments req' <= max_hw_segments q)
    /\ flags req' = flags req
    /\ sector req' = sector req /\ nr_sectors req' = nr_sectors req
    /\ hard_nr_sectors req' = hard_nr_sectors req
    /\ bio_chain req' = bio_chain req in
  (exists ret q' req',
      ll_back_merge_fn q req b = Ok (ret, q', req')
      /\ (ret = 0
          \/ (ret = 1
              /\ accepted (BIOVEC_VIRT_MERGEABLE biotail b) q' req')))
  /\ (exists ret q' req',
         ll_front_merge_fn q req b = Ok (ret, q', req')
         /\ (ret = 0
             \/ (ret = 1
                 /\ accepted (BIOVEC_VIRT_MERGEABLE b first) q' req'))).
Proof.
  intros Hlast Hhead accepted.
  assert (Hbody : forall (virt : bool),
             exists ret q' req',
               (if nr_sectors req + bio_sectors b >? max_sectors q
                then Ok (reject_merge q req)
                else if virt then Ok (ll_new_mergeable q req b)
                     else Ok (ll_new_hw_segment q req b))
               = Ok (ret, q', req')
               /\ (ret = 0 \/ (ret = 1 /\ accepted virt q' req'))).
  { intros virt.
    assert (Hrun : exists ret q' req',
               (if nr_sectors req + bio_sectors b >? max_sectors q
                then Ok (reject_merge q req)
                else if virt then Ok (ll_new_mergeable q req b)
                     else Ok (ll_new_hw_segment q req b))
               = Ok (ret, q', req') /\ (ret = 0 \/ ret = 1)).
    { unfold ll_new_mergeable, ll_new_hw_segment, reject_merge.
      repeat match goal with
      | |- context [if ?c then _ else _] => destruct c
      end; do 3 eexists; (split; [reflexivity | auto]). }
    destruct Hrun as (ret & q' & req' & Hrun & Hret).
    exists ret, q', req'. split; [exact Hrun|].
    destruct Hret as [->| ->]; [now left | right].
    split; [reflexivity|].
    apply merge_fn_accepts in Hrun as (-> & Hs & -> & Hp & Hh).
    unfold accepted. destruct virt; cbn; split_and!; auto. }
  split.
  - unfold ll_back_merge_fn. rewrite Hlast.
    destruct (Hbody (BIOVEC_VIRT_MERGEABLE biotail b))
      as (ret & q' & req' & Hrun & Hres).
    exists ret, q', req'. split; [|assumption]. rewrite <- Hrun.
    destruct (nr_sectors req + bio_sectors b >? max_sectors q);
      [reflexivity|].
    destruct (BIOVEC_VIRT_MERGEABLE biotail b); reflexivity.
  - unfold ll_front_merge_fn. rewrite Hhead.
    destruct (Hbody (BIOVEC_VIRT_MERGEABLE b first))
      as (ret & q' & req' & Hrun & Hres).
    exists ret, q', req'. split; [|assumption]. rewrite <- Hrun.
    destruct (nr_sectors req + bio_sectors b >? max_sectors q);
      [reflexivity|].
    destruct (BIOVEC_VIRT_MERGEABLE b first); reflexivity.
Qed.

End MergeAccepted.

(** A caller without an io context, on a queue whose scheduler has no
    admission hook, never brings a direction's count up to
    [nr_requests]: when the allocation would fill the queue it is turned
    away with the count as it was and the direction marked full, a
    successful allocation leaves the count below [nr_requests], and a
    failed one leaves the count as it was. *)
Theorem admission_without_batching_is_bounded (HZ : Z) (s : blk_state)
    (rw : rw_t) (jiffies : Z) (qaddr : nat) (pool : option request)
    (esr : Z) :
  let c := rw_get (count (rq (queue s))) rw in
  let n := nr_requests (queue s) in
  let res := @get_request elevator_noop HZ s rw jiffies None qaddr pool esr in
  let c' := rw_get (count (rq (queue res.1.2))) rw in
  (n <= c + 1 ->
   res.1.1 = None /\ c' = c /\ blk_queue_full (queue res.1.2) rw = true)
  /\ (is_Some res.1.1 -> c' = c + 1 /\ c' < n)
  /\ (res.1.1 = None -> c' = c)
  /\ c' <= Z.max c (n - 1).
Proof.
  intros c n res c'.
  pose proof (full_bit_nonneg rw) as Hf.
  assert (Hcases :
            (res.1.1 = None /\ c' = c
             /\ (n <= c + 1 -> blk_queue_full (queue res.1.2) rw = true))
            \/ (is_Some res.1.1 /\ c' = c + 1 /\ c + 1 < n)).
  { subst c' res. unfold get_request. fold c n.
    pose proof (freed_request_fields
                  (set_queue
                     (if c + 1 >=? queue_congestion_on_threshold (queue s)
                      then set_queue_congested
                             (set_count (queue s) rw (c + 1)) rw
                      else set_count (queue s) rw (c + 1)) s) rw) as Hfree.
    destruct (Z.geb_spec (c + 1) n) as [Hge|Hlt].
    - left.
      assert (Hfull : blk_queue_full
                        (if negb (blk_queue_full (queue s) rw)
                         then blk_set_queue_full (queue s) rw
                         else queue s) rw = true).
      { destruct (blk_queue_full (queue s) rw) eqn:E; cbn [negb];
          [assumption|].
        unfold blk_queue_full, blk_set_queue_full. cbn.
        now apply test_set_bit_eq. }
      destruct (blk_queue_full (queue s) rw) eqn:E; cbn [negb] in *;
        cbn [ioc_set_batching ioc_batching]; rewrite Hfull;
        cbn; split_and!; auto.
    - destruct (blk_queue_full (queue s) rw) eqn:E.
      + left. cbn. split_and!; auto; lia.
      + cbn -[Z.geb freed_request queue_congestion_on_threshold
              set_queue_congested].
        rewrite !rw_get_set. fold c.
        change (queue_congestion_on_threshold
                  (set_count (queue s) rw (c + 1)))
          with (queue_congestion_on_threshold (queue s)).
        destruct (blk_alloc_request pool esr) as [r|].
        * right. split; [eexists; reflexivity|].
          destruct (c + 1 >=? queue_congestion_on_threshold (queue s));
            cbn; rewrite rw_get_set; lia.
        * left. cbn [fst snd]. split; [reflexivity|].
          destruct Hfree as (Hcount & _).
          split; [|lia].
          rewrite Hcount.
          destruct (c + 1 >=? queue_congestion_on_threshold (queue s));
            cbn; rewrite !rw_get_set; lia. }
  destruct Hcases as [(Hnone & Hc & Hfull)|(Hsome & Hc & Hlt)].
  - split_and!; auto; try lia.
    rewrite Hnone. intros [x Hx]. discriminate.
  - split_and!; auto; try lia.
    intros Hnone. rewrite Hnone in Hsome. destruct Hsome; discriminate.
Qed.

Section Release.
Context `{Elevator}.
Variable HZ : Z.

(** Releasing a request [get_request] has just handed out gives its slot
    back: [blk_put_request] returns without [BUG()], both directions'
    counts are what they were before the allocation, and the request is
    inactive, detached from the queue and without references. *)
Theorem allocate_then_release_restores_count (s : blk_state) (rw : rw_t)
    (jiffies : Z) (ioc : option io_context) (qaddr : nat)
    (pool : option request) (esr : Z) (r : request) (s1 : blk_state)
    (ioc1 : option io_context) :
  get_request HZ s rw jiffies ioc qaddr pool esr = (Some r, s1, ioc1) ->
  exists s2 r2,
    blk_put_request s1 r = Ok (s2, r2)
    /\ count (rq (queue s2)) = count (rq (queue s))
    /\ nr_requests (queue s2) = nr_requests (queue s)
    /\ rq_status r2 = RQ_INACTIVE /\ rq_q r2 = None /\ rq_rl r2 = None
    /\ ref_count r2 = 0.
Proof.
  intros Hget.
  pose proof (get_request_success_fields HZ _ _ _ _ _ _ _ _ _ _ Hget)
    as (Hcount & Hn & _).
  assert (Hr : ref_count r = 1 /\ rq_q r = Some qaddr /\ rq_rl r = Some qaddr
               /\ queuelist r = Unlinked /\ rq_data_dir r = rw).
  { unfold get_request in Hget.
    repeat match type of Hget with
    | context [if ?c then _ else _] => destruct c
    | context [match ?c with Some _ => _ | None => _ end] => destruct c
    | (let '(_, _) := ?c in _) = _ => destruct c
    end; try discriminate; injection Hget as <- _ _; cbn;
      split_and!; try reflexivity; now destruct rw. }
  destruct Hr as (Href & Hq & Hrl & Hlink & Hdir).
  unfold blk_put_request, __blk_put_request. rewrite Hq, Hrl.
  cbn [ref_count set_ref_count queuelist]. rewrite Href, Hlink.
  change (1 - 1 =? 0) with true. cbn [negb list_empty].
  change (rq_data_dir (set_ref_count (1 - 1) r)) with (rq_data_dir r).
  rewrite Hdir.
  do 2 eexists. split; [reflexivity|].
  destruct (freed_request_fields s1 rw) as (Hc2 & Hn2 & _).
  cbn zeta in Hc2, Hn2. rewrite Hc2, Hn2, Hcount, Hn.
  split_and!; try reflexivity.
  rewrite rw_get_set.
  destruct (count (rq (queue s))) as [a b], rw; cbn; f_equal; lia.
Qed.

End Release.

(** ** Exercising the admission and merge properties *)

Lemma merge_accepted_within_limits_witness :
  last (bio_chain (Samples.queued_request Samples.write_cmd 0 1))
  = Some (Samples.page_bio 0 1)
  /\ head (bio_chain (Samples.queued_request Samples.write_cmd 0 1))
     = Some (Samples.page_bio 0 1)
  /\ exists ret q' req',
       @ll_back_merge_fn Samples.scattered_ops Samples.tight_queue
         (Samples.queued_request Samples.write_cmd 0 1) (Samples.page_bio 8 2)
       = Ok (ret, q', req')
       /\ (ret = 0 \/ nr_hw_segments req' <= 4).
Proof.
  split; [reflexivity|]. split; [reflexivity|].
  destruct (@merge_accepted_within_limits Samples.scattered_ops
              Samples.tight_queue
              (Samples.queued_request Samples.write_cmd 0 1)
              (Samples.page_bio 8 2) (Samples.page_bio 0 1)
              (Samples.page_bio 0 1) eq_refl eq_refl)
    as [(ret & q' & req' & Hrun & Hres) _].
  exists ret, q', req'. split; [exact Hrun|].
  destruct Hres as [Hret|(_ & _ & _ & _ & _ & Hhw & _)]; [now left|].
  right. exact (proj2 Hhw).
Defined.

Lemma allocate_then_release_restores_count_witness :
  exists r s1 ioc1 s2 r2,
    @get_request elevator_noop Samples.HZ (Samples.sample_state 3 5 0) WRITE
      0 None 0%nat (Some Samples.raw_request) 0
    = (Some r, s1, ioc1)
    /\ blk_put_request s1 r = Ok (s2, r2)
    /\ count (rq (queue s2)) = RwArray 3 5.
Proof.
  destruct (@get_request elevator_noop Samples.HZ (Samples.sample_state 3 5 0)
              WRITE 0 None 0%nat (Some Samples.raw_request) 0)
    as [[[r|] s1] ioc1] eqn:Hget; [|vm_compute in Hget; discriminate].
  destruct (@allocate_then_release_restores_count elevator_noop Samples.HZ
              (Samples.sample_state 3 5 0) WRITE 0 None 0%nat
              (Some Samples.raw_request) 0 r s1 ioc1 Hget)
    as (s2 & r2 & Hput & Hcount & _).
  exists r, s1, ioc1, s2, r2. split; [reflexivity|].
  split; [exact Hput | exact Hcount].
Defined.

End AdmissionProofs.

Module BlockQueueProofs.
Import Kernel LlRwBlk Buffer BitFacts BlockQueue LlRwBlkProofs.

(** ** Queue limits *)

Lemma request_queue_ext (q q' : request_queue) :
  rq q = rq q' -> nr_requests q = nr_requests q' ->
  queue_flags q = queue_flags q' -> bdi_state q = bdi_state q' ->
  last_merge q = last_merge q' -> max_sectors q = max_sectors q' ->
  max_phys_segments q = max_phys_segments q' ->
  max_hw_segments q = max_hw_segments q' ->
  max_segment_size q = max_segment_size q' ->
  queue_tags q = queue_tags q' -> queue_head q = queue_head q' ->
  q = q'.
Proof. destruct q, q'; cbn; intros; subst; reflexivity. Qed.

Ltac queue_fields :=
  cbn [rq nr_requests queue_flags bdi_state last_merge max_sectors
       max_phys_segments max_hw_segments max_segment_size queue_tags
       queue_head set_max_sectors set_max_phys_segments set_max_hw_segments
       set_max_segment_size];
  try reflexivity.

Lemma min_not_zero_comm l r : min_not_zero l r = min_not_zero r l.
Proof.
  unfold min_not_zero.
  destruct (Z.eqb_spec l 0), (Z.eqb_spec r 0); lia.
Qed.

Lemma min_not_zero_assoc a b c :
  min_not_zero (min_not_zero a b) c = min_not_zero a (min_not_zero b c).
Proof.
  unfold min_not_zero.
  destruct (Z.eqb_spec a 0), (Z.eqb_spec b 0), (Z.eqb_spec c 0);
    cbv iota;
    repeat match goal with
    | |- context [?x =? 0] => destruct (Z.eqb_spec x 0); cbv iota
    end; lia.
Qed.

(** Every limit setter stores a value at or above its floor, and the
    caller's value whenever that is at or above the floor: a request may
    always span a page ([max_sectors] times 512 and [max_segment_size]
    are at least the page size, the boundary mask at least the page size
    less one) and hold a segment (the two segment limits are at least 1). *)
Theorem limit_setters_keep_floors (PAGE_CACHE_SHIFT : Z) (q : request_queue)
    (l : queue_limits) (v : Z) :
  9 <= PAGE_CACHE_SHIFT < 25 ->
  0 <= v < 2 ^ 16 ->
  let page := PAGE_CACHE_SIZE PAGE_CACHE_SHIFT in
  (page <= max_sectors (blk_queue_max_sectors PAGE_CACHE_SHIFT q v) * 512
   /\ (page <= v * 512 ->
       max_sectors (blk_queue_max_sectors PAGE_CACHE_SHIFT q v) = v))
  /\ (1 <= max_phys_segments (blk_queue_max_phys_segments q v)
      /\ (1 <= v -> max_phys_segments (blk_queue_max_phys_segments q v) = v))
  /\ (1 <= max_hw_segments (blk_queue_max_hw_segments q v)
      /\ (1 <= v -> max_hw_segments (blk_queue_max_hw_segments q v) = v))
  /\ (page <= max_segment_size
                (blk_queue_max_segment_size PAGE_CACHE_SHIFT q v)
      /\ (page <= v ->
          max_segment_size (blk_queue_max_segment_size PAGE_CACHE_SHIFT q v)
          = v))
  /\ (page - 1 <= seg_boundary_mask
                    (blk_queue_segment_boundary PAGE_CACHE_SHIFT l v)
      /\ (page - 1 <= v ->
          seg_boundary_mask (blk_queue_segment_boundary PAGE_CACHE_SHIFT l v)
          = v)).
Proof.
  intros Hshift Hv page.
  assert (Hpage : page = 2 ^ (PAGE_CACHE_SHIFT - 9) * 512).
  { subst page. unfold PAGE_CACHE_SIZE. rewrite Z.shiftl_1_l.
    replace PAGE_CACHE_SHIFT with ((PAGE_CACHE_SHIFT - 9) + 9) at 1 by lia.
    rewrite Z.pow_add_r by lia. reflexivity. }
  assert (Hv9 : Z.shiftl v 9 = v * 512)
    by (rewrite Z.shiftl_mul_pow2 by lia; reflexivity).
  unfold blk_queue_max_sectors, blk_queue_max_phys_segments,
    blk_queue_max_hw_segments, blk_queue_max_segment_size,
    blk_queue_segment_boundary.
  cbn [max_sectors set_max_sectors max_phys_segments set_max_phys_segments
       max_hw_segments set_max_hw_segments max_segment_size
       set_max_segment_size seg_boundary_mask].
  fold page. rewrite Hv9, Z.shiftl_1_l.
  assert (Hsmall : 0 < 2 ^ (PAGE_CACHE_SHIFT - 9) < 2 ^ 16).
  { split; [apply Z.pow_pos_nonneg; lia|].
    apply Z.pow_lt_mono_r; lia. }
  assert (Hpage32 : 0 < page < 2 ^ 32).
  { subst page. unfold PAGE_CACHE_SIZE. rewrite Z.shiftl_1_l.
    split; [apply Z.pow_pos_nonneg; lia|].
    apply Z.pow_lt_mono_r; lia. }
  rewrite (Z.mod_small (2 ^ (PAGE_CACHE_SHIFT - 9))) by lia.
  rewrite (Z.mod_small page) by lia.
  destruct (Z.ltb_spec (v * 512) page), (Z.eqb_spec v 0),
    (Z.ltb_spec v page), (Z.ltb_spec v (page - 1)); split_and!; lia.
Qed.

(** A stacking queue inherits limits that fit both queues: its segment
    counts and segment size are the smaller of the two, its hardware
    sector size the larger, and its [max_sectors] the smaller of the two
    with zero standing for "no limit"; nothing else of the stacking queue
    changes.  Inheriting from the same queue twice changes nothing more,
    and inheriting from two queues gives the same limits in either
    order. *)
Theorem stack_limits_fit_both (t b b' : queue_limits) :
  let s := blk_queue_stack_limits t b in
  (max_phys_segments (lq s)
   = Z.min (max_phys_segments (lq t)) (max_phys_segments (lq b))
   /\ max_hw_segments (lq s)
      = Z.min (max_hw_segments (lq t)) (max_hw_segments (lq b))
   /\ max_segment_size (lq s)
      = Z.min (max_segment_size (lq t)) (max_segment_size (lq b))
   /\ hardsect_size s = Z.max (hardsect_size t) (hardsect_size b))
  /\ (max_sectors (lq t) <> 0 -> max_sectors (lq b) <> 0 ->
      max_sectors (lq s) = Z.min (max_sectors (lq t)) (max_sectors (lq b)))
  /\ (max_sectors (lq t) = 0 -> max_sectors (lq s) = max_sectors (lq b))
  /\ (max_sectors (lq b) = 0 -> max_sectors (lq s) = max_sectors (lq t))
  /\ (rq (lq s) = rq (lq t) /\ nr_requests (lq s) = nr_requests (lq t)
      /\ queue_flags (lq s) = queue_flags (lq t)
      /\ bdi_state (lq s) = bdi_state (lq t)
      /\ queue_tags (lq s) = queue_tags (lq t)
      /\ queue_head (lq s) = queue_head (lq t)
      /\ last_merge (lq s) = last_merge (lq t)
      /\ seg_boundary_mask s = seg_boundary_mask t
      /\ dma_alignment s = dma_alignment t)
  /\ blk_queue_stack_limits s b = s
  /\ blk_queue_stack_limits s b'
     = blk_queue_stack_limits (blk_queue_stack_limits t b') b.
Proof.
  intros s. subst s. unfold blk_queue_stack_limits.
  cbn [lq hardsect_size seg_boundary_mask dma_alignment
       max_sectors set_max_sectors max_phys_segments set_max_phys_segments
       max_hw_segments set_max_hw_segments max_segment_size
       set_max_segment_size rq nr_requests queue_flags bdi_state queue_tags
       queue_head last_merge].
  split_and!; try reflexivity.
  - intros Ht Hb. unfold min_not_zero.
    destruct (Z.eqb_spec (max_sectors (lq t)) 0),
      (Z.eqb_spec (max_sectors (lq b)) 0); lia.
  - intros Ht. unfold min_not_zero. rewrite Ht. reflexivity.
  - intros Hb. unfold min_not_zero. rewrite Hb.
    destruct (Z.eqb_spec (max_sectors (lq t)) 0); cbn; lia.
  - f_equal; [|lia]. apply request_queue_ext; queue_fields; try lia.
    rewrite min_not_zero_assoc. f_equal.
    unfold min_not_zero.
    destruct (Z.eqb_spec (max_sectors (lq b)) 0); lia.
  - f_equal; [|lia]. apply request_queue_ext; queue_fields; try lia.
    rewrite !min_not_zero_assoc. f_equal. apply min_not_zero_comm.
Qed.

(** ** The [nr_requests] attribute *)

Lemma to_long_small len : 0 <= len < 2 ^ 31 -> to_long len = len.
Proof.
  intros Hlen. unfold to_long, BITS_PER_LONG.
  change (32 - 1) with 31.
  assert (E31 : 2 ^ 31 = 2147483648) by reflexivity.
  assert (E32 : 2 ^ 32 = 4294967296) by reflexivity.
  rewrite E31, E32 in *.
  rewrite Z.mod_small; lia.
Qed.

Lemma congestion_update_bit c on off bdi rw rw' :
  test_bit (congested_bit rw')
    (if c >=? on then set_bit (congested_bit rw) bdi
     else if c <? off then clear_bit (congested_bit rw) bdi else bdi)
  = if rw_eqb rw' rw
    then if on <=? c then true
         else if c <? off then false
              else test_bit (congested_bit rw') bdi
    else test_bit (congested_bit rw') bdi.
Proof.
  destruct (Z.geb_spec c on), (Z.leb_spec on c); try lia;
    [|destruct (Z.ltb_spec c off)];
    destruct rw, rw'; cbn [rw_eqb]; try reflexivity;
    first [ apply test_set_bit_eq; discriminate
          | apply test_clear_bit_eq; discriminate
          | apply test_set_bit_neq; cbv; congruence
          | apply test_clear_bit_neq; cbv; congruence ].
Qed.

Lemma full_update_bit c n fl rw rw' :
  test_bit (full_bit rw')
    (if c >=? n then set_bit (full_bit rw) fl
     else clear_bit (full_bit rw) fl)
  = if rw_eqb rw' rw then n <=? c else test_bit (full_bit rw') fl.
Proof.
  destruct (Z.geb_spec c n), (Z.leb_spec n c); try lia;
    destruct rw, rw'; cbn [rw_eqb]; try reflexivity;
    first [ apply test_set_bit_eq; discriminate
          | apply test_clear_bit_eq; discriminate
          | apply test_set_bit_neq; cbv; congruence
          | apply test_clear_bit_neq; cbv; congruence ].
Qed.

Lemma store_congestion_fields s rw :
  let c := rw_get (count (rq (queue s))) rw in
  let s' := store_congestion s rw in
  rq (queue s') = rq (queue s)
  /\ nr_requests (queue s') = nr_requests (queue s)
  /\ queue_flags (queue s') = queue_flags (queue s)
  /\ bdi_state (queue s')
     = (if c >=? queue_congestion_on_threshold (queue s)
        then set_bit (congested_bit rw) (bdi_state (queue s))
        else if c <? queue_congestion_off_threshold (queue s)
        then clear_bit (congested_bit rw) (bdi_state (queue s))
        else bdi_state (queue s))
  /\ (forall t, t ∈ woken s -> t ∈ woken s').
Proof.
  intros c s'. subst s'. unfold store_congestion. fold c.
  destruct (c >=? queue_congestion_on_threshold (queue s));
    [cbn; auto|].
  destruct (c <? queue_congestion_off_threshold (queue s)); [|auto].
  unfold clear_queue_congested.
  destruct (waitqueue_active (rw_get (congestion_wqh s) rw)); [|cbn; auto].
  destruct (wake_up (rw_get (congestion_wqh s) rw)) as [wqh tasks].
  cbn. split_and!; auto. intros t Ht. apply elem_of_app. now left.
Qed.

Lemma store_full_fields s rw :
  let c := rw_get (count (rq (queue s))) rw in
  let s' := store_full s rw in
  count (rq (queue s')) = count (rq (queue s))
  /\ nr_requests (queue s') = nr_requests (queue s)
  /\ bdi_state (queue s') = bdi_state (queue s)
  /\ queue_flags (queue s')
     = (if c >=? nr_requests (queue s)
        then set_bit (full_bit rw) (queue_flags (queue s))
        else clear_bit (full_bit rw) (queue_flags (queue s)))
  /\ rw_get (wait (rq (queue s'))) (other_rw rw)
     = rw_get (wait (rq (queue s))) (other_rw rw)
  /\ (forall t, t ∈ woken s -> t ∈ woken s')
  /\ (c < nr_requests (queue s) ->
      forall w rest, rw_get (wait (rq (queue s))) rw = w :: rest ->
                     wq_task w ∈ woken s').
Proof.
  intros c s'. subst s'. unfold store_full. fold c.
  destruct (Z.geb_spec c (nr_requests (queue s))) as [Hge|Hlt].
  - cbn. split_and!; auto. lia.
  - destruct (Z.leb_spec (c + 1) (nr_requests (queue s))) as [_|]; [|lia].
    unfold wake_up_rl_wait. cbn [queue set_queue].
    change (wait (rq (blk_clear_queue_full (queue s) rw)))
      with (wait (rq (queue s))).
    destruct (wake_up (rw_get (wait (rq (queue s))) rw)) as [wqh tasks] eqn:E.
    cbn. rewrite rw_get_set_other. split_and!; auto.
    + intros t Ht. apply elem_of_app. now left.
    + intros _ w rest Hw. rewrite Hw in E.
      destruct (wake_up_head w rest) as (rest' & tasks' & E').
      rewrite E' in E. injection E as <- <-.
      apply elem_of_app. right. now left.
Qed.

(** Writing [nr_requests] through sysfs, for a number that an
    [unsigned long] holds and counts that are not negative: the limit
    becomes the number written, raised to [BLKDEV_MIN_RQ]; the counts
    stay; and each direction's flags are brought in line with the new
    limit, with the thresholds as the code computes them in an [int]:
    congested when the count is at or above the on-threshold, otherwise
    not congested when it is below the off-threshold, otherwise as it
    was; full exactly when the count is at or above the limit; and below
    the limit the allocator at the head of the direction's wait queue is
    woken.  No task woken earlier is lost.  Up to a limit of 2454267024
    the thresholds are the limit less an eighth plus one, capped at the
    limit, and the limit less an eighth minus one, at least 1, and the
    off-threshold is not above the on-threshold. *)
Theorem requests_store_realigns_flags (BLKDEV_MIN_RQ : Z) (s : blk_state)
    (parsed len : Z) :
  1 <= BLKDEV_MIN_RQ < 2 ^ 31 ->
  0 <= parsed < 2 ^ BITS_PER_LONG ->
  0 <= len < 2 ^ 31 ->
  (forall rw, 0 <= rw_get (count (rq (queue s))) rw < 2 ^ 31) ->
  let res := queue_requests_store BLKDEV_MIN_RQ s parsed len in
  let q' := queue res.2 in
  let n := nr_requests q' in
  res.1 = len
  /\ n = Z.max parsed BLKDEV_MIN_RQ
  /\ count (rq q') = count (rq (queue s))
  /\ (forall t, t ∈ woken s -> t ∈ woken res.2)
  /\ (n <= 2454267024 ->
      queue_congestion_on_threshold q' = Z.min n (n - n ÷ 8 + 1)
      /\ queue_congestion_off_threshold q' = Z.max 1 (n - n ÷ 8 - 1)
      /\ queue_congestion_off_threshold q'
         <= queue_congestion_on_threshold q')
  /\ forall rw,
       let c := rw_get (count (rq (queue s))) rw in
       (queue_congestion_on_threshold q' <= c -> queue_congested q' rw = true)
       /\ (c < queue_congestion_on_threshold q' ->
           c < queue_congestion_off_threshold q' ->
           queue_congested q' rw = false)
       /\ (c < queue_congestion_on_threshold q' ->
           queue_congestion_off_threshold q' <= c ->
           queue_congested q' rw = queue_congested (queue s) rw)
       /\ blk_queue_full q' rw = (n <=? c)
       /\ (c < n ->
           forall w rest, rw_get (wait (rq (queue s))) rw = w :: rest ->
                          wq_task w ∈ woken res.2).
Proof.
  intros Hmin _ Hlen _ res q' n0. subst n0 q' res.
  unfold queue_requests_store.
  cbn [fst snd].
  rewrite (to_long_small len Hlen). clear Hlen.
  set (s0 := if nr_requests (queue (set_queue (set_nr_requests parsed (queue s)) s))
                <? BLKDEV_MIN_RQ
             then set_queue (set_nr_requests BLKDEV_MIN_RQ
                               (queue (set_queue (set_nr_requests parsed (queue s)) s)))
                    (set_queue (set_nr_requests parsed (queue s)) s)
             else set_queue (set_nr_requests parsed (queue s)) s).
  assert (H0 : rq (queue s0) = rq (queue s)
               /\ nr_requests (queue s0) = Z.max parsed BLKDEV_MIN_RQ
               /\ queue_flags (queue s0) = queue_flags (queue s)
               /\ bdi_state (queue s0) = bdi_state (queue s)
               /\ woken s0 = woken s).
  { subst s0. cbn [queue set_queue nr_requests set_nr_requests].
    destruct (Z.ltb_spec parsed BLKDEV_MIN_RQ); cbn; split_and!; auto; lia. }
  destruct H0 as (Hrq0 & Hn0 & Hf0 & Hb0 & Hw0).
  set (n := Z.max parsed BLKDEV_MIN_RQ) in *.
  assert (Hn1 : 1 <= n) by lia.
  set (s1 := store_congestion s0 READ).
  set (s2 := store_congestion s1 WRITE).
  set (s3 := store_full s2 READ).
  set (s4 := store_full s3 WRITE).
  destruct (store_congestion_fields s0 READ) as (Hrq1 & Hn1' & Hf1 & Hb1 & Hw1).
  destruct (store_congestion_fields s1 WRITE) as (Hrq2 & Hn2 & Hf2 & Hb2 & Hw2).
  destruct (store_full_fields s2 READ)
    as (Hc3 & Hn3 & Hb3 & Hf3 & Hwt3 & Hw3 & Hwake3).
  destruct (store_full_fields s3 WRITE)
    as (Hc4 & Hn4 & Hb4 & Hf4 & Hwt4 & Hw4 & Hwake4).
  cbn zeta in *. fold s1 in Hrq1, Hn1', Hf1, Hb1, Hw1, Hrq2, Hn2, Hf2, Hb2, Hw2.
  fold s2 in Hrq2, Hn2, Hf2, Hb2, Hw2, Hc3, Hn3, Hb3, Hf3, Hwt3, Hw3, Hwake3.
  fold s3 in Hc3, Hn3, Hb3, Hf3, Hwt3, Hw3, Hwake3,
             Hc4, Hn4, Hb4, Hf4, Hwt4, Hw4, Hwake4.
  fold s4 in Hc4, Hn4, Hb4, Hf4, Hwt4, Hw4, Hwake4.
  assert (Hcount : count (rq (queue s4)) = count (rq (queue s)))
    by congruence.
  assert (Hn : nr_requests (queue s4) = n) by congruence.
  assert (Hthr_on : queue_congestion_on_threshold (queue s4)
                    = queue_congestion_on_threshold (queue s0))
    by (unfold queue_congestion_on_threshold; now rewrite ?Hn4, ?Hn3, ?Hn2, ?Hn1').
  assert (Hthr_off : queue_congestion_off_threshold (queue s4)
                     = queue_congestion_off_threshold (queue s0))
    by (unfold queue_congestion_off_threshold; now rewrite ?Hn4, ?Hn3, ?Hn2, ?Hn1').
  assert (Hthr1_on : queue_congestion_on_threshold (queue s1)
                     = queue_congestion_on_threshold (queue s0))
    by (unfold queue_congestion_on_threshold; now rewrite ?Hn4, ?Hn3, ?Hn2, ?Hn1').
  assert (Hthr1_off : queue_congestion_off_threshold (queue s1)
                      = queue_congestion_off_threshold (queue s0))
    by (unfold queue_congestion_off_threshold; now rewrite ?Hn4, ?Hn3, ?Hn2, ?Hn1').
  assert (Hform : n <= 2454267024 ->
                  queue_congestion_on_threshold (queue s0)
                  = Z.min n (n - n ÷ 8 + 1)
                  /\ queue_congestion_off_threshold (queue s0)
                     = Z.max 1 (n - n ÷ 8 - 1)
                  /\ queue_congestion_off_threshold (queue s0)
                     <= queue_congestion_on_threshold (queue s0)).
  { intros Hr. rewrite <- Hn0.
    split; [apply on_threshold_eq; lia|].
    split; [apply off_threshold_eq; lia|].
    apply off_threshold_le_on. lia. }
  split_and!; auto.
  { intros t Ht. apply Hw4, Hw3, Hw2, Hw1. now rewrite Hw0. }
  { rewrite Hthr_on, Hthr_off, Hn. exact Hform. }
  intros rw. set (c := rw_get (count (rq (queue s))) rw).
  rewrite Hthr_on, Hthr_off, Hn.
  assert (Hbdi : bdi_state (queue s4) = bdi_state (queue s2)) by congruence.
  assert (Hn2' : nr_requests (queue s2) = n) by congruence.
  assert (Hn3' : nr_requests (queue s3) = n) by congruence.
  rewrite Hrq0 in Hb1. rewrite Hrq1, Hrq0, Hthr1_on, Hthr1_off in Hb2.
  rewrite Hrq2, Hrq1, Hrq0, Hn2' in Hf3, Hwake3.
  rewrite Hc3, Hrq2, Hrq1, Hrq0, Hn3' in Hf4, Hwake4.
  rewrite Hrq2, Hrq1, Hrq0 in Hwt3.
  unfold queue_congested, blk_queue_full.
  rewrite Hbdi, Hb2, Hb1, Hf4, Hf3, Hf2, Hf1, Hf0, Hb0.
  rewrite !congestion_update_bit, !full_update_bit.
  destruct rw; cbn [rw_eqb rw_get other_rw] in *; fold c.
  - (* READ *)
    destruct (Z.leb_spec (queue_congestion_on_threshold (queue s0)) c),
      (Z.ltb_spec c (queue_congestion_off_threshold (queue s0)));
      split_and!; try reflexivity; try lia.
    all: intros Hlt w rest Hw; apply Hw4; now apply (Hwake3 Hlt w rest).
  - (* WRITE *)
    destruct (Z.leb_spec (queue_congestion_on_threshold (queue s0)) c),
      (Z.ltb_spec c (queue_congestion_off_threshold (queue s0)));
      split_and!; try reflexivity; try lia.
    all: intros Hlt w rest Hw; apply (Hwake4 Hlt w rest);
      now rewrite Hwt3.
Qed.

(** ** Exercising the queue set-up properties *)

Lemma limit_setters_keep_floors_witness :
  9 <= 12 < 25
  /\ 0 <= 0 < 2 ^ 16
  /\ PAGE_CACHE_SIZE 12
     <= max_sectors (blk_queue_max_sectors 12 Samples.tight_queue 0) * 512
  /\ 1 <= max_hw_segments (blk_queue_max_hw_segments Samples.tight_queue 0).
Proof.
  assert (Hshift : 9 <= 12 < 25) by lia.
  assert (Hv : 0 <= 0 < 2 ^ 16) by (split; [lia | reflexivity]).
  split; [exact Hshift|]. split; [exact Hv|].
  destruct (limit_setters_keep_floors 12 Samples.tight_queue
              MoreSamples.sample_limits 0 Hshift Hv)
    as ((Hsect & _) & _ & (Hhw & _) & _).
  split; [exact Hsect | exact Hhw].
Defined.

Lemma requests_store_realigns_flags_witness :
  let res := queue_requests_store 4 (Samples.sample_state 3 112 0) 64 3 in
  let huge :=
    queue_requests_store 4 (Samples.sample_state 3 5 0) 4294967295 3 in
  nr_requests (queue res.2) = 64
  /\ queue_congestion_on_threshold (queue res.2) = 57
  /\ blk_queue_full (queue res.2) WRITE = true
  /\ nr_requests (queue huge.2) = 4294967295
  /\ queue_congestion_on_threshold (queue huge.2) = -536870911
  /\ queue_congested (queue huge.2) WRITE = true.
Proof.
  intros res huge.
  assert (Hmin : 1 <= 4 < 2 ^ 31) by (split; [lia | reflexivity]).
  assert (Hlen : 0 <= 3 < 2 ^ 31) by (split; [lia | reflexivity]).
  assert (Hp : 0 <= 64 < 2 ^ BITS_PER_LONG) by (split; [lia | reflexivity]).
  assert (Hp' : 0 <= 4294967295 < 2 ^ BITS_PER_LONG)
    by (split; [lia | reflexivity]).
  assert (Hc : forall rw,
             0 <= rw_get (count (rq (queue (Samples.sample_state 3 112 0)))) rw
               < 2 ^ 31)
    by (intros [|]; split; first [reflexivity | discriminate]).
  assert (Hc' : forall rw,
             0 <= rw_get (count (rq (queue (Samples.sample_state 3 5 0)))) rw
               < 2 ^ 31)
    by (intros [|]; split; first [reflexivity | discriminate]).
  destruct (requests_store_realigns_flags 4 (Samples.sample_state 3 112 0)
              64 3 Hmin Hp Hlen Hc) as (_ & Hn & _ & _ & Hform & Hdir).
  destruct (requests_store_realigns_flags 4 (Samples.sample_state 3 5 0)
              4294967295 3 Hmin Hp' Hlen Hc') as (_ & Hn' & _ & _ & _ & Hdir').
  split; [exact Hn|].
  destruct Hform as (Hon & _); [vm_compute; discriminate|].
  split; [etransitivity; [exact Hon | reflexivity]|].
  destruct (Hdir WRITE) as (_ & _ & _ & Hfull & _).
  split; [etransitivity; [exact Hfull | reflexivity]|].
  split; [exact Hn'|].
  split; [reflexivity|].
  destruct (Hdir' WRITE) as (Hset & _).
  apply Hset. vm_compute. discriminate.
Defined.

End BlockQueueProofs.

Module TagLookupProofs.
Import Kernel LlRwBlk Buffer BitFacts BlockQueue LlRwBlkProofs.

(** ** Looking requests up by tag *)




(** ** Exercising the lookup *)


End TagLookupProofs.

Module SegmentsProofs.
Import Kernel LlRwBlk Buffer BitFacts Segments.

Section Counting.
Context `{BvecOps}.

Lemma recount_step_spec q cluster st bv :
  recount_ready st ->
  exists st',
    recount_step q cluster st bv = Ok st'
    /\ bvprv st' = Some bv
    /\ recount_ready st'
    /\ (nr_phys_segs st' = nr_phys_segs st
        \/ nr_phys_segs st' = nr_phys_segs st + 1)
    /\ nr_hw_segs st <= nr_hw_segs st'
    /\ nr_hw_segs st' - nr_hw_segs st <= nr_phys_segs st' - nr_phys_segs st
    /\ (highprv st = true ->
        nr_phys_segs st' = nr_phys_segs st + 1
        /\ nr_hw_segs st' = nr_hw_segs st + 1)
    /\ (cluster = false -> nr_phys_segs st' = nr_phys_segs st + 1).
Proof.
  intros Hready. unfold recount_step, recount_ready in *.
  destruct (page_is_high q bv) eqn:Hhigh, (highprv st) eqn:Hprv;
    cbn [orb];
    try (eexists; split; [reflexivity|]; cbn;
         split_and!; auto; try lia; intros; try discriminate; eauto; lia).
  destruct (Hready eq_refl) as [prv Hp]. rewrite Hp.
  destruct cluster;
    repeat match goal with
    | |- context [if ?c then _ else _] => destruct c
    end;
    eexists; (split; [reflexivity|]); cbn; rewrite ?Hprv;
    split_and!; auto; try lia; intros; try discriminate; eauto.
Qed.

Lemma recount_loop_spec q cluster vecs : forall st,
  recount_ready st ->
  exists st',
    recount_loop q cluster st vecs = Ok st'
    /\ recount_ready st'
    /\ nr_phys_segs st <= nr_phys_segs st'
       <= nr_phys_segs st + Z.of_nat (length vecs)
    /\ nr_hw_segs st <= nr_hw_segs st'
    /\ nr_hw_segs st' - nr_hw_segs st <= nr_phys_segs st' - nr_phys_segs st
    /\ (highprv st = true -> vecs <> [] ->
        nr_hw_segs st + 1 <= nr_hw_segs st')
    /\ (cluster = false ->
        nr_phys_segs st' = nr_phys_segs st + Z.of_nat (length vecs)).
Proof.
  induction vecs as [|bv rest IH]; intros st Hready.
  - exists st. cbn. split_and!; auto; try lia. congruence.
  - destruct (recount_step_spec q cluster st bv Hready)
      as (st1 & Hstep & _ & Hready1 & Hphys & Hhw & Hdiff & Hfirst & Hnc).
    destruct (IH st1 Hready1)
      as (st' & Hloop & Hready' & Hphys' & Hhw' & Hdiff' & _ & Hnc').
    exists st'. cbn [recount_loop]. rewrite Hstep. cbn.
    split; [assumption|]. cbn [length].
    split_and!; auto; try lia.
    + intros Hp _. destruct (Hfirst Hp). lia.
    + intros Hc. rewrite (Hnc' Hc), (Hnc Hc). lia.
Qed.

(** Counting the segments of a bio never faults and counts sensibly:
    without a vector the bio and its flag word are left as they are; with
    one, the bio's sector, size and direction are kept, [BIO_SEG_VALID]
    is set in the flag word and its other bits are kept, there are at
    most as many hardware segments as physical ones and at most as many
    physical segments as entries, a bio with an entry has a segment of
    each kind, and on a queue that does not cluster every entry is a
    physical segment. *)
Theorem recount_segments_bounds (BIO_SEG_VALID : Z) (q : request_queue)
    (b : bio) (bi_flags : Z) (vecs : list bio_vec) :
  0 <= BIO_SEG_VALID ->
  blk_recount_segments BIO_SEG_VALID q b bi_flags None = Ok (b, bi_flags)
  /\ exists b' bi_flags',
       blk_recount_segments BIO_SEG_VALID q b bi_flags (Some vecs)
       = Ok (b', bi_flags')
       /\ bi_sector b' = bi_sector b /\ bi_size b' = bi_size b
       /\ bi_rw b' = bi_rw b
       /\ test_bit BIO_SEG_VALID bi_flags' = true
       /\ (forall i, 0 <= i -> i <> BIO_SEG_VALID ->
           test_bit i bi_flags' = test_bit i bi_flags)
       /\ 0 <= bi_hw_segments b' <= bi_phys_segments b'
       /\ bi_phys_segments b' <= Z.of_nat (length vecs)
       /\ (vecs <> [] -> 1 <= bi_hw_segments b')
       /\ (test_bit QUEUE_FLAG_CLUSTER (queue_flags q) = false ->
           bi_phys_segments b' = Z.of_nat (length vecs)).
Proof.
  intros Hbit. split; [reflexivity|].
  unfold blk_recount_segments, recount_bio.
  destruct (recount_loop_spec q (test_bit QUEUE_FLAG_CLUSTER (queue_flags q))
              vecs (RecountState None 0 0 0 true))
    as (st & Hloop & _ & Hphys & Hhw & Hdiff & Hfirst & Hnc).
  { intros Hc. discriminate. }
  rewrite Hloop. cbn in *.
  do 2 eexists. split; [reflexivity|]. cbn.
  split; [reflexivity|]. split; [reflexivity|]. split; [reflexivity|].
  split; [now apply test_set_bit_eq|].
  split; [intros i Hi Hne; apply test_set_bit_neq; auto|].
  split_and!; auto; try lia;
    try (intros Hne; specialize (Hfirst eq_refl Hne); lia).
Qed.

(** ** Mapping a request to a scatterlist *)

Lemma sg_bytes_app l1 l2 : sg_bytes (l1 ++ l2) = sg_bytes l1 + sg_bytes l2.
Proof. induction l1 as [|e l1 IH]; cbn; lia. Qed.

Lemma vec_bytes_app l1 l2 :
  vec_bytes (l1 ++ l2) = vec_bytes l1 + vec_bytes l2.
Proof. induction l1 as [|e l1 IH]; cbn; lia. Qed.

(** What one pass of the mapping loop does to the array. *)
Lemma map_sg_step_bytes q cluster mprv nsegs sg bv mprv' nsegs' sg' :
  map_sg_step q cluster (mprv, nsegs, sg) bv = Ok (mprv', nsegs', sg') ->
  mprv' = Some bv
  /\ length sg' = length sg
  /\ (nsegs <= nsegs')%nat /\ (0 < nsegs' <= length sg)%nat
  /\ drop nsegs' sg' = drop nsegs' sg
  /\ sg_bytes (take nsegs' sg') = sg_bytes (take nsegs sg) + bv_len bv
  /\ ((0 < nsegs)%nat -> sg' !! 0%nat = sg !! 0%nat
                         \/ (nsegs = 1%nat /\ nsegs' = 1%nat)).
Proof.
  unfold map_sg_step.
  assert (Hnew : forall e,
    (if (nsegs <? length sg)%nat
     then Ok (Some bv, S nsegs, <[nsegs := e]> sg) else Fault)
    = Ok (mprv', nsegs', sg') ->
    sg_length e = bv_len bv ->
    mprv' = Some bv
    /\ length sg' = length sg
    /\ (nsegs <= nsegs')%nat /\ (0 < nsegs' <= length sg)%nat
    /\ drop nsegs' sg' = drop nsegs' sg
    /\ sg_bytes (take nsegs' sg') = sg_bytes (take nsegs sg) + bv_len bv
    /\ ((0 < nsegs)%nat -> sg' !! 0%nat = sg !! 0%nat
                           \/ (nsegs = 1%nat /\ nsegs' = 1%nat))).
  { intros e Hrun He.
    destruct (Nat.ltb_spec nsegs (length sg)); [|discriminate].
    injection Hrun as <- <- <-.
    rewrite length_insert, drop_insert_lt by lia.
    rewrite (take_S_r _ _ e) by (now apply list_lookup_insert_eq).
    rewrite take_insert_ge, sg_bytes_app by lia. cbn. rewrite He.
    split_and!; auto; try lia.
    intros Hpos. left. apply list_lookup_insert_ne. lia. }
  destruct mprv as [prv|]; [|intros Hrun; eapply Hnew; eauto].
  destruct cluster; [|intros Hrun; eapply Hnew; eauto].
  destruct nsegs as [|k]; [discriminate|].
  destruct (sg !! k) as [last|] eqn:Hk; [|discriminate].
  repeat match goal with
  | |- context [if ?c then _ else _] =>
      lazymatch c with
      | (_ <? _)%nat => fail
      | _ => destruct c; [intros Hrun; eapply Hnew; eauto|]
      end
  end.
  intros [= <- <- <-].
  pose proof (lookup_lt_Some _ _ _ Hk) as Hlt.
  rewrite length_insert, drop_insert_lt by lia.
  rewrite (take_S_r _ _ (Scatterlist (sg_page last)
                           (sg_length last + bv_len bv) (sg_offset last)))
    by (now apply list_lookup_insert_eq).
  rewrite (take_S_r _ _ last) by assumption.
  rewrite take_insert_ge, !sg_bytes_app by lia. cbn.
  split_and!; auto; try lia.
  intros _. destruct k as [|k]; [right; auto|left].
  apply list_lookup_insert_ne. lia.
Qed.

Lemma map_sg_step_sim q cluster base bv rs rs' mprv nsegs sg :
  0 <= bv_len bv ->
  map_sg_sim base rs (mprv, nsegs, sg) ->
  recount_step q cluster rs bv = Ok rs' ->
  base + nr_phys_segs rs' <= Z.of_nat (length sg) ->
  exists ms',
    map_sg_step q cluster (mprv, nsegs, sg) bv = Ok ms'
    /\ map_sg_sim base rs' ms'.
Proof.
  intros Hlen (Hseg & Hn & Hsync & Hlast) Hstep Hcap.
  cbn [fst snd] in *.
  assert (Hnew : forall e,
    sg_length e = bv_len bv ->
    Z.of_nat nsegs < base + nr_phys_segs rs' ->
    bvprv rs' = Some bv -> seg_size rs' >= bv_len bv ->
    0 <= seg_size rs' ->
    exists ms',
      (if (nsegs <? length sg)%nat
       then Ok (Some bv, S nsegs, <[nsegs := e]> sg) else Fault) = Ok ms'
      /\ map_sg_sim base rs' ms').
  { intros e He Hlt Hprv Hge Hpos.
    destruct (Nat.ltb_spec nsegs (length sg)); [|lia].
    eexists. split; [reflexivity|].
    unfold map_sg_sim. cbn [fst snd].
    split; [lia|]. split; [lia|]. split.
    - intros _. rewrite Hprv. split; [eauto | reflexivity].
    - intros _. exists nsegs, e. split; [reflexivity|].
      split; [now apply list_lookup_insert_eq|]. intros _ _. lia. }
  unfold recount_step in Hstep. unfold map_sg_step.
  destruct (page_is_high q bv || highprv rs) eqn:Hh.
  - (* the counting loop starts a hardware segment *)
    injection Hstep as <-. cbn [nr_phys_segs bvprv seg_size highprv] in *.
    assert (Hmerge : forall k last,
      nsegs = S k -> sg !! k = Some last ->
      map_sg_sim base
        (RecountState (Some bv) (nr_phys_segs rs + 1) (nr_hw_segs rs + 1)
           (bv_len bv) (page_is_high q bv))
        (Some bv, nsegs,
         <[k := Scatterlist (sg_page last) (sg_length last + bv_len bv)
                  (sg_offset last)]> sg)).
    { intros k last Hk Hl. unfold map_sg_sim. cbn.
      split; [lia|]. split; [lia|]. split.
      - intros _. eauto.
      - intros _. eexists k, _. split; [assumption|].
        split; [apply list_lookup_insert_eq;
                now apply lookup_lt_Some in Hl|]. intros _ ?. lia. }
    destruct mprv as [prv|]; [|apply Hnew; cbn; auto; lia].
    destruct (Hlast ltac:(eauto)) as (k & last & -> & Hk & _).
    destruct cluster; [|apply Hnew; cbn; auto; lia].
    rewrite Hk.
    repeat match goal with
    | |- context [if ?c then _ else _] =>
        lazymatch c with
        | (_ <? _)%nat => fail
        | _ => destruct c; [apply Hnew; cbn; auto; lia|]
        end
    end.
    eexists. split; [reflexivity|]. now apply Hmerge.
  - (* it looks at the previous entry *)
    apply orb_false_iff in Hh as [Hhigh Hprv].
    destruct (Hsync Hprv) as [[prv Hp] ->]. rewrite Hp in *.
    destruct (Hlast ltac:(eauto)) as (k & last & -> & Hk & Hle).
    specialize (Hle Hprv).
    destruct cluster.
    + rewrite Hk.
      destruct (Z.gtb_spec (seg_size rs + bv_len bv) (max_segment_size q)),
        (Z.gtb_spec (sg_length last + bv_len bv) (max_segment_size q)),
        (biovec_phys_mergeable prv bv), (biovec_seg_boundary q prv bv);
        cbn [negb] in *;
        injection Hstep as <-;
        cbn [nr_phys_segs bvprv seg_size highprv] in *;
        try (apply Hnew; cbn; auto; lia);
        try (eexists; split; [reflexivity|];
             unfold map_sg_sim; cbn;
             split; [lia|]; split; [lia|]; split;
             [intros _; eauto
             |intros _; eexists k, _; split; [reflexivity|];
              split; [apply list_lookup_insert_eq;
                      now apply lookup_lt_Some in Hk|];
              cbn; intros; lia]).
    + injection Hstep as <-.
      cbn [nr_phys_segs bvprv seg_size highprv] in *.
      apply Hnew; cbn; auto; lia.
Qed.

Lemma map_sg_bio_sim q cluster base vecs : forall rs ms rs',
  Forall (fun bv => 0 <= bv_len bv) vecs ->
  recount_ready rs ->
  map_sg_sim base rs ms ->
  recount_loop q cluster rs vecs = Ok rs' ->
  base + nr_phys_segs rs' <= Z.of_nat (length ms.2) ->
  exists ms',
    map_sg_bio q cluster ms vecs = Ok ms'
    /\ map_sg_sim base rs' ms' /\ length ms'.2 = length ms.2.
Proof.
  induction vecs as [|bv rest IH];
    intros rs [[mprv nsegs] sg] rs' Hpos Hready Hsim Hloop Hcap.
  - cbn in Hloop. injection Hloop as <-. eexists. cbn. eauto.
  - apply Forall_cons in Hpos as [Hbv Hpos].
    destruct (recount_step_spec q cluster rs bv Hready)
      as (rs1 & Hstep & _ & Hready1 & _).
    cbn [recount_loop] in Hloop. rewrite Hstep in Hloop. cbn in Hloop.
    destruct (recount_loop_spec q cluster rest rs1 Hready1)
      as (rs2 & Hloop2 & _ & Hmono & _).
    rewrite Hloop in Hloop2. injection Hloop2 as <-.
    cbn [snd] in Hcap.
    destruct (map_sg_step_sim q cluster base bv rs rs1 mprv nsegs sg
                Hbv Hsim Hstep ltac:(lia))
      as ([[mprv1 nsegs1] sg1] & Hmstep & Hsim1).
    destruct (map_sg_step_bytes _ _ _ _ _ _ _ _ _ Hmstep)
      as (_ & Hlen1 & _).
    destruct (IH rs1 (mprv1, nsegs1, sg1) rs' Hpos Hready1 Hsim1 Hloop)
      as (ms' & Hrun & Hsim' & Hlen'); [cbn; lia|].
    exists ms'. cbn [map_sg_bio]. rewrite Hmstep. cbn.
    split_and!; auto. cbn in *. congruence.
Qed.

Lemma map_sg_bio_bytes q cluster vecs : forall mprv nsegs sg mprv' nsegs' sg',
  map_sg_bio q cluster (mprv, nsegs, sg) vecs = Ok (mprv', nsegs', sg') ->
  (nsegs <= length sg)%nat ->
  length sg' = length sg
  /\ (nsegs <= nsegs' <= length sg)%nat
  /\ drop nsegs' sg' = drop nsegs' sg
  /\ sg_bytes (take nsegs' sg') = sg_bytes (take nsegs sg) + vec_bytes vecs
  /\ (vecs <> [] -> (0 < nsegs')%nat).
Proof.
  induction vecs as [|bv rest IH];
    intros mprv nsegs sg mprv' nsegs' sg' Hrun Hle.
  - cbn in Hrun. injection Hrun as <- <- <-. cbn.
    split_and!; auto; try lia. congruence.
  - cbn [map_sg_bio] in Hrun.
    destruct (map_sg_step q cluster (mprv, nsegs, sg) bv)
      as [[[mprv1 nsegs1] sg1]| |] eqn:Hstep; try discriminate.
    cbn in Hrun.
    destruct (map_sg_step_bytes _ _ _ _ _ _ _ _ _ Hstep)
      as (_ & Hlen1 & Hn1 & Hb1 & Hdrop1 & Hbytes1 & _).
    destruct (IH _ _ _ _ _ _ Hrun ltac:(lia))
      as (Hlen' & Hn' & Hdrop' & Hbytes' & _).
    cbn [vec_bytes]. split_and!; try lia; try congruence.
    rewrite Hdrop'.
    replace nsegs' with (nsegs1 + (nsegs' - nsegs1))%nat by lia.
    rewrite <- !drop_drop. now rewrite Hdrop1.
Qed.

Lemma map_sg_chain_sim q (chain : list (bio * list bio_vec)) :
  forall base ms phys hw bios,
  Forall (fun bv => Forall (fun v => 0 <= bv_len v) bv.2) chain ->
  recalc_chain q (chain_for_recalc chain) = Ok (phys, hw, bios) ->
  map_sg_between base ms ->
  base + phys <= Z.of_nat (length ms.2) ->
  exists ms',
    map_sg_chain q (test_bit QUEUE_FLAG_CLUSTER (queue_flags q)) ms
      (chain_for_map_sg chain) = Ok ms'
    /\ map_sg_between (base + phys) ms'.
Proof.
  induction chain as [|[b vecs] rest IH];
    intros base ms phys hw bios Hpos Hrec Hbetween Hcap.
  - cbn in Hrec. injection Hrec as <- <- <-. exists ms. cbn.
    split; [reflexivity|]. now rewrite Z.add_0_r.
  - apply Forall_cons in Hpos as [Hvecs Hpos]. cbn [snd] in Hvecs.
    cbn [chain_for_recalc fmap list_fmap recalc_chain fst snd] in Hrec.
    unfold recount_bio in Hrec.
    set (cluster := test_bit QUEUE_FLAG_CLUSTER (queue_flags q)) in *.
    destruct (recount_loop_spec q cluster vecs (RecountState None 0 0 0 true))
      as (rs' & Hloop & Hready' & Hphys & _); [intros ?; discriminate|].
    rewrite Hloop in Hrec. cbn in Hrec.
    fold (chain_for_recalc rest) in Hrec.
    destruct (recalc_chain q (chain_for_recalc rest))
      as [[[phys2 hw2] bios2]| |] eqn:Hrest; try discriminate.
    cbn in Hrec. injection Hrec as <- <- <-.
    cbn [nr_phys_segs] in Hphys.
    assert (Hphys2 : 0 <= phys2).
    { clear -Hrest. revert phys2 hw2 bios2 Hrest.
      induction rest as [|[b2 v2] rest IH]; intros phys2 hw2 bios2 Hrest.
      - cbn in Hrest. injection Hrest as <- _ _. lia.
      - cbn [chain_for_recalc fmap list_fmap recalc_chain fst snd] in Hrest.
        unfold recount_bio in Hrest.
        destruct (recount_loop_spec q
                    (test_bit QUEUE_FLAG_CLUSTER (queue_flags q)) v2
                    (RecountState None 0 0 0 true))
          as (rs2 & Hloop2 & _ & Hp2 & _); [intros ?; discriminate|].
        rewrite Hloop2 in Hrest. cbn in Hrest.
        fold (chain_for_recalc rest) in Hrest.
        destruct (recalc_chain q (chain_for_recalc rest))
          as [[[p3 h3] b3]| |] eqn:Hr3; try discriminate.
        cbn in Hrest. injection Hrest as <- _ _.
        specialize (IH _ _ _ eq_refl). cbn in Hp2. lia. }
    destruct Hbetween as (Hn & Hlast).
    destruct (map_sg_bio_sim q cluster base vecs
                (RecountState None 0 0 0 true) ms rs' Hvecs)
      as (ms1 & Hrun1 & Hsim1 & Hlen1); auto.
    { intros ?. discriminate. }
    { unfold map_sg_sim. cbn. split; [lia|]. split; [lia|].
      split; [discriminate|]. intros Hs.
      destruct (Hlast Hs) as (k & last & Hk & Hl).
      exists k, last. split_and!; auto. discriminate. }
    { lia. }
    destruct Hsim1 as (_ & Hn1 & _ & Hlast1).
    destruct (IH (base + nr_phys_segs rs') ms1 phys2 hw2 bios2 Hpos eq_refl)
      as (ms' & Hrun' & Hbetween').
    { split; [assumption|]. intros Hs.
      destruct (Hlast1 Hs) as (k & last & Hk & Hl & _). eauto. }
    { rewrite Hlen1. unfold bio_phys_segments in Hcap. cbn in Hcap. lia. }
    exists ms'. cbn [chain_for_map_sg fmap list_fmap map_sg_chain snd].
    rewrite Hrun1. cbn. fold (chain_for_map_sg rest).
    split; [assumption|].
    unfold bio_phys_segments. cbn.
    now rewrite Z.add_assoc.
Qed.

Lemma map_sg_chain_bytes q cluster (chain : list (list bio_vec)) :
  forall mprv nsegs sg mprv' nsegs' sg',
  map_sg_chain q cluster (mprv, nsegs, sg) chain = Ok (mprv', nsegs', sg') ->
  (nsegs <= length sg)%nat ->
  length sg' = length sg
  /\ (nsegs <= nsegs' <= length sg)%nat
  /\ drop nsegs' sg' = drop nsegs' sg
  /\ sg_bytes (take nsegs' sg')
     = sg_bytes (take nsegs sg) + vec_bytes (concat chain)
  /\ (concat chain <> [] -> (0 < nsegs')%nat).
Proof.
  induction chain as [|vecs rest IH];
    intros mprv nsegs sg mprv' nsegs' sg' Hrun Hle.
  - cbn in Hrun. injection Hrun as <- <- <-. cbn.
    split_and!; auto; try lia. congruence.
  - cbn [map_sg_chain] in Hrun.
    destruct (map_sg_bio q cluster (mprv, nsegs, sg) vecs)
      as [[[mprv1 nsegs1] sg1]| |] eqn:Hbio; try discriminate.
    cbn in Hrun.
    destruct (map_sg_bio_bytes _ _ _ _ _ _ _ _ _ Hbio Hle)
      as (Hlen1 & Hn1 & Hdrop1 & Hbytes1 & Hpos1).
    destruct (IH _ _ _ _ _ _ Hrun ltac:(lia))
      as (Hlen' & Hn' & Hdrop' & Hbytes' & Hpos').
    cbn [concat]. rewrite vec_bytes_app.
    split_and!; try lia; try congruence.
    + rewrite Hdrop'.
      replace nsegs' with (nsegs1 + (nsegs' - nsegs1))%nat by lia.
      rewrite <- !drop_drop. now rewrite Hdrop1.
    + intros Hne. destruct vecs as [|v vs].
      * apply Hpos'. exact Hne.
      * specialize (Hpos1 ltac:(discriminate)). lia.
Qed.

(** The scatterlist never overflows the count a driver sizes it by: once
    [blk_recalc_rq_segments] has counted the request's segments, mapping
    the same chain into an array of at least [nr_phys_segments] entries
    stays inside the array and sets up at most [nr_phys_segments] of
    them; the entries set up describe exactly the bytes of the chain,
    the entries beyond them and the array's size are untouched, and a
    chain that holds data sets up at least one entry. *)
Theorem map_sg_fits_counted_segments (q : request_queue) (rq : request)
    (chain : list (bio * list bio_vec)) (sg : list scatterlist) :
  Forall (fun bv => Forall (fun v => 0 <= bv_len v) bv.2) chain ->
  exists rq',
    blk_recalc_rq_segments q rq (chain_for_recalc chain) = Ok rq'
    /\ (nr_phys_segments rq' <= Z.of_nat (length sg) ->
        exists n sg',
          blk_rq_map_sg q (chain_for_map_sg chain) sg = Ok (n, sg')
          /\ (chain <> [] -> Z.of_nat n <= nr_phys_segments rq')
          /\ length sg' = length sg
          /\ drop n sg' = drop n sg
          /\ sg_bytes (take n sg') = vec_bytes (concat (chain_for_map_sg chain))
          /\ (concat (chain_for_map_sg chain) <> [] -> (0 < n)%nat)).
Proof.
  intros Hpos.
  assert (Hrec : exists phys hw bios,
             recalc_chain q (chain_for_recalc chain) = Ok (phys, hw, bios)).
  { clear. induction chain as [|[b v] rest IH]; [cbn; eauto|].
    cbn [chain_for_recalc fmap list_fmap recalc_chain fst snd].
    unfold recount_bio.
    destruct (recount_loop_spec q
                (test_bit QUEUE_FLAG_CLUSTER (queue_flags q)) v
                (RecountState None 0 0 0 true))
      as (rs & Hloop & _); [intros ?; discriminate|].
    rewrite Hloop. cbn. fold (chain_for_recalc rest).
    destruct IH as (p & h & bs & ->). cbn. eauto. }
  destruct Hrec as (phys & hw & bios & Hrec).
  destruct chain as [|c0 chain0] eqn:Hchain.
  - exists rq. split; [reflexivity|]. intros _.
    exists 0%nat, sg. cbn. split_and!; auto; congruence.
  - rewrite <- Hchain in *.
    exists (Request (flags rq) (sector rq) (nr_sectors rq) (hard_nr_sectors rq)
              phys hw (tag rq) bios
              (ref_count rq) (rq_q rq) (rq_rl rq) (rq_disk rq) (waiting rq)
              (special rq) (rq_status rq) (queuelist rq)).
    split.
    { unfold blk_recalc_rq_segments. rewrite Hrec.
      rewrite Hchain. reflexivity. }
    cbn [nr_phys_segments]. intros Hcap.
    destruct (map_sg_chain_sim q chain 0 (None, 0%nat, sg) phys hw bios
                Hpos Hrec)
      as ([[mprv' n] sg'] & Hrun & Hn & _).
    { split; cbn; [lia|]. intros [? ?]. discriminate. }
    { cbn. lia. }
    destruct (map_sg_chain_bytes _ _ _ _ _ _ _ _ _ Hrun ltac:(lia))
      as (Hlen & Hle & Hdrop & Hbytes & Hpos').
    exists n, sg'. unfold blk_rq_map_sg. rewrite Hrun. cbn [mbind outcome_bind].
    cbn in Hn, Hbytes.
    split_and!; auto. all: try (intros; lia).
Qed.

End Counting.

(** ** Exercising the scatterlist *)

Lemma recount_segments_bounds_witness :
  0 <= 3
  /\ exists b' bi_flags',
       @blk_recount_segments MoreSamples.page_ops 3 Samples.tight_queue
         (Samples.page_bio 0 1) 0 (Some [BioVec 1 4096 0; BioVec 2 4096 0])
       = Ok (b', bi_flags')
       /\ test_bit 3 bi_flags' = true
       /\ 1 <= bi_hw_segments b'
       /\ bi_phys_segments b' <= 2.
Proof.
  assert (Hbit : 0 <= 3) by lia.
  split; [exact Hbit|].
  destruct (@recount_segments_bounds MoreSamples.page_ops 3
              Samples.tight_queue (Samples.page_bio 0 1) 0
              [BioVec 1 4096 0; BioVec 2 4096 0] Hbit)
    as (_ & b' & fl' & Hrun & _ & _ & _ & Hset & _ & _ & Hphys & Hhw & _).
  exists b', fl'. split; [exact Hrun|]. split; [exact Hset|].
  split; [apply Hhw; discriminate | exact Hphys].
Defined.

Lemma map_sg_fits_counted_segments_witness :
  Forall (fun bv : bio * list bio_vec => Forall (fun v => 0 <= bv_len v) bv.2)
    MoreSamples.two_bio_chain
  /\ exists rq',
       @blk_recalc_rq_segments MoreSamples.page_ops Samples.tight_queue
         (Samples.queued_request Samples.write_cmd 0 1)
         (chain_for_recalc MoreSamples.two_bio_chain) = Ok rq'
       /\ nr_phys_segments rq' = 2
       /\ exists n sg',
            @blk_rq_map_sg MoreSamples.page_ops Samples.tight_queue
              (chain_for_map_sg MoreSamples.two_bio_chain)
              (MoreSamples.blank_sg 3) = Ok (n, sg')
            /\ Z.of_nat n <= 2.
Proof.
  assert (Hlen : Forall (fun bv : bio * list bio_vec =>
                           Forall (fun v => 0 <= bv_len v) bv.2)
                   MoreSamples.two_bio_chain).
  { repeat constructor; cbn; lia. }
  split; [exact Hlen|].
  destruct (@map_sg_fits_counted_segments MoreSamples.page_ops
              Samples.tight_queue
              (Samples.queued_request Samples.write_cmd 0 1)
              MoreSamples.two_bio_chain (MoreSamples.blank_sg 3) Hlen)
    as (rq' & Hrecalc & Hmap).
  assert (Hphys : nr_phys_segments rq' = 2).
  { vm_compute in Hrecalc. injection Hrecalc as <-. reflexivity. }
  exists rq'. split; [exact Hrecalc|]. split; [exact Hphys|].
  destruct Hmap as (n & sg' & Hrun & Hn & _).
  { rewrite Hphys. vm_compute. discriminate. }
  exists n, sg'. split; [exact Hrun|].
  rewrite <- Hphys. apply Hn. discriminate.
Defined.

End SegmentsProofs.

Module PlugProofs.
Import Kernel LlRwBlk Buffer BitFacts Plug LlRwBlkProofs.

Ltac flag_simpl :=
  unfold set_pq, set_unplug_work, set_unplug_timer, set_queue_flags;
  cbn [pq queue_flags].

Lemma plugged_update_queue w qa f x :
  blk_queue_plugged (update_queue w qa f) x = blk_queue_plugged w x.
Proof. reflexivity. Qed.

Lemma stopped_update_queue_eq w qa f :
  queue_stopped (update_queue w qa f) qa
  = test_bit QUEUE_FLAG_STOPPED (queue_flags (pq (f (queues w qa)))).
Proof. unfold queue_stopped, update_queue. cbn. now rewrite Nat.eqb_refl. Qed.

Lemma stopped_update_queue_ne w qa f x :
  x <> qa -> queue_stopped (update_queue w qa f) x = queue_stopped w x.
Proof.
  intros Hne. unfold queue_stopped, update_queue. cbn.
  destruct (Nat.eqb_spec x qa); [contradiction | reflexivity].
Qed.

Lemma plugged_iff w x :
  blk_queue_plugged w x = true
  <-> x ∈ blk_plug_list w ++ local_plug_list w.
Proof.
  unfold blk_queue_plugged.
  rewrite orb_true_iff, !bool_decide_eq_true, elem_of_app. reflexivity.
Qed.

Lemma plugged_unlink w qa x :
  blk_queue_plugged (unlink_plug w qa) x = true
  <-> x <> qa /\ blk_queue_plugged w x = true.
Proof.
  rewrite !plugged_iff. unfold unlink_plug. cbn.
  rewrite !elem_of_app, !elem_of_remove_addr. tauto.
Qed.

Lemma NoDup_unlink w qa :
  NoDup (blk_plug_list w ++ local_plug_list w) ->
  NoDup (remove_addr qa (blk_plug_list w)
         ++ remove_addr qa (local_plug_list w)).
Proof.
  intros Hnd. apply NoDup_app in Hnd as (H1 & H12 & H2).
  apply NoDup_app. split_and!.
  - now apply NoDup_filter.
  - intros x Hx1 Hx2.
    apply elem_of_remove_addr in Hx1 as [_ Hx1].
    apply elem_of_remove_addr in Hx2 as [_ Hx2]. now apply (H12 x).
  - now apply NoDup_filter.
Qed.

Lemma plug_inv_remove_plug w qa :
  plug_inv w -> plug_inv (blk_remove_plug w qa).2.
Proof.
  intros [Hnd Hstop]. unfold blk_remove_plug.
  destruct (blk_queue_plugged w qa) eqn:Hp; [|now split].
  cbn [snd]. split.
  - cbn. now apply NoDup_unlink.
  - intros x Hx. rewrite plugged_update_queue in Hx.
    apply plugged_unlink in Hx as [Hne Hx].
    rewrite stopped_update_queue_ne by assumption. now apply Hstop.
Qed.

Lemma plugged_remove_plug w qa x :
  blk_queue_plugged (blk_remove_plug w qa).2 x = true
  <-> x <> qa /\ blk_queue_plugged w x = true.
Proof.
  unfold blk_remove_plug.
  destruct (blk_queue_plugged w qa) eqn:Hp; cbn [snd].
  - rewrite plugged_update_queue. apply plugged_unlink.
  - split; [|tauto]. intros Hx. split; [|assumption].
    intros ->. congruence.
Qed.

Lemma stopped_remove_plug w qa x :
  queue_stopped (blk_remove_plug w qa).2 x = queue_stopped w x.
Proof.
  unfold blk_remove_plug.
  destruct (blk_queue_plugged w qa); [|reflexivity]. cbn [snd].
  destruct (decide (x = qa)) as [->|Hne].
  - now rewrite stopped_update_queue_eq.
  - now rewrite stopped_update_queue_ne.
Qed.

Lemma plug_inv_plug_device jiffies w qa :
  plug_inv w -> plug_inv (blk_plug_device jiffies w qa).
Proof.
  intros [Hnd Hstop]. unfold blk_plug_device.
  destruct (blk_queue_plugged w qa) eqn:Hp; cbn [negb andb]; [now split|].
  destruct (queue_stopped w qa) eqn:Hs; cbn [negb]; [now split|].
  assert (Hnot : qa ∉ blk_plug_list w ++ local_plug_list w).
  { intros Hin. apply plugged_iff in Hin. congruence. }
  split.
  - cbn. rewrite <- app_assoc. apply NoDup_app in Hnd as (H1 & H12 & H2).
    apply NoDup_app. split_and!; [assumption | |].
    + intros x Hx1 Hx2. apply elem_of_cons in Hx2 as [->|Hx2].
      * apply Hnot, elem_of_app. now left.
      * now apply (H12 x).
    + apply NoDup_cons. split; [|assumption].
      intros Hin. apply Hnot, elem_of_app. now right.
  - intros x Hx. rewrite plugged_update_queue in Hx.
    apply plugged_iff in Hx. cbn in Hx.
    destruct (decide (x = qa)) as [->|Hne].
    + rewrite stopped_update_queue_eq. exact Hs.
    + rewrite stopped_update_queue_ne by assumption. apply Hstop.
      apply plugged_iff. rewrite !elem_of_app in *.
      rewrite list_elem_of_singleton in Hx. tauto.
Qed.

Lemma plug_device_noop jiffies w qa :
  blk_queue_plugged w qa = true \/ queue_stopped w qa = true ->
  blk_plug_device jiffies w qa = w.
Proof.
  intros [Hp|Hs]; unfold blk_plug_device.
  - now rewrite Hp.
  - now rewrite Hs, andb_false_r.
Qed.

Lemma plugged_plug_device jiffies w qa :
  queue_stopped w qa = false ->
  blk_queue_plugged (blk_plug_device jiffies w qa) qa = true.
Proof.
  intros Hs. unfold blk_plug_device.
  destruct (blk_queue_plugged w qa) eqn:Hp; cbn [negb andb]; [assumption|].
  rewrite Hs. cbn [negb]. rewrite plugged_update_queue.
  apply plugged_iff. cbn. rewrite !elem_of_app, list_elem_of_singleton.
  tauto.
Qed.

Section Driver.
Variable request_fn : nat -> plug_world -> plug_world.
Variable elv_next_request : plug_world -> nat -> bool.

(** A stopped queue is never plugged.  The plugging operations keep the
    plug lists in order (no queue twice, no stopped queue); stopping a
    queue takes it off the plug list, and on a stopped queue plugging and
    unplugging do nothing (the driver is not run); plugging a queue that
    is not stopped puts it on the list, a second time changes nothing;
    removing the plug tells whether there was one; and starting a queue
    clears the stop flag and queues the unplug work. *)
Theorem stopped_queue_is_never_plugged (jiffies : Z) (w : plug_world)
    (qa : nat) :
  plug_inv w ->
  (plug_inv (blk_plug_device jiffies w qa)
   /\ plug_inv (blk_remove_plug w qa).2
   /\ plug_inv (blk_stop_queue w qa)
   /\ plug_inv (blk_start_queue w qa))
  /\ (let w' := blk_stop_queue w qa in
      queue_stopped w' qa = true /\ blk_queue_plugged w' qa = false
      /\ blk_plug_device jiffies w' qa = w'
      /\ __generic_unplug_device request_fn elv_next_request w' qa = (w', []))
  /\ (queue_stopped w qa = false ->
      blk_queue_plugged (blk_plug_device jiffies w qa) qa = true)
  /\ blk_plug_device jiffies (blk_plug_device jiffies w qa) qa
     = blk_plug_device jiffies w qa
  /\ ((blk_remove_plug w qa).1 = if blk_queue_plugged w qa then 1 else 0)
  /\ blk_queue_plugged (blk_remove_plug w qa).2 qa = false
  /\ (let w' := blk_start_queue w qa in
      queue_stopped w' qa = false /\ unplug_work (queues w' qa) = true
      /\ blk_queue_plugged w' qa = blk_queue_plugged w qa).
Proof.
  intros Hinv.
  assert (Hstopinv : plug_inv (blk_stop_queue w qa)
                     /\ queue_stopped (blk_stop_queue w qa) qa = true
                     /\ blk_queue_plugged (blk_stop_queue w qa) qa = false).
  { unfold blk_stop_queue.
    pose proof (plug_inv_remove_plug w qa Hinv) as [Hnd Hstop].
    pose proof (plugged_remove_plug w qa) as Hpl.
    destruct (blk_remove_plug w qa) as [r w1]. cbn [snd] in *.
    assert (Hq : blk_queue_plugged w1 qa = false).
    { destruct (blk_queue_plugged w1 qa) eqn:E; [|reflexivity].
      apply Hpl in E as [E _]. contradiction. }
    split_and!.
    - split; [exact Hnd|]. intros x Hx. rewrite plugged_update_queue in Hx.
      destruct (decide (x = qa)) as [->|Hne]; [congruence|].
      rewrite stopped_update_queue_ne by assumption. now apply Hstop.
    - rewrite stopped_update_queue_eq. flag_simpl.
      apply test_set_bit_eq. discriminate.
    - now rewrite plugged_update_queue. }
  destruct Hstopinv as (Hsi & Hss & Hsp).
  split_and!.
  - now apply plug_inv_plug_device.
  - now apply plug_inv_remove_plug.
  - exact Hsi.
  - destruct Hinv as [Hnd Hstop]. split; [exact Hnd|].
    intros x Hx. unfold blk_start_queue in *.
    rewrite plugged_update_queue in Hx.
    destruct (decide (x = qa)) as [->|Hne].
    + rewrite stopped_update_queue_eq. flag_simpl.
      apply test_clear_bit_eq. discriminate.
    + rewrite stopped_update_queue_ne by assumption. now apply Hstop.
  - cbn zeta. split_and!; auto.
    + unfold blk_plug_device. rewrite Hss, Hsp. reflexivity.
    + unfold __generic_unplug_device. now rewrite Hss.
  - apply plugged_plug_device.
  - destruct (queue_stopped w qa) eqn:Hs.
    + rewrite !(plug_device_noop jiffies w qa) by (now right). reflexivity.
    + apply plug_device_noop. left. now apply plugged_plug_device.
  - unfold blk_remove_plug. now destruct (blk_queue_plugged w qa).
  - destruct (blk_queue_plugged (blk_remove_plug w qa).2 qa) eqn:E;
      [|reflexivity].
    apply plugged_remove_plug in E as [E _]. contradiction.
  - cbn zeta. unfold blk_start_queue. rewrite stopped_update_queue_eq.
    split_and!.
    + flag_simpl. apply test_clear_bit_eq. discriminate.
    + cbn. now rewrite Nat.eqb_refl.
    + reflexivity.
Qed.

(** What unplugging one queue of [local_plug_list] does. *)
Lemma unplug_local_step w qa rest :
  driver_keeps_plugs request_fn ->
  plug_inv w -> local_plug_list w = qa :: rest ->
  let res := generic_unplug_device request_fn elv_next_request w qa in
  plug_inv res.1
  /\ (forall x, x ∈ local_plug_list res.1 -> x ∈ rest)
  /\ (forall x, x ∈ res.2 -> x = qa).
Proof.
  intros Hdrv Hinv Hlocal res. subst res.
  unfold generic_unplug_device, __generic_unplug_device.
  assert (Hp : blk_queue_plugged w qa = true).
  { apply plugged_iff. rewrite Hlocal, elem_of_app. right. now left. }
  destruct Hinv as [Hnd Hstop]. rewrite (Hstop qa Hp).
  pose proof (plug_inv_remove_plug w qa (conj Hnd Hstop)) as Hinv1.
  unfold blk_remove_plug in *. rewrite Hp in *. cbn [snd fst] in *.
  cbn [Z.eqb].
  set (w1 := update_queue
               (update_queue (unlink_plug w qa) qa (set_unplug_timer None))
               qa (set_unplug_timer None)).
  assert (Hinv2 : plug_inv w1).
  { destruct Hinv1 as [Hnd1 Hstop1]. split; [exact Hnd1|].
    intros x Hx. subst w1. rewrite plugged_update_queue in Hx.
    destruct (decide (x = qa)) as [->|Hne].
    - rewrite stopped_update_queue_eq. cbn. rewrite Nat.eqb_refl. cbn.
      specialize (Hstop1 qa Hx). rewrite stopped_update_queue_eq in Hstop1.
      exact Hstop1.
    - rewrite stopped_update_queue_ne by assumption. now apply Hstop1. }
  assert (Hloc : forall x, x ∈ local_plug_list w1 -> x ∈ rest).
  { intros x Hx. subst w1. cbn in Hx. rewrite Hlocal in Hx.
    apply elem_of_remove_addr in Hx as [Hne Hx].
    apply elem_of_cons in Hx as [->|Hx]; [contradiction | assumption]. }
  destruct (elv_next_request w1 qa); cbn [fst snd].
  - destruct (Hdrv qa w1 Hinv2) as [Hinv3 Hsub].
    split_and!; auto.
    intros x Hx. now apply list_elem_of_singleton in Hx.
  - split_and!; auto. intros x Hx. now apply elem_of_nil in Hx.
Qed.

Lemma run_local_plug_list_spec fuel : forall w,
  driver_keeps_plugs request_fn ->
  plug_inv w -> (length (local_plug_list w) < fuel)%nat ->
  exists w' ran,
    run_local_plug_list request_fn elv_next_request fuel w = Some (w', ran)
    /\ plug_inv w' /\ local_plug_list w' = []
    /\ NoDup ran /\ forall x, x ∈ ran -> x ∈ local_plug_list w.
Proof.
  induction fuel as [|fuel IH]; intros w Hdrv Hinv Hfuel; [lia|].
  cbn [run_local_plug_list].
  destruct (local_plug_list w) as [|qa rest] eqn:Hlocal.
  - exists w, []. split_and!; [reflexivity | assumption | assumption | |].
    + constructor.
    + intros x Hx. now apply elem_of_nil in Hx.
  - destruct (unplug_local_step w qa rest Hdrv Hinv Hlocal)
      as (Hinv1 & Hsub & Hran).
    destruct (generic_unplug_device request_fn elv_next_request w qa)
      as [w1 ran1] eqn:Hstep. cbn [fst snd] in *.
    assert (Hnd : NoDup (qa :: rest)).
    { destruct Hinv as [Hnd _]. rewrite Hlocal in Hnd.
      now apply NoDup_app in Hnd as (_ & _ & Hnd). }
    apply NoDup_cons in Hnd as [Hqa Hnd].
    assert (Hlen : (length (local_plug_list w1) <= length rest)%nat).
    { apply submseteq_length, NoDup_submseteq.
      - destruct Hinv1 as [Hnd1 _].
        now apply NoDup_app in Hnd1 as (_ & _ & Hnd1).
      - assumption. }
    destruct (IH w1 Hdrv Hinv1) as (w' & ran & Hrun & Hinv' & Hempty & Hndr
                                   & Hsubr); [cbn in Hfuel; lia|].
    exists w', (ran1 ++ ran). rewrite Hrun. cbn.
    split_and!; auto.
    + apply NoDup_app. split_and!; [| |assumption].
      * unfold generic_unplug_device, __generic_unplug_device in Hstep.
        repeat match type of Hstep with
        | context [if ?c then _ else _] => destruct c
        | (let '(_, _) := ?c in _) = _ => destruct c
        end; injection Hstep as <- <-;
          try constructor; try apply NoDup_singleton.
        -- apply not_elem_of_nil.
        -- constructor.
      * intros x Hx1 Hx2. apply Hran in Hx1 as ->.
        apply Hsubr, Hsub in Hx2. contradiction.
    + intros x Hx. apply elem_of_app in Hx as [Hx|Hx].
      * apply Hran in Hx as ->. now left.
      * right. now apply Hsub, Hsubr.
Qed.

(** [blk_run_queues] comes to an end and empties the plug list: with a
    driver that keeps to the rules while it runs, the loop over the
    spliced list finishes within one pass per plugged queue and leaves
    [local_plug_list] empty, and the queues whose [request_fn] was run
    were all plugged, each run once. *)
Theorem run_queues_drains_plug_list (w : plug_world) :
  driver_keeps_plugs request_fn ->
  plug_inv w -> local_plug_list w = [] ->
  exists w' ran,
    blk_run_queues request_fn elv_next_request
      (S (length (blk_plug_list w))) w = Some (w', ran)
    /\ plug_inv w'
    /\ local_plug_list w' = []
    /\ NoDup ran
    /\ forall qa, qa ∈ ran -> qa ∈ blk_plug_list w.
Proof.
  intros Hdrv Hinv Hlocal. unfold blk_run_queues.
  destruct (blk_plug_list w) as [|qa0 plugged] eqn:Hlist.
  - exists w, []. split_and!; auto. constructor.
  - rewrite Hlocal, app_nil_r.
    set (w0 := PlugWorld (queues w) [] (qa0 :: plugged)).
    assert (Hinv0 : plug_inv w0).
    { destruct Hinv as [Hnd Hstop]. split.
      - subst w0. cbn. rewrite Hlist, Hlocal, app_nil_r in Hnd. exact Hnd.
      - intros x Hx. apply plugged_iff in Hx. subst w0. cbn in Hx.
        apply (Hstop x). apply plugged_iff.
        rewrite Hlist, Hlocal, app_nil_r. exact Hx. }
    destruct (run_local_plug_list_spec (S (length (qa0 :: plugged))) w0
                Hdrv Hinv0)
      as (w' & ran & Hrun & Hinv' & Hempty & Hnd & Hsub); [cbn; lia|].
    exists w', ran. split_and!; auto.
Qed.

End Driver.

(** ** Exercising the plug list *)

Lemma plugged_world_inv : plug_inv MoreSamples.plugged_world.
Proof.
  split.
  - apply (bool_decide_unpack _). vm_compute. exact I.
  - intros qa _. reflexivity.
Defined.

Lemma stopped_queue_is_never_plugged_witness :
  plug_inv MoreSamples.plugged_world
  /\ blk_queue_plugged (blk_stop_queue MoreSamples.plugged_world 1) 1 = false
  /\ blk_plug_device 0 (blk_stop_queue MoreSamples.plugged_world 1) 1
     = blk_stop_queue MoreSamples.plugged_world 1.
Proof.
  split; [exact plugged_world_inv|].
  destruct (stopped_queue_is_never_plugged MoreSamples.quiet_driver
              MoreSamples.always_ready 0 MoreSamples.plugged_world 1
              plugged_world_inv)
    as (_ & (_ & Hunplugged & Hnoop & _) & _).
  split; [exact Hunplugged | exact Hnoop].
Defined.

Lemma quiet_driver_keeps_plugs : driver_keeps_plugs MoreSamples.quiet_driver.
Proof. intros qa w Hinv. split; [exact Hinv | intros x Hx; exact Hx]. Defined.

Lemma run_queues_drains_plug_list_witness :
  driver_keeps_plugs MoreSamples.quiet_driver
  /\ plug_inv MoreSamples.plugged_world
  /\ local_plug_list MoreSamples.plugged_world = []
  /\ exists w' ran,
       blk_run_queues MoreSamples.quiet_driver MoreSamples.always_ready 3
         MoreSamples.plugged_world = Some (w', ran)
       /\ local_plug_list w' = [].
Proof.
  split; [exact quiet_driver_keeps_plugs|].
  split; [exact plugged_world_inv|]. split; [reflexivity|].
  destruct (run_queues_drains_plug_list MoreSamples.quiet_driver
              MoreSamples.always_ready MoreSamples.plugged_world
              quiet_driver_keeps_plugs plugged_world_inv eq_refl)
    as (w' & ran & Hrun & _ & Hlocal & _).
  exists w', ran. split; [exact Hrun | exact Hlocal].
Defined.

End PlugProofs.

Module MakeRequestProofs.
Import Kernel LlRwBlk Buffer BitFacts MakeRequest.

Section Driver.
Variable BIO_EOF : Z.


(** What a round of the loop has checked when it calls the driver. *)
Lemma resolve_mapping_ext
    (f g : nat -> dev_bio -> io_world -> Z * dev_bio * io_world) :
  (forall qa b w,
     bd_queue (bdevs w (bi_bdev b)) = Some qa
     \/ (exists part, bd_queue (bdevs w part) = Some qa
                      /\ bi_bdev b = bd_contains (bdevs w part)) ->
     bio_sectors (db b) <= max_sectors (rqueues w qa) ->
     test_bit QUEUE_FLAG_DEAD (queue_flags (rqueues w qa)) = false ->
     f qa b w = g qa b w) ->
  forall fuel w b,
    resolve_mapping f fuel w b = resolve_mapping g fuel w b.
Proof.
  intros Hagree. induction fuel as [|fuel IH]; intros w b; [reflexivity|].
  cbn [resolve_mapping].
  destruct (bd_queue (bdevs w (bi_bdev b))) as [qa|] eqn:Hq; [|reflexivity].
  destruct (Z.gtb_spec (bio_sectors (db b)) (max_sectors (rqueues w qa)));
    [reflexivity|].
  destruct (test_bit QUEUE_FLAG_DEAD (queue_flags (rqueues w qa))) eqn:Hdead;
    [reflexivity|].
  assert (Hcall : f qa (blk_partition_remap w b).2 (blk_partition_remap w b).1
                  = g qa (blk_partition_remap w b).2
                      (blk_partition_remap w b).1).
  { unfold blk_partition_remap.
    destruct (Nat.eqb_spec (bi_bdev b) (bd_contains (bdevs w (bi_bdev b))))
      as [Hwhole|Hpart]; cbn [negb fst snd].
    - apply Hagree; auto.
    - apply Hagree; cbn; auto.
      right. exists (bi_bdev b). rewrite Nat.eqb_refl. cbn. auto. }
  destruct (blk_partition_remap w b) as [w1 b1]. cbn [fst snd] in Hcall.
  rewrite Hcall. destruct (g qa b1 w1) as [[ret b2] w2].
  destruct (ret =? 0); [reflexivity | apply IH].
Qed.

(** A driver is only ever handed a bio that fits its queue: the outcome
    of [generic_make_request] is the same for two [make_request_fn]s that
    agree on the calls with a bio of at most [max_sectors] sectors on a
    queue that is not dead, the queue being that of the bio's device (or
    of the partition the bio was aimed at).  A bio whose device has no
    queue, that is longer than [max_sectors], or whose queue is dead is
    ended with [-EIO] for its whole size; the driver is not called and
    nothing else changes. *)
Theorem driver_gets_only_fitting_bios
    (f g : nat -> dev_bio -> io_world -> Z * dev_bio * io_world)
    (fuel : nat) (w : io_world) (b : dev_bio) :
  (forall qa b w,
     bd_queue (bdevs w (bi_bdev b)) = Some qa
     \/ (exists part, bd_queue (bdevs w part) = Some qa
                      /\ bi_bdev b = bd_contains (bdevs w part)) ->
     bio_sectors (db b) <= max_sectors (rqueues w qa) ->
     test_bit QUEUE_FLAG_DEAD (queue_flags (rqueues w qa)) = false ->
     f qa b w = g qa b w) ->
  generic_make_request BIO_EOF f fuel w b
  = generic_make_request BIO_EOF g fuel w b
  /\ ((bd_queue (bdevs w (bi_bdev b)) = None
       \/ exists qa, bd_queue (bdevs w (bi_bdev b)) = Some qa
                     /\ (max_sectors (rqueues w qa) < bio_sectors (db b)
                         \/ test_bit QUEUE_FLAG_DEAD
                              (queue_flags (rqueues w qa)) = true)) ->
      resolve_mapping f (S fuel) w b
      = Some (IoWorld (bdevs w) (rqueues w)
                (trace w ++ [BioEndio b (bi_size (db b)) (- EIO)]))).
Proof.
  intros Hagree. split.
  - unfold generic_make_request.
    rewrite (resolve_mapping_ext f g Hagree). reflexivity.
  - intros [Hnone|(qa & Hq & Hbad)]; cbn [resolve_mapping].
    + rewrite Hnone. reflexivity.
    + rewrite Hq.
      destruct (Z.gtb_spec (bio_sectors (db b)) (max_sectors (rqueues w qa)));
        [reflexivity|].
      destruct Hbad as [Hbig|Hdead]; [lia|]. rewrite Hdead. reflexivity.
Qed.


End Driver.

(** ** Exercising the hand-over *)


Lemma driver_gets_only_fitting_bios_witness :
  resolve_mapping MoreSamples.accepting_driver 1 MoreSamples.disk_world
    (DevBio (Bio 0 262144 1 1 1) 0 0)
  = Some (IoWorld (bdevs MoreSamples.disk_world)
            (rqueues MoreSamples.disk_world)
            [BioEndio (DevBio (Bio 0 262144 1 1 1) 0 0) 262144 (-5)]).
Proof.
  destruct (driver_gets_only_fitting_bios 2 MoreSamples.accepting_driver
              MoreSamples.accepting_driver 0 MoreSamples.disk_world
              (DevBio (Bio 0 262144 1 1 1) 0 0)) as [_ Hended].
  - intros qa b w _ _ _. reflexivity.
  - apply Hended. right. exists 0%nat. split; [reflexivity|].
    left. vm_compute. reflexivity.
Defined.


End MakeRequestProofs.

Module IoContextProofs.
Import Kernel LlRwBlk IoContextRefs.

Lemma refs_to_cons a r refs :
  refs_to a (r :: refs)
  = (if bool_decide (r = Some a) then 1 else 0) + refs_to a refs.
Proof.
  unfold refs_to. rewrite filter_cons.
  destruct (decide (r = Some a)) as [Heq|Hne].
  - rewrite bool_decide_eq_true_2 by assumption. cbn [length]. lia.
  - rewrite bool_decide_eq_false_2 by assumption. lia.
Qed.

Lemma refs_to_app a l1 l2 :
  refs_to a (l1 ++ l2) = refs_to a l1 + refs_to a l2.
Proof. unfold refs_to. rewrite filter_app, length_app. lia. Qed.

Lemma refs_to_nonneg a refs : 0 <= refs_to a refs.
Proof. unfold refs_to. lia. Qed.

Lemma refs_to_pos a refs : Some a ∈ refs -> 0 < refs_to a refs.
Proof.
  induction refs as [|r refs IH]; intros Hin.
  - now apply elem_of_nil in Hin.
  - rewrite refs_to_cons. pose proof (refs_to_nonneg a refs).
    apply elem_of_cons in Hin as [<-|Hin].
    + rewrite bool_decide_eq_true_2 by reflexivity. lia.
    + specialize (IH Hin). destruct (bool_decide (r = Some a)); lia.
Qed.

Lemma refs_to_insert a i r r' refs :
  refs !! i = Some r ->
  refs_to a (<[i := r']> refs)
  = refs_to a refs - (if bool_decide (r = Some a) then 1 else 0)
    + (if bool_decide (r' = Some a) then 1 else 0).
Proof.
  revert i. induction refs as [|x refs IH]; intros i Hi; [discriminate|].
  destruct i as [|i]; cbn in Hi.
  - injection Hi as ->.
    change (<[0%nat := r']> (r :: refs)) with (r' :: refs).
    rewrite !refs_to_cons. lia.
  - change (<[S i := r']> (x :: refs)) with (x :: <[i := r']> refs).
    rewrite !refs_to_cons, (IH i Hi). lia.
Qed.

Lemma iocs_set_ioc_eq w a o : iocs (set_ioc w a o) a = o.
Proof. cbn. now rewrite Nat.eqb_refl. Qed.

Lemma iocs_set_ioc_ne w a o x : x <> a -> iocs (set_ioc w a o) x = iocs w x.
Proof. intros Hne. cbn. destruct (Nat.eqb_spec x a); congruence. Qed.

(** A pointer that is counted leads to a live context. *)
Lemma refs_ok_live w held a :
  refs_ok w held -> 0 < refs_to a (current_io_context w :: held) ->
  exists o, iocs w a = Some o
            /\ refcount o = refs_to a (current_io_context w :: held).
Proof.
  intros Hok Hpos. specialize (Hok a).
  destruct (iocs w a) as [o|]; [|lia]. exists o. tauto.
Qed.

(** Dropping one counted pointer. *)
Lemma put_counted w refs a :
  (forall x, match iocs w x with
             | Some o => refcount o = refs_to x refs /\ 0 < refcount o
             | None => refs_to x refs = 0
             end) ->
  0 < refs_to a refs ->
  exists w',
    put_io_context w (Some a) = Ok w'
    /\ current_io_context w' = current_io_context w
    /\ current_pid w' = current_pid w
    /\ (forall x, x <> a -> iocs w' x = iocs w x)
    /\ match iocs w' a with
       | Some o => refcount o = refs_to a refs - 1 /\ 0 < refcount o
       | None => refs_to a refs - 1 = 0
       end
    /\ (forall o, iocs w' a = Some o ->
          exists o0, iocs w a = Some o0 /\ o = set_refcount (refcount o0 - 1) o0).
Proof.
  intros Hok Hpos. pose proof (Hok a) as Ha.
  unfold put_io_context.
  destruct (iocs w a) as [o|] eqn:Hioc; [|lia].
  destruct Ha as [Hcount Hlive].
  destruct (Z.eqb_spec (refcount o) 0); [lia|].
  destruct (Z.eqb_spec (refcount o - 1) 0) as [Hlast|Hmore].
  - eexists. split; [reflexivity|].
    assert (Hfree : forall w0, iocs (set_ioc w0 a None) a = None)
      by (intros; apply iocs_set_ioc_eq).
    rewrite Hfree.
    split_and!; try lia.
    + destruct (aic o) as [c|]; [destruct (has_dtor c)|]; reflexivity.
    + destruct (aic o) as [c|]; [destruct (has_dtor c)|]; reflexivity.
    + intros x Hx. rewrite iocs_set_ioc_ne by assumption.
      destruct (aic o) as [c|]; [destruct (has_dtor c)|]; reflexivity.
    + discriminate.
  - eexists. split; [reflexivity|]. rewrite iocs_set_ioc_eq.
    split_and!; try reflexivity.
    + intros x Hx. now rewrite iocs_set_ioc_ne.
    + cbn. lia.
    + cbn. lia.
    + intros o' [= <-]. eauto.
Qed.

Ltac case_refs :=
  repeat match goal with
  | |- context [bool_decide ?P] =>
      let H := fresh in
      destruct (decide P) as [H|H];
      [ rewrite !(bool_decide_eq_true_2 P H) in *
      | rewrite !(bool_decide_eq_false_2 P H) in * ]
  | H0 : context [bool_decide ?P] |- _ =>
      let H := fresh in
      destruct (decide P) as [H|H];
      [ rewrite !(bool_decide_eq_true_2 P H) in *
      | rewrite !(bool_decide_eq_false_2 P H) in * ]
  end.

(** Reference counts are kept in step with the pointers: where every
    allocated context counts exactly the pointers to it (the current
    task's and those held elsewhere) and no pointer dangles, each of the
    functions returns without [BUG] and without touching freed memory,
    and leaves the counts in step with the pointers as they are after it.
    [get_io_context] hands out one more pointer to the task's context,
    creating it with a count of two (the task's and the caller's) when
    the task had none, and returns NULL only when the task had none and
    the allocation failed; [put_io_context] of a held pointer frees the
    context exactly when it was the last pointer to it; putting back what
    [get_io_context] returned leaves the task's context as it was;
    [copy_io_context] replaces the destination by the source, also when
    both are the same context; [exit_io_context] clears the task's
    pointer. *)
Theorem io_context_counts_follow_pointers (w : task_world)
    (held : list (option nat)) :
  refs_ok w held ->
  (forall jiffies kmalloc,
     (forall a, kmalloc = Some a -> iocs w a = None) ->
     exists ret w',
       get_io_context jiffies kmalloc w = Ok (ret, w')
       /\ refs_ok w' (ret :: held)
       /\ (ret = None <-> current_io_context w = None /\ kmalloc = None)
       /\ current_io_context w' = ret
       /\ (forall a, current_io_context w = Some a -> ret = Some a)
       /\ (current_io_context w = None -> ret = kmalloc
           /\ forall a o, ret = Some a -> iocs w' a = Some o ->
                o = IocObject 2 (current_pid w) (IoContext 0 jiffies) None)
       /\ exists w'',
            put_io_context w' ret = Ok w''
            /\ refs_ok w'' held
            /\ (forall a, current_io_context w = Some a ->
                  forall x, iocs w'' x = iocs w x))
  /\ (forall i r,
        held !! i = Some r ->
        exists w',
          put_io_context w r = Ok w'
          /\ refs_ok w' (delete i held)
          /\ forall a, r = Some a ->
               (iocs w' a = None
                <-> refs_to a (current_io_context w :: held) = 1))
  /\ (forall i dst src,
        held !! i = Some dst -> src ∈ held ->
        exists w' dst',
          copy_io_context w dst src = Ok (w', dst')
          /\ dst' = match src with Some _ => src | None => dst end
          /\ refs_ok w' (<[i := dst']> held))
  /\ (exists w',
        exit_io_context w = Ok w'
        /\ current_io_context w' = None
        /\ refs_ok w' held).
Proof.
  intros Hok. split_and!.
  - (* get_io_context *)
    intros jiffies kmalloc Hfresh. unfold get_io_context.
    destruct (current_io_context w) as [a|] eqn:Hcur.
    + (* the task has a context *)
      destruct (refs_ok_live w held a Hok) as (o & Hioc & Hcount).
      { rewrite Hcur, refs_to_cons, bool_decide_eq_true_2 by reflexivity.
        pose proof (refs_to_nonneg a held). lia. }
      rewrite Hioc.
      set (w' := set_ioc w a (Some (set_refcount (refcount o + 1) o))).
      assert (Hok' : refs_ok w' (Some a :: held)).
      { intros x. subst w'. cbn [current_io_context set_ioc].
        destruct (decide (x = a)) as [->|Hne].
        - rewrite iocs_set_ioc_eq. cbn [refcount set_refcount].
          rewrite Hcur in Hcount.
          rewrite !refs_to_cons in *. case_refs; try congruence.
          pose proof (refs_to_nonneg a held). lia.
        - rewrite iocs_set_ioc_ne by assumption.
          specialize (Hok x). rewrite Hcur in Hok.
          rewrite !refs_to_cons in *.
          case_refs; try congruence; exact Hok. }
      exists (Some a), w'. split_and!; auto.
      * split; [discriminate | intros [[=] _]].
      * intros [=].
      * destruct (put_counted w' (Some a :: Some a :: held) a)
          as (w'' & Hput & Hcur'' & _ & Hother & Hat & Hwas).
        { intros x. specialize (Hok' x). subst w'.
          cbn [current_io_context set_ioc] in Hok'.
          now rewrite Hcur in Hok'. }
        { rewrite !refs_to_cons, bool_decide_eq_true_2 by reflexivity.
          pose proof (refs_to_nonneg a held). lia. }
        exists w''. split; [exact Hput|].
        assert (Hback : forall x, iocs w'' x = iocs w x).
        { intros x. destruct (decide (x = a)) as [->|Hne].
          - destruct (iocs w'' a) as [o''|] eqn:Hioc''.
            + destruct (Hwas o'' eq_refl) as (o0 & Ho0 & ->).
              subst w'. rewrite iocs_set_ioc_eq in Ho0.
              injection Ho0 as <-. rewrite Hioc. f_equal.
              destruct o. unfold set_refcount.
              cbn [refcount ioc_pid batch aic]. f_equal. lia.
            + rewrite !refs_to_cons, bool_decide_eq_true_2 in Hat
                by reflexivity.
              pose proof (refs_to_nonneg a held). lia.
          - rewrite Hother by assumption. subst w'.
            now rewrite iocs_set_ioc_ne. }
        split; [|intros; apply Hback].
        intros x. rewrite Hback, Hcur''. subst w'.
        cbn [current_io_context set_ioc]. apply Hok.
    + (* the task has none *)
      destruct kmalloc as [a|].
      * specialize (Hfresh a eq_refl).
        cbn [iocs set_current]. rewrite iocs_set_ioc_eq.
        set (w' := set_ioc _ a _).
        assert (Hnone : refs_to a (None :: held) = 0).
        { specialize (Hok a). now rewrite Hfresh, Hcur in Hok. }
        assert (Hok' : refs_ok w' (Some a :: held)).
        { intros x. subst w'. cbn [current_io_context set_ioc set_current].
          destruct (decide (x = a)) as [->|Hne].
          - rewrite iocs_set_ioc_eq. cbn [refcount set_refcount].
            rewrite !refs_to_cons in *. case_refs; try congruence. lia.
          - rewrite iocs_set_ioc_ne by assumption.
            cbn [iocs set_current]. rewrite iocs_set_ioc_ne by assumption.
            specialize (Hok x). rewrite Hcur in Hok.
            rewrite !refs_to_cons in *.
            case_refs; try congruence; exact Hok. }
        exists (Some a), w'. split_and!; auto.
        -- split; [discriminate | intros [_ [=]]].
        -- intros x [=].
        -- intros _. split; [reflexivity|].
           intros x o [= <-]. subst w'. rewrite iocs_set_ioc_eq.
           intros [= <-]. reflexivity.
        -- destruct (put_counted w' (Some a :: Some a :: held) a)
             as (w'' & Hput & Hcur'' & _ & Hother & Hat & _).
           { exact Hok'. }
           { rewrite !refs_to_cons, bool_decide_eq_true_2 by reflexivity.
             pose proof (refs_to_nonneg a held). lia. }
           exists w''. split; [exact Hput|]. split; [|intros x [=]].
           intros x. rewrite Hcur''.
           destruct (decide (x = a)) as [->|Hne].
           ++ subst w'. cbn [current_io_context set_ioc set_current].
              rewrite !refs_to_cons in *.
              rewrite bool_decide_eq_true_2 in * by reflexivity.
              destruct (iocs w'' a); [|lia].
              destruct Hat; split; lia.
           ++ rewrite Hother by assumption.
              pose proof (Hok' x) as Hx.
              subst w'. cbn [current_io_context set_ioc set_current] in *.
              rewrite !refs_to_cons in *.
              case_refs; try congruence; exact Hx.
      * exists None, w. cbn. split_and!; auto.
        -- tauto.
        -- intros _. split; [reflexivity | intros x o [=]].
        -- exists w. split; [reflexivity|]. split; [exact Hok|].
           intros x [=].
  - (* put_io_context *)
    intros i r Hi.
    pose proof (take_drop_middle _ _ _ Hi) as Hsplit.
    assert (Hdel : delete i held = take i held ++ drop (S i) held)
      by (apply delete_take_drop).
    assert (Hsum : forall x,
               refs_to x (current_io_context w :: held)
               = refs_to x (current_io_context w :: delete i held)
                 + (if bool_decide (r = Some x) then 1 else 0)).
    { intros x. rewrite Hdel, <- Hsplit at 1.
      rewrite !refs_to_cons, !refs_to_app, refs_to_cons. lia. }
    destruct r as [a|].
    + destruct (put_counted w (current_io_context w :: held) a)
        as (w' & Hput & Hcur' & _ & Hother & Hat & _).
      { exact Hok. }
      { rewrite Hsum, bool_decide_eq_true_2 by reflexivity.
        pose proof (refs_to_nonneg a (current_io_context w :: delete i held)).
        lia. }
      exists w'. split; [exact Hput|]. split.
      * intros x. rewrite Hcur'.
        destruct (decide (x = a)) as [->|Hne].
        -- rewrite Hsum, bool_decide_eq_true_2 in Hat by reflexivity.
           destruct (iocs w' a); [destruct Hat; split; lia | lia].
        -- rewrite Hother by assumption. specialize (Hok x).
           rewrite Hsum, bool_decide_eq_false_2 in Hok by congruence.
           rewrite Z.add_0_r in Hok. exact Hok.
      * intros x [= <-].
        destruct (iocs w' a) as [o|]; split; try discriminate; try lia.
        reflexivity.
    + exists w. split; [reflexivity|]. split.
      * intros x. specialize (Hok x).
        rewrite Hsum, bool_decide_eq_false_2, Z.add_0_r in Hok
          by discriminate. exact Hok.
      * intros a [=].
  - (* copy_io_context *)
    intros i dst src Hi Hsrc. unfold copy_io_context.
    destruct src as [s|].
    + assert (Hpos : 0 < refs_to s (current_io_context w :: held)).
      { apply refs_to_pos. now right. }
      destruct (refs_ok_live w held s Hok Hpos) as (o & Hioc & Hcount).
      rewrite Hioc. destruct (Z.eqb_spec (refcount o) 0); [lia|].
      set (w1 := set_ioc w s (Some (set_refcount (refcount o + 1) o))).
      (* with the source counted once more, the counts match the
         pointers with [src] held a second time *)
      assert (Hok1 : forall x,
                 match iocs w1 x with
                 | Some o => refcount o
                             = refs_to x (Some s :: current_io_context w
                                          :: held)
                             /\ 0 < refcount o
                 | None => refs_to x (Some s :: current_io_context w :: held)
                           = 0
                 end).
      { intros x. subst w1. destruct (decide (x = s)) as [->|Hne].
        - rewrite iocs_set_ioc_eq. cbn [refcount set_refcount].
          rewrite (refs_to_cons s (Some s)),
            bool_decide_eq_true_2 by reflexivity. lia.
        - rewrite iocs_set_ioc_ne by assumption. specialize (Hok x).
          rewrite (refs_to_cons x (Some s)),
            bool_decide_eq_false_2 by congruence. exact Hok. }
      assert (Hins : forall x,
                 refs_to x (current_io_context w :: <[i := Some s]> held)
                 = refs_to x (Some s :: current_io_context w :: held)
                   - (if bool_decide (dst = Some x) then 1 else 0)).
      { intros x.
        rewrite (refs_to_cons x (Some s)), !(refs_to_cons x (current_io_context w)),
          (refs_to_insert x i dst (Some s) held Hi). lia. }
      destruct dst as [d|].
      * destruct (put_counted w1 (Some s :: current_io_context w :: held) d)
          as (w' & Hput & Hcur' & _ & Hother & Hat & _).
        { exact Hok1. }
        { apply refs_to_pos. right. right.
          eapply list_elem_of_lookup_2. exact Hi. }
        rewrite Hput. cbn. exists w', (Some s).
        split; [reflexivity|]. split; [reflexivity|].
        intros x. rewrite Hcur'. subst w1.
        cbn [current_io_context set_ioc]. rewrite Hins.
        destruct (decide (x = d)) as [->|Hne].
        -- rewrite bool_decide_eq_true_2 by reflexivity. exact Hat.
        -- rewrite bool_decide_eq_false_2 by congruence.
           rewrite Hother, Z.sub_0_r by assumption. apply Hok1.
      * cbn. exists w1, (Some s). split; [reflexivity|].
        split; [reflexivity|].
        intros x. cbn [current_io_context]. subst w1.
        cbn [current_io_context set_ioc]. rewrite Hins.
        rewrite bool_decide_eq_false_2, Z.sub_0_r by discriminate.
        apply Hok1.
    + exists w, dst. split; [reflexivity|]. split; [reflexivity|].
      rewrite list_insert_id by assumption. exact Hok.
  - (* exit_io_context *)
    unfold exit_io_context.
    destruct (current_io_context w) as [a|] eqn:Hcur.
    + destruct (refs_ok_live w held a Hok) as (o & Hioc & Hcount).
      { rewrite Hcur, refs_to_cons, bool_decide_eq_true_2 by reflexivity.
        pose proof (refs_to_nonneg a held). lia. }
      rewrite Hioc.
      set (w1 := match aic o with
                 | Some c => if has_exit c then log_hook w (ExitCall a) else w
                 | None => w
                 end).
      assert (Hsame : iocs w1 = iocs w /\ current_io_context w1 = Some a).
      { subst w1. destruct (aic o) as [c|]; [destruct (has_exit c)|];
          cbn; auto. }
      destruct Hsame as [Hiocs1 Hcur1].
      destruct (put_counted w1 (Some a :: held) a)
        as (w' & Hput & Hcur' & _ & Hother & Hat & _).
      { intros x. rewrite Hiocs1. specialize (Hok x).
        now rewrite Hcur in Hok. }
      { rewrite refs_to_cons, bool_decide_eq_true_2 by reflexivity.
        pose proof (refs_to_nonneg a held). lia. }
      rewrite Hput. cbn. eexists. split; [reflexivity|].
      split; [reflexivity|].
      intros x. cbn [iocs set_current current_io_context].
      rewrite refs_to_cons, bool_decide_eq_false_2, Z.add_0_l by discriminate.
      destruct (decide (x = a)) as [->|Hne].
      * rewrite refs_to_cons, bool_decide_eq_true_2 in Hat by reflexivity.
        destruct (iocs w' a); [destruct Hat; split; lia | lia].
      * rewrite Hother, Hiocs1 by assumption. specialize (Hok x).
        rewrite Hcur, refs_to_cons, bool_decide_eq_false_2, Z.add_0_l in Hok
          by congruence. exact Hok.
    + exists w. split; [reflexivity|]. split; [exact Hcur | exact Hok].
Qed.

(** ** Exercising the reference counts *)

Lemma new_task_refs_ok : refs_ok MoreSamples.new_task [].
Proof. intros a. reflexivity. Defined.

Lemma io_context_counts_follow_pointers_witness :
  refs_ok MoreSamples.new_task []
  /\ exists ret w',
       get_io_context 100 (Some 5%nat) MoreSamples.new_task = Ok (ret, w')
       /\ refs_ok w' [ret]
       /\ ret = Some 5%nat.
Proof.
  split; [exact new_task_refs_ok|].
  destruct (io_context_counts_follow_pointers MoreSamples.new_task []
              new_task_refs_ok) as (Hget & _).
  destruct (Hget 100 (Some 5%nat)) as (ret & w' & Hrun & Hok & _ & _ & _
                                       & Hnew & _).
  - intros a _. reflexivity.
  - exists ret, w'. split; [exact Hrun|]. split; [exact Hok|].
    apply Hnew. reflexivity.
Defined.

End IoContextProofs.

Module CompletionProofs.
Import Kernel LlRwBlk Buffer BitFacts Segments Completion SegmentsProofs.

Lemma vec_bytes_nonneg vecs :
  Forall (fun v => 0 <= bv_len v) vecs -> 0 <= vec_bytes vecs.
Proof. induction 1; cbn; lia. Qed.

Lemma vec_bytes_take_drop j vecs :
  vec_bytes vecs = vec_bytes (take j vecs) + vec_bytes (drop j vecs).
Proof. rewrite <- vec_bytes_app, take_drop. reflexivity. Qed.

Lemma vec_bytes_lookup vecs i v :
  vecs !! i = Some v ->
  vec_bytes (drop i vecs) = bv_len v + vec_bytes (drop (S i) vecs).
Proof.
  intros Hi. rewrite (drop_S _ _ _ Hi). reflexivity.
Qed.

Lemma vec_bytes_pos_lookup vecs i :
  Forall (fun v => 0 <= bv_len v) vecs ->
  0 < vec_bytes (drop i vecs) -> exists v, vecs !! i = Some v.
Proof.
  intros Hnn Hpos. destruct (vecs !! i) as [v|] eqn:Hi; [eauto|].
  apply lookup_ge_None in Hi. rewrite drop_ge in Hpos by assumption.
  cbn in Hpos. lia.
Qed.

Lemma chain_size_app l1 l2 :
  chain_size (l1 ++ l2) = chain_size l1 + chain_size l2.
Proof. induction l1 as [|b l1 IH]; cbn; lia. Qed.

Lemma chain_size_nonneg chain :
  Forall bio_consistent chain -> 0 <= chain_size chain.
Proof. induction 1 as [|b chain (Hpos & _) _ IH]; cbn; lia. Qed.

Lemma chain_size_pos chain :
  Forall bio_consistent chain -> chain <> [] -> 0 < chain_size chain.
Proof.
  intros Hall Hne. destruct Hall as [|b chain (Hpos & _) Hrest];
    [congruence|].
  pose proof (chain_size_nonneg chain Hrest). cbn. lia.
Qed.

Lemma set_bi_io_vec_same b : set_bi_io_vec (bi_io_vec b) b = b.
Proof. now destruct b. Qed.

Lemma vec_bytes_insert vecs : forall i v v',
  vecs !! i = Some v ->
  vec_bytes (<[i := v']> vecs) = vec_bytes vecs - bv_len v + bv_len v'.
Proof.
  induction vecs as [|x vecs IH]; intros i v v' Hi; [discriminate|].
  destruct i as [|i]; cbn in Hi.
  - injection Hi as ->.
    change (<[0%nat := v']> (v :: vecs)) with (v' :: vecs). cbn. lia.
  - change (<[S i := v']> (x :: vecs)) with (x :: <[i := v']> vecs).
    cbn. rewrite (IH i v v' Hi). lia.
Qed.

(** The walk over the vector of the bio that is ended in part: [c] bytes
    of it in [j] whole entries have been counted, [n] are still to be
    ended, and the bio has more than that left. *)
Lemma walk_head error b rest : forall fuel j c n t e,
  Forall (fun v => 0 <= bv_len v) (bi_io_vec b) ->
  bi_size (cb b) = bio_bytes b ->
  c = vec_bytes (take j (drop (bi_idx b) (bi_io_vec b))) ->
  0 <= n -> n + c < bi_size (cb b) ->
  (length (bi_io_vec b) - (bi_idx b + j) < fuel)%nat ->
  exists st' vec',
    end_first_loop fuel error (EndLoop (b :: rest) n t c j e) = Some (Ok st')
    /\ l_bios st' = set_bi_io_vec vec' b :: rest
    /\ l_total_bytes st' = t + n
    /\ l_bio_nbytes st' = c + n
    /\ l_ended st' = e
    /\ length vec' = length (bi_io_vec b)
    /\ Forall (fun v => 0 <= bv_len v) vec'
    /\ vec_bytes (drop (bi_idx b + l_next_idx st') vec')
       = bi_size (cb b) - (c + n)
    /\ (c + n = 0 -> vec_bytes (drop (bi_idx b) vec') = bi_size (cb b)).
Proof.
  induction fuel as [|fuel IH]; intros j c n t e Hnn Hsize Hc Hn Hlt Hfuel;
    [lia|].
  set (vec := bi_io_vec b) in *. set (idx := bi_idx b) in *.
  assert (Hcnn : 0 <= c).
  { subst c. apply vec_bytes_nonneg, Forall_take, Forall_drop, Hnn. }
  assert (Hsplit : bi_size (cb b) = c + vec_bytes (drop (idx + j) vec)).
  { rewrite Hsize. unfold bio_bytes. fold vec idx.
    rewrite (vec_bytes_take_drop j (drop idx vec)), drop_drop, <- Hc.
    reflexivity. }
  destruct (vec_bytes_pos_lookup vec (idx + j) Hnn) as [v Hv]; [lia|].
  pose proof (vec_bytes_lookup vec (idx + j) v Hv) as Hrest.
  assert (Hvnn : 0 <= bv_len v).
  { eapply (proj1 (Forall_lookup _ _) Hnn). exact Hv. }
  assert (Hrestnn : 0 <= vec_bytes (drop (S (idx + j)) vec))
    by (apply vec_bytes_nonneg, Forall_drop, Hnn).
  pose proof (lookup_lt_Some _ _ _ Hv) as Hidx.
  cbn [end_first_loop]. unfold end_first_step.
  cbn [l_bios l_nr_bytes l_total_bytes l_bio_nbytes l_next_idx l_ended].
  destruct (Z.geb_spec n (bi_size (cb b))); [lia|].
  fold vec idx.
  destruct (Nat.leb_spec (length vec) idx); [lia|].
  unfold bio_iovec_idx. fold vec. rewrite Hv.
  destruct (Z.gtb_spec (bv_len v) (bi_size (cb b))); [lia|].
  destruct (Z.gtb_spec (bv_len v) n) as [Hpart|Hwhole].
  - (* the entry is ended in part *)
    set (v' := BioVec (bv_page v) (bv_len v - n) (bv_offset v + n)).
    eexists _, (<[(idx + j)%nat := v']> vec).
    split; [reflexivity|].
    cbn [l_bios l_nr_bytes l_total_bytes l_bio_nbytes l_next_idx l_ended].
    split_and!; try reflexivity.
    + apply length_insert.
    + apply Forall_insert; [assumption | cbn; lia].
    + rewrite drop_insert_ge by lia.
      replace (idx + j - (idx + j))%nat with 0%nat by lia.
      rewrite (vec_bytes_insert _ 0 v v')
        by (rewrite lookup_drop, Nat.add_0_r; exact Hv).
      subst v'. cbn [bv_len]. lia.
    + intros Hzero. rewrite drop_insert_ge by lia.
      replace (idx + j - idx)%nat with j by lia.
      rewrite (vec_bytes_insert _ j v v')
        by (rewrite lookup_drop; exact Hv).
      change (vec_bytes (drop idx vec)) with (bio_bytes b).
      subst v'. cbn [bv_len]. lia.
  - (* the entry is ended whole *)
    assert (Hc' : c + bv_len v
                  = vec_bytes (take (S j) (drop idx vec))).
    { rewrite (take_S_r _ _ v), vec_bytes_app, <- Hc
        by (rewrite lookup_drop; exact Hv).
      cbn. lia. }
    unfold goes_on. cbn [l_bios l_nr_bytes].
    destruct (Z.leb_spec (n - bv_len v) 0) as [Hdone|Hmore]; cbn [negb].
    + eexists _, vec. split; [reflexivity|].
      pose proof (set_bi_io_vec_same b) as Hsame. fold vec in Hsame.
      cbn [l_bios l_nr_bytes l_total_bytes l_bio_nbytes l_next_idx l_ended].
      replace (idx + S j)%nat with (S (idx + j)) by lia.
      split_and!; try reflexivity; try assumption; try lia.
      * now rewrite Hsame.
      * intros _. change (vec_bytes (drop idx vec)) with (bio_bytes b). lia.
    + destruct (IH (S j) (c + bv_len v) (n - bv_len v) (t + bv_len v) e)
        as (st' & vec' & Hrun & Hbios & Htotal & Hcount & Hended & Hlen
            & Hnn' & Hbytes & Hall);
        try assumption; try lia.
      exists st', vec'. split; [exact Hrun|].
      split_and!; try assumption; try lia.
Qed.

(** The loop on a chain of bios that each have data left: either the
    bytes to end cover the chain, and every bio is ended whole, or the
    bios before the [k]-th are ended whole and the [k]-th is walked. *)
Lemma end_loop_spec error : forall chain fuel n t e,
  Forall bio_consistent chain -> 0 <= n ->
  (length chain + length (concat (bi_io_vec <$> chain)) < fuel)%nat ->
  exists st',
    end_first_loop fuel error (EndLoop chain n t 0 0 e) = Some (Ok st')
    /\ (chain_size chain <= n ->
        l_bios st' = []
        /\ l_ended st' = e ++ (ended_whole error <$> chain)
        /\ l_total_bytes st' = t + chain_size chain)
    /\ (n < chain_size chain ->
        exists k b vec',
          chain !! k = Some b
          /\ chain_size (take k chain) <= n < chain_size (take (S k) chain)
          /\ l_bios st' = set_bi_io_vec vec' b :: drop (S k) chain
          /\ l_ended st' = e ++ (ended_whole error <$> take k chain)
          /\ l_total_bytes st' = t + n
          /\ l_bio_nbytes st' = n - chain_size (take k chain)
          /\ length vec' = length (bi_io_vec b)
          /\ Forall (fun v => 0 <= bv_len v) vec'
          /\ vec_bytes (drop (bi_idx b + l_next_idx st') vec')
             = bi_size (cb b) - l_bio_nbytes st'
          /\ (l_bio_nbytes st' = 0 ->
              vec_bytes (drop (bi_idx b) vec') = bi_size (cb b))).
Proof.
  induction chain as [|b rest IH]; intros fuel n t e Hall Hn Hfuel.
  - destruct fuel as [|fuel]; [lia|]. eexists. split; [reflexivity|].
    cbn. split; [|lia]. intros _. now rewrite app_nil_r, Z.add_0_r.
  - destruct fuel as [|fuel]; [cbn in Hfuel; lia|].
    apply Forall_cons in Hall as [Hb Hrest].
    pose proof Hb as (Hpos & Hsize & Hnn).
    pose proof (chain_size_nonneg rest Hrest) as Hrest0.
    cbn [length fmap list_fmap concat] in Hfuel.
    rewrite length_app in Hfuel.
    destruct (Z.ltb_spec n (bi_size (cb b))) as [Hlt|Hge].
    + (* the head is ended in part *)
      destruct (walk_head error b rest (S fuel) 0 0 n t e)
        as (st' & vec' & Hrun & Hbios & Htotal & Hcount & Hended & Hlen
            & Hnn' & Hbytes & Hzero);
        try assumption; try reflexivity; try lia.
      exists st'. split; [exact Hrun|]. split; [cbn; lia|].
      intros _. exists 0%nat, b, vec'. cbn [take drop chain_size lookup].
      rewrite Hcount, Hended. cbn [fmap list_fmap]. rewrite app_nil_r.
      change (take 0 rest) with (@nil cbio). cbn [chain_size].
      split_and!; auto; try lia; try (rewrite Hbytes; lia).
    + (* the head is ended whole *)
      cbn [end_first_loop]. unfold end_first_step.
      cbn [l_bios l_nr_bytes l_total_bytes l_bio_nbytes l_next_idx l_ended].
      destruct (Z.geb_spec n (bi_size (cb b))); [|lia].
      unfold goes_on. cbn [l_bios l_nr_bytes].
      destruct rest as [|b2 rest2].
      * eexists. split; [reflexivity|]. cbn. split; [|lia].
        intros _. split_and!; auto. lia.
      * apply Forall_cons in Hrest as [Hb2 Hrest2].
        pose proof Hb2 as (Hpos2 & Hsize2 & Hnn2).
        pose proof (chain_size_nonneg rest2 Hrest2) as Hrest20.
        destruct (Z.leb_spec (n - bi_size (cb b)) 0) as [Hdone|Hmore];
          cbn [negb].
        -- eexists. split; [reflexivity|].
           cbn [l_bios l_nr_bytes l_total_bytes l_bio_nbytes l_next_idx
                l_ended chain_size].
           split; [lia|]. intros _.
           exists 1%nat, b2, (bi_io_vec b2).
           rewrite set_bi_io_vec_same, Nat.add_0_r.
           cbn [take drop chain_size lookup]. fold (bio_bytes b2).
           change (take 0 rest2) with (@nil cbio). cbn [chain_size].
           split_and!; auto; try lia.
        -- destruct (IH fuel (n - bi_size (cb b)) (t + bi_size (cb b))
                       (e ++ [(b, bi_size (cb b), error)]))
             as (st' & Hrun & Hdone' & Hpart');
             [constructor; assumption | lia
             | cbn [length fmap list_fmap concat] in *; lia |].
           exists st'. split; [exact Hrun|]. split.
           ++ intros Hcover. cbn [chain_size] in Hcover.
              destruct Hdone' as (Hbios & Hended & Htotal);
                [cbn [chain_size]; lia|].
              split; [assumption|]. rewrite Hended, Htotal.
              cbn [chain_size fmap list_fmap]. rewrite <- app_assoc.
              split; [reflexivity | lia].
           ++ intros Hshort. cbn [chain_size] in Hshort.
              destruct Hpart' as (k & bk & vec' & Hk & Hrange & Hbios
                                  & Hended & Htotal & Hcount & Hlen & Hnn'
                                  & Hbytes & Hzero);
                [cbn [chain_size]; lia|].
              exists (S k), bk, vec'.
              cbn [take drop chain_size lookup fmap list_fmap].
              rewrite Hended, <- app_assoc.
              split_and!; auto; try lia.
              change (take (S k) (b2 :: rest2)) with (b2 :: take k rest2)
                in Hrange.
              cbn [chain_size] in Hrange. lia.
Qed.

(** What [blk_recalc_rq_sectors] leaves. *)
Lemma blk_recalc_rq_sectors_spec rq nsect b rest v :
  bios rq = b :: rest -> bio_iovec b = Some v ->
  exists rq',
    blk_recalc_rq_sectors rq nsect = Ok rq'
    /\ bios rq' = bios rq /\ errors rq' = errors rq
    /\ flags (rq0 rq') = flags (rq0 rq)
    /\ (if blk_fs_request (rq0 rq)
        then hard_sector rq' = hard_sector rq + nsect
             /\ hard_nr_sectors (rq0 rq')
                = (hard_nr_sectors (rq0 rq) - nsect) mod 2 ^ BITS_PER_LONG
             /\ current_nr_sectors rq' <= nr_sectors (rq0 rq')
        else rq' = rq).
Proof.
  intros Hbios Hv. unfold blk_recalc_rq_sectors.
  destruct (blk_fs_request (rq0 rq)) eqn:Hfs; [|eauto 10].
  rewrite Hbios, Hv.
  set (hard_nr := (hard_nr_sectors (rq0 rq) - nsect) mod 2 ^ BITS_PER_LONG).
  destruct ((nr_sectors (rq0 rq) >=? hard_nr)
            && (sector (rq0 rq) <=? hard_sector rq + nsect));
    cbn [mbind outcome_bind rq0 set_sectors nr_sectors current_nr_sectors];
    match goal with
    | |- context [if ?a <? ?c then _ else _] => destruct (Z.ltb_spec a c)
    end;
    eexists; (split; [reflexivity|]); cbn; split_and!; auto; lia.
Qed.

(** Counting a chain anew keeps its bios apart from their counts. *)
Lemma recalc_chain_spec `{BvecOps} q (chain : list cbio) :
  exists phys hw counted,
    recalc_chain q
      ((fun b => (cb b, Some (drop (bi_idx b) (bi_io_vec b)))) <$> chain)
    = Ok (phys, hw, counted)
    /\ length counted = length chain.
Proof.
  induction chain as [|b rest (phys & hw & counted & Hrun & Hlen)].
  - exists 0, 0, []. split; reflexivity.
  - cbn [fmap list_fmap recalc_chain]. unfold recount_bio.
    destruct (recount_loop_spec q
                (test_bit QUEUE_FLAG_CLUSTER (queue_flags q))
                (drop (bi_idx b) (bi_io_vec b)) (RecountState None 0 0 0 true))
      as (st & Hloop & _); [intros [=]|].
    rewrite Hloop. cbn [mbind outcome_bind].
    change (list_fmap _ _ ?f rest) with (f <$> rest). rewrite Hrun.
    cbn [mbind outcome_bind].
    do 3 eexists. split; [reflexivity|]. cbn. now rewrite Hlen.
Qed.

Lemma chain_bytes_zip chain : forall counted,
  length counted = length chain ->
  chain_bytes (zip_with set_cb counted chain) = chain_bytes chain
  /\ bio_addr <$> zip_with set_cb counted chain = bio_addr <$> chain.
Proof.
  induction chain as [|b rest IH]; intros [|c counted] Hlen;
    try discriminate; [split; reflexivity|].
  cbn in Hlen. destruct (IH counted) as [Hbytes Haddr]; [lia|].
  cbn [zip_with chain_bytes fmap list_fmap]. split.
  - change (list_fmap _ _ ?f ?l) with (f <$> l) in *.
    rewrite Hbytes. reflexivity.
  - change (list_fmap _ _ ?f ?l) with (f <$> l) in *.
    rewrite Haddr. reflexivity.
Qed.

Lemma chain_bytes_consistent chain :
  Forall bio_consistent chain -> chain_bytes chain = chain_size chain.
Proof.
  induction 1 as [|b chain (_ & Hsize & _) _ IH]; [reflexivity|].
  cbn. lia.
Qed.

Lemma chain_size_take_drop k chain :
  chain_size chain = chain_size (take k chain) + chain_size (drop k chain).
Proof. rewrite <- chain_size_app, take_drop. reflexivity. Qed.

Section EndRequest.
Context `{BvecOps}.
Variable REQ_BLOCK_PC : Z.
Variable bio_endio : cbio -> Z -> Z -> cbio.

Lemma recalc_segments_spec q rq :
  bios rq <> [] ->
  exists rq',
    recalc_segments q rq = Ok rq'
    /\ errors rq' = errors rq /\ hard_sector rq' = hard_sector rq
    /\ current_nr_sectors rq' = current_nr_sectors rq
    /\ flags (rq0 rq') = flags (rq0 rq)
    /\ nr_sectors (rq0 rq') = nr_sectors (rq0 rq)
    /\ hard_nr_sectors (rq0 rq') = hard_nr_sectors (rq0 rq)
    /\ chain_bytes (bios rq') = chain_bytes (bios rq)
    /\ bio_addr <$> bios rq' = bio_addr <$> bios rq.
Proof.
  intros Hne. unfold recalc_segments, blk_recalc_rq_segments.
  destruct (bios rq) as [|b rest] eqn:Hbios; [congruence|].
  destruct (recalc_chain_spec q (b :: rest))
    as (phys & hw & counted & Hrun & Hlen).
  cbn [fmap list_fmap] in Hrun |- *. rewrite Hrun.
  cbn [mbind outcome_bind].
  eexists. split; [reflexivity|].
  cbn [errors hard_sector current_nr_sectors rq0 flags nr_sectors
       hard_nr_sectors bios bio_chain].
  destruct (chain_bytes_zip (b :: rest) counted Hlen) as [Hbytes Haddr].
  split_and!; auto.
Qed.

(** Ending [nr_bytes] of a request whose bios each have data left, all
    of it described by their vectors.  The function returns, on the fuel
    of one pass per bio and vector entry, without [BUG] and without
    reading outside a vector, and every [bio_endio] carries 0 when
    [uptodate] is set and [-EIO] when not.  If [nr_bytes] covers the chain
    it returns 0 with every bio ended whole, in order, and the chain
    empty.  Otherwise it returns 1: the bios before the [k]-th, those
    that fit into [nr_bytes], are ended whole and unlinked; the [k]-th is
    ended for the rest if there is any; the chain goes on from the [k]-th
    bio and its vectors describe exactly the bytes not yet ended; and a
    filesystem request has its [hard_sector] moved on and its
    [hard_nr_sectors] cut by the sectors ended, with [nr_sectors] at
    least [current_nr_sectors]. *)
Theorem end_request_first_accounts_bytes (q : request_queue) (req : creq)
    (uptodate : bool) (nr_bytes : Z) :
  (forall b n e,
     bi_idx (bio_endio b n e) = bi_idx b
     /\ bi_io_vec (bio_endio b n e) = bi_io_vec b
     /\ bio_addr (bio_endio b n e) = bio_addr b) ->
  Forall bio_consistent (bios req) ->
  0 <= nr_bytes ->
  let error := if uptodate then 0 else - EIO in
  let total := chain_size (bios req) in
  exists ret req' ended,
    __end_that_request_first REQ_BLOCK_PC bio_endio (end_fuel (bios req)) q
      req uptodate nr_bytes
    = Some (Ok (ret, req', ended))
    /\ errors req'
       = (if blk_pc_request REQ_BLOCK_PC req then errors req else 0)
    /\ Forall (fun call : cbio * Z * Z => call.2 = error) ended
    /\ (total <= nr_bytes ->
        ret = 0 /\ bios req' = []
        /\ ended = (ended_whole error <$> bios req)
        /\ rq0 req' = rq0 req /\ hard_sector req' = hard_sector req)
    /\ (nr_bytes < total ->
        ret = 1
        /\ exists k b,
             bios req !! k = Some b
             /\ chain_size (take k (bios req)) <= nr_bytes
                < chain_size (take (S k) (bios req))
             /\ take k ended = (ended_whole error <$> take k (bios req))
             /\ (let part := nr_bytes - chain_size (take k (bios req)) in
                 if part =? 0 then drop k ended = []
                 else exists b', drop k ended = [(b', part, error)]
                                 /\ bio_addr b' = bio_addr b)
             /\ bio_addr <$> bios req' = bio_addr <$> drop k (bios req)
             /\ chain_bytes (bios req') = total - nr_bytes
             /\ (if blk_fs_request (rq0 req)
                 then hard_sector req' = hard_sector req + Z.shiftr nr_bytes 9
                      /\ hard_nr_sectors (rq0 req')
                         = (hard_nr_sectors (rq0 req) - Z.shiftr nr_bytes 9)
                           mod 2 ^ BITS_PER_LONG
                      /\ current_nr_sectors req' <= nr_sectors (rq0 req')
                 else hard_sector req' = hard_sector req
                      /\ hard_nr_sectors (rq0 req')
                         = hard_nr_sectors (rq0 req)
                      /\ nr_sectors (rq0 req') = nr_sectors (rq0 req))).
Proof.
  intros Hendio Hall Hn error total.
  unfold __end_that_request_first.
  set (req1 := if negb (blk_pc_request REQ_BLOCK_PC req)
               then set_errors 0 req else req).
  assert (Hreq1 : bios req1 = bios req /\ rq0 req1 = rq0 req
                  /\ hard_sector req1 = hard_sector req
                  /\ errors req1
                     = (if blk_pc_request REQ_BLOCK_PC req then errors req
                        else 0)).
  { subst req1. destruct (blk_pc_request REQ_BLOCK_PC req); cbn; auto. }
  destruct Hreq1 as (Hbios1 & Hrq1 & Hhs1 & Herr1).
  rewrite Hbios1. fold error.
  destruct (end_loop_spec error (bios req) (end_fuel (bios req)) nr_bytes 0 [])
    as (st & Hloop & Hcover & Hpart);
    [assumption | assumption | unfold end_fuel; lia |].
  rewrite Hloop.
  destruct (Z.leb_spec total nr_bytes) as [Hle|Hlt].
  - (* everything is ended *)
    destruct (Hcover Hle) as (Hnil & Hended & _).
    rewrite Hnil. do 3 eexists. split; [reflexivity|].
    cbn [errors set_bios bios rq0 hard_sector]. rewrite Hended.
    cbn [app]. split; [assumption|]. split.
    { apply Forall_fmap, Forall_forall. intros b _. reflexivity. }
    split; [|lia]. intros _. split_and!; auto.
  - (* the request goes on *)
    destruct (Hpart Hlt) as (k & b & vec' & Hk & Hrange & Hchain & Hended
                             & Htotal & Hcount & Hlen & Hnn & Hbytes & Hzero).
    rewrite Hchain. cbn [app] in Hended. rewrite Z.add_0_l in Htotal.
    set (part := nr_bytes - chain_size (take k (bios req))) in *.
    set (head := set_bi_io_vec vec' b) in *.
    set (done := ended_whole error <$> take k (bios req)) in *.
    assert (Hdone_len : length done = k).
    { subst done. rewrite length_fmap, length_take.
      pose proof (lookup_lt_Some _ _ _ Hk). lia. }
    pose proof (proj1 (Forall_lookup _ _) Hall k b Hk)
      as (Hbpos & Hbsize & Hbnn).
    assert (Htake : chain_size (take (S k) (bios req))
                    = chain_size (take k (bios req)) + bi_size (cb b)).
    { rewrite (take_S_r _ _ _ Hk), chain_size_app. cbn. lia. }
    (* the bio the chain goes on from *)
    set (head' := if negb (l_bio_nbytes st =? 0)
                  then set_bi_idx
                         (bi_idx (bio_endio head (l_bio_nbytes st) error)
                          + l_next_idx st)
                         (bio_endio head (l_bio_nbytes st) error)
                  else head).
    set (ended' := if negb (l_bio_nbytes st =? 0)
                   then l_ended st ++ [(head, l_bio_nbytes st, error)]
                   else l_ended st).
    replace (if negb (l_bio_nbytes st =? 0)
             then (set_bi_idx
                     (bi_idx (bio_endio head (l_bio_nbytes st) error)
                      + l_next_idx st)
                     (bio_endio head (l_bio_nbytes st) error)
                   :: drop (S k) (bios req),
                   l_ended st ++ [(head, l_bio_nbytes st, error)])
             else (head :: drop (S k) (bios req), l_ended st))
      with (head' :: drop (S k) (bios req), ended')
      by (subst head' ended'; destruct (negb (l_bio_nbytes st =? 0));
          reflexivity).
    assert (Hhead : bio_addr head' = bio_addr b
                    /\ bio_bytes head' = bi_size (cb b) - part).
    { subst head'. rewrite Hcount.
      destruct (Z.eqb_spec part 0) as [Hp|Hp]; cbn [negb].
      - split; [reflexivity|]. unfold bio_bytes. subst head.
        cbn [bi_idx bi_io_vec set_bi_io_vec]. rewrite Hzero; lia.
      - destruct (Hendio head part error) as (Hidx & Hvec & Haddr).
        split; [cbn; rewrite Haddr; reflexivity|].
        unfold bio_bytes. cbn [bi_idx bi_io_vec set_bi_idx].
        rewrite Hidx, Hvec. subst head.
        cbn [bi_idx bi_io_vec set_bi_io_vec]. rewrite Hbytes. lia. }
    destruct Hhead as [Hhaddr Hhbytes].
    assert (Hiovec : exists v, bio_iovec head' = Some v).
    { unfold bio_iovec, bio_iovec_idx.
      apply vec_bytes_pos_lookup.
      - subst head'. destruct (negb (l_bio_nbytes st =? 0));
          cbn [bi_io_vec set_bi_idx];
          [rewrite (proj1 (proj2 (Hendio head (l_bio_nbytes st) error)))|];
          exact Hnn.
      - fold (bio_bytes head'). lia. }
    destruct Hiovec as [v Hv].
    destruct (blk_recalc_rq_sectors_spec
                (set_bios (head' :: drop (S k) (bios req)) req1)
                (Z.shiftr (l_total_bytes st) 9) head'
                (drop (S k) (bios req)) v eq_refl Hv)
      as (req2 & Hsect & Hbios2 & Herr2 & Hflags2 & Hfs2).
    rewrite Hsect. cbn [mbind outcome_bind].
    destruct (recalc_segments_spec q req2)
      as (req3 & Hseg & Herr3 & Hhs3 & Hcur3 & Hflags3 & Hnr3 & Hhnr3
          & Hbytes3 & Haddr3);
      [rewrite Hbios2; discriminate|].
    rewrite Hseg. cbn [mbind outcome_bind].
    do 3 eexists. split; [reflexivity|].
    split; [rewrite Herr3, Herr2; exact Herr1|].
    split.
    { subst ended'. rewrite Hended.
      destruct (negb (l_bio_nbytes st =? 0));
        [apply Forall_app; split|];
        try (apply Forall_fmap, Forall_forall; intros x _; reflexivity).
      repeat constructor. }
    split; [lia|]. intros _. split; [reflexivity|].
    exists k, b. split; [exact Hk|]. split; [lia|].
    split.
    { subst ended'. rewrite Hended.
      destruct (negb (l_bio_nbytes st =? 0));
        [rewrite take_app_length' by lia
        |rewrite take_ge by lia]; reflexivity. }
    split.
    { cbn zeta. fold part. subst ended'. rewrite Hended, Hcount.
      destruct (Z.eqb_spec part 0); cbn [negb].
      - rewrite drop_ge by lia. reflexivity.
      - rewrite drop_app_length' by lia.
        exists head. split; [reflexivity|]. reflexivity. }
    split.
    { rewrite Haddr3, Hbios2. cbn [bios set_bios fmap list_fmap].
      rewrite (drop_S _ _ _ Hk). cbn [fmap list_fmap].
      now rewrite Hhaddr. }
    split.
    { rewrite Hbytes3, Hbios2. cbn [bios set_bios chain_bytes].
      rewrite Hhbytes.
      rewrite (chain_bytes_consistent (drop (S k) (bios req)))
        by (apply Forall_drop; assumption).
      subst total.
      rewrite (chain_size_take_drop (S k) (bios req)), Htake.
      subst part. lia. }
    cbn [rq0 set_bios hard_sector] in Hfs2.
    rewrite Hrq1, Hhs1, Htotal in Hfs2.
    destruct (blk_fs_request (rq0 req)).
    + destruct Hfs2 as (Hhs2 & Hhnr2 & Hcur2).
      rewrite Hhs3, Hhnr3, Hcur3, Hnr3. auto.
    + subst req2. rewrite Hhs3, Hhnr3, Hnr3.
      cbn [rq0 set_bios hard_sector]. rewrite Hrq1, Hhs1. auto.
Qed.

End EndRequest.

(** ** Exercising a partial completion *)

Lemma end_request_first_accounts_bytes_witness :
  Forall bio_consistent (bios MoreSamples.two_page_request)
  /\ 0 <= 4608
  /\ exists req' ended,
       @__end_that_request_first MoreSamples.page_ops 1024
         MoreSamples.advance_bio (end_fuel (bios MoreSamples.two_page_request))
         Samples.tight_queue MoreSamples.two_page_request true 4608
       = Some (Ok (1, req', ended))
       /\ chain_bytes (bios req') = 8192 - 4608
       /\ hard_sector req' = 9.
Proof.
  assert (Hall : Forall bio_consistent (bios MoreSamples.two_page_request)).
  { repeat constructor; cbn; lia. }
  assert (Hn : 0 <= 4608) by lia.
  split; [exact Hall|]. split; [exact Hn|].
  destruct (@end_request_first_accounts_bytes MoreSamples.page_ops 1024
              MoreSamples.advance_bio Samples.tight_queue
              MoreSamples.two_page_request true 4608)
    as (ret & req' & ended & Hrun & _ & _ & _ & Hpart);
    [intros b n e; split_and!; reflexivity | exact Hall | exact Hn |].
  destruct Hpart as (-> & k & b & _ & _ & _ & _ & _ & Hbytes & Hfs);
    [vm_compute; reflexivity|].
  exists req', ended. split; [exact Hrun|]. split; [exact Hbytes|].
  change (blk_fs_request (rq0 MoreSamples.two_page_request)) with true in Hfs.
  destruct Hfs as (Hhs & _). rewrite Hhs. reflexivity.
Defined.

End CompletionProofs.

Module AsyncIoProofs.
Import Kernel Buffer BitFacts AsyncIo BufferProofs.

Ltac async_bits :=
  unfold read_completed, write_completed, buffer_async_read,
    buffer_async_write, clear_buffer_async_read, clear_buffer_async_write
    in *;
  bh_bits.

Lemma read_completed_bits bh ok :
  buffer_async_read (read_completed bh ok) = false
  /\ buffer_locked (read_completed bh ok) = false
  /\ buffer_uptodate (read_completed bh ok) = ok
  /\ buffer_dirty (read_completed bh ok) = buffer_dirty bh
  /\ buffer_mapped (read_completed bh ok) = buffer_mapped bh
  /\ b_count (read_completed bh ok) = b_count bh.
Proof. destruct ok; async_bits; repeat split. Qed.

Lemma write_completed_bits bh ok :
  buffer_async_write (write_completed bh ok) = false
  /\ buffer_locked (write_completed bh ok) = false
  /\ buffer_uptodate (write_completed bh ok) = ok
  /\ buffer_dirty (write_completed bh ok) = buffer_dirty bh
  /\ buffer_mapped (write_completed bh ok) = buffer_mapped bh
  /\ b_count (write_completed bh ok) = b_count bh.
Proof. destruct ok; async_bits; repeat split. Qed.

Lemma forallb_app {A} (f : A -> bool) l1 l2 :
  forallb f (l1 ++ l2) = forallb f l1 && forallb f l2.
Proof. induction l1 as [|x l1 IH]; cbn; [|rewrite IH, andb_assoc]; auto. Qed.

Lemma forallb_rotate {A} (f : A -> bool) i l :
  forallb f (drop i l ++ take i l) = forallb f l.
Proof.
  rewrite forallb_app, andb_comm, <- forallb_app, take_drop. reflexivity.
Qed.

(** *** The walks over the ring *)

Lemma async_read_walk_busy l : forall pu,
  (exists bh, bh ∈ l /\ buffer_async_read bh = true) ->
  (forall bh, bh ∈ l -> buffer_async_read bh = true ->
              buffer_locked bh = true) ->
  async_read_walk l pu = Ok None.
Proof.
  induction l as [|tmp rest IH]; intros pu (bh & Hin & Ha) Hlocked.
  - now apply elem_of_nil in Hin.
  - cbn [async_read_walk].
    destruct (buffer_async_read tmp) eqn:Htmp.
    + rewrite (Hlocked tmp) by (auto; now left). reflexivity.
    + apply IH.
      * apply elem_of_cons in Hin as [->|Hin]; [congruence | eauto].
      * intros x Hx. apply Hlocked. now right.
Qed.

Lemma async_read_walk_idle l : forall pu,
  (forall bh, bh ∈ l -> buffer_async_read bh = false) ->
  async_read_walk l pu = Ok (Some (pu && forallb buffer_uptodate l)).
Proof.
  induction l as [|tmp rest IH]; intros pu Hidle.
  - cbn. now rewrite andb_true_r.
  - cbn [async_read_walk forallb].
    rewrite (Hidle tmp) by now left.
    rewrite IH by (intros x Hx; apply Hidle; now right).
    destruct (buffer_uptodate tmp), pu; reflexivity.
Qed.

Lemma async_write_walk_busy l :
  (exists bh, bh ∈ l /\ buffer_async_write bh = true) ->
  (forall bh, bh ∈ l -> buffer_async_write bh = true ->
              buffer_locked bh = true) ->
  async_write_walk l = Ok true.
Proof.
  induction l as [|tmp rest IH]; intros (bh & Hin & Ha) Hlocked.
  - now apply elem_of_nil in Hin.
  - cbn [async_write_walk].
    destruct (buffer_async_write tmp) eqn:Htmp.
    + rewrite (Hlocked tmp) by (auto; now left). reflexivity.
    + apply IH.
      * apply elem_of_cons in Hin as [->|Hin]; [congruence | eauto].
      * intros x Hx. apply Hlocked. now right.
Qed.

Lemma async_write_walk_idle l :
  (forall bh, bh ∈ l -> buffer_async_write bh = false) ->
  async_write_walk l = Ok false.
Proof.
  induction l as [|tmp rest IH]; intros Hidle; [reflexivity|].
  cbn [async_write_walk]. rewrite (Hidle tmp) by now left.
  apply IH. intros x Hx. apply Hidle. now right.
Qed.

Lemma elem_of_rotate {A} (x : A) i l :
  x ∈ drop i l ++ take i l <-> x ∈ l.
Proof.
  rewrite elem_of_app. rewrite <- (take_drop i l) at 3.
  rewrite elem_of_app. tauto.
Qed.

(** *** One read completing *)

Lemma read_step pg i others ok bh :
  NoDup (i :: others) ->
  reads_in_flight pg (i :: others) ->
  ring pg !! i = Some bh ->
  (others = [] -> PageLocked pg = true) ->
  exists pg',
    end_buffer_async_read pg i ok = Ok pg'
    /\ ring pg' = <[i := read_completed bh ok]> (ring pg)
    /\ reads_in_flight pg' others
    /\ PageError pg' = PageError pg || negb ok
    /\ PageWriteback pg' = PageWriteback pg
    /\ PageReclaim pg' = PageReclaim pg
    /\ mapping_flags pg' = mapping_flags pg
    /\ (if bool_decide (others = [])
        then PageLocked pg' = false
             /\ PageUptodate pg'
                = PageUptodate pg
                  || (forallb buffer_uptodate (ring pg')
                      && negb (PageError pg'))
        else PageLocked pg' = PageLocked pg
             /\ PageUptodate pg' = PageUptodate pg).
Proof.
  intros Hnd (Hplaces & Hflight) Hi Hlast.
  apply NoDup_cons in Hnd as [Hnotin Hnd].
  pose proof (lookup_lt_Some _ _ _ Hi) as Hlt.
  destruct (Hflight i bh Hi) as [Hasync _].
  assert (Ha : buffer_async_read bh = true) by (apply Hasync; now left).
  set (ring' := <[i := read_completed bh ok]> (ring pg)).
  assert (Hflight' : forall j bhj, ring' !! j = Some bhj ->
            (buffer_async_read bhj = true <-> j ∈ others)
            /\ (buffer_async_read bhj = true -> buffer_locked bhj = true)).
  { intros j bhj Hj. subst ring'.
    destruct (decide (j = i)) as [->|Hne].
    - rewrite list_lookup_insert_eq in Hj by assumption.
      injection Hj as <-.
      destruct (read_completed_bits bh ok) as (Hra & _).
      rewrite Hra. split; [|discriminate]. split; [discriminate|].
      intros Hin. contradiction.
    - rewrite list_lookup_insert_ne in Hj by congruence.
      destruct (Hflight j bhj Hj) as [Hiff Hlock]. split; [|assumption].
      rewrite Hiff, elem_of_cons. split; [intros [?|?]; congruence | auto]. }
  assert (Hplaces' : forall j, j ∈ others -> is_Some (ring' !! j)).
  { intros j Hj. subst ring'. apply lookup_lt_is_Some.
    rewrite length_insert. apply lookup_lt_is_Some, Hplaces. now right. }
  unfold end_buffer_async_read. rewrite Hi, Ha. cbn [negb].
  set (pg1 := if ok then pg else SetPageError pg).
  assert (Hpg1 : ring pg1 = ring pg /\ PageLocked pg1 = PageLocked pg
                 /\ PageUptodate pg1 = PageUptodate pg
                 /\ PageError pg1 = PageError pg || negb ok
                 /\ PageWriteback pg1 = PageWriteback pg
                 /\ PageReclaim pg1 = PageReclaim pg
                 /\ mapping_flags pg1 = mapping_flags pg).
  { subst pg1. destruct ok; cbn; rewrite ?orb_false_r, ?orb_true_r; repeat split. }
  destruct Hpg1 as (Hr1 & Hl1 & Hu1 & He1 & Hw1 & Hrc1 & Hm1).
  replace (let '(bh0, pg0) :=
             if ok then (set_buffer_uptodate bh, pg)
             else (clear_buffer_uptodate bh, SetPageError pg) in
           let bh1 := unlock_buffer (clear_buffer_async_read bh0) in
           let pg2 := set_ring (<[i:=bh1]> (ring pg0)) pg0 in
           busy ← async_read_walk (drop i (ring pg2) ++ take i (ring pg2))
                    true;
           match busy with
           | Some page_uptodate =>
               let pg3 := if page_uptodate && negb (PageError pg2)
                          then SetPageUptodate pg2 else pg2 in
               unlock_page pg3
           | None => Ok pg2
           end)
    with (busy ← async_read_walk (drop i ring' ++ take i ring') true;
          match busy with
          | Some page_uptodate =>
              let pg3 := if page_uptodate
                            && negb (PageError (set_ring ring' pg1))
                         then SetPageUptodate (set_ring ring' pg1)
                         else set_ring ring' pg1 in
              unlock_page pg3
          | None => Ok (set_ring ring' pg1)
          end)
    by (subst pg1 ring'; unfold read_completed; destruct ok; reflexivity).
  destruct others as [|j others'].
  - (* the last read of the page *)
    rewrite async_read_walk_idle.
    2:{ intros x Hx. apply elem_of_rotate in Hx.
        apply list_elem_of_lookup in Hx as [j Hj].
        destruct (Hflight' j x Hj) as [Hiff _].
        destruct (buffer_async_read x); [|reflexivity].
        exfalso. eapply not_elem_of_nil. apply Hiff. reflexivity. }
    cbn [mbind outcome_bind andb]. rewrite forallb_rotate.
    cbn [PageError set_ring]. rewrite He1.
    unfold unlock_page.
    replace (PageLocked
               (if forallb buffer_uptodate ring' && negb (PageError pg || negb ok)
                then SetPageUptodate (set_ring ring' pg1)
                else set_ring ring' pg1))
      with true
      by (destruct (forallb buffer_uptodate ring'
                    && negb (PageError pg || negb ok)); cbn;
          rewrite Hl1; symmetry; apply Hlast; reflexivity).
    cbn [negb]. eexists. split; [reflexivity|].
    rewrite bool_decide_eq_true_2 by reflexivity.
    destruct (forallb buffer_uptodate ring'
              && negb (PageError pg || negb ok)) eqn:Hup;
      cbn; rewrite ?He1, ?Hup, ?Hu1, ?orb_true_r, ?orb_false_r;
      (split; [reflexivity|]); (split; [split; assumption|]);
      repeat split; auto.
  - (* other reads are in flight *)
    rewrite async_read_walk_busy.
    2:{ destruct (Hplaces' j) as [bhj Hj]; [now left|].
        exists bhj. split.
        - apply elem_of_rotate. eapply list_elem_of_lookup_2. exact Hj.
        - apply (Hflight' j bhj Hj). now left. }
    2:{ intros x Hx Hax. apply elem_of_rotate in Hx.
        apply list_elem_of_lookup in Hx as [k Hk].
        now apply (Hflight' k x Hk). }
    cbn [mbind outcome_bind]. eexists. split; [reflexivity|].
    rewrite bool_decide_eq_false_2 by discriminate.
    cbn. split; [reflexivity|]. split; [split; assumption|].
    repeat split; auto.
Qed.


Lemma complete_reads_cons pg i ok rest pg1 :
  end_buffer_async_read pg i ok = Ok pg1 ->
  complete_reads pg ((i, ok) :: rest) = complete_reads pg1 rest.
Proof. intros H. cbn [complete_reads]. now rewrite H. Qed.

(** *** The reads of a page completing one after the other *)

Lemma reads_run calls : forall pg,
  NoDup calls.*1 ->
  reads_in_flight pg calls.*1 ->
  PageLocked pg = true ->
  exists pg',
    complete_reads pg calls = Ok pg'
    /\ (forall i ok, (i, ok) ∈ calls ->
          exists bh, ring pg !! i = Some bh
                     /\ ring pg' !! i = Some (read_completed bh ok))
    /\ (forall i, i ∉ calls.*1 -> ring pg' !! i = ring pg !! i)
    /\ reads_in_flight pg' []
    /\ PageError pg' = PageError pg || existsb (fun c => negb c.2) calls
    /\ PageWriteback pg' = PageWriteback pg
    /\ PageReclaim pg' = PageReclaim pg
    /\ mapping_flags pg' = mapping_flags pg
    /\ (if bool_decide (calls = []) then pg' = pg
        else PageLocked pg' = false
             /\ PageUptodate pg'
                = PageUptodate pg
                  || (forallb buffer_uptodate (ring pg')
                      && negb (PageError pg')))
    /\ (forall n, (n < length calls)%nat ->
          exists pgn, complete_reads pg (take n calls) = Ok pgn
                      /\ PageLocked pgn = true
                      /\ PageUptodate pgn = PageUptodate pg).
Proof.
  induction calls as [|[i ok] rest IH]; intros pg Hnd Hflight Hlocked.
  - exists pg. cbn. rewrite orb_false_r.
    split; [reflexivity|].
    split; [intros i ok Hin; now apply elem_of_nil in Hin|].
    split; [reflexivity|].
    split; [exact Hflight|].
    split_and!; auto.
    intros n Hn. lia.
  - cbn [fmap list_fmap fst] in Hnd, Hflight.
    change (list_fmap _ _ fst rest) with (rest.*1) in *.
    destruct (proj1 Hflight i) as [bh Hi]; [now left|].
    destruct (read_step pg i (rest.*1) ok bh Hnd Hflight Hi
                (fun _ => Hlocked))
      as (pg1 & Hstep & Hring1 & Hflight1 & He1 & Hw1 & Hrc1 & Hm1 & Hlast).
    pose proof (NoDup_cons_1_1 _ _ Hnd) as Hnotin.
    pose proof (NoDup_cons_1_2 _ _ Hnd) as Hnd'.
    pose proof (lookup_lt_Some _ _ _ Hi) as Hlt.
    rewrite (complete_reads_cons _ _ _ _ _ Hstep).
    rewrite bool_decide_eq_false_2 by discriminate.
    destruct rest as [|c rest'].
    + (* this was the last read *)
      rewrite bool_decide_eq_true_2 in Hlast by reflexivity.
      destruct Hlast as [Hl1 Hu1].
      exists pg1. cbn [complete_reads existsb snd]. rewrite orb_false_r.
      split; [reflexivity|].
      split.
      { intros j okj Hin. apply list_elem_of_singleton in Hin.
        injection Hin as -> ->. exists bh. split; [assumption|].
        rewrite Hring1. now apply list_lookup_insert_eq. }
      split.
      { intros j Hj. rewrite Hring1. apply list_lookup_insert_ne.
        intros ->. apply Hj. now left. }
      split; [exact Hflight1|].
      split_and!; auto.
      intros n Hn. cbn in Hn. assert (n = 0)%nat as -> by lia.
      exists pg. cbn. auto.
    + (* other reads are still in flight *)
      rewrite bool_decide_eq_false_2 in Hlast by discriminate.
      destruct Hlast as [Hl1 Hu1].
      destruct (IH pg1 Hnd' Hflight1 ltac:(congruence))
        as (pg' & Hrun & Hdone & Hrest & Hflight' & He' & Hw' & Hrc' & Hm'
            & Hlast' & Hprefix).
      rewrite bool_decide_eq_false_2 in Hlast' by discriminate.
      destruct Hlast' as [Hl' Hu'].
      exists pg'. split; [assumption|].
      split.
      { intros j okj Hin. apply elem_of_cons in Hin as [Hin|Hin].
        - injection Hin as -> ->. exists bh. split; [assumption|].
          rewrite (Hrest i Hnotin), Hring1.
          now apply list_lookup_insert_eq.
        - destruct (Hdone j okj Hin) as (bhj & Hj1 & Hj').
          exists bhj. split; [|assumption].
          rewrite Hring1, list_lookup_insert_ne in Hj1; [assumption|].
          intros ->. apply Hnotin.
          apply (list_elem_of_fmap_2 fst) in Hin. exact Hin. }
      split.
      { intros j Hj. rewrite Hrest, Hring1.
        - apply list_lookup_insert_ne. intros ->. apply Hj. now left.
        - intros Hin. apply Hj. now right. }
      split; [assumption|].
      split.
      { rewrite He', He1. cbn [existsb snd]. now rewrite <- !orb_assoc. }
      split; [congruence|]. split; [congruence|]. split; [congruence|].
      split; [split; [assumption | now rewrite Hu', Hu1]|].
      intros [|n] Hn.
      * exists pg. cbn. auto.
      * cbn [take]. rewrite (complete_reads_cons _ _ _ _ _ Hstep).
        destruct (Hprefix n) as (pgn & Hn1 & Hn2 & Hn3);
          [cbn in Hn |- *; lia|].
        exists pgn. split; [assumption|]. split; [assumption|]. congruence.
Qed.

(** The reads that [block_read_full_page] started on the buffers of
    a locked page complete through [end_buffer_async_read], each once, in
    any order and with any outcome.  None of the completions is a BUG.
    While reads are outstanding the page stays locked and its uptodate
    flag is as it was; the last completion unlocks the page, and sets it
    uptodate exactly when every buffer of the ring is then uptodate and
    the page carries no error.  The page carries an error from the first
    failed read on.  A buffer whose read completed is unlocked, no
    longer under asynchronous read, and uptodate as its read went; the
    other buffers of the ring are as they were.  Completing any buffer
    of the page once more is a BUG. *)
Theorem last_read_completion_unlocks_page pg calls :
  NoDup calls.*1 ->
  reads_in_flight pg calls.*1 ->
  PageLocked pg = true ->
  calls <> [] ->
  exists pg',
    complete_reads pg calls = Ok pg'
    /\ PageLocked pg' = false
    /\ PageUptodate pg'
       = PageUptodate pg
         || (forallb buffer_uptodate (ring pg') && negb (PageError pg'))
    /\ PageError pg' = PageError pg || existsb (fun c => negb c.2) calls
    /\ (forall n, (n < length calls)%nat ->
          exists pgn, complete_reads pg (take n calls) = Ok pgn
                      /\ PageLocked pgn = true
                      /\ PageUptodate pgn = PageUptodate pg)
    /\ (forall i ok, (i, ok) ∈ calls ->
          exists bh bh',
            ring pg !! i = Some bh /\ ring pg' !! i = Some bh'
            /\ bh' = read_completed bh ok
            /\ buffer_locked bh' = false
            /\ buffer_async_read bh' = false
            /\ buffer_uptodate bh' = ok
            /\ buffer_dirty bh' = buffer_dirty bh
            /\ b_count bh' = b_count bh)
    /\ (forall i, i ∉ calls.*1 -> ring pg' !! i = ring pg !! i)
    /\ (forall i ok, is_Some (ring pg' !! i) ->
          end_buffer_async_read pg' i ok = Bug).
Proof.
  intros Hnd Hflight Hlocked Hne.
  destruct (reads_run calls pg Hnd Hflight Hlocked)
    as (pg' & Hrun & Hdone & Hrest & Hflight' & He' & _ & _ & _
        & Hlast & Hprefix).
  rewrite bool_decide_eq_false_2 in Hlast by assumption.
  destruct Hlast as [Hl' Hu'].
  exists pg'. repeat (split; [assumption|]).
  split.
  { intros i ok Hin. destruct (Hdone i ok Hin) as (bh & Hi & Hi').
    exists bh, (read_completed bh ok).
    destruct (read_completed_bits bh ok) as (? & ? & ? & ? & ? & ?).
    repeat split; assumption. }
  split; [assumption|].
  intros i ok [bh Hi]. unfold end_buffer_async_read. rewrite Hi.
  destruct (proj2 Hflight' i bh Hi) as [Hiff _].
  destruct (buffer_async_read bh); [|reflexivity].
  exfalso. eapply not_elem_of_nil. apply Hiff. reflexivity.
Qed.


(** *** One write completing *)

Lemma elem_of_others {A} (x : A) i l :
  x ∈ drop (S i) l ++ take i l <->
  exists j, j <> i /\ l !! j = Some x.
Proof.
  rewrite elem_of_app, elem_of_take. split.
  - intros [Hin|(j & Hj & Hlt)].
    + apply list_elem_of_lookup in Hin as [k Hk].
      rewrite lookup_drop in Hk. exists (S i + k)%nat. split; [lia|assumption].
    + exists j. split; [lia|assumption].
  - intros (j & Hne & Hj).
    destruct (decide (j < i)%nat) as [Hlt|Hge].
    + right. eauto.
    + left. apply list_elem_of_lookup. exists (j - S i)%nat.
      rewrite lookup_drop. now replace (S i + (j - S i))%nat with j by lia.
Qed.

Lemma set_bit_twice nr w : set_bit nr (set_bit nr w) = set_bit nr w.
Proof.
  unfold set_bit, Z.setbit. now rewrite <- Z.lor_assoc, Z.lor_diag.
Qed.

Section WritebackProofs.
Variable AS_EIO : Z.
Variable rotate_reclaimable_page : io_page -> Z * io_page.

Lemma write_tail pg i others :
  writes_in_flight pg others ->
  i ∉ others ->
  PageReclaim pg = false ->
  (others = [] -> PageWriteback pg = true) ->
  (busy ← async_write_walk (drop (S i) (ring pg) ++ take i (ring pg));
   match busy with
   | true => Ok pg
   | false => end_page_writeback rotate_reclaimable_page pg
   end)
  = Ok (if bool_decide (others = []) then writeback_ended pg else pg).
Proof.
  intros [Hplaces Hflight] Hnotin Hrc Hlast.
  destruct others as [|j others'].
  - rewrite async_write_walk_idle.
    2:{ intros x Hx. apply elem_of_others in Hx as (j & _ & Hj).
        destruct (Hflight j x Hj) as [Hiff _].
        destruct (buffer_async_write x); [|reflexivity].
        exfalso. eapply not_elem_of_nil. apply Hiff. reflexivity. }
    cbn [mbind outcome_bind]. unfold end_page_writeback. rewrite Hrc.
    cbn [negb PageWriteback]. rewrite Hlast by reflexivity.
    cbn [negb]. rewrite bool_decide_eq_true_2 by reflexivity.
    reflexivity.
  - rewrite async_write_walk_busy.
    + cbn [mbind outcome_bind].
      now rewrite bool_decide_eq_false_2 by discriminate.
    + destruct (Hplaces j) as [bhj Hj]; [now left|].
      exists bhj. split.
      * apply elem_of_others. exists j. split; [|assumption].
        intros ->. apply Hnotin. now left.
      * apply (Hflight j bhj Hj). now left.
    + intros x Hx Hax. apply elem_of_others in Hx as (k & _ & Hk).
      now apply (Hflight k x Hk).
Qed.

Lemma write_step pg i others ok bh fl :
  NoDup (i :: others) ->
  writes_in_flight pg (i :: others) ->
  ring pg !! i = Some bh ->
  mapping_flags pg = Some fl ->
  PageReclaim pg = false ->
  (others = [] -> PageWriteback pg = true) ->
  exists pg',
    end_buffer_async_write AS_EIO rotate_reclaimable_page pg i ok = Ok pg'
    /\ ring pg' = <[i := write_completed bh ok]> (ring pg)
    /\ writes_in_flight pg' others
    /\ PageError pg' = PageError pg || negb ok
    /\ mapping_flags pg' = Some (if ok then fl else set_bit AS_EIO fl)
    /\ PageLocked pg' = PageLocked pg
    /\ PageUptodate pg' = PageUptodate pg
    /\ PageReclaim pg' = false
    /\ PageWriteback pg'
       = (if bool_decide (others = []) then false else PageWriteback pg).
Proof.
  intros Hnd (Hplaces & Hflight) Hi Hmap Hrc Hlast.
  apply NoDup_cons in Hnd as [Hnotin Hnd].
  pose proof (lookup_lt_Some _ _ _ Hi) as Hlt.
  destruct (Hflight i bh Hi) as [Hasync _].
  assert (Ha : buffer_async_write bh = true) by (apply Hasync; now left).
  set (ring' := <[i := write_completed bh ok]> (ring pg)).
  assert (Hflight' : forall pg', ring pg' = ring' ->
                                 writes_in_flight pg' others).
  { intros pg' Hring. split; rewrite Hring.
    - intros j Hj. subst ring'. apply lookup_lt_is_Some.
      rewrite length_insert. apply lookup_lt_is_Some, Hplaces. now right.
    - intros j bhj Hj. subst ring'.
      destruct (decide (j = i)) as [->|Hne].
      + rewrite list_lookup_insert_eq in Hj by assumption.
        injection Hj as <-.
        destruct (write_completed_bits bh ok) as (Hwa & _).
        rewrite Hwa. split; [|discriminate]. split; [discriminate|].
        intros Hin. contradiction.
      + rewrite list_lookup_insert_ne in Hj by congruence.
        destruct (Hflight j bhj Hj) as [Hiff Hlock]. split; [|assumption].
        rewrite Hiff, elem_of_cons.
        split; [intros [?|?]; congruence | auto]. }
  unfold AsyncIo.end_buffer_async_write. rewrite Hi, Ha. cbn [negb].
  destruct ok; rewrite ?Hmap; cbn [mbind outcome_bind];
    rewrite (write_tail _ i others);
    try solve [ apply Hflight'; reflexivity | assumption ].
  - eexists. split; [reflexivity|].
    split; [destruct (bool_decide (others = [])); reflexivity|].
    split; [apply Hflight'; destruct (bool_decide (others = []));
            reflexivity|].
    destruct (bool_decide (others = [])); cbn;
      rewrite ?orb_false_r, ?Hrc; split_and!; auto.
  - eexists. split; [reflexivity|].
    split; [destruct (bool_decide (others = [])); reflexivity|].
    split; [apply Hflight'; destruct (bool_decide (others = []));
            reflexivity|].
    destruct (bool_decide (others = [])); cbn;
      rewrite ?orb_true_r, ?Hrc; split_and!; auto.
Qed.

Lemma complete_writes_cons pg i ok rest pg1 :
  end_buffer_async_write AS_EIO rotate_reclaimable_page pg i ok = Ok pg1 ->
  complete_writes AS_EIO rotate_reclaimable_page pg ((i, ok) :: rest)
  = complete_writes AS_EIO rotate_reclaimable_page pg1 rest.
Proof. intros H. cbn [AsyncIo.complete_writes]. now rewrite H. Qed.

Lemma flags_after_cons fl (i : nat) (ok : bool) rest :
  flags_after AS_EIO (if ok then fl else set_bit AS_EIO fl) rest
  = flags_after AS_EIO fl ((i, ok) :: rest).
Proof.
  unfold AsyncIo.flags_after. cbn [existsb snd].
  destruct ok, (existsb (fun c : nat * bool => negb c.2) rest); cbn;
    auto using set_bit_twice.
Qed.

Lemma writes_run calls : forall pg fl,
  NoDup calls.*1 ->
  writes_in_flight pg calls.*1 ->
  mapping_flags pg = Some fl ->
  PageReclaim pg = false ->
  PageWriteback pg = true ->
  exists pg',
    complete_writes AS_EIO rotate_reclaimable_page pg calls = Ok pg'
    /\ (forall i ok, (i, ok) ∈ calls ->
          exists bh, ring pg !! i = Some bh
                     /\ ring pg' !! i = Some (write_completed bh ok))
    /\ (forall i, i ∉ calls.*1 -> ring pg' !! i = ring pg !! i)
    /\ writes_in_flight pg' []
    /\ PageError pg' = PageError pg || existsb (fun c => negb c.2) calls
    /\ mapping_flags pg' = Some (flags_after AS_EIO fl calls)
    /\ PageLocked pg' = PageLocked pg
    /\ PageUptodate pg' = PageUptodate pg
    /\ PageReclaim pg' = false
    /\ PageWriteback pg' = bool_decide (calls = [])
    /\ (forall n, (n < length calls)%nat ->
          exists pgn, complete_writes AS_EIO rotate_reclaimable_page pg (take n calls) = Ok pgn
                      /\ PageWriteback pgn = true).
Proof.
  induction calls as [|[i ok] rest IH];
    intros pg fl Hnd Hflight Hmap Hrc Hwb.
  - exists pg. cbn. rewrite orb_false_r.
    split; [reflexivity|].
    split; [intros i ok Hin; now apply elem_of_nil in Hin|].
    split; [reflexivity|].
    split; [exact Hflight|].
    split_and!; auto.
    intros n Hn. lia.
  - cbn [fmap list_fmap fst] in Hnd, Hflight.
    change (list_fmap _ _ fst rest) with (rest.*1) in *.
    destruct (proj1 Hflight i) as [bh Hi]; [now left|].
    destruct (write_step pg i (rest.*1) ok bh fl Hnd Hflight Hi Hmap Hrc
                (fun _ => Hwb))
      as (pg1 & Hstep & Hring1 & Hflight1 & He1 & Hm1 & Hl1 & Hu1 & Hrc1
          & Hwb1).
    pose proof (NoDup_cons_1_1 _ _ Hnd) as Hnotin.
    pose proof (NoDup_cons_1_2 _ _ Hnd) as Hnd'.
    pose proof (lookup_lt_Some _ _ _ Hi) as Hlt.
    rewrite (complete_writes_cons _ _ _ _ _ Hstep).
    rewrite (bool_decide_eq_false_2 (_ :: _ = [])) by discriminate.
    rewrite <- flags_after_cons.
    destruct rest as [|c rest'].
    + (* this was the last write *)
      rewrite bool_decide_eq_true_2 in Hwb1 by reflexivity.
      exists pg1. cbn [AsyncIo.complete_writes existsb snd].
      rewrite orb_false_r.
      split; [reflexivity|].
      split.
      { intros j okj Hin. apply list_elem_of_singleton in Hin.
        injection Hin as -> ->. exists bh. split; [assumption|].
        rewrite Hring1. now apply list_lookup_insert_eq. }
      split.
      { intros j Hj. rewrite Hring1. apply list_lookup_insert_ne.
        intros ->. apply Hj. now left. }
      split; [exact Hflight1|].
      split_and!; auto.
      intros n Hn. cbn in Hn. assert (n = 0)%nat as -> by lia.
      exists pg. cbn. auto.
    + (* other writes are still in flight *)
      rewrite bool_decide_eq_false_2 in Hwb1 by discriminate.
      destruct (IH pg1 _ Hnd' Hflight1 Hm1 Hrc1 ltac:(congruence))
        as (pg' & Hrun & Hdone & Hrest & Hflight' & He' & Hm' & Hl' & Hu'
            & Hrc' & Hwb' & Hprefix).
      rewrite bool_decide_eq_false_2 in Hwb' by discriminate.
      exists pg'. split; [assumption|].
      split.
      { intros j okj Hin. apply elem_of_cons in Hin as [Hin|Hin].
        - injection Hin as -> ->. exists bh. split; [assumption|].
          rewrite (Hrest i Hnotin), Hring1.
          now apply list_lookup_insert_eq.
        - destruct (Hdone j okj Hin) as (bhj & Hj1 & Hj').
          exists bhj. split; [|assumption].
          rewrite Hring1, list_lookup_insert_ne in Hj1; [assumption|].
          intros ->. apply Hnotin.
          apply (list_elem_of_fmap_2 fst) in Hin. exact Hin. }
      split.
      { intros j Hj. rewrite Hrest, Hring1.
        - apply list_lookup_insert_ne. intros ->. apply Hj. now left.
        - intros Hin. apply Hj. now right. }
      split; [assumption|].
      split.
      { rewrite He', He1. cbn [existsb snd]. now rewrite <- !orb_assoc. }
      split; [assumption|].
      split; [congruence|]. split; [congruence|]. split; [assumption|].
      split; [assumption|].
      intros [|n] Hn.
      * exists pg. cbn. auto.
      * cbn [take]. rewrite (complete_writes_cons _ _ _ _ _ Hstep).
        destruct (Hprefix n) as (pgn & Hn1 & Hn2);
          [cbn in Hn |- *; lia|].
        exists pgn. split; assumption.
Qed.

(** The writes that [block_write_full_page] started on the buffers
    of a page under writeback complete through [end_buffer_async_write],
    each once, in any order and with any outcome; the page has a mapping
    and is not marked for reclaim.  None of the completions is a BUG.
    The page stays under writeback while writes are outstanding, and the
    last completion ends the writeback.  A failed write marks the page
    with an error and sets [AS_EIO] in the flags of the mapping; when
    every write succeeded the flags and the error mark are as they were.
    The lock and the uptodate flag of the page are never touched.  A
    buffer whose write completed is unlocked, no longer under
    asynchronous write, still dirty if it was, and uptodate as its write
    went; the other buffers are as they were. *)
Theorem last_write_completion_ends_writeback pg fl calls :
  NoDup calls.*1 ->
  writes_in_flight pg calls.*1 ->
  mapping_flags pg = Some fl ->
  PageReclaim pg = false ->
  PageWriteback pg = true ->
  calls <> [] ->
  exists pg',
    complete_writes AS_EIO rotate_reclaimable_page pg calls = Ok pg'
    /\ PageWriteback pg' = false
    /\ (forall n, (n < length calls)%nat ->
          exists pgn, complete_writes AS_EIO rotate_reclaimable_page pg (take n calls) = Ok pgn
                      /\ PageWriteback pgn = true)
    /\ PageError pg' = PageError pg || existsb (fun c => negb c.2) calls
    /\ mapping_flags pg'
       = Some (if existsb (fun c => negb c.2) calls
               then set_bit AS_EIO fl else fl)
    /\ PageLocked pg' = PageLocked pg
    /\ PageUptodate pg' = PageUptodate pg
    /\ (forall i ok, (i, ok) ∈ calls ->
          exists bh bh',
            ring pg !! i = Some bh /\ ring pg' !! i = Some bh'
            /\ bh' = write_completed bh ok
            /\ buffer_locked bh' = false
            /\ buffer_async_write bh' = false
            /\ buffer_uptodate bh' = ok
            /\ buffer_dirty bh' = buffer_dirty bh
            /\ b_count bh' = b_count bh)
    /\ (forall i, i ∉ calls.*1 -> ring pg' !! i = ring pg !! i).
Proof.
  intros Hnd Hflight Hmap Hrc Hwb Hne.
  destruct (writes_run calls pg fl Hnd Hflight Hmap Hrc Hwb)
    as (pg' & Hrun & Hdone & Hrest & Hflight' & He' & Hm' & Hl' & Hu'
        & Hrc' & Hwb' & Hprefix).
  rewrite bool_decide_eq_false_2 in Hwb' by assumption.
  exists pg'. repeat (split; [assumption|]).
  split; [|assumption].
  intros i ok Hin. destruct (Hdone i ok Hin) as (bh & Hi & Hi').
  exists bh, (write_completed bh ok).
  destruct (write_completed_bits bh ok) as (? & ? & ? & ? & ? & ?).
  repeat split; assumption.
Qed.

End WritebackProofs.

Lemma page_being_read_in_flight :
  reads_in_flight MoreSamples.page_being_read MoreSamples.completions.*1.
Proof.
  split.
  - intros i Hi. apply lookup_lt_is_Some.
    revert Hi. change (i ∈ [2; 0; 3]%nat -> (i < 4)%nat).
    rewrite !elem_of_cons, elem_of_nil. lia.
  - intros i bh Hi.
    destruct i as [|[|[|[|i]]]]; cbn in Hi; try discriminate;
      injection Hi as <-;
      (split; [|first [ intros _; reflexivity
                      | intros H; vm_compute in H; discriminate H ]]);
      change (MoreSamples.completions.*1) with [2; 0; 3]%nat;
      rewrite !elem_of_cons, elem_of_nil;
      (split; [intros H; vm_compute in H; first [discriminate H | lia]
              | intros H; first [reflexivity | lia]]).
Defined.

Lemma last_read_completion_unlocks_page_witness :
  reads_in_flight MoreSamples.page_being_read MoreSamples.completions.*1
  /\ exists pg',
       complete_reads MoreSamples.page_being_read MoreSamples.completions
       = Ok pg'
       /\ PageLocked pg' = false
       /\ PageError pg' = true.
Proof.
  split; [exact page_being_read_in_flight|].
  destruct (last_read_completion_unlocks_page MoreSamples.page_being_read
              MoreSamples.completions)
    as (pg' & Hrun & Hlocked & _ & Herr & _).
  - apply (bool_decide_unpack _). vm_compute. exact I.
  - exact page_being_read_in_flight.
  - reflexivity.
  - discriminate.
  - exists pg'. split; [exact Hrun|]. split; [exact Hlocked|exact Herr].
Defined.

Lemma page_being_written_in_flight :
  writes_in_flight MoreSamples.page_being_written MoreSamples.completions.*1.
Proof.
  split.
  - intros i Hi. apply lookup_lt_is_Some.
    revert Hi. change (i ∈ [2; 0; 3]%nat -> (i < 4)%nat).
    rewrite !elem_of_cons, elem_of_nil. lia.
  - intros i bh Hi.
    destruct i as [|[|[|[|i]]]]; cbn in Hi; try discriminate;
      injection Hi as <-;
      (split; [|first [ intros _; reflexivity
                      | intros H; vm_compute in H; discriminate H ]]);
      change (MoreSamples.completions.*1) with [2; 0; 3]%nat;
      rewrite !elem_of_cons, elem_of_nil;
      (split; [intros H; vm_compute in H; first [discriminate H | lia]
              | intros H; first [reflexivity | lia]]).
Defined.

Lemma last_write_completion_ends_writeback_witness :
  writes_in_flight MoreSamples.page_being_written MoreSamples.completions.*1
  /\ exists pg',
       complete_writes 20 MoreSamples.no_rotation
         MoreSamples.page_being_written MoreSamples.completions
       = Ok pg'
       /\ PageWriteback pg' = false
       /\ mapping_flags pg' = Some (set_bit 20 0).
Proof.
  split; [exact page_being_written_in_flight|].
  destruct (last_write_completion_ends_writeback 20 MoreSamples.no_rotation
              MoreSamples.page_being_written 0 MoreSamples.completions)
    as (pg' & Hrun & Hwb & _ & _ & Hflags & _).
  - apply (bool_decide_unpack _). vm_compute. exact I.
  - exact page_being_written_in_flight.
  - reflexivity.
  - reflexivity.
  - reflexivity.
  - discriminate.
  - exists pg'. split; [exact Hrun|]. split; [exact Hwb|exact Hflags].
Defined.

End AsyncIoProofs.

Module SyncIoProofs.
Import Kernel Buffer BitFacts SyncIo BufferProofs.

Lemma locked_bits bh :
  buffer_dirty (set_buffer_bit BH_Lock bh) = buffer_dirty bh
  /\ buffer_uptodate (set_buffer_bit BH_Lock bh) = buffer_uptodate bh
  /\ buffer_mapped (set_buffer_bit BH_Lock bh) = buffer_mapped bh
  /\ buffer_locked (set_buffer_bit BH_Lock bh) = true.
Proof. bh_bits. repeat split. Qed.

(** The bits of a buffer along [sync_dirty_buffer]: when the write is
    submitted, when it is in flight, and when it has completed. *)
Lemma sync_write_bits bh ok :
  let bh4 := set_b_end_io end_buffer_write_sync_fn
               (get_bh (clear_buffer_bit BH_Dirty
                          (set_buffer_bit BH_Lock bh))) in
  let bh5 := if buffer_req bh4 && true
             then clear_buffer_write_io_error (set_buffer_bit BH_Req bh4)
             else set_buffer_bit BH_Req bh4 in
  let bh' := end_buffer_write_sync bh5 ok in
  buffer_locked bh4 = true
  /\ buffer_mapped bh4 = buffer_mapped bh
  /\ buffer_locked bh5 = true
  /\ b_end_io bh5 = end_buffer_write_sync_fn
  /\ buffer_locked bh' = false
  /\ buffer_dirty bh' = false
  /\ b_count bh' = b_count bh
  /\ buffer_mapped bh' = buffer_mapped bh
  /\ buffer_uptodate bh' = ok
  /\ buffer_req bh' = true
  /\ buffer_write_io_error bh'
     = (if ok then buffer_write_io_error bh && negb (buffer_req bh)
        else true).
Proof.
  intros bh4 bh5 bh'. subst bh4 bh5 bh'. unfold end_buffer_write_sync.
  destruct ok; bh_bits;
    destruct (test_bit BH_Req (b_state bh)) eqn:Hr; cbn [andb negb];
    bh_bits; rewrite ?andb_true_r, ?andb_false_r;
    repeat split; try reflexivity; lia.
Qed.

Lemma sync_clean_bits bh :
  buffer_locked bh = false ->
  buffer_dirty bh = false ->
  let bh' := unlock_buffer
               (clear_buffer_bit BH_Dirty (set_buffer_bit BH_Lock bh)) in
  buffer_locked bh' = false
  /\ buffer_dirty bh' = false
  /\ b_count bh' = b_count bh
  /\ buffer_mapped bh' = buffer_mapped bh
  /\ buffer_uptodate bh' = buffer_uptodate bh
  /\ buffer_req bh' = buffer_req bh
  /\ buffer_write_io_error bh' = buffer_write_io_error bh.
Proof. intros _ _ bh'. subst bh'. bh_bits. repeat split. Qed.

(** The same along [__bread_slow]. *)
Lemma bread_bits bh ok :
  let bh4 := set_b_end_io end_buffer_read_sync_fn
               (get_bh (set_buffer_bit BH_Lock bh)) in
  let bh5 := if buffer_req bh4 && false
             then clear_buffer_write_io_error (set_buffer_bit BH_Req bh4)
             else set_buffer_bit BH_Req bh4 in
  let bh' := end_buffer_read_sync bh5 ok in
  buffer_locked bh4 = true
  /\ buffer_mapped bh4 = buffer_mapped bh
  /\ buffer_locked bh5 = true
  /\ b_end_io bh5 = end_buffer_read_sync_fn
  /\ buffer_locked bh' = false
  /\ buffer_dirty bh' = buffer_dirty bh
  /\ b_count bh' = b_count bh
  /\ buffer_mapped bh' = buffer_mapped bh
  /\ buffer_uptodate bh' = ok
  /\ buffer_req bh' = true.
Proof.
  intros bh4 bh5 bh'. subst bh4 bh5 bh'. unfold end_buffer_read_sync.
  rewrite andb_false_r.
  destruct ok; bh_bits; repeat split; try reflexivity; lia.
Qed.

Lemma bread_cached_bits bh :
  buffer_locked bh = false ->
  let bh' := unlock_buffer (set_buffer_bit BH_Lock bh) in
  buffer_locked bh' = false
  /\ buffer_dirty bh' = buffer_dirty bh
  /\ b_count bh' = b_count bh
  /\ buffer_mapped bh' = buffer_mapped bh
  /\ buffer_uptodate bh' = buffer_uptodate bh.
Proof. intros _ bh'. subst bh'. bh_bits. repeat split. Qed.

Lemma __brelse_spec (h : bh_heap) p :
  b_state (__brelse h p p) = b_state (h p)
  /\ b_count (__brelse h p p)
     = (if b_count (h p) =? 0 then 0 else b_count (h p) - 1)
  /\ (forall x, x <> p -> __brelse h p x = h x).
Proof.
  unfold __brelse. destruct (b_count (h p) =? 0) eqn:Hc.
  - apply Z.eqb_eq in Hc. auto.
  - rewrite bh_set_eq. unfold put_bh. cbn.
    split_and!; auto. intros x Hx. now apply bh_set_ne.
Qed.

(** The bits of a buffer that [ll_rw_block] has locked. *)
Lemma ll_rw_block_write_bits bh :
  buffer_locked bh = false ->
  let bh1 := set_b_end_io end_buffer_write_sync_fn
               (get_bh (set_buffer_bit BH_Lock bh)) in
  let bh2 := clear_buffer_bit BH_Dirty bh1 in
  let bh3 := if buffer_req bh2 && true
             then clear_buffer_write_io_error (set_buffer_bit BH_Req bh2)
             else set_buffer_bit BH_Req bh2 in
  buffer_dirty bh1 = buffer_dirty bh
  /\ buffer_locked bh2 = true
  /\ buffer_mapped bh2 = buffer_mapped bh
  /\ ll_rw_block_effect WRITE bh
       (if buffer_dirty bh then bh3 else put_bh (unlock_buffer bh2)).
Proof.
  intros Hl bh1 bh2 bh3. subst bh1 bh2 bh3.
  unfold ll_rw_block_effect, wants_io. rewrite Hl.
  change (WRITE =? WRITE) with true. cbn match.
  destruct (buffer_dirty bh) eqn:Hd; revert Hl Hd; bh_bits; intros Hl Hd;
    [destruct (test_bit BH_Req (b_state bh)); cbn [andb]; bh_bits|];
    rewrite ?Hd; repeat split; try reflexivity; lia.
Qed.

Lemma ll_rw_block_read_bits rw bh :
  (rw =? WRITE) = false ->
  buffer_locked bh = false ->
  let bh1 := set_b_end_io end_buffer_read_sync_fn
               (get_bh (set_buffer_bit BH_Lock bh)) in
  let bh3 := if buffer_req bh1 && false
             then clear_buffer_write_io_error (set_buffer_bit BH_Req bh1)
             else set_buffer_bit BH_Req bh1 in
  buffer_uptodate bh1 = buffer_uptodate bh
  /\ buffer_locked bh1 = true
  /\ buffer_mapped bh1 = buffer_mapped bh
  /\ ll_rw_block_effect rw bh
       (if negb (buffer_uptodate bh) then bh3
        else put_bh (unlock_buffer bh1)).
Proof.
  intros Hrw Hl bh1 bh3. subst bh1 bh3.
  unfold ll_rw_block_effect, wants_io. rewrite Hl, Hrw, andb_false_r.
  destruct (buffer_uptodate bh) eqn:Hu; cbn [negb]; revert Hl Hu; bh_bits;
    intros Hl Hu; rewrite ?Hu; repeat split; try reflexivity; lia.
Qed.

Section Device.
Variable io_ok : nat -> nat -> bool.

Lemma with_buf_spec s p f :
  bufs (with_buf s p f) p = f (bufs s p)
  /\ completed (with_buf s p f) = completed s
  /\ (forall x, x <> p -> bufs (with_buf s p f) x = bufs s x).
Proof.
  unfold with_buf. cbn [bufs completed]. rewrite bh_set_eq.
  split_and!; auto. intros x Hx. now apply bh_set_ne.
Qed.

Lemma lock_buffer_spec s p :
  let s0 := wait_on_buffer io_ok s p in
  bufs (lock_buffer io_ok s p) p = set_buffer_bit BH_Lock (bufs s0 p)
  /\ completed (lock_buffer io_ok s p) = completed s0
  /\ (forall x, x <> p -> bufs (lock_buffer io_ok s p) x = bufs s x).
Proof.
  intros s0. unfold lock_buffer. fold s0.
  destruct (with_buf_spec s0 p (fun bh => snd (test_set_buffer_locked bh)))
    as (Hp & Hc & Hx).
  split_and!; auto.
  intros x Hne. rewrite Hx by assumption.
  now apply (wait_on_buffer_spec io_ok s p).
Qed.

Lemma submit_bh_spec rw s p :
  buffer_locked (bufs s p) = true ->
  buffer_mapped (bufs s p) = true ->
  submit_bh rw s p
  = Ok (with_buf s p (fun bh =>
          let bh' := set_buffer_bit BH_Req bh in
          if buffer_req bh && (rw =? WRITE)
          then clear_buffer_write_io_error bh' else bh')).
Proof.
  intros Hl Hm. unfold submit_bh. rewrite Hl, Hm. cbn [negb].
  unfold test_set_buffer_req, test_set_buffer_bit, buffer_req.
  reflexivity.
Qed.

Lemma write_in_flight_spec s p :
  buffer_locked (bufs s p) = true ->
  b_end_io (bufs s p) = end_buffer_write_sync_fn ->
  let s' := wait_on_buffer io_ok s p in
  bufs s' p = end_buffer_write_sync (bufs s p) (io_ok p (completed s p))
  /\ completed s' p = S (completed s p)
  /\ (forall x, x <> p -> bufs s' x = bufs s x
                          /\ completed s' x = completed s x).
Proof.
  intros Hl He s'. destruct (wait_on_buffer_spec io_ok s p) as (Hp & Hc & Hx).
  fold s' in Hp, Hc, Hx. rewrite Hl in Hc.
  unfold wait_buf, run_end_io in Hp. rewrite Hl, He in Hp. auto.
Qed.

Lemma read_in_flight_spec s p :
  buffer_locked (bufs s p) = true ->
  b_end_io (bufs s p) = end_buffer_read_sync_fn ->
  let s' := wait_on_buffer io_ok s p in
  bufs s' p = end_buffer_read_sync (bufs s p) (io_ok p (completed s p))
  /\ completed s' p = S (completed s p)
  /\ (forall x, x <> p -> bufs s' x = bufs s x
                          /\ completed s' x = completed s x).
Proof.
  intros Hl He s'. destruct (wait_on_buffer_spec io_ok s p) as (Hp & Hc & Hx).
  fold s' in Hp, Hc, Hx. rewrite Hl in Hc.
  unfold wait_buf, run_end_io in Hp. rewrite Hl, He in Hp. auto.
Qed.

(** [sync_dirty_buffer] writes a dirty buffer through and waits for it.
    It first waits for the I/O in flight on the buffer, if any.  A dirty
    buffer must be mapped; it is then written once and the write waited
    for: the buffer ends clean and unlocked, with the reference count it
    had, uptodate exactly when the device completed the write, and with
    the write error bit set when it did not.  A clean buffer is only
    locked and unlocked again, and nothing is written.  No other buffer
    is touched. *)
Theorem sync_dirty_buffer_writes_through s p :
  (buffer_dirty (bufs s p) = true -> buffer_mapped (bufs s p) = true) ->
  let s0 := wait_on_buffer io_ok s p in
  let ok := io_ok p (completed s0 p) in
  exists s',
    sync_dirty_buffer io_ok s p = Ok s'
    /\ buffer_locked (bufs s' p) = false
    /\ buffer_dirty (bufs s' p) = false
    /\ b_count (bufs s' p) = b_count (bufs s0 p)
    /\ buffer_mapped (bufs s' p) = buffer_mapped (bufs s p)
    /\ (if buffer_dirty (bufs s p)
        then completed s' p = S (completed s0 p)
             /\ buffer_uptodate (bufs s' p) = ok
             /\ buffer_req (bufs s' p) = true
             /\ buffer_write_io_error (bufs s' p)
                = (if ok
                   then buffer_write_io_error (bufs s0 p)
                        && negb (buffer_req (bufs s0 p))
                   else true)
        else completed s' p = completed s0 p
             /\ buffer_uptodate (bufs s' p) = buffer_uptodate (bufs s0 p)
             /\ buffer_req (bufs s' p) = buffer_req (bufs s0 p)
             /\ buffer_write_io_error (bufs s' p)
                = buffer_write_io_error (bufs s0 p))
    /\ (forall x, x <> p ->
          bufs s' x = bufs s x /\ completed s' x = completed s x).
Proof.
  intros Hmapped s0 ok.
  destruct (wait_on_buffer_spec io_ok s p) as (Hs0p & Hs0c & Hs0x).
  destruct (wait_buf_bits (bufs s p) (io_ok p (completed s p)))
    as (Hl0 & Hd0 & Hm0 & _).
  rewrite <- Hs0p in Hl0, Hd0, Hm0. fold s0 in Hl0, Hd0, Hm0, Hs0x.
  destruct (lock_buffer_spec s p) as (Hs1p & Hs1c & Hs1x).
  fold s0 in Hs1p, Hs1c.
  unfold sync_dirty_buffer.
  set (s1 := lock_buffer io_ok s p) in *.
  unfold test_clear_buffer_dirty, test_clear_buffer_bit.
  fold (buffer_dirty (bufs s1 p)).
  rewrite Hs1p, (proj1 (locked_bits (bufs s0 p))), Hd0.
  set (bh2 := clear_buffer_bit BH_Dirty (set_buffer_bit BH_Lock (bufs s0 p))).
  destruct (with_buf_spec s1 p (fun _ => bh2)) as (Hs2p & Hs2c & Hs2x).
  set (s2 := with_buf s1 p (fun _ => bh2)) in *.
  destruct (buffer_dirty (bufs s p)) eqn:Hdirty.
  - (* the buffer is written *)
    specialize (Hmapped eq_refl).
    destruct (with_buf_spec s2 p get_bh) as (Hs3p & Hs3c & Hs3x).
    set (s3 := with_buf s2 p get_bh) in *.
    destruct (with_buf_spec s3 p (set_b_end_io end_buffer_write_sync_fn))
      as (Hs4p & Hs4c & Hs4x).
    set (s4 := with_buf s3 p (set_b_end_io end_buffer_write_sync_fn)) in *.
    destruct (sync_write_bits (bufs s0 p) ok)
      as (Hl4 & Hm4 & Hl5 & He5 & Hl' & Hd' & Hc' & Hm' & Hu' & Hr' & Hw').
    assert (Hbh4 : bufs s4 p
                   = set_b_end_io end_buffer_write_sync_fn (get_bh bh2))
      by now rewrite Hs4p, Hs3p, Hs2p.
    rewrite submit_bh_spec.
    2:{ rewrite Hbh4. exact Hl4. }
    2:{ rewrite Hbh4. subst bh2. rewrite Hm4. congruence. }
    cbn [mbind outcome_bind].
    match goal with
    | |- context [with_buf s4 p ?F] =>
        destruct (with_buf_spec s4 p F) as (Hs5p & Hs5c & Hs5x);
        set (s5 := with_buf s4 p F) in *
    end.
    cbn beta zeta in Hs5p. rewrite Hbh4 in Hs5p.
    change (WRITE =? WRITE) with true in Hs5p.
    destruct (write_in_flight_spec s5 p) as (Hs6p & Hs6c & Hs6x).
    { rewrite Hs5p. exact Hl5. }
    { rewrite Hs5p. exact He5. }
    assert (Hc5 : completed s5 p = completed s0 p)
      by now rewrite Hs5c, Hs4c, Hs3c, Hs2c, Hs1c.
    rewrite Hc5 in Hs6p, Hs6c. fold ok in Hs6p.
    eexists. split; [reflexivity|].
    rewrite Hs6p, Hs5p.
    split_and!; try assumption; try congruence.
    { subst bh2. rewrite Hm'. exact Hm0. }
    intros x Hx. destruct (Hs6x x Hx) as [-> ->].
    rewrite Hs5x, Hs4x, Hs3x, Hs2x, Hs1x by assumption.
    rewrite Hs5c, Hs4c, Hs3c, Hs2c, Hs1c.
    split; [reflexivity|]. now apply Hs0x.
  - (* nothing to write *)
    destruct (with_buf_spec s2 p unlock_buffer) as (Hs3p & Hs3c & Hs3x).
    destruct (sync_clean_bits (bufs s0 p) Hl0 Hd0)
      as (Hl' & Hd' & Hc' & Hm' & Hu' & Hr' & Hw').
    eexists. split; [reflexivity|].
    rewrite Hs3p, Hs2p, Hs3c, Hs2c, Hs1c.
    split_and!; try assumption; try congruence.
    { subst bh2. rewrite Hm'. exact Hm0. }
    intros x Hx. rewrite Hs3x, Hs2x, Hs1x by assumption.
    split; [reflexivity|]. now apply Hs0x.
Qed.

(** [__bread_slow] returns the buffer only if it is uptodate.  It first
    waits for the I/O in flight on the buffer, if any.  If the buffer is
    then uptodate it is returned as it is and nothing is read.
    Otherwise the buffer must be mapped; it is read once and the read
    waited for, and the buffer is uptodate exactly when the device
    completed the read.  On success the buffer is returned with the
    reference count it had; on failure NULL is returned and the reference
    of the caller is dropped.  The buffer ends unlocked, and no other
    buffer is touched. *)
Theorem bread_slow_returns_only_uptodate s p :
  let s0 := wait_on_buffer io_ok s p in
  let ok := io_ok p (completed s0 p) in
  (buffer_uptodate (bufs s0 p) = false -> buffer_mapped (bufs s p) = true) ->
  exists r s',
    __bread_slow io_ok s p = Ok (r, s')
    /\ r = (if buffer_uptodate (bufs s' p) then Some p else None)
    /\ buffer_locked (bufs s' p) = false
    /\ buffer_dirty (bufs s' p) = buffer_dirty (bufs s p)
    /\ buffer_mapped (bufs s' p) = buffer_mapped (bufs s p)
    /\ (if buffer_uptodate (bufs s0 p)
        then r = Some p
             /\ completed s' p = completed s0 p
             /\ b_count (bufs s' p) = b_count (bufs s0 p)
        else completed s' p = S (completed s0 p)
             /\ buffer_uptodate (bufs s' p) = ok
             /\ b_count (bufs s' p)
                = (if ok then b_count (bufs s0 p)
                   else if b_count (bufs s0 p) =? 0 then 0
                        else b_count (bufs s0 p) - 1))
    /\ (forall x, x <> p ->
          bufs s' x = bufs s x /\ completed s' x = completed s x).
Proof.
  intros s0 ok Hmapped.
  destruct (wait_on_buffer_spec io_ok s p) as (Hs0p & Hs0c & Hs0x).
  destruct (wait_buf_bits (bufs s p) (io_ok p (completed s p)))
    as (Hl0 & Hd0 & Hm0 & _).
  rewrite <- Hs0p in Hl0, Hd0, Hm0. fold s0 in Hl0, Hd0, Hm0, Hs0x.
  destruct (lock_buffer_spec s p) as (Hs1p & Hs1c & Hs1x).
  fold s0 in Hs1p, Hs1c.
  unfold __bread_slow.
  set (s1 := lock_buffer io_ok s p) in *.
  destruct (locked_bits (bufs s0 p)) as (_ & Hu1 & _).
  rewrite Hs1p, Hu1.
  destruct (buffer_uptodate (bufs s0 p)) eqn:Hup.
  - (* already uptodate *)
    destruct (with_buf_spec s1 p unlock_buffer) as (Hs2p & Hs2c & Hs2x).
    destruct (bread_cached_bits (bufs s0 p) Hl0)
      as (Hl' & Hd' & Hc' & Hm' & Hu').
    eexists _, _. split; [reflexivity|].
    rewrite Hs2p, Hs2c, Hs1c, Hs1p, Hu', Hup.
    split_and!; try assumption; try congruence.
    intros x Hx. rewrite Hs2x, Hs1x by assumption.
    split; [reflexivity|]. now apply Hs0x.
  - (* the buffer is read *)
    specialize (Hmapped eq_refl).
    destruct (with_buf_spec s1 p get_bh) as (Hs3p & Hs3c & Hs3x).
    set (s3 := with_buf s1 p get_bh) in *.
    destruct (with_buf_spec s3 p (set_b_end_io end_buffer_read_sync_fn))
      as (Hs4p & Hs4c & Hs4x).
    set (s4 := with_buf s3 p (set_b_end_io end_buffer_read_sync_fn)) in *.
    destruct (bread_bits (bufs s0 p) ok)
      as (Hl4 & Hm4 & Hl5 & He5 & Hl' & Hd' & Hc' & Hm' & Hu' & Hr').
    assert (Hbh4 : bufs s4 p
                   = set_b_end_io end_buffer_read_sync_fn
                       (get_bh (set_buffer_bit BH_Lock (bufs s0 p))))
      by now rewrite Hs4p, Hs3p, Hs1p.
    rewrite submit_bh_spec.
    2:{ rewrite Hbh4. exact Hl4. }
    2:{ rewrite Hbh4, Hm4. congruence. }
    cbn [mbind outcome_bind].
    match goal with
    | |- context [with_buf s4 p ?F] =>
        destruct (with_buf_spec s4 p F) as (Hs5p & Hs5c & Hs5x);
        set (s5 := with_buf s4 p F) in *
    end.
    cbn beta zeta in Hs5p. rewrite Hbh4 in Hs5p.
    change (READ =? WRITE) with false in Hs5p.
    destruct (read_in_flight_spec s5 p) as (Hs6p & Hs6c & Hs6x).
    { rewrite Hs5p. exact Hl5. }
    { rewrite Hs5p. exact He5. }
    assert (Hc5 : completed s5 p = completed s0 p)
      by now rewrite Hs5c, Hs4c, Hs3c, Hs1c.
    rewrite Hc5 in Hs6p, Hs6c. fold ok in Hs6p.
    rewrite Hs5p in Hs6p.
    set (s6 := wait_on_buffer io_ok s5 p) in *.
    assert (Hx6 : forall x, x <> p ->
                    bufs s6 x = bufs s x /\ completed s6 x = completed s x).
    { intros x Hx. destruct (Hs6x x Hx) as [-> ->].
      rewrite Hs5x, Hs4x, Hs3x, Hs1x by assumption.
      rewrite Hs5c, Hs4c, Hs3c, Hs1c.
      split; [reflexivity|]. now apply Hs0x. }
    rewrite Hs6p, Hu'.
    destruct ok eqn:Hok.
    + eexists _, _. split; [reflexivity|].
      rewrite Hs6p, Hu'.
      split_and!; try assumption; try congruence.
    + eexists _, _. split; [reflexivity|].
      cbn [bufs completed brelse].
      destruct (__brelse_spec (bufs s6) p) as (Hbs & Hbc & Hbx).
      unfold buffer_uptodate, buffer_locked, buffer_dirty, buffer_mapped.
      rewrite Hbs, Hbc.
      fold (buffer_uptodate (bufs s6 p)) (buffer_locked (bufs s6 p))
        (buffer_dirty (bufs s6 p)) (buffer_mapped (bufs s6 p)).
      rewrite Hs6p, Hu', Hc'.
      split_and!; try assumption; try congruence.
      { rewrite Hd'. exact Hd0. }
      { rewrite Hm'. exact Hm0. }
      intros x Hx. rewrite Hbx by assumption. now apply Hx6.
Qed.

Lemma ll_rw_block_step rw p rest s :
  (buffer_locked (bufs s p) = false -> wants_io rw (bufs s p) = true ->
   buffer_mapped (bufs s p) = true) ->
  exists s1,
    ll_rw_block rw (p :: rest) s = ll_rw_block rw rest s1
    /\ completed s1 = completed s
    /\ (forall x, x <> p -> bufs s1 x = bufs s x)
    /\ ll_rw_block_effect rw (bufs s p) (bufs s1 p).
Proof.
  intros Hmapped. cbn [ll_rw_block].
  unfold test_set_buffer_locked, test_set_buffer_bit.
  fold (buffer_locked (bufs s p)).
  destruct (buffer_locked (bufs s p)) eqn:Hl.
  { exists s. unfold ll_rw_block_effect. rewrite Hl. auto. }
  specialize (Hmapped eq_refl).
  fold (set_buffer_bit BH_Lock (bufs s p)).
  set (bh0 := bufs s p) in *.
  destruct (with_buf_spec s p (fun _ => get_bh (set_buffer_bit BH_Lock bh0)))
    as (Hs1p & Hs1c & Hs1x).
  set (s1 := with_buf s p _) in *.
  destruct (rw =? WRITE) eqn:Hrw.
  - apply Z.eqb_eq in Hrw. subst rw.
    destruct (with_buf_spec s1 p (set_b_end_io end_buffer_write_sync_fn))
      as (Hs2p & Hs2c & Hs2x).
    set (s2 := with_buf s1 p _) in *.
    rewrite Hs1p in Hs2p.
    destruct (ll_rw_block_write_bits bh0 Hl) as (Hd1 & Hl2 & Hm2 & Heff).
    unfold test_clear_buffer_dirty, test_clear_buffer_bit.
    fold (buffer_dirty (bufs s2 p)).
    fold (clear_buffer_bit BH_Dirty (bufs s2 p)).
    rewrite Hs2p, Hd1.
    match goal with
    | |- context [with_buf s2 p ?F] =>
        destruct (with_buf_spec s2 p F) as (Hs3p & Hs3c & Hs3x);
        set (s3 := with_buf s2 p F) in *
    end.
    cbn beta in Hs3p.
    unfold wants_io in Hmapped. change (WRITE =? WRITE) with true in Hmapped.
    cbn match in Hmapped.
    destruct (buffer_dirty bh0) eqn:Hd.
    + rewrite submit_bh_spec.
      2:{ rewrite Hs3p. exact Hl2. }
      2:{ rewrite Hs3p, Hm2. auto. }
      cbn [mbind outcome_bind].
      match goal with
      | |- context [with_buf s3 p ?F] =>
          destruct (with_buf_spec s3 p F) as (Hs4p & Hs4c & Hs4x);
          set (s4 := with_buf s3 p F) in *
      end.
      cbn beta zeta in Hs4p. rewrite Hs3p in Hs4p.
      exists s4. split; [reflexivity|].
      split; [congruence|].
      split.
      { intros x Hx.
        now rewrite Hs4x, Hs3x, Hs2x, Hs1x by assumption. }
      rewrite Hs4p. exact Heff.
    + match goal with
      | |- context [with_buf s3 p ?F] =>
          destruct (with_buf_spec s3 p F) as (Hs4p & Hs4c & Hs4x);
          set (s4 := with_buf s3 p F) in *
      end.
      cbn beta in Hs4p. rewrite Hs3p in Hs4p.
      exists s4. split; [reflexivity|].
      split; [congruence|].
      split.
      { intros x Hx.
        now rewrite Hs4x, Hs3x, Hs2x, Hs1x by assumption. }
      rewrite Hs4p. exact Heff.
  - destruct (with_buf_spec s1 p (set_b_end_io end_buffer_read_sync_fn))
      as (Hs2p & Hs2c & Hs2x).
    set (s2 := with_buf s1 p _) in *.
    rewrite Hs1p in Hs2p.
    destruct (ll_rw_block_read_bits rw bh0 Hrw Hl)
      as (Hu1 & Hl2 & Hm2 & Heff).
    rewrite Hs2p, Hu1.
    unfold wants_io in Hmapped. rewrite Hrw in Hmapped.
    destruct (buffer_uptodate bh0) eqn:Hu; cbn [negb] in *.
    + match goal with
      | |- context [with_buf s2 p ?F] =>
          destruct (with_buf_spec s2 p F) as (Hs4p & Hs4c & Hs4x);
          set (s4 := with_buf s2 p F) in *
      end.
      cbn beta in Hs4p. rewrite Hs2p in Hs4p.
      exists s4. split; [reflexivity|].
      split; [congruence|].
      split.
      { intros x Hx. now rewrite Hs4x, Hs2x, Hs1x by assumption. }
      rewrite Hs4p. exact Heff.
    + rewrite submit_bh_spec.
      2:{ rewrite Hs2p. exact Hl2. }
      2:{ rewrite Hs2p, Hm2. auto. }
      cbn [mbind outcome_bind].
      match goal with
      | |- context [with_buf s2 p ?F] =>
          destruct (with_buf_spec s2 p F) as (Hs4p & Hs4c & Hs4x);
          set (s4 := with_buf s2 p F) in *
      end.
      cbn beta zeta in Hs4p. rewrite Hs2p, Hrw in Hs4p.
      exists s4. split; [reflexivity|].
      split; [congruence|].
      split.
      { intros x Hx. now rewrite Hs4x, Hs2x, Hs1x by assumption. }
      rewrite Hs4p. exact Heff.
Qed.

(** [ll_rw_block] drops or submits each buffer of the array, and never
    waits.  For an array of distinct buffers, those to be submitted being
    mapped: a buffer that is locked is left as it is; a buffer that
    needs no I/O (clean, for a write; uptodate, for a read) is left
    unlocked with the count it had; any other buffer is left locked, with
    one more reference, marked as requested, and clean if the request is
    a write, its I/O being in flight.  On every buffer it could lock the
    completion handler is set for the direction.  No I/O is waited for,
    and the buffers outside the array are not touched. *)
Theorem ll_rw_block_drops_or_submits rw bhs : forall s,
  NoDup bhs ->
  (forall p, p ∈ bhs ->
     buffer_locked (bufs s p) = false -> wants_io rw (bufs s p) = true ->
     buffer_mapped (bufs s p) = true) ->
  exists s',
    ll_rw_block rw bhs s = Ok s'
    /\ completed s' = completed s
    /\ (forall x, x ∉ bhs -> bufs s' x = bufs s x)
    /\ (forall p, p ∈ bhs -> ll_rw_block_effect rw (bufs s p) (bufs s' p)).
Proof.
  induction bhs as [|p rest IH]; intros s Hnd Hmapped.
  - exists s. cbn. split_and!; auto.
    intros p Hp. now apply elem_of_nil in Hp.
  - apply NoDup_cons in Hnd as [Hnotin Hnd].
    destruct (ll_rw_block_step rw p rest s) as (s1 & -> & Hc1 & Hx1 & Heff).
    { apply Hmapped. now left. }
    assert (Hrest : forall q, q ∈ rest -> bufs s1 q = bufs s q).
    { intros q Hq. apply Hx1. intros ->. contradiction. }
    destruct (IH s1 Hnd) as (s' & Hrun & Hc' & Hx' & Heff').
    { intros q Hq. rewrite (Hrest q Hq). apply Hmapped. now right. }
    exists s'. split; [assumption|]. split; [congruence|].
    split.
    + intros x Hx. rewrite Hx', Hx1; [reflexivity| |].
      * intros ->. apply Hx. now left.
      * intros Hin. apply Hx. now right.
    + intros q Hq. apply elem_of_cons in Hq as [->|Hq].
      * now rewrite (Hx' p Hnotin).
      * rewrite <- (Hrest q Hq). now apply Heff'.
Qed.

End Device.

Lemma sync_dirty_buffer_writes_through_witness :
  buffer_mapped (bufs MoreSamples.held_state 0%nat) = true
  /\ exists s',
       sync_dirty_buffer MoreSamples.failing_on_1 MoreSamples.held_state 0%nat
       = Ok s'
       /\ buffer_dirty (bufs s' 0%nat) = false
       /\ buffer_uptodate (bufs s' 0%nat) = true.
Proof.
  split; [reflexivity|].
  destruct (sync_dirty_buffer_writes_through MoreSamples.failing_on_1
              MoreSamples.held_state 0%nat (fun _ => eq_refl))
    as (s' & Hrun & _ & Hclean & _ & _ & Hwritten & _).
  exists s'. split; [exact Hrun|]. split; [exact Hclean|].
  exact (proj1 (proj2 Hwritten)).
Defined.

Lemma bread_slow_returns_only_uptodate_witness :
  buffer_mapped (bufs MoreSamples.held_state 1%nat) = true
  /\ exists s',
       __bread_slow MoreSamples.failing_on_1 MoreSamples.held_state 1%nat
       = Ok (None, s')
       /\ b_count (bufs s' 1%nat) = 0.
Proof.
  split; [reflexivity|].
  destruct (bread_slow_returns_only_uptodate MoreSamples.failing_on_1
              MoreSamples.held_state 1%nat (fun _ => eq_refl))
    as (r & s' & Hrun & Hr & _ & _ & _ & Hread & _).
  destruct Hread as (_ & Hup & Hcount).
  exists s'. split; [|exact Hcount].
  rewrite Hrun, Hr, Hup. reflexivity.
Defined.

Lemma ll_rw_block_drops_or_submits_witness :
  NoDup [0; 1; 2]%nat
  /\ exists s',
       ll_rw_block WRITE [0; 1; 2]%nat MoreSamples.held_state = Ok s'
       /\ ll_rw_block_effect WRITE (bufs MoreSamples.held_state 0%nat)
            (bufs s' 0%nat).
Proof.
  assert (Hnd : NoDup [0; 1; 2]%nat)
    by (apply (bool_decide_unpack _); vm_compute; exact I).
  split; [exact Hnd|].
  destruct (ll_rw_block_drops_or_submits WRITE [0; 1; 2]%nat
              MoreSamples.held_state Hnd)
    as (s' & Hrun & _ & _ & Heff).
  - intros p Hp _ _. revert Hp. rewrite !elem_of_cons, elem_of_nil.
    intros [->|[->|[->|[]]]]; reflexivity.
  - exists s'. split; [exact Hrun|]. apply Heff. now left.
Defined.

End SyncIoProofs.

Module FreeBuffersProofs.
Import Kernel Buffer BitFacts FreeBuffers.

Lemma busy_mask_bits n :
  0 <= n ->
  Z.testbit (Z.lor (Z.shiftl 1 BH_Dirty) (Z.shiftl 1 BH_Lock)) n
  = (n =? BH_Dirty) || (n =? BH_Lock).
Proof.
  intros Hn. change (Z.lor _ _) with 6.
  unfold BH_Dirty, BH_Lock.
  destruct (Z.eq_dec n 0) as [->|H0]; [reflexivity|].
  destruct (Z.eq_dec n 1) as [->|H1]; [reflexivity|].
  destruct (Z.eq_dec n 2) as [->|H2]; [reflexivity|].
  rewrite Z.bits_above_log2; [|lia|change (Z.log2 6) with 2; lia].
  symmetry. apply orb_false_iff. split; apply Z.eqb_neq; assumption.
Qed.

Lemma buffer_busy_idle bh : buffer_busy bh = 0 <-> idle bh.
Proof.
  unfold buffer_busy, idle, buffer_dirty, buffer_locked, test_bit.
  rewrite Z.lor_eq_0_iff. split.
  - intros [Hc Hm]. split; [assumption|].
    split.
    + assert (H := f_equal (fun w => Z.testbit w BH_Dirty) Hm).
      cbn beta in H. rewrite Z.land_spec, busy_mask_bits in H by (cbv; congruence).
      rewrite Z.bits_0 in H. cbn in H. now rewrite andb_true_r in H.
    + assert (H := f_equal (fun w => Z.testbit w BH_Lock) Hm).
      cbn beta in H. rewrite Z.land_spec, busy_mask_bits in H by (cbv; congruence).
      rewrite Z.bits_0 in H. cbn in H. now rewrite andb_true_r in H.
  - intros (Hc & Hd & Hl). split; [assumption|].
    apply Z.bits_inj'. intros n Hn.
    rewrite Z.land_spec, busy_mask_bits, Z.bits_0 by assumption.
    destruct (Z.eqb_spec n BH_Dirty) as [->|_];
      [now rewrite Hd|].
    destruct (Z.eqb_spec n BH_Lock) as [->|_];
      [now rewrite Hl|].
    apply andb_false_r.
Qed.

Lemma set_bit_again nr w : set_bit nr (set_bit nr w) = set_bit nr w.
Proof.
  unfold set_bit, Z.setbit. now rewrite <- Z.lor_assoc, Z.lor_diag.
Qed.

Section Mapping.
Variable AS_EIO : Z.

Lemma drop_walk_spec l : forall fl,
  drop_walk AS_EIO l (Some fl)
  = Ok (forallb (fun x => buffer_busy x.2 =? 0) l,
        Some (if write_error_among (examined l)
              then set_bit AS_EIO fl else fl)).
Proof.
  induction l as [|[a bh] rest IH]; intros fl; [reflexivity|].
  cbn [drop_walk forallb examined snd].
  destruct (buffer_write_io_error bh) eqn:Hw; cbn [mbind outcome_bind];
    destruct (buffer_busy bh =? 0) eqn:Hb; cbn [negb andb];
    unfold write_error_among in *; cbn [existsb snd];
    rewrite ?IH, ?Hw; cbn [orb]; try reflexivity.
  destruct (existsb _ (examined rest)); now rewrite ?set_bit_again.
Qed.

Lemma unlink_walk_spec l : forall assoc a,
  a ∈ unlink_walk l assoc <-> a ∈ assoc /\ a ∉ l.*1.
Proof.
  induction l as [|[b bh] rest IH]; intros assoc a; cbn [unlink_walk].
  - cbn. rewrite elem_of_nil. tauto.
  - rewrite IH. cbn [fmap list_fmap fst].
    change (list_fmap _ _ fst rest) with (rest.*1).
    rewrite not_elem_of_cons.
    destruct (bool_decide_reflect (b ∈ assoc)) as [Hin|Hnotin].
    + rewrite list_elem_of_filter. tauto.
    + split; [|tauto]. intros [Ha Hr]. split_and!; auto.
      intros ->. contradiction.
Qed.

Lemma all_idle_forallb (l : list (nat * buffer_head)) :
  forallb (fun x => buffer_busy x.2 =? 0) l = true
  <-> Forall (fun x => idle x.2) l.
Proof.
  rewrite forallb_forall, Forall_forall. split.
  - intros H x Hx. apply buffer_busy_idle, Z.eqb_eq, H.
    now apply list_elem_of_In.
  - intros H x Hx. apply Z.eqb_eq, buffer_busy_idle, H.
    now apply list_elem_of_In.
Qed.

Lemma examined_all_idle (l : list (nat * buffer_head)) :
  forallb (fun x => buffer_busy x.2 =? 0) l = true -> examined l = l.
Proof.
  induction l as [|x rest IH]; [reflexivity|]. cbn [forallb examined].
  intros [Hx Hrest]%andb_true_iff. rewrite Hx. f_equal. now apply IH.
Qed.

(** [try_to_free_buffers] frees the buffers of a page only when none of
    them is in use.  On a locked page that has buffers and a mapping it
    returns without BUG.  It returns 1 exactly when the page is not
    under writeback and every buffer of the ring is idle (no reference,
    clean, unlocked): then the page has no buffers any more and one
    reference less, every buffer of the ring has been freed and is on no
    association list, and the page is clean unless it is in the swap
    cache.  Otherwise it returns 0 and the ring, the association lists,
    the freed buffers, the count and the dirty flag are as they were.
    In both cases a write error found on a buffer before the walk
    stopped has been recorded as [AS_EIO] in the mapping. *)
Theorem try_to_free_buffers_frees_only_idle st fl :
  PageLocked (page st) = true ->
  ring (page st) <> [] ->
  mapping_flags (page st) = Some fl ->
  let pg := page st in
  let free := PageWriteback pg = false /\ Forall (fun x => idle x.2) (ring pg) in
  exists ret st',
    try_to_free_buffers AS_EIO st = Ok (ret, st')
    /\ PageLocked (page st') = true
    /\ PageWriteback (page st') = PageWriteback pg
    /\ PageUptodate (page st') = PageUptodate pg
    /\ PageSwapCache (page st') = PageSwapCache pg
    /\ ((free
         /\ ret = 1
         /\ ring (page st') = []
         /\ freed st' = freed st ++ (ring pg).*1
         /\ (forall a, a ∈ assoc_buffers st'
                       <-> a ∈ assoc_buffers st /\ a ∉ (ring pg).*1)
         /\ PageDirty (page st') = PageDirty pg && PageSwapCache pg
         /\ page_count (page st') = page_count pg - 1
         /\ mapping_flags (page st')
            = Some (if write_error_among (ring pg)
                    then set_bit AS_EIO fl else fl))
        \/ (~ free
            /\ ret = 0
            /\ ring (page st') = ring pg
            /\ freed st' = freed st
            /\ assoc_buffers st' = assoc_buffers st
            /\ PageDirty (page st') = PageDirty pg
            /\ page_count (page st') = page_count pg
            /\ mapping_flags (page st')
               = Some (if PageWriteback pg then fl
                       else if write_error_among (examined (ring pg))
                            then set_bit AS_EIO fl else fl))).
Proof.
  intros Hlocked Hring Hmap pg free. subst pg.
  set (pg := page st) in *.
  assert (Hfree : free <->
            PageWriteback pg = false
            /\ forallb (fun x => buffer_busy x.2 =? 0) (ring pg) = true)
    by (subst free; now rewrite all_idle_forallb).
  clearbody free.
  unfold try_to_free_buffers. fold pg. rewrite Hlocked. cbn [negb].
  destruct (PageWriteback pg) eqn:Hwb.
  { exists 0, st. split; [reflexivity|]. fold pg.
    split_and!; auto. right.
    split_and!; auto. intros [? _]%Hfree. discriminate. }
  rewrite Hmap. unfold drop_buffers. fold pg.
  destruct (ring pg) as [|head rest] eqn:Hr; [contradiction|].
  rewrite <- Hr in Hfree |- *.
  rewrite Hmap, drop_walk_spec. cbn [mbind outcome_bind].
  destruct (forallb (fun x => buffer_busy x.2 =? 0) (ring pg)) eqn:Hall.
  - (* every buffer is idle *)
    rewrite (examined_all_idle _ Hall).
    cbn [mbind outcome_bind Z.eqb negb andb page assoc_buffers freed
         __clear_page_buffers set_mapping_flags PageSwapCache ring].
    destruct (PageSwapCache pg) eqn:Hsc; cbn [negb];
      eexists _, _; (split; [reflexivity|]);
      cbn [page assoc_buffers freed clear_page_dirty __clear_page_buffers
           set_mapping_flags PageLocked PageWriteback PageUptodate
           PageSwapCache PageDirty page_count mapping_flags ring];
      rewrite ?andb_true_r, ?andb_false_r;
      (split_and!; auto); left;
      (split; [apply Hfree; split; first [reflexivity | assumption]|]);
      (split_and!; auto); apply unlink_walk_spec.
  - (* a buffer is in use *)
    cbn [mbind outcome_bind Z.eqb negb andb page assoc_buffers freed
         set_mapping_flags PageSwapCache ring].
    eexists _, _. split; [reflexivity|].
    cbn [page assoc_buffers freed set_mapping_flags PageLocked
         PageWriteback PageUptodate PageSwapCache PageDirty page_count
         mapping_flags ring fmap list_fmap].
    rewrite app_nil_r.
    split_and!; auto. right.
    split_and!; auto.
    intros [_ Hidle]%Hfree. congruence.
Qed.

End Mapping.

Lemma try_to_free_buffers_frees_only_idle_witness :
  PageLocked (page MoreSamples.releasable_page) = true
  /\ ring (page MoreSamples.releasable_page) <> []
  /\ exists ret st',
       try_to_free_buffers 20 MoreSamples.releasable_page = Ok (ret, st')
       /\ PageLocked (page st') = true.
Proof.
  split; [reflexivity|]. split; [discriminate|].
  destruct (try_to_free_buffers_frees_only_idle 20
              MoreSamples.releasable_page 0)
    as (ret & st' & Hrun & Hlocked & _).
  - reflexivity.
  - discriminate.
  - reflexivity.
  - exists ret, st'. split; [exact Hrun | exact Hlocked].
Defined.

End FreeBuffersProofs.

Module TraversalProofs.
Import Kernel LlRwBlk Segments Completion Traversal.

Lemma bio_at_middle pre b post :
  NoDup (bio_addr <$> pre ++ b :: post) ->
  bio_at (bio_addr b) (pre ++ b :: post) = Some (b, head post).
Proof.
  induction pre as [|x pre IH]; intros Hnd; cbn [app bio_at].
  - now rewrite Nat.eqb_refl.
  - cbn [app fmap list_fmap] in Hnd.
    apply NoDup_cons in Hnd as [Hx Hnd].
    destruct (Nat.eqb_spec (bio_addr x) (bio_addr b)) as [Heq|_];
      [|now apply IH].
    exfalso. apply Hx. rewrite Heq.
    apply list_elem_of_fmap_2, elem_of_app. right. now left.
Qed.

Lemma vec_sectors_nonneg l : whole_sectors l -> 0 <= vec_sectors l.
Proof. induction 1; cbn; lia. Qed.

Lemma vec_sectors_empty l :
  whole_sectors l -> vec_sectors l <= 0 -> l = [].
Proof.
  intros Hw Hle. destruct Hw as [|v l Hv Hl]; [reflexivity|].
  pose proof (vec_sectors_nonneg l Hl). cbn in Hle. lia.
Qed.

Lemma whole_sectors_next vec k :
  whole_sectors (drop k vec) -> 0 < vec_sectors (drop k vec) ->
  exists v, vec !! k = Some v
            /\ 0 < Z.shiftr (bv_len v) 9
            /\ whole_sectors (drop (S k) vec)
            /\ vec_sectors (drop k vec)
               = Z.shiftr (bv_len v) 9 + vec_sectors (drop (S k) vec).
Proof.
  intros Hw Hpos. destruct (vec !! k) as [v|] eqn:Hk.
  - rewrite (drop_S _ _ _ Hk) in Hw |- *.
    apply Forall_cons in Hw as [Hv Hrest]. exists v. cbn. auto.
  - apply lookup_ge_None in Hk. rewrite drop_ge in Hpos by assumption.
    cbn in Hpos. lia.
Qed.

(** Taking [nsect] sectors off the entry the cursor stands in, and moving
    on when the entry is used up. *)
Lemma advance rq left nsect :
  (exists pre b post k v,
     bios rq = pre ++ b :: post
     /\ NoDup (bio_addr <$> bios rq)
     /\ cbio_ptr rq = Some (bio_addr b)
     /\ bi_io_vec b !! k = Some v
     /\ nr_cbio_segments rq = Z.of_nat (length (bi_io_vec b)) - Z.of_nat k
     /\ 0 < current_nr_sectors rq <= Z.shiftr (bv_len v) 9
     /\ whole_sectors (drop (S k) (bi_io_vec b))
     /\ nr_cbio_sectors rq
        = current_nr_sectors rq + vec_sectors (drop (S k) (bi_io_vec b))
     /\ Forall walkable post
     /\ left = nr_cbio_sectors rq + chain_sectors post) ->
  0 < nsect <= current_nr_sectors rq ->
  exists rq',
    blk_rq_next_segment
      (CReq (rq0 rq) (errors rq) (hard_sector rq)
         (current_nr_sectors rq - nsect) (hard_cur_sectors rq)
         (nr_cbio_segments rq) (nr_cbio_sectors rq - nsect) (buffer rq)
         (cbio_ptr rq) (bios rq))
    = Ok rq'
    /\ cursor_ok rq' (left - nsect)
    /\ rq0 rq' = rq0 rq /\ bios rq' = bios rq /\ errors rq' = errors rq
    /\ hard_sector rq' = hard_sector rq /\ buffer rq' = buffer rq.
Proof.
  intros (pre & b & post & k & v & Hbios & Hnd & Hptr & Hv & Hsegs & Hcur
          & Hwhole & Hsects & Hpost & Hleft) Hn.
  unfold blk_rq_next_segment.
  cbn [current_nr_sectors cbio_ptr bios nr_cbio_sectors nr_cbio_segments
       hard_cur_sectors].
  destruct (Z.gtb_spec (current_nr_sectors rq - nsect) 0) as [Hin|Hout].
  - (* the entry has sectors left *)
    eexists. split; [reflexivity|]. unfold set_cursor. cbn.
        split; [|auto].
    left. exists pre, b, post, k, v. cbn. split_and!; auto; lia.
  - assert (nsect = current_nr_sectors rq) as -> by lia.
    rewrite Hptr, Hbios. rewrite Hbios in Hnd.
    rewrite (bio_at_middle pre b post Hnd).
    destruct (Z.gtb_spec (nr_cbio_sectors rq - current_nr_sectors rq) 0)
      as [Hmore|Hlast].
    + (* on to the next entry of the bio *)
      destruct (whole_sectors_next (bi_io_vec b) (S k) Hwhole)
        as (v2 & Hv2 & Hv2pos & Hwhole2 & Hsec2); [lia|].
      unfold blk_rq_vec. rewrite Hsegs.
      replace (Z.of_nat (length (bi_io_vec b))
               - (Z.of_nat (length (bi_io_vec b)) - Z.of_nat k - 1))
        with (Z.of_nat (S k)) by lia.
      destruct (Z.ltb_spec (Z.of_nat (S k)) 0); [lia|].
      rewrite Nat2Z.id. unfold bio_iovec_idx. rewrite Hv2.
      cbn [mbind outcome_bind]. eexists. split; [reflexivity|].
      unfold set_cursor. cbn. split; [|auto].
      left. exists pre, b, post, (S k), v2. cbn.
      rewrite ?Hbios. split_and!; auto; lia.
    + (* the bio is used up *)
      assert (Hend : drop (S k) (bi_io_vec b) = [])
        by (apply vec_sectors_empty; [assumption | lia]).
      rewrite Hend in Hsects. cbn in Hsects.
      destruct post as [|nb post'].
      * cbn [head mbind outcome_bind]. eexists. split; [reflexivity|].
        unfold set_cursor. cbn. split; [|auto]. right. cbn in Hleft |- *.
        split_and!; auto; lia.
      * apply Forall_cons in Hpost as [(Hidx & Hw & Hsec) Hpost'].
        cbn [head]. unfold bio_iovec, bio_iovec_idx.
        destruct (whole_sectors_next (bi_io_vec nb) (bi_idx nb) Hw)
          as (v3 & Hv3 & Hv3pos & Hwhole3 & Hsec3).
        { destruct (lookup_lt_is_Some_2 _ _ Hidx) as [v3 Hv3].
          rewrite (drop_S _ _ _ Hv3) in Hw |- *.
          apply Forall_cons in Hw as [Hpos Hrest].
          pose proof (vec_sectors_nonneg _ Hrest). cbn. lia. }
        rewrite Hv3. cbn [mbind outcome_bind].
        eexists. split; [reflexivity|]. unfold set_cursor. cbn.
        split; [|auto].
        left. exists (pre ++ [b]), nb, post', (bi_idx nb), v3. cbn.
        rewrite ?Hbios, <- ?app_assoc. cbn [app].
        cbn [chain_sectors] in Hleft. unfold bio_segments.
        split_and!; auto; lia.
Qed.

(** The loop of [process_that_request_first] comes to its end within one
    pass per sector and leaves the cursor [nr] sectors further. *)
Lemma process_loop_spec : forall (fuel : nat) (rq : creq) (left nr : Z),
  cursor_ok rq left -> 0 <= nr <= left -> (Z.to_nat nr < fuel)%nat ->
  exists rq',
    process_loop fuel rq nr = Some (Ok rq')
    /\ cursor_ok rq' (left - nr)
    /\ rq0 rq' = rq0 rq /\ bios rq' = bios rq /\ errors rq' = errors rq
    /\ hard_sector rq' = hard_sector rq /\ buffer rq' = buffer rq.
Proof.
  induction fuel as [|fuel IH]; intros rq left nr Hcur Hnr Hfuel; [lia|].
  cbn [process_loop].
  destruct (Z.eqb_spec nr 0) as [->|Hne].
  - exists rq. rewrite Z.sub_0_r. auto 10.
  - destruct Hcur as [Hin|(_ & _ & Hleft)]; [|lia].
    pose proof Hin as (pre & b & post & k & v & _ & _ & Hptr & _ & _ & Hc & _).
    set (nsect := Z.min (current_nr_sectors rq) nr).
    assert (Hn : 0 < nsect <= current_nr_sectors rq) by (subst nsect; lia).
    destruct (advance rq left nsect Hin Hn)
      as (rq1 & Hstep & Hcur1 & Hrq0 & Hbios & Herr & Hhard & Hbuf).
    unfold set_cursor.
    cbn [rq0 errors hard_sector current_nr_sectors hard_cur_sectors
         nr_cbio_segments nr_cbio_sectors buffer cbio_ptr bios].
    rewrite Hptr in Hstep |- *. rewrite Hstep.
    destruct (IH rq1 (left - nsect) (nr - nsect) Hcur1)
      as (rq' & Hrun & Hcur' & Hrq0' & Hbios' & Herr' & Hhard' & Hbuf');
      [subst nsect; lia | subst nsect; lia |].
    exists rq'. split; [exact Hrun|].
    replace (left - nr) with (left - nsect - (nr - nsect)) by lia.
    split; [exact Hcur'|]. split_and!; congruence.
Qed.

(** Submitting [nr] sectors of a request whose submission cursor is in
    order: a request with fewer sectors to submit is left as it is and 0
    is returned; otherwise the loop ends within one pass per sector, 1 is
    returned, the request's sector has advanced and its count of sectors
    dropped by [nr], the cursor stands [nr] sectors further in the chain,
    and the completion state (hard sector and count, error count, buffer)
    and the bios are as they were. *)
Theorem process_first_walks_submitted_sectors (req : creq) (left nr : Z)
    (fuel : nat) :
  cursor_ok req left ->
  0 <= nr <= left ->
  sector (rq0 req) + nr < 2 ^ BITS_PER_LONG ->
  (Z.to_nat nr < fuel)%nat ->
  (nr_sectors (rq0 req) < nr ->
   process_that_request_first fuel req nr = Some (Ok (0, req)))
  /\ (nr <= nr_sectors (rq0 req) ->
      exists req',
        process_that_request_first fuel req nr = Some (Ok (1, req'))
        /\ cursor_ok req' (left - nr)
        /\ sector (rq0 req') = sector (rq0 req) + nr
        /\ nr_sectors (rq0 req') = nr_sectors (rq0 req) - nr
        /\ hard_nr_sectors (rq0 req') = hard_nr_sectors (rq0 req)
        /\ hard_sector req' = hard_sector req
        /\ errors req' = errors req
        /\ buffer req' = buffer req
        /\ bios req' = bios req).
Proof.
  intros Hcur Hnr _ Hfuel. unfold process_that_request_first. split.
  - intros Hlt. destruct (Z.ltb_spec (nr_sectors (rq0 req)) nr); [|lia].
    reflexivity.
  - intros Hle. destruct (Z.ltb_spec (nr_sectors (rq0 req)) nr); [lia|].
    match goal with
    | |- context [process_loop fuel ?r nr] => set (req1 := r)
    end.
    assert (Hcur1 : cursor_ok req1 left) by exact Hcur.
    destruct (process_loop_spec fuel req1 left nr Hcur1 Hnr Hfuel)
      as (req' & Hrun & Hcur' & Hrq0 & Hbios & Herr & Hhard & Hbuf).
    rewrite Hrun. exists req'. split; [reflexivity|].
    split; [exact Hcur'|]. rewrite Hrq0, Hbios, Herr, Hhard, Hbuf.
    subst req1. cbn. auto 10.
Qed.

Lemma unsubmitted_request_cursor :
  cursor_ok MoreSamples.unsubmitted_request 24.
Proof.
  left.
  exists [], (CBio 1 (Bio 0 8192 1 2 2) 0 [BioVec 1 4096 0; BioVec 2 4096 0]),
    [CBio 2 (Bio 16 4096 1 1 1) 0 [BioVec 7 4096 0]], 0%nat,
    (BioVec 1 4096 0).
  split; [reflexivity|].
  split.
  { cbn. apply NoDup_cons.
    split; [rewrite list_elem_of_singleton; discriminate
           | apply NoDup_singleton]. }
  split; [reflexivity|]. split; [reflexivity|]. split; [reflexivity|].
  split; [split; [reflexivity | discriminate]|].
  split; [repeat constructor|].
  split; [reflexivity|].
  split; [|reflexivity].
  repeat constructor.
Defined.

Lemma process_first_walks_submitted_sectors_witness :
  exists req',
    process_that_request_first 13 MoreSamples.unsubmitted_request 12
    = Some (Ok (1, req'))
    /\ cursor_ok req' 12
    /\ sector (rq0 req') = 12
    /\ nr_sectors (rq0 req') = 12.
Proof.
  destruct (process_first_walks_submitted_sectors
              MoreSamples.unsubmitted_request 24 12 13
              unsubmitted_request_cursor)
    as (_ & Hrun); [lia | reflexivity | cbn; lia |].
  destruct Hrun as (req' & Hrun & Hcur & Hsect & Hnr & _); [cbn; lia|].
  exists req'. split; [exact Hrun|]. split; [exact Hcur|].
  split; [exact Hsect | exact Hnr].
Defined.

End TraversalProofs.
